(* ===== verification/_CoqProject ===== *)
-Q . S2P
Prelude.v
Core.v
Bytes.v
Page.v
PageFacts.v
PageOps.v
PageTheorems.v
Vfs.v
VfsFacts.v
PageStore.v
VfsTheorems.v
Wal.v
WalFacts.v
WalStream.v
WalTheorems.v
Recovery.v
RecoveryFacts.v
RecoveryTheorems.v
Catalog.v
CatalogFacts.v
CatalogWf.v
CatalogTheorems.v
Heap.v
HeapDb.v
CatalogStore.v
CatalogStoreFacts.v
CatalogStoreTheorems.v
Tx.v
TxFacts.v
TxCommit.v
TxTheorems.v
TxAuto.v
Index.v
IndexFacts.v
IndexTree.v
IndexReads.v
IndexInsert.v
TxIndex.v
TxIndexFacts.v
TxRobust.v
IndexTheorems.v
Double.v
DoubleFacts.v
Extension.v
ExtensionTheorems.v
SqlRow.v
SqlRowTheorems.v
Sql.v
SqlGrammar.v
SqlTheorems.v
SqlRender.v
SqlTyped.v
SqlRoundTrip.v
SqlExec.v
SqlExtensions.v
SqlDb.v
SqlWrites.v
SqlReads.v
SqlStatements.v
SqlSpec.v
SqlRefine.v
SqlRestart.v
SqlQuiet.v
SqlCrash.v
SqlSessions.v
SqlRefinement.v
SqlExecTheorems.v
Database.v
DatabaseTheorems.v
EntryPoints.v
UnitTests.v
UnitTestsEngine.v
Legacy.v
