(* ===== verification/Prelude.v ===== *)
(** * A verification library for the storage engine under [src/crates]

    The program is a small relational engine: a Rust workspace whose crates form
    a stack.  This library translates the crates from the source and proves what
    they promise to each other.  This file is also the prelude: the notation,
    the outcome type, the state monad and the lemmas the other files share.

    ** The program and the files

    - [rdbms_core] (identifiers, errors, values): [Core].
    - [rdbms_page] (4096-byte slotted pages with a checksum): [Page] has every
      operation of [impl Page]; [PageFacts] and [PageOps] give the abstract page
      [APage] (a list of cells) and the refinement of each operation;
      [PageTheorems] states the results.
    - [rdbms_vfs] (positioned files and the page file): [Vfs] has the trait
      [VfsFile], the retry loops of [StdVfsFile] over an operating-system file
      whose outcomes are a parameter, and the page file; [VfsFacts] has the laws
      [VfsLaws] of a file that can fail and tear a write at any point, and the
      two instances; [PageStore] views file contents as a map from ids to pages;
      [VfsTheorems].
    - [rdbms_wal] (append-only log of page images): [Wal], [WalFacts],
      [WalStream] (the byte stream of a log), [WalTheorems].
    - [rdbms_recovery] (redo of committed images): [Recovery], [RecoveryFacts],
      [RecoveryTheorems].
    - [rdbms_catalog]: the metadata operations, the record codec and page 0 in
      [Catalog], [CatalogFacts], [CatalogWf] and [CatalogTheorems]; the heap
      walks that the committed store and a transaction share in [Heap], against
      the interface [PageAccess]; the invariant of catalog and pages together in
      [HeapDb]; [CatalogStore] with [CatalogStoreFacts] and
      [CatalogStoreTheorems].
    - [rdbms_tx]: [Tx] has the store, the transaction, commit, rollback and
      autocommit; [TxFacts] makes a transaction a page store whose dirty pages
      hide the committed ones; [TxCommit] says what every outcome of a commit
      leaves in the two files; [TxTheorems]; [TxAuto] states what an operation
      in a transaction of its own does; [TxRobust] (after the indexes) that on
      files that fail an operation fails or does what it does on working ones.
    - [rdbms_index]: [Index] has the node codec and the B+tree algorithms over
      the interface [BPlusTreePageStore]; [IndexFacts] the order of keys and the
      codec lemmas; [IndexTree] the invariant [btree]; [IndexReads] lookup;
      [IndexInsert] insertion; [TxIndex] the index operations of [rdbms_tx] and
      its two page stores; [TxIndexFacts] the laws of those stores and indexes
      next to tables; [IndexTheorems].

    - [rdbms_extension] (static scalar functions): [Double] has the operations on
      doubles by bit pattern, [DoubleFacts] that they give 64-bit patterns and
      that the exact decimal of a double reads as the double, [Extension] the registry and the built-in functions, with the version check
      of [rdbms_ext_abi]; [ExtensionTheorems].
    - [rdbms_sql]: the row codec in [SqlRow] and [SqlRowTheorems]; statements,
      lexer and parser in [Sql]; [SqlGrammar] gives the grammar of the language
      and shows that the parser recognises it; [SqlTheorems]; [SqlRender] prints
      statements and reads them back; [SqlTyped] shows that what the parser
      returns is well typed, [SqlRoundTrip] that it can be printed.  [SqlExec] has the executor of every statement against
      the transactional store: [SqlDb] is the invariant of tables and complete
      indexes together, [SqlExtensions] says which operations install nothing,
      [SqlWrites] has the transactions of [INSERT] and [CREATE INDEX], [SqlReads]
      queries, [SqlStatements] the outcome of every statement, [SqlRestart] what
      recovery and opening make of the files, [SqlQuiet] and [SqlCrash] queries and
      statements on files that fail, [SqlSessions] the histories of sessions with
      restarts and crashes, [SqlExecTheorems] the results.
    - The specification of the whole: [SqlSpec] has a relational database of named
      tables with an interpreter of statements, [SqlRefine] relates it to a catalog
      and tables, [SqlRefinement] shows that histories of sessions refine it.
    - Opening by path: [Database] has the trait [Vfs], its standard implementation
      over an operating-system directory, [open_page_file],
      [open_catalog_store], [open_transactional_store] and the
      [open_database] of [rdbms_recovery]; [DatabaseTheorems].
    - [rdbms_android] and [rdbms_cli]: [EntryPoints].  The prototype archived
      under [docs/legacy]: [Legacy].
    - The unit tests of the crates, as definitions that run the model:
      [UnitTests] and [UnitTestsEngine].

    [Bytes] holds the little-endian and cursor codecs that pages, log records,
    the catalog record and index nodes use.

    ** How the code is modelled

    A fallible function returns an [outcome]: [Ok], [Err] with a [DbError], or
    [Panic] for a failed index, an overflow or an unwrapped [None], so that "never
    panics" is a theorem.  A method with [&mut self] is a state transformer [st]
    that keeps the state it had reached when it fails.  Machine integers are [N]
    or [Z] with their bounds checked where the code checks or panics.  Bytes are
    [list byte].  A trait is a type class, its documented behaviour a class of
    laws ([VfsLaws], [VfsDirLaws], [PageAccessLaws], [IndexReadLaws], [IndexStoreLaws]) that
    clients assume and instances prove.  The operating system below
    [StdVfsFile] is a script of outcomes (full and short transfers,
    interruptions, failures), so a theorem about any file holds for every script.

    ** What the theorems show

    - Pages: the checks accept exactly the buffers that represent a page; each
      operation refines its abstract one on every branch; a changed byte is seen;
      what [compact] does on a page whose live slots overlap, which the checks let
      pass.
    - Files: the loops end and transfer exactly the range; the page file is a map.
    - Log: records round-trip; an append is atomic up to a torn tail; the scan
      ends; redo replays exactly the committed images.
    - Recovery: its effect on every page, and that it can be interrupted and
      run again.
    - Catalog and store: every reachable catalog is well formed ([catalog_inv]), and
      no page belongs to two relations if the two operations that attach a page get
      pages that are free, as their callers see to; operations on tables are
      refinements of operations on lists of rows, durable when they succeed.
    - Transactions: atomic under crashes at any point of a commit, log before
      data, isolation of staged work, one writer; what a rollback does to all
      transactions with its id.
    - Indexes: insertion adds exactly one entry through any splits and touches
      only pages of the tree and new ones; lookup finds exactly the entries of
      a key, also after commit; descent is logarithmic.
    - Extensions: loading is all or nothing, calls are type safe.
    - SQL: rows round-trip and other records are corrupt; the parser ends on every
      text, accepts exactly the grammar, returns only statements that [render] can
      print, and reads back what [render] prints, doubles included.  A query through
      an index answers as a filtered scan of the table does; [INSERT] adds exactly
      one row and its entries to all indexes; [CREATE INDEX] gives the new index
      exactly the entries of the existing rows.  In every state of a history of
      sessions each statement has its effect or is refused and changes nothing, and
      a statement is atomic under crashes at any operation of any file.
    - The whole: a history of sessions, restarts and crashes is a history of the
      relational database of [SqlSpec] ([sessions_refine_database]).
    - Opening: a store that is dropped and opened again by path shows the same
      database, and no other file changes.

    ** Crashes and the ids of transactions

    A crash leaves any contents that a run of the operations on failing files can
    leave.  Recovery then runs on them, any number of times, until a pass succeeds,
    or, on files that work, reports that the log does not scan ([recovered]).

    The code gives ids from 1 again when a store is opened, while the log keeps its
    records.  The id of a transaction can then be in the log already.  A log is
    [settled] when all its images are committed and nothing was rolled back; the
    SQL executor keeps it so, and as long as nothing crashes a reused id changes
    nothing on such a log: [database_reopens] and the restarts of a history need no
    more.  The crash theorems ask for an id that is new to the log
    ([log_is_fresh]): so it is in a session that was opened on an empty log, and in
    one on a kept log once its ids are above those of the log.  After a crash a
    history goes on with an emptied log, or with the same one if it is [keepable]:
    it scans and holds whole committed transactions only.  The theorems about
    histories ([sessions_refine_database], [session_invariant]) are about these
    crashes.  The other ones break the database, and it is proved how:
    [reused_tx_id_replays_uncommitted], [reused_tx_id_is_not_recovered],
    [rollback_erases_transaction_id], and a run with a lost row in
    [rollback_after_reopening_loses_a_row].

    The unit tests of the crates are run on the model ([unit_tests_pass]); that is
    a check of the translation.

    ** Fuel and bounds

    The retry loops of the files take as fuel the number of bytes still to move
    and of interruptions the operating system has in store, since every turn
    uses up one of them; the scan of the log takes the length of the file.  The B+tree
    loops take the next free page id, which is at least the number of pages of a tree,
    hence at least its height and its number of leaves ([pages_below],
    [tree_pages]); out of fuel is [Panic], which the theorems exclude.  On a
    corrupt chain of leaves with a cycle no fuel is enough
    ([cyclic_chain_exhausts_fuel]), as the loop of the code does not end there.
    The lexer takes one more than the number of characters and the parser's loops
    one more than the number of tokens, since every turn consumes one.
    An inserted index entry allocates at most 64 pages, one for each level and one
    more, so [statement_fits] asks for 64 page ids per entry, for room in the log
    and for a free transaction id; these conditions are computable.
    The hypothesis [addressable] on page ids keeps [page id * 4096] in 64 bits.

    ** Not modelled

    - Two handles of one file at the same time: a handle carries the contents of
      its file.  The program opens each of its two files once.
    - The [Debug] text of a token (a parameter of the parser).
    - Caches between a write and [sync_data]: a write that returned is in the file,
      so [sync_data] can fail but changes no contents, and writes reach the disk in
      their order.  The theorems about crashes are about that disk; that the code
      syncs the log before it writes data is in [Tx], but no theorem needs it.
    - The names of the temporary files of the unit tests, and their removal.
    - The C layout declarations of [rdbms_ext_abi], the banner of [rdbms_android]
      (type names of the compiler) with the assertion about it, and the prototype's [create_db_file], which
      writes JSON through [serde]. *)

From stdpp Require Export base tactics list numbers strings pretty gmap.
From Stdlib Require Export NArith ZArith Lia.
From Stdlib Require Export Strings.Byte.

(** ** Outcomes

    A fallible Rust function returns [Result<A, E>]; a few of the operations
    used by the code (slice indexing, unchecked arithmetic) can in addition
    panic.  [Panic] makes that third result explicit, so that "this function
    never panics" is a theorem and not a convention of the model. *)

Inductive outcome (E A : Type) : Type :=
| Ok (a : A)
| Err (e : E)
| Panic.

Arguments Ok {E A} a.
Arguments Err {E A} e.
Arguments Panic {E A}.

(** The [?] operator: propagate an error (or a panic), else go on. *)
Definition bind_outcome {E A B : Type} (m : outcome E A) (k : A -> outcome E B)
  : outcome E B :=
  match m with
  | Ok a => k a
  | Err e => Err e
  | Panic => Panic
  end.

(** [Option::ok_or]. *)
Definition ok_or {E A : Type} (o : option A) (e : E) : outcome E A :=
  match o with
  | Some a => Ok a
  | None => Err e
  end.

(** A slice index or an unwrapped value that must be there: panic otherwise. *)
Definition or_panic {E A : Type} (o : option A) : outcome E A :=
  match o with
  | Some a => Ok a
  | None => Panic
  end.

(** ** State

    [&mut self] methods are state transformers that also return an outcome.
    The state is kept when the method returns an error: whatever the code had
    already written before the failing [?] stays written. *)

Definition st (S E A : Type) : Type := S -> outcome E A * S.

Definition bind_st {S E A B : Type} (m : st S E A) (k : A -> st S E B) : st S E B :=
  fun s =>
    match m s with
    | (Ok a, s') => k a s'
    | (Err e, s') => (Err e, s')
    | (Panic, s') => (Panic, s')
    end.

Definition ret {S E A : Type} (a : A) : st S E A := fun s => (Ok a, s).
Definition throw {S E A : Type} (e : E) : st S E A := fun s => (Err e, s).
Definition lift {S E A : Type} (o : outcome E A) : st S E A := fun s => (o, s).
Definition gets {S E A : Type} (f : S -> A) : st S E A := fun s => (Ok (f s), s).
Definition modify {S E : Type} (f : S -> S) : st S E unit := fun s => (Ok tt, f s).

(** Run a state transformer on a component of the state ([self.field.method()]). *)
Definition zoom {S T E A : Type} (get : S -> T) (put : T -> S -> S) (m : st T E A)
  : st S E A :=
  fun s => let '(o, t) := m (get s) in (o, put t s).

Declare Scope db_scope.
Delimit Scope db_scope with db.
Open Scope db_scope.
Open Scope N_scope.

Notation "'let?' x := m 'in' k" := (bind_outcome m (fun x => k))
  (at level 10, x pattern, m at level 100, k at level 200) : db_scope.
Notation "'let!' x := m 'in' k" := (bind_st m (fun x => k))
  (at level 10, x pattern, m at level 100, k at level 200) : db_scope.

(** ** Loops *)

Section Loops.
Context {S E A B : Type}.

(** [for x in xs { acc = f(acc, x)? }]. *)
Fixpoint fold_outcome (f : A -> B -> outcome E A) (acc : A) (xs : list B) : outcome E A :=
  match xs with
  | [] => Ok acc
  | x :: rest => let? acc' := f acc x in fold_outcome f acc' rest
  end.

(** [for x in xs { f(x)? }] on a mutable receiver. *)
Fixpoint for_each (f : B -> st S E unit) (xs : list B) : st S E unit :=
  match xs with
  | [] => ret tt
  | x :: rest => let! _ := f x in for_each f rest
  end.

(** [xs.iter().map(f).collect::<Result<Vec<_>, _>>()]. *)
Fixpoint traverse (f : B -> outcome E A) (xs : list B) : outcome E (list A) :=
  match xs with
  | [] => Ok []
  | x :: rest => let? y := f x in let? ys := traverse f rest in Ok (y :: ys)
  end.

(** [for _ in 0..n { acc.push(m?) }] for a stateful reader [m]. *)
Fixpoint repeat_st (n : nat) (m : st S E A) : st S E (list A) :=
  match n with
  | O => ret []
  | Datatypes.S n' => let! x := m in let! xs := repeat_st n' m in ret (x :: xs)
  end.
End Loops.

(** The half-open range [0..n] as a list of indices. *)
Definition range (n : N) : list N := N.of_nat <$> seq 0 (N.to_nat n).

(** ** Lengths, slices and splices of vectors *)

Abbreviation len l := (N.of_nat (length l)).

(** [bytes[off .. off + n]], truncated at the end of the vector. *)
Definition slice {A : Type} (l : list A) (off n : N) : list A :=
  take (N.to_nat n) (drop (N.to_nat off) l).

(** [bytes[off .. off + v.len()].copy_from_slice(v)] for an in-range target. *)
Definition splice {A : Type} (l : list A) (off : N) (v : list A) : list A :=
  take (N.to_nat off) l ++ v ++ drop (N.to_nat off + length v) l.

(** [n <= l.len()], decided by a walk over the first [n] elements. *)
Fixpoint at_least {A : Type} (n : N) (l : list A) : bool :=
  match n, l with
  | 0, _ => true
  | _, [] => false
  | _, _ :: l' => at_least (N.pred n) l'
  end.

(** The checked versions: Rust panics when the range is not inside the slice. *)
Definition slice_checked {E A : Type} (l : list A) (from to : N) : outcome E (list A) :=
  if (from <=? to) && at_least to l then Ok (slice l from (to - from)) else Panic.

Definition splice_checked {E A : Type} (l : list A) (off : N) (v : list A)
  : outcome E (list A) :=
  if at_least (off + len v) l then Ok (splice l off v) else Panic.

(** ** Machine integers *)

Definition U16_MAX : N := 65535.
Definition U32_MAX : N := 4294967295.
Definition U64_MAX : N := 18446744073709551615.
(** Pointers are taken to be 64 bits wide. *)
Definition USIZE_MAX : N := U64_MAX.

(** [value as u16]. *)
Definition as_u16 (n : N) : N := n mod 65536.

(** [a.checked_add(b)] and [a.checked_mul(b)] for an unsigned type with maximum [max]. *)
Definition checked_add (max a b : N) : option N :=
  if a + b <=? max then Some (a + b) else None.
Definition checked_mul (max a b : N) : option N :=
  if a * b <=? max then Some (a * b) else None.

(** Plain [a - b], [a + b] and [a * b] on an unsigned type: an overflow panics. *)
Definition sub_panic {E : Type} (a b : N) : outcome E N :=
  if b <=? a then Ok (a - b) else Panic.
Definition add_panic {E : Type} (max a b : N) : outcome E N := or_panic (checked_add max a b).
Definition mul_panic {E : Type} (max a b : N) : outcome E N := or_panic (checked_mul max a b).

(** ** Automation *)

Create HintDb db discriminated.
Create Rewrite HintDb len.

(** Split the boolean tests of the code into propositions lia understands. *)
Ltac reflect_bool :=
  repeat match goal with
  | H : (_ && _) = true |- _ => apply andb_true_iff in H as [? ?]
  | H : (_ || _) = false |- _ => apply orb_false_iff in H as [? ?]
  | H : negb _ = true |- _ => apply negb_true_iff in H
  | H : negb _ = false |- _ => apply negb_false_iff in H
  | H : (_ <=? _) = true |- _ => apply N.leb_le in H
  | H : (_ <=? _) = false |- _ => apply N.leb_gt in H
  | H : (_ <? _) = true |- _ => apply N.ltb_lt in H
  | H : (_ <? _) = false |- _ => apply N.ltb_ge in H
  | H : (_ =? _) = true |- _ => apply N.eqb_eq in H
  | H : (_ =? _) = false |- _ => apply N.eqb_neq in H
  end.

(** Case analysis on the next test of the goal. *)
Ltac case_test :=
  match goal with
  | |- context [if ?b then _ else _] =>
      lazymatch b with context [if _ then _ else _] => fail | _ => idtac end;
      let Hb := fresh "Hb" in destruct b eqn:Hb; reflect_bool
  end.

(** Decompose a successful (or failed) run of a monadic program into its steps. *)
Ltac step_in H :=
  match type of H with
  | bind_outcome ?m _ = Ok _ =>
      let E := fresh "Hm" in
      destruct m eqn:E; cbn [bind_outcome] in H; [|discriminate H|discriminate H]
  | bind_st ?m _ ?s = (Ok _, _) =>
      let E := fresh "Hm" in let o := fresh "o" in let s' := fresh "s" in
      unfold bind_st at 1 in H; destruct (m s) as [o s'] eqn:E; destruct o;
      [|discriminate H|discriminate H]
  | ok_or ?o _ = Ok _ =>
      let E := fresh "Hm" in destruct o eqn:E; cbn [ok_or] in H; [|discriminate H]
  | or_panic ?o = Ok _ =>
      let E := fresh "Hm" in destruct o eqn:E; cbn [or_panic] in H; [|discriminate H]
  | (if ?b then _ else _) = Ok _ =>
      let E := fresh "Hb" in destruct b eqn:E; reflect_bool; try discriminate H
  | Ok _ = Ok _ => injection H as H; subst
  | (Ok _, _) = (Ok _, _) => injection H as H; subst
  | ret _ _ = _ => unfold ret in H
  | lift _ _ = _ => unfold lift in H
  | gets _ _ = _ => unfold gets in H
  end.
Ltac steps_in H := repeat step_in H.

(** ** Outcomes and state transformers: equations *)


Lemma bind_outcome_Ok {E A B} (m : outcome E A) (k : A -> outcome E B) b :
  bind_outcome m k = Ok b <-> exists a, m = Ok a /\ k a = Ok b.
Proof.
  destruct m; simpl; split; try discriminate; try (intros (? & ? & ?); congruence).
  intros H; eauto.
Qed.

Lemma bind_st_run {S E A B} (m : st S E A) (k : A -> st S E B) s a s' :
  m s = (Ok a, s') -> bind_st m k s = k a s'.
Proof. unfold bind_st. by intros ->. Qed.

(** Run the first step of the program in [H] with the lemma [L]. *)
Tactic Notation "run" uconstr(L) "in" hyp(H) "by" tactic3(tac) :=
  erewrite bind_st_run in H by (eapply L; tac).
Tactic Notation "run" uconstr(L) "by" tactic3(tac) :=
  erewrite bind_st_run by (eapply L; tac).

Lemma bind_st_err {S E A B} (m : st S E A) (k : A -> st S E B) s e s' :
  m s = (Err e, s') -> bind_st m k s = (Err e, s').
Proof. unfold bind_st. by intros ->. Qed.

Lemma bind_st_inv {S E A B} (m : st S E A) (k : A -> st S E B) s b s' :
  bind_st m k s = (Ok b, s') -> exists a s1, m s = (Ok a, s1) /\ k a s1 = (Ok b, s').
Proof. unfold bind_st. destruct (m s) as [[] ?]; intros; simplify_eq; eauto. Qed.

Lemma for_each_app {S E B} (f : B -> st S E unit) xs ys s :
  for_each f (xs ++ ys) s = bind_st (for_each f xs) (fun _ => for_each f ys) s.
Proof.
  revert s; induction xs as [|x xs IH]; intros s; simpl; [done|].
  unfold bind_st in *. destruct (f x s) as [[] ?]; auto.
Qed.

(** A loop over a component of the state. *)
Lemma for_each_zoom {S T E B} (get : S -> T) (put : T -> S -> S) (f : B -> st T E unit) xs s :
  (forall s, put (get s) s = s) -> (forall t s, get (put t s) = t) ->
  (forall t t' s, put t (put t' s) = put t s) ->
  for_each (fun x => zoom get put (f x)) xs s = zoom get put (for_each f xs) s.
Proof.
  intros Hpg Hgp Hpp. revert s. induction xs as [|x xs IH]; intros s; simpl.
  - unfold ret, zoom. by rewrite Hpg.
  - unfold bind_st. unfold zoom at 1 3. destruct (f x (get s)) as [[a|e|] t]; [|done|done].
    rewrite IH. unfold zoom. rewrite Hgp. destruct (for_each f xs t) as [o t']. by rewrite Hpp.
Qed.

Lemma traverse_Forall2 {E A B} (f : B -> outcome E A) xs ys :
  traverse f xs = Ok ys <-> Forall2 (fun x y => f x = Ok y) xs ys.
Proof.
  revert ys; induction xs as [|x xs IH]; intros ys; simpl.
  - split; [intros [= <-]; constructor|by inversion 1].
  - split.
    + intros H. steps_in H. constructor; [done|]. by apply IH.
    + inversion_clear 1 as [|? y ? ys' Hx Hxs]. rewrite Hx. simpl.
      by rewrite (proj2 (IH ys') Hxs).
Qed.

(** ** Ranges *)

Lemma range_length n : length (range n) = N.to_nat n.
Proof. unfold range. by rewrite length_fmap, length_seq. Qed.

Lemma elem_of_range i n : i ∈ range n <-> i < n.
Proof.
  unfold range. rewrite list_elem_of_fmap. split.
  - intros (j & -> & Hj%elem_of_seq). lia.
  - intros Hi. exists (N.to_nat i). rewrite elem_of_seq. lia.
Qed.

Lemma range_lookup i n : i < n -> range n !! N.to_nat i = Some i.
Proof.
  intros Hi. unfold range. rewrite list_lookup_fmap, lookup_seq_lt by lia.
  simpl. f_equal. lia.
Qed.

(** ** Slices and splices *)

Section Slices.
Context {A : Type}.
Implicit Types (l v : list A) (o n : N).

Lemma lookup_slice l o n (i : nat) :
  slice l o n !! i = if decide (N.of_nat i < n) then l !! (N.to_nat o + i)%nat else None.
Proof.
  unfold slice. case_decide.
  - rewrite lookup_take_lt by lia. by rewrite lookup_drop.
  - apply lookup_ge_None. rewrite length_take. lia.
Qed.

Lemma lookup_splice l o v (i : nat) :
  o <= len l ->
  splice l o v !! i =
    if decide (N.of_nat i < o) then l !! i
    else if decide (N.of_nat i < o + len v) then v !! (i - N.to_nat o)%nat
    else l !! i.
Proof.
  intros Ho. unfold splice.
  assert (Ht : length (take (N.to_nat o) l) = N.to_nat o) by (rewrite length_take; lia).
  case_decide; [|case_decide].
  - rewrite lookup_app_l by lia. by rewrite lookup_take_lt by lia.
  - rewrite lookup_app_r, Ht by lia. by rewrite lookup_app_l by lia.
  - rewrite lookup_app_r, Ht by lia. rewrite lookup_app_r by lia.
    rewrite lookup_drop. f_equal. lia.
Qed.

Lemma length_slice l o n : o + n <= len l -> length (slice l o n) = N.to_nat n.
Proof. intros. unfold slice. rewrite length_take, length_drop. lia. Qed.

Lemma len_slice l o n : o + n <= len l -> len (slice l o n) = n.
Proof. intros. rewrite length_slice by done. lia. Qed.

Lemma length_splice l o v : o + len v <= len l -> length (splice l o v) = length l.
Proof.
  intros. unfold splice. rewrite !length_app, length_take, length_drop. lia.
Qed.

Lemma slice_splice_same l o v n :
  n = len v -> o + n <= len l -> slice (splice l o v) o n = v.
Proof.
  intros -> Hr. apply list_eq; intros i. rewrite lookup_slice, lookup_splice by lia.
  repeat case_decide; try lia.
  - f_equal. lia.
  - symmetry. apply lookup_ge_None. lia.
Qed.

(** A read that does not overlap the written range is not affected. *)
Lemma slice_splice_other l o v o' n :
  o + len v <= len l -> o' + n <= o \/ o + len v <= o' ->
  slice (splice l o v) o' n = slice l o' n.
Proof.
  intros Hr Hd. apply list_eq; intros i. rewrite !lookup_slice, lookup_splice by lia.
  repeat case_decide; try lia; done.
Qed.

Lemma slice_slice l o n o' n' :
  o' + n' <= n -> slice (slice l o n) o' n' = slice l (o + o') n'.
Proof.
  intros H. apply list_eq; intros i. rewrite !lookup_slice.
  repeat case_decide; try lia; try done. f_equal. lia.
Qed.

Lemma slice_all l : slice l 0 (len l) = l.
Proof. unfold slice. rewrite drop_0, Nat2N.id. apply take_ge. lia. Qed.

Lemma slice_app_l l1 l2 o n : o + n <= len l1 -> slice (l1 ++ l2) o n = slice l1 o n.
Proof.
  intros H. apply list_eq; intros i. rewrite !lookup_slice.
  case_decide; [|done]. rewrite lookup_app_l by lia. done.
Qed.

Lemma slice_app_r l1 l2 o n :
  len l1 <= o -> slice (l1 ++ l2) o n = slice l2 (o - len l1) n.
Proof.
  intros H. apply list_eq; intros i. rewrite !lookup_slice.
  case_decide; [|done]. rewrite lookup_app_r by lia. f_equal. lia.
Qed.

Lemma slice_mid l1 l2 l3 n :
  n = len l2 -> slice (l1 ++ l2 ++ l3) (len l1) n = l2.
Proof.
  intros ->. rewrite slice_app_r, N.sub_diag by lia.
  rewrite slice_app_l by lia. apply slice_all.
Qed.

Lemma slice_split l o n m : slice l o (n + m) = slice l o n ++ slice l (o + n) m.
Proof.
  unfold slice.
  replace (N.to_nat (n + m)) with (N.to_nat n + N.to_nat m)%nat by lia.
  rewrite <- take_take_drop, drop_drop. do 3 f_equal. lia.
Qed.

Lemma splice_splice_same l o v w :
  length v = length w -> o + len v <= len l ->
  splice (splice l o v) o w = splice l o w.
Proof.
  intros Hl Hr. apply list_eq; intros i.
  rewrite !lookup_splice by (rewrite ?length_splice; lia).
  repeat case_decide; try lia; done.
Qed.

Lemma splice_app_end l v : splice l (len l) v = l ++ v.
Proof.
  unfold splice. rewrite Nat2N.id, take_ge, drop_ge by lia. by rewrite app_nil_r.
Qed.

Lemma slice_eq_lookup l l' o n :
  (forall i : nat, (N.to_nat o <= i < N.to_nat (o + n))%nat -> l !! i = l' !! i) ->
  slice l o n = slice l' o n.
Proof.
  intros H. apply list_eq; intros i. rewrite !lookup_slice.
  case_decide; [|done]. apply H. lia.
Qed.
End Slices.

#[export] Hint Rewrite @length_app @length_take @length_drop @length_replicate
  @length_fmap @length_cons @length_nil @range_length : len.

Lemma at_least_len {A} n (l : list A) : at_least n l = (n <=? len l).
Proof.
  revert n. induction l as [|x l IH]; intros [|p]; [done..|].
  simpl at_least. rewrite IH. apply eq_true_iff_eq. rewrite !N.leb_le, length_cons. lia.
Qed.

Lemma slice_checked_ok {E A} (l : list A) from to :
  from <= to -> to <= len l ->
  slice_checked (E := E) l from to = Ok (slice l from (to - from)).
Proof.
  intros. unfold slice_checked.
  rewrite at_least_len, (proj2 (N.leb_le _ _)), (proj2 (N.leb_le _ _)) by lia. done.
Qed.

Lemma splice_checked_ok {E A} (l v : list A) off :
  off + len v <= len l -> splice_checked (E := E) l off v = Ok (splice l off v).
Proof. intros. unfold splice_checked. by rewrite at_least_len, (proj2 (N.leb_le _ _)) by lia. Qed.

Lemma checked_add_Some max a b c :
  checked_add max a b = Some c <-> c = a + b /\ a + b <= max.
Proof.
  unfold checked_add. case_test; split.
  - by intros [= <-].
  - by intros [-> _].
  - done.
  - intros [_ ?]. lia.
Qed.

Lemma checked_add_ok max a b : a + b <= max -> checked_add max a b = Some (a + b).
Proof. intros. by apply checked_add_Some. Qed.

Lemma checked_add_None max a b : checked_add max a b = None <-> max < a + b.
Proof. unfold checked_add. case_test; split; intros; simplify_eq; (done || lia). Qed.

Lemma checked_mul_Some max a b c :
  checked_mul max a b = Some c <-> c = a * b /\ a * b <= max.
Proof.
  unfold checked_mul. case_test; split.
  - by intros [= <-].
  - by intros [-> _].
  - done.
  - intros [_ ?]. lia.
Qed.

Lemma sub_panic_ok {E} a b : b <= a -> sub_panic (E := E) a b = Ok (a - b).
Proof. intros. unfold sub_panic. by rewrite (proj2 (N.leb_le _ _)) by lia. Qed.
