(* ===== verification/Core.v ===== *)
(** * Core: the shared types of crate [rdbms_core]

    Identifiers, the typed error boundary [DbError], SQL values and the results
    of SQL-facing execution.  The one-field wrappers [PageId(u64)],
    [RelationId(u64)], [TxId(u64)], [Lsn(u64)] and [SlotId(u16)] are the numbers
    they wrap; the type names are kept as abbreviations. *)

From S2P Require Import Prelude.

Abbreviation PageId := N (only parsing).
Abbreviation RelationId := N (only parsing).
Abbreviation TxId := N (only parsing).
Abbreviation Lsn := N (only parsing).
Abbreviation SlotId := N (only parsing).

(** Physical row address for the heap-table MVP. *)
Record RowId : Type := mkRowId { page_id : PageId; slot_id : SlotId }.

(** [std::io::ErrorKind], the kinds this code distinguishes or produces. *)
Inductive ErrorKind : Type :=
| UnexpectedEof
| WriteZero
| InvalidInput
| Interrupted
| Unsupported
| OtherIo.

(** Typed error boundary for the DBMS core. *)
Inductive DbError : Type :=
| User (message : string)
| Retryable (message : string)
| Io (error : ErrorKind)
| Corruption (message : string)
| InternalInvariant (message : string)
| Extension (message : string).

Abbreviation DbResult := (outcome DbError).
(** A [&mut self] method of a component with state [S]. *)
Abbreviation db S := (st S DbError).

(** [From<std::io::Error> for DbError]: the conversion [?] applies. *)
Definition from_io_error {A : Type} (r : outcome ErrorKind A) : DbResult A :=
  match r with
  | Ok a => Ok a
  | Err e => Err (Io e)
  | Panic => Panic
  end.

(** Text of [std::io::Error]'s [Display] for a bare kind is library text the
    code never inspects; [describe] stands for it in [display]. *)
Definition display (describe : ErrorKind -> string) (e : DbError) : string :=
  match e with
  | User message => "user error: " +:+ message
  | Retryable message => "retryable error: " +:+ message
  | Io error => "io error: " +:+ describe error
  | Corruption message => "corruption: " +:+ message
  | InternalInvariant message => "internal invariant violation: " +:+ message
  | Extension message => "extension error: " +:+ message
  end.

(** Minimal value model.  Text is the UTF-8 byte string of the Rust [String];
    a double is its IEEE-754 bit pattern, the form in which the program stores
    and reloads it. *)
Inductive Value : Type :=
| Null
| Text (value : string)
| Integer (value : Z)
| Double (bits : N).

(** Public column description. *)
Record ColumnInfo : Type := mkColumnInfo { ci_name : string; ci_type_name : string }.

(** Result of SQL-facing execution. *)
Inductive ExecResult : Type :=
| StatementComplete (rows_affected : N)
| Query (columns : list ColumnInfo) (rows : list (list Value))
| Explain (plan : string).

#[export] Instance RowId_eq_dec : EqDecision RowId.
Proof. solve_decision. Defined.
#[export] Instance ErrorKind_eq_dec : EqDecision ErrorKind.
Proof. solve_decision. Defined.
#[export] Instance DbError_eq_dec : EqDecision DbError.
Proof. solve_decision. Defined.
#[export] Instance Value_eq_dec : EqDecision Value.
Proof. solve_decision. Defined.

(** Error classes, for statements that do not depend on the message. *)
Definition is_user (e : DbError) : bool := match e with User _ => true | _ => false end.
Definition is_corruption (e : DbError) : bool :=
  match e with Corruption _ => true | _ => false end.

Lemma is_corruption_inv e : is_corruption e = true -> exists m, e = Corruption m.
Proof. destruct e; try done. eauto. Qed.
