(* ===== verification/Bytes.v ===== *)
(** * Bytes: fixed-width integers, byte buffers, byte vectors and cursors

    The crates share three ways of moving integers in and out of bytes:
    - [read_u16] ... [write_u64] on a byte slice at an offset (pages and WAL
      records, private copies in rdbms_page and rdbms_wal);
    - [write_u16] ... on a growing [Vec<u8>] (index nodes, catalog, SQL rows);
    - a [DecodeCursor] that reads forward and checks the remaining length
      (private copies in rdbms_index, rdbms_catalog and rdbms_sql, which differ
      only in the text of their errors).
    This file has one definition of each, and the lemmas that make encoders and
    decoders compose: [reads] and [writes]. *)

From S2P Require Import Prelude Core.

(** ** Little-endian integers *)

(** [value as u8]. *)
Definition byte_of (n : N) : byte :=
  match Byte.of_N (n mod 256) with Some b => b | None => x00 end.

Fixpoint le_encode (n : nat) (v : N) : list byte :=
  match n with
  | O => []
  | S n' => byte_of v :: le_encode n' (v / 256)
  end.

Fixpoint le_decode (bs : list byte) : N :=
  match bs with
  | [] => 0
  | b :: rest => Byte.to_N b + 256 * le_decode rest
  end.

(** Two's complement of an [i64]. *)
Definition I64_MIN : Z := (-9223372036854775808)%Z.
Definition I64_MAX : Z := 9223372036854775807%Z.
Definition i64_to_bits (z : Z) : N := Z.to_N (z mod 18446744073709551616).
Definition i64_of_bits (n : N) : Z :=
  if n <? 9223372036854775808 then Z.of_N n else (Z.of_N n - 18446744073709551616)%Z.

(** ** Integers inside a byte slice *)

Definition read_uint (width : N) (bytes : list byte) (offset : N) : DbResult N :=
  let? bs := slice_checked bytes offset (offset + width) in Ok (le_decode bs).
Definition write_uint (width : nat) (bytes : list byte) (offset value : N)
  : DbResult (list byte) :=
  splice_checked bytes offset (le_encode width value).

Definition read_u16 := read_uint 2.
Definition read_u32 := read_uint 4.
Definition read_u64 := read_uint 8.
Definition write_u16 := write_uint 2.
Definition write_u32 := write_uint 4.
Definition write_u64 := write_uint 8.

(** ** Strings *)

Definition bytes_of_string (s : string) : list byte := String.list_byte_of_string s.
Definition string_of_bytes (bs : list byte) : string := String.string_of_list_byte bs.
(** [String::len] counts bytes. *)
Definition string_len (s : string) : N := len (bytes_of_string s).

(** [String::from_utf8] accepts exactly the well-formed UTF-8 sequences. *)
Definition byte_in (lo hi : N) (b : byte) : bool := (lo <=? Byte.to_N b) && (Byte.to_N b <=? hi).
Definition is_continuation : byte -> bool := byte_in 128 191.

Definition second_of_three (lead b : byte) : bool :=
  if byte_in 224 224 lead then byte_in 160 191 b
  else if byte_in 237 237 lead then byte_in 128 159 b
  else is_continuation b.

Definition second_of_four (lead b : byte) : bool :=
  if byte_in 240 240 lead then byte_in 144 191 b
  else if byte_in 244 244 lead then byte_in 128 143 b
  else is_continuation b.

Fixpoint utf8_valid (bs : list byte) : bool :=
  match bs with
  | [] => true
  | b0 :: r0 =>
      if byte_in 0 127 b0 then utf8_valid r0
      else match r0 with
      | [] => false
      | b1 :: r1 =>
          if byte_in 194 223 b0 then is_continuation b1 && utf8_valid r1
          else match r1 with
          | [] => false
          | b2 :: r2 =>
              if byte_in 224 239 b0
              then second_of_three b0 b1 && is_continuation b2 && utf8_valid r2
              else match r2 with
              | [] => false
              | b3 :: r3 =>
                  byte_in 240 244 b0 && second_of_four b0 b1 && is_continuation b2
                  && is_continuation b3 && utf8_valid r3
              end
          end
      end
  end.

(** The type invariant of a Rust [String]. *)
Definition string_ok (s : string) : Prop := utf8_valid (bytes_of_string s) = true.

Definition from_utf8 (message : string) (bs : list byte) : DbResult string :=
  if utf8_valid bs then Ok (string_of_bytes bs) else Err (Corruption message).

(** ** Growing a [Vec<u8>] *)

Definition extend_from_slice (bs : list byte) : db (list byte) unit := modify (fun v => v ++ bs).
Definition push (b : byte) : db (list byte) unit := extend_from_slice [b].
Definition push_uint (width : nat) (value : N) : db (list byte) unit :=
  extend_from_slice (le_encode width value).

(** [write_u16_len] and [write_u32_len]: a length that must fit the field. *)
Definition push_len (width : nat) (max : N) (message : string) (value : N)
  : db (list byte) unit :=
  if value <=? max then push_uint width value else throw (User message).

Definition write_u16_len (value : N) (field : string) : db (list byte) unit :=
  push_len 2 U16_MAX (field +:+ " does not fit into u16") value.
Definition write_u32_len (value : N) (field : string) : db (list byte) unit :=
  push_len 4 U32_MAX (field +:+ " does not fit into u32") value.

(** ** Reading a byte slice front to back *)

(** The texts in which the three copies of the cursor differ. *)
Record cursor_texts : Type := mkCursorTexts {
  overflow_text : string;
  truncated_text : string;
  trailing_text : string
}.

Record DecodeCursor : Type := mkCursor { cur_bytes : list byte; cur_offset : N }.

Definition cursor_new (bytes : list byte) : DecodeCursor := mkCursor bytes 0.

Section Cursor.
Context (texts : cursor_texts).

Definition read_bytes (n : N) : db DecodeCursor (list byte) := fun c =>
  match checked_add USIZE_MAX (cur_offset c) n with
  | None => (Err (Corruption (overflow_text texts)), c)
  | Some stop =>
      if len (cur_bytes c) <? stop then (Err (Corruption (truncated_text texts)), c)
      else (slice_checked (cur_bytes c) (cur_offset c) stop, mkCursor (cur_bytes c) stop)
  end.

(** [read_u8], [read_u16], [read_u32] and [read_u64]. *)
Definition cursor_uint (width : N) : db DecodeCursor N :=
  let! bs := read_bytes width in ret (le_decode bs).
Definition cursor_u8 := cursor_uint 1.
Definition cursor_u16 := cursor_uint 2.
Definition cursor_u32 := cursor_uint 4.
Definition cursor_u64 := cursor_uint 8.
Definition cursor_i64 : db DecodeCursor Z :=
  let! n := cursor_u64 in ret (i64_of_bits n).

Definition is_finished (c : DecodeCursor) : bool := cur_offset c =? len (cur_bytes c).
Definition finish : db DecodeCursor unit := fun c =>
  (if is_finished c then Ok tt else Err (Corruption (trailing_text texts)), c).
End Cursor.

(** ** Additive checksum *)

(** [iter().fold(0_u32, |acc, byte| acc.wrapping_add(u32::from(byte)))]. *)
Definition checksum_fold (acc : N) (b : byte) : N :=
  let sum := acc + Byte.to_N b in if sum <? 4294967296 then sum else sum mod 4294967296.
Definition sum_bytes (bs : list byte) : N := foldr (fun b acc => Byte.to_N b + acc) 0 bs.

(** ** Lemmas: little-endian integers *)

Lemma to_N_byte_of n : Byte.to_N (byte_of n) = n mod 256.
Proof.
  unfold byte_of. destruct (Byte.of_N (n mod 256)) as [b|] eqn:Hb.
  - by apply Byte.to_of_N.
  - apply Byte.of_N_None_iff in Hb. pose proof (N.mod_upper_bound n 256). lia.
Qed.

Lemma to_N_lt b : Byte.to_N b < 256.
Proof. pose proof (Byte.to_N_bounded b). lia. Qed.

Lemma to_N_inj b c : Byte.to_N b = Byte.to_N c -> b = c.
Proof.
  intros H. pose proof (Byte.of_to_N b) as Hb. pose proof (Byte.of_to_N c) as Hc.
  rewrite H in Hb. congruence.
Qed.

Lemma byte_of_to_N b : byte_of (Byte.to_N b) = b.
Proof. apply to_N_inj. rewrite to_N_byte_of. apply N.mod_small, to_N_lt. Qed.

Lemma length_le_encode n v : length (le_encode n v) = n.
Proof. revert v; induction n; simpl; auto. Qed.

Lemma len_le_encode n v : len (le_encode n v) = N.of_nat n.
Proof. by rewrite length_le_encode. Qed.

Lemma le_decode_encode_mod n v : le_decode (le_encode n v) = v mod 256 ^ N.of_nat n.
Proof.
  revert v; induction n as [|n IH]; intros v; simpl le_encode; cbn [le_decode].
  - by rewrite N.mod_1_r.
  - rewrite IH, to_N_byte_of.
    replace (256 ^ N.of_nat (S n)) with (256 * 256 ^ N.of_nat n)
      by (rewrite Nat2N.inj_succ, N.pow_succ_r'; done).
    rewrite N.Div0.mod_mul_r. lia.
Qed.

Lemma le_decode_encode n v : v < 256 ^ N.of_nat n -> le_decode (le_encode n v) = v.
Proof. intros. rewrite le_decode_encode_mod. by apply N.mod_small. Qed.

Lemma le_encode_decode bs : le_encode (length bs) (le_decode bs) = bs.
Proof.
  induction bs as [|b bs IH]; [done|]. cbn [le_decode length le_encode].
  pose proof (to_N_lt b) as Hb. f_equal.
  - apply to_N_inj. rewrite to_N_byte_of.
    replace (Byte.to_N b + 256 * le_decode bs) with (Byte.to_N b + le_decode bs * 256) by lia.
    rewrite N.Div0.mod_add. by apply N.mod_small.
  - replace (Byte.to_N b + 256 * le_decode bs) with (Byte.to_N b + le_decode bs * 256) by lia.
    rewrite N.div_add, N.div_small, N.add_0_l by lia. done.
Qed.

Lemma le_decode_bound bs : le_decode bs < 256 ^ len bs.
Proof.
  induction bs as [|b bs IH]; [done|]. cbn [le_decode length].
  rewrite Nat2N.inj_succ, N.pow_succ_r'. pose proof (to_N_lt b). nia.
Qed.

Lemma le_decode_inj bs cs : length bs = length cs -> le_decode bs = le_decode cs -> bs = cs.
Proof.
  intros Hl Hd. rewrite <- (le_encode_decode bs), <- (le_encode_decode cs). congruence.
Qed.

Lemma i64_bits_roundtrip z : (I64_MIN <= z <= I64_MAX)%Z -> i64_of_bits (i64_to_bits z) = z.
Proof.
  unfold I64_MIN, I64_MAX, i64_of_bits, i64_to_bits. intros Hz.
  pose proof (Z.mod_pos_bound z 18446744073709551616 ltac:(lia)) as Hm.
  destruct (decide (0 <= z)%Z) as [Hp|Hn].
  - rewrite Z.mod_small by lia. case_test; lia.
  - assert (z mod 18446744073709551616 = z + 18446744073709551616)%Z as ->.
    { symmetry. apply Z.mod_unique with (-1)%Z; lia. }
    case_test; lia.
Qed.

Lemma i64_to_bits_bound z : i64_to_bits z < 18446744073709551616.
Proof.
  unfold i64_to_bits.
  assert (0 <= z mod 18446744073709551616 < 18446744073709551616)%Z
    by (apply Z.mod_pos_bound; lia).
  lia.
Qed.

Lemma i64_of_bits_range n :
  n < 18446744073709551616 -> (I64_MIN <= i64_of_bits n <= I64_MAX)%Z.
Proof. unfold I64_MIN, I64_MAX, i64_of_bits. intros. case_test; lia. Qed.

(** ** Lemmas: strings *)

Lemma string_of_bytes_of_string s : string_of_bytes (bytes_of_string s) = s.
Proof. apply String.string_of_list_byte_of_string. Qed.

Lemma bytes_of_string_of_bytes bs : bytes_of_string (string_of_bytes bs) = bs.
Proof. apply String.list_byte_of_string_of_list_byte. Qed.

Lemma from_utf8_string m s :
  string_ok s -> from_utf8 m (bytes_of_string s) = Ok s.
Proof. unfold from_utf8, string_ok. intros ->. by rewrite string_of_bytes_of_string. Qed.

Lemma from_utf8_ok m bs s :
  from_utf8 m bs = Ok s <-> utf8_valid bs = true /\ s = string_of_bytes bs.
Proof. unfold from_utf8. case_test; split; intros; destruct_and?; simplify_eq; auto. Qed.

(** ** Lemmas: integers inside a byte slice *)

(** The integer stored little-endian in [width] bytes at [offset]. *)
Definition uint_at (width : N) (bytes : list byte) (offset : N) : N :=
  le_decode (slice bytes offset width).

Lemma read_uint_ok w bs off :
  off + w <= len bs -> read_uint w bs off = Ok (uint_at w bs off).
Proof.
  intros. unfold read_uint. rewrite slice_checked_ok by lia. simpl.
  unfold uint_at. do 2 f_equal. f_equal. lia.
Qed.

Lemma write_uint_ok w bs off v :
  off + N.of_nat w <= len bs -> write_uint w bs off v = Ok (splice bs off (le_encode w v)).
Proof. intros. unfold write_uint. apply splice_checked_ok. by rewrite len_le_encode. Qed.

Lemma uint_at_bound w bs off : off + w <= len bs -> uint_at w bs off < 256 ^ w.
Proof.
  intros. unfold uint_at. pose proof (le_decode_bound (slice bs off w)) as Hb.
  by rewrite len_slice in Hb.
Qed.

Lemma uint_at_splice_same w (wn : nat) bs off v :
  w = N.of_nat wn -> off + w <= len bs -> v < 256 ^ w ->
  uint_at w (splice bs off (le_encode wn v)) off = v.
Proof.
  intros -> Hr Hv. unfold uint_at.
  rewrite slice_splice_same by (rewrite ?len_le_encode; lia). by apply le_decode_encode.
Qed.

(** ** Lemmas: checksums *)

Lemma sum_bytes_app bs cs : sum_bytes (bs ++ cs) = sum_bytes bs + sum_bytes cs.
Proof. induction bs; simpl in *; lia. Qed.

Lemma checksum_fold_mod acc b : checksum_fold acc b = (acc + Byte.to_N b) mod 4294967296.
Proof. unfold checksum_fold. destruct (_ <? _) eqn:Hs; [|done]. apply N.ltb_lt in Hs. by rewrite N.mod_small. Qed.

Lemma checksum_fold_sum bs acc :
  foldl checksum_fold acc bs mod 4294967296 = (acc + sum_bytes bs) mod 4294967296.
Proof.
  revert acc; induction bs as [|b bs IH]; intros acc; simpl; [by rewrite N.add_0_r|].
  rewrite IH, checksum_fold_mod, N.Div0.add_mod_idemp_l. f_equal. lia.
Qed.

Lemma checksum_fold_bound bs acc : acc < 4294967296 -> foldl checksum_fold acc bs < 4294967296.
Proof.
  revert acc; induction bs as [|b bs IH]; intros acc Ha; simpl; [done|].
  apply IH. rewrite checksum_fold_mod. apply N.mod_upper_bound. lia.
Qed.

Lemma checksum_fold_eq bs : foldl checksum_fold 0 bs = sum_bytes bs mod 4294967296.
Proof.
  rewrite <- (N.mod_small (foldl checksum_fold 0 bs) 4294967296)
    by (apply checksum_fold_bound; lia).
  by rewrite checksum_fold_sum.
Qed.

(** ** Encoders and decoders that compose

    [writes w bs]: the encoder [w] always succeeds and appends [bs].
    [reads r bs a]: with [bs] next in the input the decoder [r] consumes exactly
    [bs] and returns [a].  [codec w r a]: [r] reads back, as [a], what [w] wrote. *)

Definition writes (w : db (list byte) unit) (bs : list byte) : Prop :=
  forall v, w v = (Ok tt, v ++ bs).

Definition reads {A} (r : db DecodeCursor A) (bs : list byte) (a : A) : Prop :=
  forall pre post, len (pre ++ bs ++ post) <= USIZE_MAX ->
    r (mkCursor (pre ++ bs ++ post) (len pre))
    = (Ok a, mkCursor (pre ++ bs ++ post) (len (pre ++ bs))).

Definition codec {A} (w : db (list byte) unit) (r : db DecodeCursor A) (a : A) : Prop :=
  exists bs, writes w bs /\ reads r bs a.

(** [safe m]: [m] never panics. *)
Definition safe {S A} (m : db S A) : Prop := forall s, fst (m s) <> Panic.

Lemma writes_ret : writes (ret tt) [].
Proof. intros v. unfold ret. by rewrite app_nil_r. Qed.

Lemma writes_extend bs : writes (extend_from_slice bs) bs.
Proof. intros v. done. Qed.

Lemma writes_bind w1 w2 bs1 bs2 :
  writes w1 bs1 -> writes w2 bs2 -> writes (let! _ := w1 in w2) (bs1 ++ bs2).
Proof. intros H1 H2 v. unfold bind_st. by rewrite H1, H2, app_assoc. Qed.

Lemma writes_push_len w max msg n :
  n <= max -> writes (push_len w max msg n) (le_encode w n).
Proof. intros Hn v. unfold push_len. by rewrite (proj2 (N.leb_le _ _) Hn). Qed.

Lemma reads_ret {A} (a : A) : reads (ret a) [] a.
Proof. intros pre post _. unfold ret. by rewrite app_nil_r. Qed.

Lemma reads_bind {A B} (m : db DecodeCursor A) (k : A -> db DecodeCursor B) b1 b2 a c :
  reads m b1 a -> reads (k a) b2 c -> reads (bind_st m k) (b1 ++ b2) c.
Proof.
  intros H1 H2 pre post Hl.
  assert (pre ++ (b1 ++ b2) ++ post = pre ++ b1 ++ b2 ++ post) as Ha by (by rewrite <- app_assoc).
  rewrite Ha in Hl |- *. rewrite (bind_st_run _ _ _ _ _ (H1 _ _ Hl)).
  assert (pre ++ b1 ++ b2 ++ post = (pre ++ b1) ++ b2 ++ post) as Hb by (by rewrite <- app_assoc).
  rewrite Hb in Hl |- *. rewrite (H2 _ _ Hl).
  by rewrite (app_assoc pre b1 b2).
Qed.

(** A step of the decoder that consumes nothing (a version test, say). *)
Lemma reads_bind_pure {A B} (m : db DecodeCursor A) (k : A -> db DecodeCursor B) a b c :
  reads m [] a -> reads (k a) b c -> reads (bind_st m k) b c.
Proof. intros H1 H2. exact (reads_bind m k [] b _ _ H1 H2). Qed.

Lemma codec_bind {A B} w1 w2 (r1 : db DecodeCursor A) (r2 : A -> db DecodeCursor B) a b :
  codec w1 r1 a -> codec w2 (r2 a) b -> codec (let! _ := w1 in w2) (bind_st r1 r2) b.
Proof.
  intros (bs1 & ? & ?) (bs2 & ? & ?). exists (bs1 ++ bs2). split.
  - by apply writes_bind.
  - by eapply reads_bind.
Qed.

Lemma codec_ret {A} (a : A) : codec (ret tt) (ret a) a.
Proof. exists []. split; [apply writes_ret|apply reads_ret]. Qed.

(** The decoder's last step maps the decoded fields into a value. *)
Lemma codec_map {A B} w (r : db DecodeCursor A) (f : A -> B) a :
  codec w r a -> codec w (let! x := r in ret (f x)) (f a).
Proof.
  intros (bs & ? & ?). exists (bs ++ []). split.
  - by rewrite app_nil_r.
  - eapply reads_bind; [done|apply reads_ret].
Qed.

Section CursorLemmas.
Context (texts : cursor_texts).

Lemma reads_bytes bs : reads (read_bytes texts (len bs)) bs bs.
Proof.
  intros pre post Hl. unfold read_bytes. simpl.
  rewrite !length_app in *. rewrite checked_add_ok by lia.
  assert (Hf : (len (pre ++ bs ++ post) <? len pre + len bs) = false)
    by (apply N.ltb_ge; rewrite !length_app; lia).
  rewrite !length_app in Hf. rewrite Hf.
  rewrite slice_checked_ok by (rewrite ?length_app; lia).
  rewrite slice_mid by lia. do 2 f_equal. lia.
Qed.

Lemma reads_uint w (wn : nat) v :
  w = N.of_nat wn -> v < 256 ^ w -> reads (cursor_uint texts w) (le_encode wn v) v.
Proof.
  intros -> Hv. unfold cursor_uint. rewrite <- (app_nil_r (le_encode wn v)).
  rewrite <- (len_le_encode wn v) at 1.
  eapply reads_bind; [apply reads_bytes|].
  rewrite <- (le_decode_encode wn v Hv) at 2. apply reads_ret.
Qed.

Lemma codec_bytes bs : codec (extend_from_slice bs) (read_bytes texts (len bs)) bs.
Proof. exists bs. split; [apply writes_extend|apply reads_bytes]. Qed.

Lemma codec_uint w (wn : nat) v :
  w = N.of_nat wn -> v < 256 ^ w -> codec (push_uint wn v) (cursor_uint texts w) v.
Proof. intros. eexists. split; [apply writes_extend|by apply reads_uint]. Qed.

Lemma codec_u8 b : codec (push b) (cursor_u8 texts) (Byte.to_N b).
Proof.
  exists [b]. split; [apply writes_extend|].
  assert (He : [b] = le_encode 1 (Byte.to_N b)) by (simpl; by rewrite byte_of_to_N).
  rewrite He. apply reads_uint; [done|]. apply to_N_lt.
Qed.

Lemma codec_i64 z :
  (I64_MIN <= z <= I64_MAX)%Z -> codec (push_uint 8 (i64_to_bits z)) (cursor_i64 texts) z.
Proof.
  intros Hz. unfold cursor_i64. rewrite <- (i64_bits_roundtrip z Hz) at 2.
  apply (codec_map _ _ i64_of_bits). apply codec_uint; [done|].
  pose proof (i64_to_bits_bound z). simpl. lia.
Qed.

(** A decoder that read the whole input passes [finish]. *)
Lemma run_codec {A} (r : db DecodeCursor A) bs a :
  reads r bs a -> len bs <= USIZE_MAX ->
  bind_st r (fun x => let! _ := finish texts in ret x) (cursor_new bs)
  = (Ok a, mkCursor bs (len bs)).
Proof.
  intros Hr Hl. specialize (Hr [] []). simpl in Hr. rewrite app_nil_r in Hr.
  rewrite (bind_st_run _ _ _ _ _ (Hr Hl)).
  unfold bind_st, finish, is_finished, ret. simpl. by rewrite N.eqb_refl.
Qed.

Lemma safe_ret {S A} (a : A) : safe (S := S) (ret a).
Proof. by intros s. Qed.
Lemma safe_throw {S A} e : safe (S := S) (A := A) (throw e).
Proof. by intros s. Qed.
Lemma safe_bind {S A B} (m : db S A) (k : A -> db S B) :
  safe m -> (forall a, safe (k a)) -> safe (bind_st m k).
Proof.
  intros Hm Hk s. unfold bind_st. specialize (Hm s).
  destruct (m s) as [[] s']; simpl in *; [apply Hk|done|done].
Qed.
Lemma safe_repeat {S A} n (m : db S A) : safe m -> safe (repeat_st n m).
Proof.
  intros Hm. induction n as [|n IH]; simpl; [apply safe_ret|].
  apply safe_bind; [done|]. intros a. apply safe_bind; [done|]. intros. apply safe_ret.
Qed.
Lemma safe_read_bytes n : safe (read_bytes texts n).
Proof.
  intros c. unfold read_bytes. destruct (checked_add _ _ _) as [stop|] eqn:Hs; [|done].
  apply checked_add_Some in Hs as [-> _]. case_test; [done|].
  by rewrite slice_checked_ok by lia.
Qed.
Lemma safe_uint w : safe (cursor_uint texts w).
Proof. apply safe_bind; [apply safe_read_bytes|]. intros; apply safe_ret. Qed.
Lemma safe_finish : safe (finish texts).
Proof. intros c. unfold finish. simpl. by destruct (is_finished c). Qed.
End CursorLemmas.

(** *** Encoders that can fail

    [codec_ok w r a]: whenever [w] succeeds, it appended bytes that [r] reads
    back as [a]. *)

Definition codec_ok {A} (w : db (list byte) unit) (r : db DecodeCursor A) (a : A) : Prop :=
  forall v v', w v = (Ok tt, v') -> exists bs, v' = v ++ bs /\ reads r bs a.

Lemma codec_ok_total {A} w (r : db DecodeCursor A) a : codec w r a -> codec_ok w r a.
Proof. intros (bs & Hw & Hr) v v' H. rewrite Hw in H. injection H as <-. by exists bs. Qed.

Lemma codec_ok_bind {A B} w1 w2 (r1 : db DecodeCursor A) (r2 : A -> db DecodeCursor B) a b :
  codec_ok w1 r1 a -> codec_ok w2 (r2 a) b -> codec_ok (let! _ := w1 in w2) (bind_st r1 r2) b.
Proof.
  intros H1 H2 v v' H. apply bind_st_inv in H as ([] & v1 & Hw1 & Hw2).
  destruct (H1 _ _ Hw1) as (bs1 & -> & Hr1). destruct (H2 _ _ Hw2) as (bs2 & -> & Hr2).
  exists (bs1 ++ bs2). split; [by rewrite app_assoc|]. by eapply reads_bind.
Qed.

(** A pure test or conversion of the decoder between two reads. *)
Lemma codec_ok_pure {A B} w (m : db DecodeCursor A) (k : A -> db DecodeCursor B) a b :
  reads m [] a -> codec_ok w (k a) b -> codec_ok w (bind_st m k) b.
Proof.
  intros Hm Hk v v' H. destruct (Hk _ _ H) as (bs & -> & Hr). exists bs. split; [done|].
  by eapply reads_bind_pure.
Qed.

Lemma codec_ok_map {A B} w (r : db DecodeCursor A) (f : A -> B) a :
  codec_ok w r a -> codec_ok w (let! x := r in ret (f x)) (f a).
Proof.
  intros H v v' Hw. destruct (H _ _ Hw) as (bs & -> & Hr). exists bs. split; [done|].
  rewrite <- (app_nil_r bs). eapply reads_bind; [exact Hr|apply reads_ret].
Qed.

Lemma codec_ok_list {A} (w : A -> db (list byte) unit) (r : db DecodeCursor A) xs :
  Forall (fun x => codec_ok (w x) r x) xs ->
  codec_ok (for_each w xs) (repeat_st (length xs) r) xs.
Proof.
  induction 1 as [|x xs Hx _ IH]; simpl; [apply codec_ok_total, codec_ret|].
  apply codec_ok_bind with x; [done|]. by apply (codec_ok_map _ _ (cons x)).
Qed.

Lemma codec_ok_len texts w (wn : nat) max msg v :
  w = N.of_nat wn -> max < 256 ^ w ->
  codec_ok (push_len wn max msg v) (cursor_uint texts w) v.
Proof.
  intros Hw Hm u u' H. unfold push_len in H. destruct (v <=? max) eqn:Hv; [|done].
  apply N.leb_le in Hv. injection H as <-. eexists. split; [done|].
  apply reads_uint; [done|lia].
Qed.

Lemma reads_lift {A} (o : DbResult A) a : o = Ok a -> reads (lift o) [] a.
Proof. intros -> pre post _. unfold lift. by rewrite app_nil_r. Qed.

#[export] Hint Resolve safe_ret safe_throw safe_bind safe_repeat safe_read_bytes
  safe_uint safe_finish : db.
#[export] Hint Resolve codec_ret codec_bytes codec_u8 codec_i64 : db.
