(* ===== verification/Page.v ===== *)
(** * Page: the slotted page of crate [rdbms_page]

    A page is a 4096-byte array: a 34-byte header, a directory of 6-byte slots
    growing up from the header, and record payloads packed down from the end.
    This file translates every operation of [impl Page]; its lemmas and
    theorems are in [PageFacts]. *)

From S2P Require Import Prelude Core Bytes.

Definition PAGE_SIZE : N := 4096.

Definition PAGE_MAGIC : N := 0x52444250.
Definition PAGE_VERSION : N := 1.
Definition HEADER_SIZE : N := 34.
Definition SLOT_SIZE : N := 6.

Definition OFF_MAGIC : N := 0.
Definition OFF_VERSION : N := 4.
Definition OFF_PAGE_TYPE : N := 6.
Definition OFF_PAGE_ID : N := 8.
Definition OFF_PAGE_LSN : N := 16.
Definition OFF_FREE_START : N := 24.
Definition OFF_FREE_END : N := 26.
Definition OFF_SLOT_COUNT : N := 28.
Definition OFF_CHECKSUM : N := 30.

Definition SLOT_UNUSED : N := 0.
Definition SLOT_LIVE : N := 1.
Definition SLOT_DEAD : N := 2.

(** Known page kinds. *)
Inductive PageType : Type := FileHeader | Heap | Catalog | FreeMap | Index.

Definition page_type_to_u16 (t : PageType) : N :=
  match t with
  | FileHeader => 1
  | Heap => 2
  | Catalog => 3
  | FreeMap => 4
  | Index => 5
  end.

Definition page_type_from_u16 (value : N) : DbResult PageType :=
  match value with
  | 1 => Ok FileHeader
  | 2 => Ok Heap
  | 3 => Ok Catalog
  | 4 => Ok FreeMap
  | 5 => Ok Index
  | _ => Err (Corruption ("unknown page type: " +:+ pretty value))
  end.

(** Parsed page header. *)
Record PageHeader : Type := mkPageHeader {
  h_page_id : PageId;
  h_page_lsn : Lsn;
  h_page_type : PageType;
  h_free_start : N;
  h_free_end : N;
  h_slot_count : N;
  h_checksum : N
}.

Record SlotEntry : Type := mkSlotEntry { s_offset : N; s_len : N; s_flags : N }.

Definition slot_entry_unused : SlotEntry := mkSlotEntry 0 0 SLOT_UNUSED.
Definition is_live (s : SlotEntry) : bool := s_flags s =? SLOT_LIVE.
Definition is_dead (s : SlotEntry) : bool := s_flags s =? SLOT_DEAD.

(** In-memory fixed-size page buffer; the array type fixes its length. *)
Record Page : Type := mkPage { bytes : list byte }.

Definition page_sized (p : Page) : Prop := len (bytes p) = PAGE_SIZE.

#[export] Instance PageType_eq_dec : EqDecision PageType.
Proof. solve_decision. Defined.
#[export] Instance SlotEntry_eq_dec : EqDecision SlotEntry.
Proof. solve_decision. Defined.
#[export] Instance byte_eq_dec : EqDecision byte := Byte.byte_eq_dec.
#[export] Instance Page_eq_dec : EqDecision Page.
Proof. solve_decision. Defined.

(** A write to the byte array through [&mut self.bytes]. *)
Definition update_bytes (f : list byte -> DbResult (list byte)) : db Page unit := fun p =>
  match f (bytes p) with
  | Ok b => (Ok tt, mkPage b)
  | Err e => (Err e, p)
  | Panic => (Panic, p)
  end.
Definition put_u16 (off v : N) : db Page unit := update_bytes (fun b => write_u16 b off v).
Definition put_u32 (off v : N) : db Page unit := update_bytes (fun b => write_u32 b off v).
Definition put_u64 (off v : N) : db Page unit := update_bytes (fun b => write_u64 b off v).
Definition put_bytes (off : N) (v : list byte) : db Page unit :=
  update_bytes (fun b => splice_checked b off v).

(** ** Checksums *)

Definition checksum (bs : list byte) : N := foldl checksum_fold 0 bs.

Definition validate_checksum (bs : list byte) (expected : N) : DbResult unit :=
  let actual := checksum bs in
  if actual =? expected then Ok tt
  else Err (Corruption ("page checksum mismatch: expected " +:+ pretty expected
                        +:+ ", got " +:+ pretty actual)).

Definition validate_page_checksum (bs : list byte) : DbResult unit :=
  let? expected := read_u32 bs OFF_CHECKSUM in
  let? copy := write_u32 bs OFF_CHECKSUM 0 in
  validate_checksum copy expected.

Definition refresh_checksum : db Page unit :=
  let! _ := put_u32 OFF_CHECKSUM 0 in
  let! value := gets (fun p => checksum (bytes p)) in
  put_u32 OFF_CHECKSUM value.

(** ** Construction *)

Definition zeroed : Page := mkPage (replicate (N.to_nat PAGE_SIZE) x00).

Definition format_page (id : PageId) (ty : PageType) : db Page unit :=
  let! _ := put_u32 OFF_MAGIC PAGE_MAGIC in
  let! _ := put_u16 OFF_VERSION PAGE_VERSION in
  let! _ := put_u16 OFF_PAGE_TYPE (page_type_to_u16 ty) in
  let! _ := put_u64 OFF_PAGE_ID id in
  let! _ := put_u64 OFF_PAGE_LSN 0 in
  let! _ := put_u16 OFF_FREE_START (as_u16 HEADER_SIZE) in
  let! _ := put_u16 OFF_FREE_END (as_u16 PAGE_SIZE) in
  let! _ := put_u16 OFF_SLOT_COUNT 0 in
  refresh_checksum.

(** [Page::new]. *)
Definition page_new (id : PageId) (ty : PageType) : Page := snd (format_page id ty zeroed).

(** ** Header and slots *)

Definition header (p : Page) : DbResult PageHeader :=
  let? magic := read_u32 (bytes p) OFF_MAGIC in
  if negb (magic =? PAGE_MAGIC) then Err (Corruption "invalid page magic") else
  let? version := read_u16 (bytes p) OFF_VERSION in
  if negb (version =? PAGE_VERSION)
  then Err (Corruption ("unsupported page version: " +:+ pretty version)) else
  let? free_start := read_u16 (bytes p) OFF_FREE_START in
  let? free_end := read_u16 (bytes p) OFF_FREE_END in
  let? slot_count := read_u16 (bytes p) OFF_SLOT_COUNT in
  let min_free_start := HEADER_SIZE + slot_count * SLOT_SIZE in
  if negb (free_start =? min_free_start)
  then Err (Corruption ("invalid free_start: expected " +:+ pretty min_free_start
                        +:+ ", got " +:+ pretty free_start)) else
  if (free_end <? free_start) || (PAGE_SIZE <? free_end)
  then Err (Corruption ("invalid free space boundaries: free_start=" +:+ pretty free_start
                        +:+ ", free_end=" +:+ pretty free_end)) else
  let? id := read_u64 (bytes p) OFF_PAGE_ID in
  let? lsn := read_u64 (bytes p) OFF_PAGE_LSN in
  let? raw_type := read_u16 (bytes p) OFF_PAGE_TYPE in
  let? ty := page_type_from_u16 raw_type in
  let? sum := read_u32 (bytes p) OFF_CHECKSUM in
  Ok (mkPageHeader id lsn ty free_start free_end slot_count sum).

Definition slot_offset (slot_index : N) : DbResult N :=
  let? offset := ok_or (checked_add USIZE_MAX HEADER_SIZE (slot_index * SLOT_SIZE))
                   (Corruption "slot offset overflow") in
  if PAGE_SIZE <? offset + SLOT_SIZE
  then Err (Corruption ("slot " +:+ pretty slot_index +:+ " is outside page"))
  else Ok offset.

Definition slot_entry (p : Page) (slot_index : N) : DbResult SlotEntry :=
  let? offset := slot_offset slot_index in
  let? o := read_u16 (bytes p) offset in
  let? l := read_u16 (bytes p) (offset + 2) in
  let? f := read_u16 (bytes p) (offset + 4) in
  Ok (mkSlotEntry o l f).

Definition write_slot_entry (slot_index : N) (slot : SlotEntry) : db Page unit :=
  let! offset := lift (slot_offset slot_index) in
  let! _ := put_u16 offset (s_offset slot) in
  let! _ := put_u16 (offset + 2) (s_len slot) in
  put_u16 (offset + 4) (s_flags slot).

(** The body of the loop of [validate]. *)
Definition validate_slot (p : Page) (h : PageHeader) (slot_index : N) : DbResult unit :=
  let? slot := slot_entry p slot_index in
  if negb (s_flags slot =? SLOT_UNUSED) && negb (s_flags slot =? SLOT_LIVE)
     && negb (s_flags slot =? SLOT_DEAD)
  then Err (Corruption ("invalid slot flags at slot " +:+ pretty slot_index +:+ ": "
                        +:+ pretty (s_flags slot)))
  else if is_live slot then
    let start := s_offset slot in
    let? stop := ok_or (checked_add USIZE_MAX start (s_len slot))
                   (Corruption "slot length overflows page") in
    if (start <? h_free_end h) || (PAGE_SIZE <? stop)
    then Err (Corruption ("slot " +:+ pretty slot_index +:+ " points outside record area"))
    else Ok tt
  else Ok tt.

(** Validate header, checksum and every live slot boundary. *)
Definition validate (p : Page) : DbResult unit :=
  let? h := header p in
  let? _ := validate_page_checksum (bytes p) in
  fold_outcome (fun _ slot_index => validate_slot p h slot_index) tt (range (h_slot_count h)).

(** Parse and validate a page copied from storage. *)
Definition from_bytes (bs : list byte) : DbResult Page :=
  let page := mkPage bs in
  let? _ := validate page in
  Ok page.

(** The first index of [indices] that holds a dead slot. *)
Fixpoint find_dead_in (p : Page) (indices : list N) : DbResult (option N) :=
  match indices with
  | [] => Ok None
  | slot_index :: rest =>
      let? slot := slot_entry p slot_index in
      if is_dead slot then Ok (Some slot_index) else find_dead_in p rest
  end.

Definition find_dead_slot (p : Page) (slot_count : N) : DbResult (option N) :=
  find_dead_in p (range slot_count).

(** ** Records *)

(** Extend the slot directory by one entry and return its index. *)
Definition append_slot (h : PageHeader) : db Page N :=
  let index := h_slot_count h in
  let! new_slot_count := lift (ok_or (checked_add U16_MAX index 1)
                                 (User "page slot count overflow")) in
  let! _ := put_u16 OFF_SLOT_COUNT new_slot_count in
  let! directory := lift (mul_panic U16_MAX new_slot_count (as_u16 SLOT_SIZE)) in
  let! new_free_start := lift (add_panic U16_MAX (as_u16 HEADER_SIZE) directory) in
  let! _ := put_u16 OFF_FREE_START new_free_start in
  ret index.

(** Insert variable-size record bytes and return a stable slot id. *)
Definition insert_record (record : list byte) : db Page SlotId :=
  if U16_MAX <? len record
  then throw (User "record is larger than u16 length limit") else
  let! h := (fun p => (header p, p)) in
  let! reusable_slot := (fun p => (find_dead_slot p (h_slot_count h), p)) in
  let slot_bytes := match reusable_slot with None => SLOT_SIZE | Some _ => 0 end in
  let! needed := lift (ok_or (checked_add USIZE_MAX (len record) slot_bytes)
                         (User "record is too large")) in
  let! free_bytes := lift (sub_panic (h_free_end h) (h_free_start h)) in
  if free_bytes <? needed
  then throw (User ("not enough free page space: need " +:+ pretty needed
                    +:+ ", have " +:+ pretty free_bytes)) else
  let! new_offset := lift (sub_panic (h_free_end h) (len record)) in
  let! _ := put_bytes new_offset record in
  let! _ := put_u16 OFF_FREE_END (as_u16 new_offset) in
  let! slot_index := match reusable_slot with
                     | Some index => ret index
                     | None => append_slot h
                     end in
  let! _ := write_slot_entry slot_index
              (mkSlotEntry (as_u16 new_offset) (as_u16 (len record)) SLOT_LIVE) in
  let! _ := refresh_checksum in
  ret slot_index.

Definition out_of_range (slot_id : SlotId) : DbError :=
  User ("slot " +:+ pretty slot_id +:+ " is out of range").

(** Read a record by slot id. Dead or unused slots return [Ok None]. *)
Definition read_record (p : Page) (slot_id : SlotId) : DbResult (option (list byte)) :=
  let? h := header p in
  if h_slot_count h <=? slot_id then Err (out_of_range slot_id) else
  let? slot := slot_entry p slot_id in
  if negb (is_live slot) then Ok None else
  let start := s_offset slot in
  let? stop := ok_or (checked_add USIZE_MAX start (s_len slot))
                 (Corruption "slot length overflows page") in
  if PAGE_SIZE <? stop then Err (Corruption "slot points past page end") else
  let? data := slice_checked (bytes p) start stop in
  Ok (Some data).

(** Mark a slot as dead. Returns [false] if the slot was already dead/unused. *)
Definition delete_record (slot_id : SlotId) : db Page bool :=
  let! h := (fun p => (header p, p)) in
  if h_slot_count h <=? slot_id then throw (out_of_range slot_id) else
  let! slot := (fun p => (slot_entry p slot_id, p)) in
  if negb (is_live slot) then ret false else
  let! _ := write_slot_entry slot_id (mkSlotEntry (s_offset slot) (s_len slot) SLOT_DEAD) in
  let! _ := refresh_checksum in
  ret true.

(** The live records of a page, with their slot ids. *)
Definition collect_live (p : Page) (h : PageHeader) : DbResult (list (N * list byte)) :=
  fold_outcome (fun live_records slot_index =>
    let? slot := slot_entry p slot_index in
    if is_live slot then
      let? r := read_record p slot_index in
      let? data := ok_or r (Corruption "live slot without data") in
      Ok (live_records ++ [(slot_index, data)])
    else Ok live_records) [] (range (h_slot_count h)).

(** Write back the collected records from the end of the page. *)
Fixpoint repack (live_records : list (N * list byte)) (free_end : N) : db Page N :=
  match live_records with
  | [] => ret free_end
  | (slot_index, data) :: rest =>
      let! new_end := lift (sub_panic free_end (len data)) in
      let! _ := put_bytes new_end data in
      let! _ := write_slot_entry slot_index
                  (mkSlotEntry (as_u16 new_end) (as_u16 (len data)) SLOT_LIVE) in
      repack rest new_end
  end.

(** Repack live record bytes while keeping live slot ids unchanged. *)
Definition compact : db Page unit :=
  let! h := (fun p => (header p, p)) in
  let! live_records := (fun p => (collect_live p h, p)) in
  let free_start := HEADER_SIZE + h_slot_count h * SLOT_SIZE in
  let! room := lift (sub_panic PAGE_SIZE free_start) in
  let! _ := put_bytes free_start (replicate (N.to_nat room) x00) in
  let! free_end := repack live_records PAGE_SIZE in
  let! _ := put_u16 OFF_FREE_END (as_u16 free_end) in
  refresh_checksum.

(** Number of live records currently stored in the page. *)
Definition live_record_count (p : Page) : DbResult N :=
  let? h := header p in
  fold_outcome (fun count slot_index =>
    let? slot := slot_entry p slot_index in
    if is_live slot then add_panic U16_MAX count 1 else Ok count) 0
    (range (h_slot_count h)).

(** Free bytes available without compaction. *)
Definition free_space (p : Page) : DbResult N :=
  let? h := header p in
  sub_panic (h_free_end h) (h_free_start h).
