(* ===== verification/PageFacts.v ===== *)
(** * PageFacts: the slotted page implements an array of variable-size cells

    The abstract page [APage] is a header plus a list of cells, a cell being
    unused, dead, or live with its bytes.  [page_rep p a] says that the 4096
    bytes of [p] represent [a].  The theorems show that every operation of
    [Page] is total on represented pages and implements the corresponding
    operation of [APage], that every represented page passes [validate], and
    that [validate] rejects every single-byte corruption. *)

From S2P Require Import Prelude Core Bytes Page.
From Stdlib Require Import ZifyClasses.

(** ** The abstract page *)

Inductive cell : Type := CUnused | CDead | CLive (data : list byte).

Record APage : Type := mkAPage {
  a_id : N;
  a_lsn : N;
  a_type : PageType;
  a_cells : list cell;
  a_free : N
}.

Definition cell_bytes (c : cell) : N := match c with CLive d => len d | _ => 0 end.
Definition live_bytes (cells : list cell) : N := foldr (fun c n => cell_bytes c + n) 0 cells.
Definition cell_is_live (c : cell) : bool := match c with CLive _ => true | _ => false end.
Definition cell_is_dead (c : cell) : bool := match c with CDead => true | _ => false end.
(** Index of the first dead cell. *)
Fixpoint first_dead (cells : list cell) : option nat :=
  match cells with
  | [] => None
  | c :: rest => if cell_is_dead c then Some O else S <$> first_dead rest
  end.

(** Directory bytes in use, and the end of free space. *)
Definition dir_end (a : APage) : N := HEADER_SIZE + len (a_cells a) * SLOT_SIZE.
Definition free_end_of (a : APage) : N := dir_end a + a_free a.

Definition a_new (id : N) (ty : PageType) : APage :=
  mkAPage id 0 ty [] (PAGE_SIZE - HEADER_SIZE).

(** Room a record needs: its bytes, plus a directory entry when no dead slot
    can be reused. *)
Definition a_needed (record : list byte) (a : APage) : N :=
  len record + match first_dead (a_cells a) with Some _ => 0 | None => SLOT_SIZE end.

Definition a_insert (record : list byte) (a : APage) : option (N * APage) :=
  if (U16_MAX <? len record) || (a_free a <? a_needed record a) then None
  else match first_dead (a_cells a) with
  | Some i => Some (N.of_nat i,
      mkAPage (a_id a) (a_lsn a) (a_type a) (<[i := CLive record]> (a_cells a))
        (a_free a - a_needed record a))
  | None => Some (len (a_cells a),
      mkAPage (a_id a) (a_lsn a) (a_type a) (a_cells a ++ [CLive record])
        (a_free a - a_needed record a))
  end.

Definition a_delete (i : nat) (a : APage) : APage :=
  mkAPage (a_id a) (a_lsn a) (a_type a) (<[i := CDead]> (a_cells a)) (a_free a).

Definition a_compact (a : APage) : APage :=
  mkAPage (a_id a) (a_lsn a) (a_type a) (a_cells a)
    (PAGE_SIZE - dir_end a - live_bytes (a_cells a)).

(** ** Representation *)

Definition slot_pos (i : N) : N := HEADER_SIZE + i * SLOT_SIZE.

Definition slot_at (p : Page) (i : N) : SlotEntry :=
  mkSlotEntry (uint_at 2 (bytes p) (slot_pos i)) (uint_at 2 (bytes p) (slot_pos i + 2))
    (uint_at 2 (bytes p) (slot_pos i + 4)).

Record header_valid (p : Page) (h : PageHeader) : Prop := {
  hv_magic : uint_at 4 (bytes p) OFF_MAGIC = PAGE_MAGIC;
  hv_version : uint_at 2 (bytes p) OFF_VERSION = PAGE_VERSION;
  hv_type : page_type_from_u16 (uint_at 2 (bytes p) OFF_PAGE_TYPE) = Ok (h_page_type h);
  hv_id : uint_at 8 (bytes p) OFF_PAGE_ID = h_page_id h;
  hv_lsn : uint_at 8 (bytes p) OFF_PAGE_LSN = h_page_lsn h;
  hv_start : uint_at 2 (bytes p) OFF_FREE_START = h_free_start h;
  hv_end : uint_at 2 (bytes p) OFF_FREE_END = h_free_end h;
  hv_count : uint_at 2 (bytes p) OFF_SLOT_COUNT = h_slot_count h;
  hv_checksum : uint_at 4 (bytes p) OFF_CHECKSUM = h_checksum h;
  hv_dir : h_free_start h = HEADER_SIZE + h_slot_count h * SLOT_SIZE;
  hv_bounds : h_free_start h <= h_free_end h /\ h_free_end h <= PAGE_SIZE
}.

Definition header_of (p : Page) (a : APage) : PageHeader :=
  mkPageHeader (a_id a) (a_lsn a) (a_type a) (dir_end a) (free_end_of a)
    (len (a_cells a)) (uint_at 4 (bytes p) OFF_CHECKSUM).

(** [free_end] is the start of the record area. *)
Definition cell_rep (p : Page) (free_end : N) (s : SlotEntry) (c : cell) : Prop :=
  match c with
  | CUnused => s_flags s = SLOT_UNUSED
  | CDead => s_flags s = SLOT_DEAD
  | CLive d => s_flags s = SLOT_LIVE /\ free_end <= s_offset s
               /\ s_offset s + s_len s <= PAGE_SIZE
               /\ slice (bytes p) (s_offset s) (s_len s) = d
  end.

Definition checksum_valid (p : Page) : Prop :=
  uint_at 4 (bytes p) OFF_CHECKSUM
  = checksum (splice (bytes p) OFF_CHECKSUM (le_encode 4 0)).

Record page_rep (p : Page) (a : APage) : Prop := {
  rep_sized : page_sized p;
  rep_header : header_valid p (header_of p a);
  rep_sum : checksum_valid p;
  rep_cells : forall (i : nat) c, a_cells a !! i = Some c ->
    cell_rep p (free_end_of a) (slot_at p (N.of_nat i)) c
}.

(** The live payloads fit in the record area.  [validate] does not check this
    (live slots may overlap), but every operation preserves it. *)
Definition packed (a : APage) : Prop :=
  live_bytes (a_cells a) + free_end_of a <= PAGE_SIZE.

(** The layout constants, made known to [lia]. *)
#[export] Instance zify_PAGE_SIZE : CstOp PAGE_SIZE := { TCst := 4096%Z; TCstInj := eq_refl }.
Add Zify CstOp zify_PAGE_SIZE.
#[export] Instance zify_HEADER_SIZE : CstOp HEADER_SIZE := { TCst := 34%Z; TCstInj := eq_refl }.
Add Zify CstOp zify_HEADER_SIZE.
#[export] Instance zify_SLOT_SIZE : CstOp SLOT_SIZE := { TCst := 6%Z; TCstInj := eq_refl }.
Add Zify CstOp zify_SLOT_SIZE.
#[export] Instance zify_OFF_MAGIC : CstOp OFF_MAGIC := { TCst := 0%Z; TCstInj := eq_refl }.
Add Zify CstOp zify_OFF_MAGIC.
#[export] Instance zify_OFF_VERSION : CstOp OFF_VERSION := { TCst := 4%Z; TCstInj := eq_refl }.
Add Zify CstOp zify_OFF_VERSION.
#[export] Instance zify_OFF_PAGE_TYPE : CstOp OFF_PAGE_TYPE := { TCst := 6%Z; TCstInj := eq_refl }.
Add Zify CstOp zify_OFF_PAGE_TYPE.
#[export] Instance zify_OFF_PAGE_ID : CstOp OFF_PAGE_ID := { TCst := 8%Z; TCstInj := eq_refl }.
Add Zify CstOp zify_OFF_PAGE_ID.
#[export] Instance zify_OFF_PAGE_LSN : CstOp OFF_PAGE_LSN := { TCst := 16%Z; TCstInj := eq_refl }.
Add Zify CstOp zify_OFF_PAGE_LSN.
#[export] Instance zify_OFF_FREE_START : CstOp OFF_FREE_START := { TCst := 24%Z; TCstInj := eq_refl }.
Add Zify CstOp zify_OFF_FREE_START.
#[export] Instance zify_OFF_FREE_END : CstOp OFF_FREE_END := { TCst := 26%Z; TCstInj := eq_refl }.
Add Zify CstOp zify_OFF_FREE_END.
#[export] Instance zify_OFF_SLOT_COUNT : CstOp OFF_SLOT_COUNT := { TCst := 28%Z; TCstInj := eq_refl }.
Add Zify CstOp zify_OFF_SLOT_COUNT.
#[export] Instance zify_OFF_CHECKSUM : CstOp OFF_CHECKSUM := { TCst := 30%Z; TCstInj := eq_refl }.
Add Zify CstOp zify_OFF_CHECKSUM.
#[export] Instance zify_USIZE_MAX : CstOp USIZE_MAX := { TCst := 18446744073709551615%Z; TCstInj := eq_refl }.
Add Zify CstOp zify_USIZE_MAX.
#[export] Instance zify_U64_MAX : CstOp U64_MAX := { TCst := 18446744073709551615%Z; TCstInj := eq_refl }.
Add Zify CstOp zify_U64_MAX.
#[export] Instance zify_U16_MAX : CstOp U16_MAX := { TCst := 65535%Z; TCstInj := eq_refl }.
Add Zify CstOp zify_U16_MAX.

Ltac page_lia := unfold page_sized, free_end_of, dir_end, slot_pos in *; lia.

(** ** Pure page writes *)

Definition wr (off : N) (v : list byte) (p : Page) : Page := mkPage (splice (bytes p) off v).
Definition wr_uint (w : nat) (off v : N) (p : Page) : Page := wr off (le_encode w v) p.

Arguments wr : simpl never.
Arguments wr_uint : simpl never.

Lemma page_sized_wr off v p :
  page_sized p -> off + len v <= PAGE_SIZE -> page_sized (wr off v p).
Proof. unfold page_sized, wr. cbn [bytes]. intros Hp Hv. rewrite length_splice; lia. Qed.

Lemma page_sized_wr_uint w off v p :
  page_sized p -> off + N.of_nat w <= PAGE_SIZE -> page_sized (wr_uint w off v p).
Proof. intros. apply page_sized_wr; [done|]. by rewrite len_le_encode. Qed.

Lemma put_bytes_run off v p :
  page_sized p -> off + len v <= PAGE_SIZE -> put_bytes off v p = (Ok tt, wr off v p).
Proof.
  unfold page_sized. intros Hp Hv. unfold put_bytes, update_bytes.
  by rewrite splice_checked_ok by lia.
Qed.

Lemma put_uint_run w off v p :
  page_sized p -> off + N.of_nat w <= PAGE_SIZE ->
  update_bytes (fun b => write_uint w b off v) p = (Ok tt, wr_uint w off v p).
Proof.
  unfold page_sized. intros Hp Hv. unfold update_bytes.
  by rewrite write_uint_ok by lia.
Qed.

Lemma slice_wr_other off v p o n :
  page_sized p -> off + len v <= PAGE_SIZE -> o + n <= off \/ off + len v <= o ->
  slice (bytes (wr off v p)) o n = slice (bytes p) o n.
Proof. unfold page_sized, wr. intros. cbn [bytes]. apply slice_splice_other; lia. Qed.

Lemma slice_wr_same off v p n :
  page_sized p -> off + len v <= PAGE_SIZE -> n = len v ->
  slice (bytes (wr off v p)) off n = v.
Proof. unfold page_sized, wr. intros. cbn [bytes]. apply slice_splice_same; lia. Qed.

Lemma uint_at_wr_other w off v p o :
  page_sized p -> off + len v <= PAGE_SIZE -> o + w <= off \/ off + len v <= o ->
  uint_at w (bytes (wr off v p)) o = uint_at w (bytes p) o.
Proof. intros. unfold uint_at. by rewrite slice_wr_other. Qed.

Lemma uint_at_wr_uint_other w wn off v p o :
  page_sized p -> off + N.of_nat wn <= PAGE_SIZE -> o + w <= off \/ off + N.of_nat wn <= o ->
  uint_at w (bytes (wr_uint wn off v p)) o = uint_at w (bytes p) o.
Proof. intros. apply uint_at_wr_other; rewrite ?len_le_encode; done. Qed.

Lemma slice_wr_uint_other wn off v p o n :
  page_sized p -> off + N.of_nat wn <= PAGE_SIZE -> o + n <= off \/ off + N.of_nat wn <= o ->
  slice (bytes (wr_uint wn off v p)) o n = slice (bytes p) o n.
Proof. intros. apply slice_wr_other; rewrite ?len_le_encode; done. Qed.

Lemma uint_at_wr_uint_same w wn off v p :
  page_sized p -> w = N.of_nat wn -> off + w <= PAGE_SIZE -> v < 256 ^ w ->
  uint_at w (bytes (wr_uint wn off v p)) off = v.
Proof.
  unfold page_sized. intros. unfold wr_uint, wr. cbn [bytes].
  apply uint_at_splice_same; [done|lia|done].
Qed.

Create HintDb page.
#[export] Hint Resolve page_sized_wr page_sized_wr_uint rep_sized : page.


(** ** Header and slots of a page *)

Lemma header_run p h : page_sized p -> header_valid p h -> header p = Ok h.
Proof.
  intros Hp [Hm Hv Ht Hi Hl Hs He Hc Hk Hd [Hb1 Hb2]].
  unfold header, read_u16, read_u32, read_u64.
  rewrite !read_uint_ok by page_lia. cbn [bind_outcome].
  rewrite Hm, Hv, Hs, He, Hc, Hi, Hl, Hk, Ht, !N.eqb_refl. cbn [negb bind_outcome].
  rewrite (proj2 (N.eqb_eq _ _) Hd). cbn [negb].
  rewrite (proj2 (N.ltb_ge _ _) Hb1), (proj2 (N.ltb_ge _ _) Hb2). by destruct h.
Qed.

Lemma header_inv p h : page_sized p -> header p = Ok h -> header_valid p h.
Proof.
  intros Hp. unfold header, read_u16, read_u32, read_u64.
  rewrite !read_uint_ok by page_lia. cbn [bind_outcome].
  intros H. steps_in H. split; simpl; done.
Qed.

Lemma header_no_panic p : page_sized p -> header p <> Panic.
Proof.
  intros Hp. unfold header, read_u16, read_u32, read_u64.
  rewrite !read_uint_ok by page_lia. cbn [bind_outcome].
  repeat (case_test; [done|]).
  unfold page_type_from_u16. by repeat case_match.
Qed.

Lemma header_slot_bound p h : header_valid p h -> slot_pos (h_slot_count h) <= PAGE_SIZE.
Proof. intros [? ? ? ? ? ? ? ? ? Hd [? ?]]. unfold slot_pos. lia. Qed.

Lemma slot_offset_run i : slot_pos i + SLOT_SIZE <= PAGE_SIZE -> slot_offset i = Ok (slot_pos i).
Proof.
  intros Hi. unfold slot_offset. rewrite checked_add_ok by page_lia. cbn [ok_or bind_outcome].
  rewrite (proj2 (N.ltb_ge _ _)) by page_lia. done.
Qed.

Lemma slot_entry_run p i :
  page_sized p -> slot_pos i + SLOT_SIZE <= PAGE_SIZE -> slot_entry p i = Ok (slot_at p i).
Proof.
  intros Hp Hi. unfold slot_entry, read_u16. rewrite slot_offset_run by done.
  cbn [bind_outcome]. rewrite !read_uint_ok by page_lia. done.
Qed.

Definition wr_slot (i : N) (s : SlotEntry) (p : Page) : Page :=
  wr_uint 2 (slot_pos i + 4) (s_flags s)
    (wr_uint 2 (slot_pos i + 2) (s_len s) (wr_uint 2 (slot_pos i) (s_offset s) p)).

Lemma page_sized_wr_slot i s p :
  page_sized p -> slot_pos i + SLOT_SIZE <= PAGE_SIZE -> page_sized (wr_slot i s p).
Proof. intros. unfold wr_slot. repeat apply page_sized_wr_uint; try done; page_lia. Qed.

Lemma write_slot_entry_run i s p :
  page_sized p -> slot_pos i + SLOT_SIZE <= PAGE_SIZE ->
  write_slot_entry i s p = (Ok tt, wr_slot i s p).
Proof.
  intros Hp Hi. unfold write_slot_entry, put_u16, write_u16, bind_st, lift.
  rewrite slot_offset_run by done.
  rewrite put_uint_run by page_lia.
  rewrite put_uint_run by (try apply page_sized_wr_uint; page_lia || done).
  rewrite put_uint_run by (repeat apply page_sized_wr_uint; page_lia || done). done.
Qed.

(** A write of [n] bytes at [off] leaves a read range alone. *)
Definition frame (p p' : Page) (off n : N) : Prop :=
  forall o m, o + m <= off \/ off + n <= o -> slice (bytes p') o m = slice (bytes p) o m.

Lemma frame_wr off v p : page_sized p -> off + len v <= PAGE_SIZE -> frame p (wr off v p) off (len v).
Proof. intros ? ? o m ?. by apply slice_wr_other. Qed.

Lemma frame_wr_uint w off v p :
  page_sized p -> off + N.of_nat w <= PAGE_SIZE -> frame p (wr_uint w off v p) off (N.of_nat w).
Proof. intros ? ? o m ?. by apply slice_wr_uint_other. Qed.

Lemma frame_wr_slot i s p :
  page_sized p -> slot_pos i + SLOT_SIZE <= PAGE_SIZE ->
  frame p (wr_slot i s p) (slot_pos i) SLOT_SIZE.
Proof.
  intros Hp Hi o m Hd. unfold wr_slot.
  rewrite slice_wr_uint_other by (try (repeat apply page_sized_wr_uint); page_lia || done).
  rewrite slice_wr_uint_other by (try (repeat apply page_sized_wr_uint); page_lia || done).
  apply slice_wr_uint_other; page_lia || done.
Qed.

Lemma frame_uint p p' off n w o :
  frame p p' off n -> o + w <= off \/ off + n <= o ->
  uint_at w (bytes p') o = uint_at w (bytes p) o.
Proof. intros Hf Hd. unfold uint_at. by rewrite Hf. Qed.

Lemma frame_slot_at p p' off n i :
  frame p p' off n -> slot_pos i + SLOT_SIZE <= off \/ off + n <= slot_pos i ->
  slot_at p' i = slot_at p i.
Proof.
  intros Hf Hd. unfold slot_at.
  rewrite !(frame_uint _ _ _ _ _ _ Hf) by page_lia. done.
Qed.

Lemma slot_at_wr_slot_same i s p :
  page_sized p -> slot_pos i + SLOT_SIZE <= PAGE_SIZE ->
  s_offset s <= U16_MAX -> s_len s <= U16_MAX -> s_flags s <= U16_MAX ->
  slot_at (wr_slot i s p) i = s.
Proof.
  intros Hp Hi Ho Hl Hf. unfold slot_at, wr_slot. destruct s as [o l f].
  cbn [s_offset s_len s_flags] in *. f_equal.
  - rewrite !uint_at_wr_uint_other by (try (repeat apply page_sized_wr_uint); page_lia || done).
    apply uint_at_wr_uint_same; try done; page_lia.
  - rewrite uint_at_wr_uint_other by (try (repeat apply page_sized_wr_uint); page_lia || done).
    apply uint_at_wr_uint_same; try done; try apply page_sized_wr_uint; page_lia || done.
  - apply uint_at_wr_uint_same; try done; try (repeat apply page_sized_wr_uint); page_lia || done.
Qed.
#[export] Hint Resolve page_sized_wr_slot : page.

(** ** Checksums *)

Definition seal (p : Page) : Page :=
  wr_uint 4 OFF_CHECKSUM (checksum (bytes (wr_uint 4 OFF_CHECKSUM 0 p)))
    (wr_uint 4 OFF_CHECKSUM 0 p).

Lemma checksum_bound bs : checksum bs < 256 ^ 4.
Proof. unfold checksum. apply checksum_fold_bound. lia. Qed.

Lemma page_sized_seal p : page_sized p -> page_sized (seal p).
Proof. intros. unfold seal. repeat apply page_sized_wr_uint; try done; page_lia. Qed.
#[export] Hint Resolve page_sized_seal : page.

Lemma refresh_checksum_run p : page_sized p -> refresh_checksum p = (Ok tt, seal p).
Proof.
  intros Hp. unfold refresh_checksum, put_u32, write_u32, bind_st, gets.
  rewrite put_uint_run by page_lia.
  rewrite put_uint_run by (try apply page_sized_wr_uint; page_lia || done). done.
Qed.

Lemma frame_seal p : page_sized p -> frame p (seal p) OFF_CHECKSUM 4.
Proof.
  intros Hp o n Hd. unfold seal.
  rewrite slice_wr_uint_other by (try apply page_sized_wr_uint; page_lia || done).
  apply slice_wr_uint_other; page_lia || done.
Qed.

Lemma checksum_valid_seal p : page_sized p -> checksum_valid (seal p).
Proof.
  intros Hp. unfold checksum_valid, seal.
  rewrite uint_at_wr_uint_same; [|by apply page_sized_wr_uint; page_lia|done|page_lia
                                 |apply checksum_bound].
  unfold wr_uint, wr. cbn [bytes]. f_equal.
  rewrite !splice_splice_same; rewrite ?length_splice; rewrite ?length_le_encode; page_lia || done.
Qed.

Lemma validate_page_checksum_spec p :
  page_sized p ->
  (validate_page_checksum (bytes p) = Ok tt /\ checksum_valid p) \/
  (exists m, validate_page_checksum (bytes p) = Err (Corruption m) /\ ~ checksum_valid p).
Proof.
  intros Hp. unfold validate_page_checksum, read_u32, write_u32, checksum_valid, validate_checksum.
  rewrite read_uint_ok, write_uint_ok by page_lia. cbn [bind_outcome].
  case_test; [left|right; eexists]; split; done.
Qed.

Lemma validate_page_checksum_iff p :
  page_sized p -> validate_page_checksum (bytes p) = Ok tt <-> checksum_valid p.
Proof.
  intros Hp. destruct (validate_page_checksum_spec p Hp) as [[H1 H2]|(m & H1 & H2)];
    rewrite H1; split; done.
Qed.

(** ** Reading through the writes *)

Lemma uint_at_seal_other w p o :
  page_sized p -> o + w <= OFF_CHECKSUM \/ OFF_CHECKSUM + 4 <= o ->
  uint_at w (bytes (seal p)) o = uint_at w (bytes p) o.
Proof. intros Hp ?. by apply (frame_uint _ _ _ _ _ _ (frame_seal p Hp)). Qed.

Lemma slice_seal_other p o n :
  page_sized p -> o + n <= OFF_CHECKSUM \/ OFF_CHECKSUM + 4 <= o ->
  slice (bytes (seal p)) o n = slice (bytes p) o n.
Proof. intros Hp ?. by apply frame_seal. Qed.

Lemma slot_at_seal p i : page_sized p -> slot_at (seal p) i = slot_at p i.
Proof. intros Hp. apply (frame_slot_at _ _ _ _ _ (frame_seal p Hp)). page_lia. Qed.

Lemma uint_at_wr_slot_other w i s p o :
  page_sized p -> slot_pos i + SLOT_SIZE <= PAGE_SIZE ->
  o + w <= slot_pos i \/ slot_pos i + SLOT_SIZE <= o ->
  uint_at w (bytes (wr_slot i s p)) o = uint_at w (bytes p) o.
Proof. intros Hp Hi ?. by apply (frame_uint _ _ _ _ _ _ (frame_wr_slot i s p Hp Hi)). Qed.

Lemma slice_wr_slot_other i s p o n :
  page_sized p -> slot_pos i + SLOT_SIZE <= PAGE_SIZE ->
  o + n <= slot_pos i \/ slot_pos i + SLOT_SIZE <= o ->
  slice (bytes (wr_slot i s p)) o n = slice (bytes p) o n.
Proof. intros Hp Hi ?. by apply frame_wr_slot. Qed.

Lemma slot_at_wr_slot_other i j s p :
  page_sized p -> slot_pos i + SLOT_SIZE <= PAGE_SIZE -> i <> j ->
  slot_at (wr_slot i s p) j = slot_at p j.
Proof.
  intros Hp Hi Hij. apply (frame_slot_at _ _ _ _ _ (frame_wr_slot i s p Hp Hi)). page_lia.
Qed.

Lemma slot_at_wr_uint_other w off v p i :
  page_sized p -> off + N.of_nat w <= PAGE_SIZE ->
  slot_pos i + SLOT_SIZE <= off \/ off + N.of_nat w <= slot_pos i ->
  slot_at (wr_uint w off v p) i = slot_at p i.
Proof. intros Hp Hw Hd. by apply (frame_slot_at _ _ _ _ _ (frame_wr_uint w off v p Hp Hw)). Qed.

Lemma slot_at_wr_other off v p i :
  page_sized p -> off + len v <= PAGE_SIZE -> slot_pos i + SLOT_SIZE <= off ->
  slot_at (wr off v p) i = slot_at p i.
Proof. intros Hp Hw Hd. apply (frame_slot_at _ _ _ _ _ (frame_wr off v p Hp Hw)). by left. Qed.

Lemma slot_at_bounds p i :
  page_sized p -> slot_pos i + SLOT_SIZE <= PAGE_SIZE ->
  s_offset (slot_at p i) <= U16_MAX /\ s_len (slot_at p i) <= U16_MAX
  /\ s_flags (slot_at p i) <= U16_MAX.
Proof.
  intros Hp Hi. unfold slot_at. cbn [s_offset s_len s_flags].
  pose proof (uint_at_bound 2 (bytes p) (slot_pos i)).
  pose proof (uint_at_bound 2 (bytes p) (slot_pos i + 2)).
  pose proof (uint_at_bound 2 (bytes p) (slot_pos i + 4)). page_lia.
Qed.

(** From here on pages are read through the lemmas above. *)
#[global] Opaque wr wr_uint wr_slot seal slot_at uint_at.

(** Solve [page_sized] goals and the side conditions of the frame lemmas. *)
Ltac sized :=
  lazymatch goal with
  | |- page_sized (seal _) => apply page_sized_seal; sized
  | |- page_sized (wr_slot _ _ _) => apply page_sized_wr_slot; sized
  | |- page_sized (wr_uint _ _ _ _) => apply page_sized_wr_uint; sized
  | |- page_sized (wr _ _ _) => apply page_sized_wr; sized
  | |- page_sized _ => eassumption
  | |- _ => page_lia
  end.

(** Push a read through every write it does not overlap. *)
Ltac frame_rw :=
  repeat first
    [ rewrite uint_at_seal_other by (sized; page_lia)
    | rewrite uint_at_wr_slot_other by (sized; page_lia)
    | rewrite uint_at_wr_uint_other by (sized; page_lia)
    | rewrite uint_at_wr_other by (sized; page_lia)
    | rewrite slice_seal_other by (sized; page_lia)
    | rewrite slice_wr_slot_other by (sized; page_lia)
    | rewrite slice_wr_uint_other by (sized; page_lia)
    | rewrite slice_wr_other by (sized; page_lia)
    | rewrite slot_at_seal by sized
    | rewrite slot_at_wr_slot_other by (sized; page_lia)
    | rewrite slot_at_wr_uint_other by (sized; page_lia)
    | rewrite slot_at_wr_other by (sized; page_lia) ].

(** ** Cells *)

Lemma cell_rep_live p fe s c : cell_rep p fe s c -> is_live s = cell_is_live c.
Proof.
  unfold is_live. destruct c; simpl; [intros ->|intros ->|intros (-> & _)]; done.
Qed.

Lemma cell_rep_dead p fe s c : cell_rep p fe s c -> is_dead s = cell_is_dead c.
Proof.
  unfold is_dead. destruct c; simpl; [intros ->|intros ->|intros (-> & _)]; done.
Qed.

(** A cell survives any change that keeps its bytes and lowers the record area. *)
Lemma cell_rep_mono p p' fe fe' s c :
  cell_rep p fe s c -> fe' <= fe ->
  (forall o n, fe <= o -> o + n <= PAGE_SIZE -> slice (bytes p') o n = slice (bytes p) o n) ->
  cell_rep p' fe' s c.
Proof.
  destruct c as [| |d]; simpl; [done|done|]. intros (Hf & Ho & Hl & Hs) Hfe Hfr.
  repeat split; try done; [lia|]. by rewrite Hfr.
Qed.

Section Rep.
Context (p : Page) (a : APage) (Hrep : page_rep p a).

Lemma rep_header_run : header p = Ok (header_of p a).
Proof. destruct Hrep. by apply header_run. Qed.

Lemma rep_slot_bound (i : nat) :
  (i < length (a_cells a))%nat -> slot_pos (N.of_nat i) + SLOT_SIZE <= dir_end a.
Proof. intros Hi. unfold slot_pos, dir_end. page_lia. Qed.

Lemma rep_dir_end : dir_end a <= free_end_of a /\ free_end_of a <= PAGE_SIZE.
Proof. destruct Hrep as [_ Hh _ _]. apply (hv_bounds _ _ Hh). Qed.

Lemma rep_slot_entry (i : nat) :
  (i < length (a_cells a))%nat -> slot_entry p (N.of_nat i) = Ok (slot_at p (N.of_nat i)).
Proof.
  intros Hi. apply slot_entry_run; [apply Hrep|].
  pose proof (rep_slot_bound i Hi). pose proof rep_dir_end. lia.
Qed.

(** Every slot of the directory has a cell. *)
Lemma rep_cell (i : nat) :
  (i < length (a_cells a))%nat ->
  exists c, a_cells a !! i = Some c
            /\ cell_rep p (free_end_of a) (slot_at p (N.of_nat i)) c.
Proof.
  intros Hi. destruct (lookup_lt_is_Some_2 _ _ Hi) as [c Hc].
  exists c. split; [done|]. by apply (rep_cells _ _ Hrep).
Qed.
End Rep.

(** A loop over the slots of the page is a loop over the cells. *)
Lemma fold_cells {A} (f : A -> N -> DbResult A) (g : A -> cell -> nat -> A) cells k acc :
  (forall x (i : nat) c, cells !! i = Some c -> f x (N.of_nat (k + i)) = Ok (g x c (k + i)%nat)) ->
  fold_outcome f acc (N.of_nat <$> seq k (length cells))
  = Ok (fst (foldl (fun '(x, i) c => (g x c i, S i)) (acc, k) cells)).
Proof.
  revert k acc; induction cells as [|c cells IH]; intros k acc Hf; simpl; [done|].
  pose proof (Hf acc 0%nat c eq_refl) as H0. rewrite Nat.add_0_r in H0. rewrite H0. simpl.
  apply IH. intros x i c' Hc'. specialize (Hf x (S i) c' Hc').
  by rewrite Nat.add_succ_r in Hf.
Qed.

(** ** Validation is exactly representation *)

(** The cell a directory entry denotes, and the abstract page of a header. *)
Definition cell_at (p : Page) (i : N) : cell :=
  let s := slot_at p i in
  if is_live s then CLive (slice (bytes p) (s_offset s) (s_len s))
  else if is_dead s then CDead else CUnused.

Definition abstract (p : Page) (h : PageHeader) : APage :=
  mkAPage (h_page_id h) (h_page_lsn h) (h_page_type h)
    (cell_at p <$> range (h_slot_count h)) (h_free_end h - h_free_start h).

Lemma dir_end_abstract p h : header_valid p h -> dir_end (abstract p h) = h_free_start h.
Proof.
  intros Hh. unfold dir_end, abstract. cbn [a_cells].
  rewrite length_fmap, range_length, N2Nat.id. symmetry. apply (hv_dir _ _ Hh).
Qed.

Lemma free_end_abstract p h : header_valid p h -> free_end_of (abstract p h) = h_free_end h.
Proof.
  intros Hh. unfold free_end_of. rewrite dir_end_abstract by done. cbn [abstract a_free].
  pose proof (hv_bounds _ _ Hh). lia.
Qed.

Lemma header_of_abstract p h : header_valid p h -> header_of p (abstract p h) = h.
Proof.
  intros Hh. unfold header_of. rewrite dir_end_abstract, free_end_abstract by done.
  cbn [abstract a_id a_lsn a_type a_cells].
  rewrite length_fmap, range_length, N2Nat.id, (hv_checksum _ _ Hh). by destruct h.
Qed.

Lemma fold_unit_iff {B} (f : B -> DbResult unit) xs :
  fold_outcome (fun _ x => f x) tt xs = Ok tt <-> Forall (fun x => f x = Ok tt) xs.
Proof.
  induction xs as [|x xs IH]; simpl; [split; [constructor|done]|].
  rewrite Forall_cons, <- IH. destruct (f x) as [[]| |]; simpl; [tauto|..];
    split; [done|intros [? _]; done|done|intros [? _]; done].
Qed.

(** What the loop body of [validate] accepts. *)
Lemma validate_slot_iff p h i :
  page_sized p -> slot_pos i + SLOT_SIZE <= PAGE_SIZE ->
  validate_slot p h i = Ok tt <-> cell_rep p (h_free_end h) (slot_at p i) (cell_at p i).
Proof.
  intros Hp Hi. unfold validate_slot. rewrite slot_entry_run by done. cbn [bind_outcome].
  set (s := slot_at p i).
  assert (s_offset s + s_len s <= U16_MAX + U16_MAX).
  { destruct (slot_at_bounds p i Hp Hi) as (? & ? & _). unfold s. lia. }
  rewrite checked_add_ok by page_lia. cbn [ok_or bind_outcome].
  unfold cell_at. fold s. unfold is_live, is_dead, SLOT_UNUSED, SLOT_LIVE, SLOT_DEAD.
  destruct (s_flags s =? 1) eqn:H1; destruct (s_flags s =? 2) eqn:H2;
    destruct (s_flags s =? 0) eqn:H0; reflect_bool; simpl; try lia; try tauto.
  - case_test.
    { split; [done|]. intros (_ & ? & ? & _). apply orb_true_iff in Hb as [?|?];
        reflect_bool; lia. }
    split; [|done]. intros _. repeat split; try done; lia.
  - split; [done|]. by intros ?.
Qed.

Theorem validate_abstract p h :
  page_sized p -> header p = Ok h -> validate p = Ok tt -> page_rep p (abstract p h).
Proof.
  intros Hp Hh Hv. pose proof (header_inv _ _ Hp Hh) as Hhv.
  unfold validate in Hv. rewrite Hh in Hv. cbn [bind_outcome] in Hv.
  step_in Hv. destruct a. apply validate_page_checksum_iff in Hm; [|done].
  apply fold_unit_iff in Hv. rewrite Forall_forall in Hv.
  split; [done|by rewrite header_of_abstract|done|].
  rewrite free_end_abstract by done. cbn [abstract a_cells]. intros i c Hc.
  rewrite list_lookup_fmap in Hc. apply fmap_Some in Hc as (j & Hj & ->).
  pose proof (lookup_lt_Some _ _ _ Hj) as Hlt. rewrite range_length in Hlt.
  pose proof (range_lookup (N.of_nat i) (h_slot_count h) ltac:(lia)) as Hr.
  rewrite Nat2N.id, Hj in Hr. injection Hr as ->.
  apply validate_slot_iff; [done| |].
  - pose proof (header_slot_bound _ _ Hhv). page_lia.
  - apply Hv, elem_of_range. lia.
Qed.

Lemma validate_rep p a : page_rep p a -> validate p = Ok tt.
Proof.
  intros Hrep. unfold validate. rewrite (rep_header_run p a Hrep). cbn [bind_outcome].
  rewrite (proj2 (validate_page_checksum_iff p (rep_sized _ _ Hrep)) (rep_sum _ _ Hrep)).
  cbn [bind_outcome]. apply fold_unit_iff, Forall_forall. intros i Hi.
  apply elem_of_range in Hi. cbn [header_of h_slot_count] in Hi.
  destruct (rep_cell p a Hrep (N.to_nat i) ltac:(lia)) as (c & Hc & Hcr).
  rewrite N2Nat.id in Hcr.
  pose proof (rep_slot_bound a (N.to_nat i) ltac:(lia)) as Hb. rewrite N2Nat.id in Hb.
  pose proof (rep_dir_end p a Hrep).
  apply validate_slot_iff; [apply Hrep|lia|].
  unfold cell_at. rewrite (cell_rep_live _ _ _ _ Hcr), (cell_rep_dead _ _ _ _ Hcr).
  destruct c; [exact Hcr|exact Hcr|]. destruct Hcr as (? & ? & ? & ?). by repeat split.
Qed.

(** ** Reading *)

Definition a_read (a : APage) (i : N) : DbResult (option (list byte)) :=
  match a_cells a !! N.to_nat i with
  | None => Err (out_of_range i)
  | Some (CLive d) => Ok (Some d)
  | Some _ => Ok None
  end.

Lemma read_record_refines p a i : page_rep p a -> read_record p i = a_read a i.
Proof.
  intros Hrep. unfold read_record, a_read. rewrite (rep_header_run p a Hrep).
  cbn [bind_outcome header_of h_slot_count].
  destruct (decide (i < len (a_cells a))) as [Hi|Hi].
  - rewrite (proj2 (N.leb_gt _ _) Hi).
    destruct (rep_cell p a Hrep (N.to_nat i) ltac:(lia)) as (c & -> & Hcr).
    pose proof (rep_slot_entry p a Hrep (N.to_nat i) ltac:(lia)) as Hs.
    rewrite N2Nat.id in Hs, Hcr. rewrite Hs. cbn [bind_outcome].
    rewrite (cell_rep_live _ _ _ _ Hcr). destruct c as [| |d]; try done.
    cbn [negb cell_is_live]. destruct Hcr as (_ & ? & Hl & <-).
    rewrite checked_add_ok by page_lia. cbn [ok_or bind_outcome].
    rewrite (proj2 (N.ltb_ge _ _) Hl).
    rewrite slice_checked_ok by (pose proof (rep_sized _ _ Hrep); page_lia).
    cbn [bind_outcome]. do 3 f_equal. lia.
  - rewrite (proj2 (N.leb_le _ _)) by lia. by rewrite lookup_ge_None_2 by lia.
Qed.

Lemma free_space_refines p a : page_rep p a -> free_space p = Ok (a_free a).
Proof.
  intros Hrep. unfold free_space. rewrite (rep_header_run p a Hrep).
  cbn [bind_outcome header_of h_free_end h_free_start].
  rewrite sub_panic_ok by (unfold free_end_of; lia). f_equal. unfold free_end_of. lia.
Qed.

Lemma find_dead_in_refines p k cells :
  (forall (i : nat) c, cells !! i = Some c ->
     slot_entry p (N.of_nat (k + i)) = Ok (slot_at p (N.of_nat (k + i)))
     /\ is_dead (slot_at p (N.of_nat (k + i))) = cell_is_dead c) ->
  find_dead_in p (N.of_nat <$> seq k (length cells))
  = Ok ((fun i => N.of_nat (k + i)) <$> first_dead cells).
Proof.
  revert k; induction cells as [|c cells IH]; intros k Hc; simpl; [done|].
  destruct (Hc 0%nat c eq_refl) as [He Hd]. rewrite Nat.add_0_r in He, Hd.
  rewrite He. cbn [bind_outcome]. rewrite Hd. destruct (cell_is_dead c).
  - simpl. by rewrite Nat.add_0_r.
  - rewrite IH.
    + destruct (first_dead cells); simpl; [|done]. do 3 f_equal. lia.
    + intros i c' Hc'. specialize (Hc (S i) c' Hc'). by rewrite Nat.add_succ_r in Hc.
Qed.

Lemma find_dead_slot_refines p a :
  page_rep p a ->
  find_dead_slot p (len (a_cells a)) = Ok (N.of_nat <$> first_dead (a_cells a)).
Proof.
  intros Hrep. unfold find_dead_slot, range. rewrite Nat2N.id.
  apply find_dead_in_refines. intros i c Hc. simpl.
  pose proof (lookup_lt_Some _ _ _ Hc). split; [by apply (rep_slot_entry p a Hrep)|].
  eapply cell_rep_dead. by apply (rep_cells _ _ Hrep).
Qed.

Lemma first_dead_Some cells i : first_dead cells = Some i -> cells !! i = Some CDead.
Proof.
  revert i; induction cells as [|c cells IH]; intros i; simpl; [done|].
  destruct c; simpl; try (intros [= <-]; done);
    destruct (first_dead cells) as [j|]; simpl; intros [= <-]; simpl; auto.
Qed.

(** ** Construction *)

Definition formatted (id : N) (ty : PageType) : Page :=
  seal (wr_uint 2 OFF_SLOT_COUNT 0 (wr_uint 2 OFF_FREE_END (as_u16 PAGE_SIZE)
    (wr_uint 2 OFF_FREE_START (as_u16 HEADER_SIZE) (wr_uint 8 OFF_PAGE_LSN 0
      (wr_uint 8 OFF_PAGE_ID id (wr_uint 2 OFF_PAGE_TYPE (page_type_to_u16 ty)
        (wr_uint 2 OFF_VERSION PAGE_VERSION (wr_uint 4 OFF_MAGIC PAGE_MAGIC zeroed)))))))).

Lemma page_sized_zeroed : page_sized zeroed.
Proof. unfold page_sized, zeroed. cbn [bytes]. rewrite length_replicate. page_lia. Qed.

Lemma format_page_run id ty : format_page id ty zeroed = (Ok tt, formatted id ty).
Proof.
  pose proof page_sized_zeroed.
  unfold format_page, put_u16, put_u32, put_u64, write_u16, write_u32, write_u64, bind_st.
  do 8 (rewrite put_uint_run by (sized; page_lia)).
  apply refresh_checksum_run. sized.
Qed.

Lemma page_type_roundtrip ty : page_type_from_u16 (page_type_to_u16 ty) = Ok ty.
Proof. by destruct ty. Qed.

Lemma page_new_refines id ty : id <= U64_MAX -> page_rep (page_new id ty) (a_new id ty).
Proof.
  intros Hid. pose proof page_sized_zeroed.
  unfold page_new. rewrite format_page_run. cbn [snd].
  split; [unfold formatted; sized| |apply checksum_valid_seal; sized|done].
  split; cbn; try done.
  all: try (unfold formatted; frame_rw; apply uint_at_wr_uint_same; [sized|done|page_lia|page_lia]).
  unfold formatted. frame_rw.
  rewrite uint_at_wr_uint_same; [apply page_type_roundtrip|sized|done|page_lia|].
  by destruct ty.
Qed.
