(* ===== verification/PageOps.v ===== *)
(** * PageOps: insertion, deletion and compaction implement the cell array

    The mutating operations of [Page], against the abstract page of
    [PageFacts]: each is total on represented pages, returns the index or the
    error the abstract operation says, and leaves a represented page. *)

From S2P Require Import Prelude Core Bytes Page PageFacts.

(** ** Insertion *)

(** Everything [page_rep] asks except the checksum. *)
Record page_pre (p : Page) (a : APage) : Prop := {
  pre_sized : page_sized p;
  pre_header : header_valid p (header_of p a);
  pre_cells : forall (i : nat) c, a_cells a !! i = Some c ->
    cell_rep p (free_end_of a) (slot_at p (N.of_nat i)) c
}.

Lemma page_rep_pre p a : page_rep p a -> page_pre p a.
Proof. by intros []. Qed.

Lemma seal_rep p a : page_pre p a -> page_rep (seal p) a.
Proof.
  intros [Hp [Hm Hv Ht Hi Hl Hs He Hc Hk Hd [Hb1 Hb2]] Hcells]. split.
  - sized.
  - split; try done; cbn [header_of h_page_id h_page_lsn h_page_type h_free_start h_free_end
      h_slot_count h_checksum] in *; frame_rw; (assumption || reflexivity).
  - by apply checksum_valid_seal.
  - intros i c Hic. frame_rw. eapply cell_rep_mono; [by apply Hcells|done|].
    intros o n Ho _. apply slice_seal_other; [done|]. right.
    cbn [header_of h_free_start h_free_end] in Hb1. page_lia.
Qed.

(** A page whose free-end field and record area were extended by [record]. *)
Definition store_record (record : list byte) (a : APage) (p : Page) : Page :=
  wr_uint 2 OFF_FREE_END (free_end_of a - len record)
    (wr (free_end_of a - len record) record p).

Definition grow_directory (n : N) (p : Page) : Page :=
  wr_uint 2 OFF_FREE_START (HEADER_SIZE + (n + 1) * SLOT_SIZE)
    (wr_uint 2 OFF_SLOT_COUNT (n + 1) p).

Definition new_slot (record : list byte) (a : APage) : SlotEntry :=
  mkSlotEntry (free_end_of a - len record) (len record) SLOT_LIVE.

Section Insert.
Context (p : Page) (a : APage) (record : list byte) (Hrep : page_pre p a).

Lemma pre_bounds : dir_end a <= free_end_of a /\ free_end_of a <= PAGE_SIZE.
Proof. destruct Hrep as [_ Hh _]. apply (hv_bounds _ _ Hh). Qed.

(** The new record, and the old records, in a page built by [store_record]
    and [wr_slot]. *)
Lemma cell_rep_old p' s c :
  len record <= a_free a ->
  (forall o n, free_end_of a <= o -> o + n <= PAGE_SIZE ->
     slice (bytes p') o n = slice (bytes p) o n) ->
  cell_rep p (free_end_of a) s c ->
  cell_rep p' (free_end_of a - len record) s c.
Proof. intros. eapply cell_rep_mono; [done|lia|done]. Qed.

(** [a'] differs from [a] in its cells and free space only. *)
Definition same_header (a' : APage) : Prop :=
  a_id a' = a_id a /\ a_lsn a' = a_lsn a /\ a_type a' = a_type a.

Lemma insert_reuse_rep (i : nat) a' :
  same_header a' -> a_cells a' = <[i := CLive record]> (a_cells a) ->
  a_free a' = a_free a - len record ->
  len record <= a_free a -> len record <= U16_MAX -> (i < length (a_cells a))%nat ->
  page_pre (wr_slot (N.of_nat i) (new_slot record a) (store_record record a p)) a'.
Proof.
  intros (Hi' & Hl' & Ht') Hc' Hf' Hfree H16 Hi.
  destruct Hrep as [Hp Hh Hcells]. pose proof pre_bounds as [Hb1 Hb2].
  pose proof (rep_slot_bound a i Hi) as Hslot.
  assert (Hlen : len (a_cells a') = len (a_cells a)) by (rewrite Hc'; by rewrite length_insert).
  assert (Hde : dir_end a' = dir_end a) by (unfold dir_end; by rewrite Hlen).
  assert (Hfe : free_end_of a' = free_end_of a - len record)
    by (unfold free_end_of; rewrite Hde, Hf'; lia).
  unfold store_record, new_slot. set (no := free_end_of a - len record) in *.
  assert (dir_end a <= no) by (unfold no, free_end_of; lia).
  assert (no + len record = free_end_of a) by (unfold no, free_end_of; lia).
  split; [sized| |].
  - destruct Hh as [Hm Hv Ht Hid Hl Hs He Hc Hk Hd _].
    split; cbn [header_of h_page_id h_page_lsn h_page_type h_free_start h_free_end
      h_slot_count h_checksum] in *;
      rewrite ?Hde, ?Hfe, ?Hlen, ?Hi', ?Hl', ?Ht'; try (frame_rw; assumption).
    + frame_rw. apply uint_at_wr_uint_same; [sized|done|page_lia|page_lia].
    + page_lia.
  - intros j c Hc. rewrite Hfe. rewrite Hc' in Hc.
    destruct (decide (i = j)) as [<-|Hij].
    + rewrite list_lookup_insert_eq in Hc by done. injection Hc as <-.
      rewrite slot_at_wr_slot_same; cbn [s_offset s_len s_flags];
        [|sized|page_lia|page_lia|page_lia|done].
      cbn [cell_rep s_offset s_len s_flags].
      split; [done|]. split; [lia|]. split; [page_lia|]. frame_rw. apply slice_wr_same; [done|page_lia|done].
    + rewrite list_lookup_insert_ne in Hc by done.
      pose proof (lookup_lt_Some _ _ _ Hc). frame_rw.
      apply cell_rep_old; [done| |by apply Hcells].
      intros o n Ho Hn. by frame_rw.
Qed.

Lemma insert_append_rep a' :
  same_header a' -> a_cells a' = a_cells a ++ [CLive record] ->
  a_free a' = a_free a - (len record + SLOT_SIZE) ->
  len record + SLOT_SIZE <= a_free a -> len record <= U16_MAX ->
  page_pre (wr_slot (len (a_cells a)) (new_slot record a)
             (grow_directory (len (a_cells a)) (store_record record a p))) a'.
Proof.
  intros (Hi' & Hl' & Ht') Hc' Hf' Hfree H16.
  destruct Hrep as [Hp Hh Hcells]. pose proof pre_bounds as [Hb1 Hb2].
  assert (Hlen : len (a_cells a') = len (a_cells a) + 1)
    by (rewrite Hc', length_app; simpl; lia).
  assert (Hde : dir_end a' = dir_end a + SLOT_SIZE)
    by (unfold dir_end; rewrite Hlen; page_lia).
  assert (Hfe : free_end_of a' = free_end_of a - len record)
    by (unfold free_end_of; rewrite Hde, Hf'; lia).
  unfold store_record, new_slot, grow_directory. set (no := free_end_of a - len record) in *.
  assert (dir_end a + SLOT_SIZE <= no) by (unfold no, free_end_of; lia).
  assert (no + len record = free_end_of a) by (unfold no, free_end_of; lia).
  split; [sized| |].
  - destruct Hh as [Hm Hv Ht Hid Hl Hs He Hc Hk Hd _].
    split; cbn [header_of h_page_id h_page_lsn h_page_type h_free_start h_free_end
      h_slot_count h_checksum] in *;
      rewrite ?Hde, ?Hfe, ?Hlen, ?Hi', ?Hl', ?Ht'; try (frame_rw; assumption).
    + frame_rw. rewrite uint_at_wr_uint_same by (sized; page_lia || done). page_lia.
    + frame_rw. apply uint_at_wr_uint_same; [sized|done|page_lia|page_lia].
    + frame_rw. apply uint_at_wr_uint_same; [sized|done|page_lia|page_lia].
    + page_lia.
    + page_lia.
  - intros j c Hc. rewrite Hfe. rewrite Hc' in Hc.
    apply lookup_app_Some in Hc as [Hc|[Hj Hc]].
    + pose proof (lookup_lt_Some _ _ _ Hc). frame_rw.
      apply cell_rep_old; [lia| |by apply Hcells].
      intros o n Ho Hn. by frame_rw.
    + destruct (j - length (a_cells a))%nat as [|?] eqn:Hz; [|done].
      injection Hc as <-. assert (N.of_nat j = len (a_cells a)) as -> by lia.
      rewrite slot_at_wr_slot_same; cbn [s_offset s_len s_flags];
        [|sized|page_lia|page_lia|page_lia|done].
      cbn [cell_rep s_offset s_len s_flags].
      split; [done|]. split; [lia|]. split; [page_lia|]. frame_rw. apply slice_wr_same; [done|page_lia|done].
Qed.
End Insert.

Lemma as_u16_small n : n <= U16_MAX -> as_u16 n = n.
Proof. intros. unfold as_u16. apply N.mod_small. lia. Qed.

Lemma append_slot_run h p :
  page_sized p -> slot_pos (h_slot_count h) + SLOT_SIZE <= PAGE_SIZE ->
  append_slot h p = (Ok (h_slot_count h), grow_directory (h_slot_count h) p).
Proof.
  intros Hp Hn. unfold append_slot, put_u16, write_u16, bind_st, lift, mul_panic, add_panic, ret.
  rewrite checked_add_ok by page_lia. cbn [ok_or].
  rewrite put_uint_run by (sized; page_lia).
  rewrite !as_u16_small by lia.
  assert (checked_mul U16_MAX (h_slot_count h + 1) SLOT_SIZE
          = Some ((h_slot_count h + 1) * SLOT_SIZE)) as ->
    by (apply checked_mul_Some; page_lia).
  cbn [or_panic]. rewrite checked_add_ok by page_lia. cbn [or_panic].
  rewrite put_uint_run by (sized; page_lia). done.
Qed.

(** [insert_record] implements [a_insert], and fails with a user error, the
    page untouched, exactly when [a_insert] says the record does not fit. *)
Lemma insert_record_refines p a record :
  page_rep p a ->
  match a_insert record a with
  | None => exists m, insert_record record p = (Err (User m), p)
  | Some (i, a') => exists p', insert_record record p = (Ok i, p') /\ page_rep p' a'
  end.
Proof.
  intros Hrep. pose proof (page_rep_pre _ _ Hrep) as Hpre.
  pose proof (pre_bounds p a Hpre) as [Hb1 Hb2]. pose proof (rep_sized _ _ Hrep) as Hp.
  destruct (insert_record record p) as [r q] eqn:Er. unfold insert_record in Er. unfold a_insert.
  destruct (U16_MAX <? len record) eqn:H16; reflect_bool.
  { injection Er as <- <-. by eexists. }
  rewrite (bind_st_run _ _ p (header_of p a) p) in Er by (by rewrite (rep_header_run p a Hrep)).
  cbn [header_of h_slot_count h_free_end h_free_start orb] in *.
  rewrite (bind_st_run _ _ p (N.of_nat <$> first_dead (a_cells a)) p) in Er
    by (by rewrite (find_dead_slot_refines p a Hrep)).
  rewrite (bind_st_run _ _ p (a_needed record a) p) in Er.
  2:{ unfold lift, a_needed. rewrite checked_add_ok by (destruct (first_dead _); simpl; lia).
      by destruct (first_dead _). }
  rewrite (bind_st_run _ _ p (a_free a) p) in Er.
  2:{ unfold lift. rewrite sub_panic_ok by done. do 2 f_equal. unfold free_end_of. lia. }
  destruct (a_free a <? a_needed record a) eqn:Hfree; reflect_bool.
  { injection Er as <- <-. by eexists. }
  assert (len record <= a_needed record a) by (unfold a_needed; lia).
  assert (dir_end a + a_needed record a <= free_end_of a) by (unfold free_end_of; lia).
  rewrite (bind_st_run _ _ p (free_end_of a - len record) p) in Er
    by (unfold lift; by rewrite sub_panic_ok by lia).
  rewrite !as_u16_small in Er by page_lia.
  unfold put_u16, write_u16 in Er.
  run put_bytes_run in Er by (done || lia).
  run put_uint_run in Er by (sized; lia).
  fold (store_record record a p) (new_slot record a) in Er.
  assert (page_sized (store_record record a p)) by (unfold store_record; sized; lia).
  destruct (first_dead (a_cells a)) as [i|] eqn:Hd; cbn [fmap option_fmap option_map] in Er;
    unfold a_needed in *; rewrite Hd in *.
  - pose proof (lookup_lt_Some _ _ _ (first_dead_Some _ _ Hd)) as Hi.
    pose proof (rep_slot_bound a i Hi).
    erewrite bind_st_run in Er by reflexivity.
    run write_slot_entry_run in Er by (done || lia).
    run refresh_checksum_run in Er by (sized; lia).
    injection Er as <- <-. eexists. split; [done|].
    apply seal_rep, insert_reuse_rep; try done; cbn; lia.
  - rewrite (bind_st_run _ _ _ _ _ (append_slot_run (header_of p a) _ ltac:(done)
      ltac:(cbn [header_of h_slot_count]; page_lia))) in Er.
    cbn [header_of h_slot_count] in Er.
    assert (page_sized (grow_directory (len (a_cells a)) (store_record record a p)))
      by (unfold grow_directory; sized; page_lia).
    run write_slot_entry_run in Er by (done || page_lia).
    run refresh_checksum_run in Er by (sized; page_lia).
    injection Er as <- <-. eexists. split; [done|].
    apply seal_rep, insert_append_rep; try done; cbn; lia.
Qed.

(** ** Deletion *)

Lemma delete_record_refines p a i :
  page_rep p a ->
  match a_cells a !! N.to_nat i with
  | None => delete_record i p = (Err (out_of_range i), p)
  | Some (CLive _) =>
      exists p', delete_record i p = (Ok true, p') /\ page_rep p' (a_delete (N.to_nat i) a)
  | Some _ => delete_record i p = (Ok false, p)
  end.
Proof.
  intros Hrep. pose proof (page_rep_pre _ _ Hrep) as Hpre.
  pose proof (pre_bounds p a Hpre) as [Hb1 Hb2]. pose proof (rep_sized _ _ Hrep) as Hp.
  destruct (delete_record i p) as [r q] eqn:Er. unfold delete_record in Er.
  rewrite (bind_st_run _ _ p (header_of p a) p) in Er by (by rewrite (rep_header_run p a Hrep)).
  cbn [header_of h_slot_count] in Er. destruct (a_cells a !! N.to_nat i) as [c|] eqn:Hc.
  2:{ apply lookup_ge_None in Hc. rewrite (proj2 (N.leb_le _ _)) in Er by lia. by injection Er as <- <-. }
  pose proof (lookup_lt_Some _ _ _ Hc) as Hi. rewrite (proj2 (N.leb_gt _ _)) in Er by lia.
  pose proof (rep_slot_bound a _ Hi) as Hsb. rewrite N2Nat.id in Hsb.
  pose proof (rep_cells _ _ Hrep _ _ Hc) as Hcr. rewrite N2Nat.id in Hcr.
  rewrite (bind_st_run _ _ p (slot_at p i) p) in Er
    by (rewrite slot_entry_run; (done || lia)).
  rewrite (cell_rep_live _ _ _ _ Hcr) in Er.
  destruct c as [| |d]; cbn [cell_is_live negb] in Er;
    [by injection Er as <- <-|by injection Er as <- <-|].
  destruct (slot_at_bounds p i Hp ltac:(lia)) as (? & ? & ?).
  run write_slot_entry_run in Er by (done || lia).
  run refresh_checksum_run in Er by (sized; page_lia).
  injection Er as <- <-. eexists. split; [done|]. apply seal_rep.
  assert (Hde : dir_end (a_delete (N.to_nat i) a) = dir_end a)
    by (unfold dir_end, a_delete; cbn [a_cells]; by rewrite length_insert).
  assert (Hfe : free_end_of (a_delete (N.to_nat i) a) = free_end_of a)
    by (unfold free_end_of; by rewrite Hde).
  destruct Hpre as [_ Hh Hcells]. split; [sized| |].
  - destruct Hh as [Hm Hv Ht Hid Hl Hs He Hn Hk Hd Hb].
    split; cbn [header_of h_page_id h_page_lsn h_page_type h_free_start h_free_end
      h_slot_count h_checksum] in *; rewrite ?Hde, ?Hfe; unfold a_delete; cbn [a_cells a_id
      a_lsn a_type]; rewrite ?length_insert; frame_rw; (assumption || reflexivity || done).
  - intros j c. rewrite Hfe. unfold a_delete. cbn [a_cells].
    destruct (decide (N.to_nat i = j)) as [<-|Hij].
    + rewrite list_lookup_insert_eq by done. intros [= <-]. rewrite N2Nat.id.
      rewrite slot_at_wr_slot_same; cbn [s_offset s_len s_flags]; done || lia.
    + rewrite list_lookup_insert_ne by done. intros Hcj. frame_rw.
      eapply cell_rep_mono; [by apply Hcells|done|]. intros o n ? ?. by frame_rw.
Qed.

(** ** Compaction *)

(** The live cells with their indices, in slot order. *)
Fixpoint live_list (k : nat) (cells : list cell) : list (N * list byte) :=
  match cells with
  | [] => []
  | CLive d :: rest => (N.of_nat k, d) :: live_list (S k) rest
  | _ :: rest => live_list (S k) rest
  end.

Definition total_bytes (records : list (N * list byte)) : N :=
  foldr (fun r n => len (snd r) + n) 0 records.

Lemma live_list_spec k cells i d :
  (i, d) ∈ live_list k cells <-> exists j, cells !! j = Some (CLive d) /\ i = N.of_nat (k + j).
Proof.
  revert k; induction cells as [|c cells IH]; intros k.
  { simpl. rewrite elem_of_nil. split; [done|]. by intros (j & ? & _). }
  assert (Hrest : (i, d) ∈ live_list (S k) cells <->
                  exists j, (c :: cells) !! S j = Some (CLive d) /\ i = N.of_nat (k + S j)).
  { rewrite IH. by setoid_rewrite Nat.add_succ_r. }
  destruct c as [| |d']; cbn [live_list]; rewrite ?elem_of_cons, Hrest.
  1,2: split; [intros (j & ? & ?); eauto|]; intros ([|j] & ? & ?); [done|eauto].
  split.
  - intros [[= -> ->]|(j & ? & ?)]; [|eauto]. exists 0%nat. split; [done|lia].
  - intros ([|j] & Hj & ->); [|eauto]. injection Hj as ->. left. f_equal. lia.
Qed.

Lemma live_list_NoDup k cells : NoDup (live_list k cells).*1.
Proof.
  revert k; induction cells as [|c cells IH]; intros k; [constructor|].
  destruct c as [| |d]; cbn [live_list]; [apply IH|apply IH|].
  cbn [fmap list_fmap fst]. constructor; [|apply IH].
  intros ((i & d') & Hi & Hin)%list_elem_of_fmap. cbn [fst] in Hi. subst i.
  apply live_list_spec in Hin as (j & _ & ?). lia.
Qed.

Lemma total_live_list k cells : total_bytes (live_list k cells) = live_bytes cells.
Proof.
  revert k; induction cells as [|c cells IH]; intros k; [done|].
  destruct c as [| |d]; cbn [live_list live_bytes foldr cell_bytes]; rewrite ?N.add_0_l;
    [apply IH|apply IH|]. cbn [total_bytes foldr snd]. f_equal. apply IH.
Qed.

Lemma collect_live_refines p a :
  page_rep p a -> collect_live p (header_of p a) = Ok (live_list 0 (a_cells a)).
Proof.
  intros Hrep. unfold collect_live, range. cbn [header_of h_slot_count]. rewrite Nat2N.id.
  rewrite (fold_cells _ (fun acc c i => match c with CLive d => acc ++ [(N.of_nat i, d)]
                                        | _ => acc end)).
  - assert (Hf : forall cells acc k,
      fst (foldl (fun '(x, i) c => (match c with CLive d => x ++ [(N.of_nat i, d)]
                                    | _ => x end, S i)) (acc, k) cells)
      = acc ++ live_list k cells).
    { induction cells as [|c cells IH]; intros acc k; simpl; [by rewrite app_nil_r|].
      rewrite IH. destruct c; [done|done|]. by rewrite <- app_assoc. }
    by rewrite Hf.
  - intros acc i c Hc. cbn [Nat.add]. pose proof (lookup_lt_Some _ _ _ Hc).
    rewrite (rep_slot_entry p a Hrep) by done. cbn [bind_outcome].
    rewrite (cell_rep_live _ _ _ _ (rep_cells _ _ Hrep _ _ Hc)).
    destruct c; try done. cbn [cell_is_live].
    rewrite (read_record_refines p a) by done. unfold a_read. by rewrite Nat2N.id, Hc.
Qed.

(** What [repack] leaves behind: the records it was given, each in its slot,
    and everything else as it was. *)
Record repacked (records : list (N * list byte)) (limit fe : N) (p p' : Page) : Prop := {
  rp_sized : page_sized p';
  rp_live : forall i d, (i, d) ∈ records ->
    cell_rep p' (fe - total_bytes records) (slot_at p' i) (CLive d);
  rp_slots : forall i, i ∉ records.*1 -> slot_pos i + SLOT_SIZE <= limit ->
    slot_at p' i = slot_at p i;
  rp_header : forall o n, o + n <= HEADER_SIZE -> slice (bytes p') o n = slice (bytes p) o n;
  rp_tail : forall o n, fe <= o -> slice (bytes p') o n = slice (bytes p) o n
}.

Lemma repack_run records limit fe p :
  page_sized p -> fe <= PAGE_SIZE -> limit + total_bytes records <= fe ->
  NoDup records.*1 -> Forall (fun r => slot_pos (fst r) + SLOT_SIZE <= limit) records ->
  exists p', repack records fe p = (Ok (fe - total_bytes records), p')
             /\ repacked records limit fe p p'.
Proof.
  revert fe p; induction records as [|[i d] records IH]; intros fe p Hp Hfe Hlim Hnd Hpos.
  { exists p. split; [by rewrite N.sub_0_r|]. split; try done. by intros i d Hin%not_elem_of_nil. }
  cbn [total_bytes foldr snd] in Hlim. fold (total_bytes records) in Hlim.
  apply NoDup_cons in Hnd as [Hi Hnd]. apply Forall_cons in Hpos as [Hpi Hpos]. cbn [fst] in *.
  set (p1 := wr_slot i (mkSlotEntry (fe - len d) (len d) SLOT_LIVE) (wr (fe - len d) d p)).
  assert (Hp1 : page_sized p1) by (unfold p1; sized; lia).
  destruct (IH (fe - len d) p1 Hp1 ltac:(lia) ltac:(lia) Hnd Hpos) as (p' & Hrun & [Hs Hl Ho Hh Ht]).
  exists p'. split.
  - cbn [repack]. erewrite bind_st_run by (unfold lift; by rewrite sub_panic_ok by lia).
    run put_bytes_run by (done || lia). rewrite !as_u16_small by page_lia.
    run write_slot_entry_run by (sized; page_lia). fold p1. rewrite Hrun.
    cbn [total_bytes foldr snd]. fold (total_bytes records). do 2 f_equal. lia.
  - assert (Htot : fe - total_bytes ((i, d) :: records) = fe - len d - total_bytes records)
      by (cbn [total_bytes foldr snd]; fold (total_bytes records); lia).
    split; [done|..].
    + intros j d' Hin. rewrite Htot. apply elem_of_cons in Hin as [[= -> ->]|Hin]; [|by apply Hl].
      rewrite Ho by done. unfold p1 at 1.
      rewrite slot_at_wr_slot_same; cbn [s_offset s_len s_flags]; [|sized; lia|page_lia|page_lia|page_lia|done].
      cbn [cell_rep s_offset s_len s_flags]. split; [done|]. split; [lia|]. split; [lia|].
      rewrite Ht by lia. unfold p1. rewrite slice_wr_slot_other by (sized; page_lia).
      apply slice_wr_same; [done|lia|done].
    + intros j Hj Hjl. cbn [fmap list_fmap fst] in Hj. apply not_elem_of_cons in Hj as [Hji Hj].
      rewrite Ho by done. unfold p1. by frame_rw.
    + intros o n Hon. rewrite Hh by done. unfold p1. by frame_rw.
    + intros o n Hon. rewrite Ht by lia. unfold p1. by frame_rw.
Qed.

(** Compaction only needs the live payloads to fit between the directory and the
    end of the page. *)
Definition compactable (a : APage) : Prop := dir_end a + live_bytes (a_cells a) <= PAGE_SIZE.

Lemma packed_compactable a : packed a -> compactable a.
Proof. unfold packed, compactable, free_end_of. lia. Qed.

Lemma compact_refines p a :
  page_rep p a -> compactable a ->
  exists p', compact p = (Ok tt, p') /\ page_rep p' (a_compact a).
Proof.
  intros Hrep Hpk. pose proof (page_rep_pre _ _ Hrep) as [Hp Hh Hcells].
  pose proof (rep_dir_end p a Hrep) as [Hb1 Hb2]. unfold compactable in Hpk.
  set (zeros := replicate (N.to_nat (PAGE_SIZE - dir_end a)) x00).
  assert (Hz : len zeros = PAGE_SIZE - dir_end a) by (unfold zeros; rewrite length_replicate; lia).
  set (p1 := wr (dir_end a) zeros p).
  assert (Hp1 : page_sized p1) by (unfold p1; sized; lia).
  destruct (repack_run (live_list 0 (a_cells a)) (dir_end a) PAGE_SIZE p1)
    as (p2 & Hrun & [Hs Hl Ho Hhd Ht]).
  { done. } { lia. } { rewrite total_live_list. lia. } { apply live_list_NoDup. }
  { apply Forall_forall. intros [i d] (j & Hj & ->)%live_list_spec. cbn [fst Nat.add].
    pose proof (lookup_lt_Some _ _ _ Hj). by apply rep_slot_bound. }
  rewrite total_live_list in Hrun, Hl.
  set (fe := PAGE_SIZE - live_bytes (a_cells a)) in *.
  exists (seal (wr_uint 2 OFF_FREE_END fe p2)). split.
  - unfold compact. rewrite (bind_st_run _ _ p (header_of p a) p)
      by (by rewrite (rep_header_run p a Hrep)).
    rewrite (bind_st_run _ _ p (live_list 0 (a_cells a)) p)
      by (by rewrite (collect_live_refines p a Hrep)).
    cbn [header_of h_slot_count]. fold (dir_end a).
    erewrite bind_st_run by (unfold lift; by rewrite sub_panic_ok by lia).
    fold zeros. run put_bytes_run by (done || lia). fold p1.
    erewrite bind_st_run by exact Hrun. rewrite as_u16_small by (unfold fe; lia).
    run put_uint_run by (done || lia). apply refresh_checksum_run. sized; lia.
  - assert (Hfe : free_end_of (a_compact a) = fe)
      by (unfold free_end_of, a_compact, fe, dir_end in *; cbn [a_cells a_free]; lia).
    assert (Huint : forall w o, o + w <= HEADER_SIZE ->
      o + w <= OFF_FREE_END \/ OFF_FREE_END + 2 <= o ->
      uint_at w (bytes (wr_uint 2 OFF_FREE_END fe p2)) o = uint_at w (bytes p) o).
    { intros w o Ho1 Ho2. frame_rw. Transparent uint_at. unfold uint_at. Opaque uint_at.
      rewrite Hhd by done. unfold p1. by frame_rw. }
    apply seal_rep. split; [sized; lia| |].
    + destruct Hh as [Hm Hv Hty Hid Hln Hst He Hn Hk Hd Hb].
      split; cbn [header_of h_page_id h_page_lsn h_page_type h_free_start h_free_end
        h_slot_count h_checksum a_compact a_id a_lsn a_type a_cells] in *; rewrite ?Hfe;
        try (rewrite Huint by lia; assumption).
      * apply uint_at_wr_uint_same; [done|done|lia|unfold fe; lia].
      * done.
      * change (dir_end (a_compact a)) with (dir_end a). unfold fe. lia.
    + intros i c Hic. rewrite Hfe. cbn [a_compact a_cells] in Hic.
      pose proof (rep_slot_bound a i (lookup_lt_Some _ _ _ Hic)) as Hsb.
      assert (Hmono : forall s c', cell_rep p2 fe s c' ->
                cell_rep (wr_uint 2 OFF_FREE_END fe p2) fe s c').
      { intros s c' Hc'. eapply cell_rep_mono; [done|lia|].
        intros o n Hon _. apply slice_wr_uint_other; [done|lia|]. right. unfold fe in Hon. page_lia. }
      rewrite slot_at_wr_uint_other by (done || page_lia). apply Hmono.
      destruct (cell_is_live c) eqn:Hlv.
      * destruct c as [| |d]; try done. apply Hl, live_list_spec. by exists i.
      * rewrite Ho; [|intros ((j & d) & Hj & Hin)%list_elem_of_fmap|done].
        -- unfold p1. frame_rw. pose proof (Hcells i c Hic) as Hc. by destruct c.
        -- apply live_list_spec in Hin as (k & Hk & ->). cbn [fst] in Hj.
           assert (k = i) as -> by lia. rewrite Hic in Hk. injection Hk as ->. done.
Qed.

(** *** Compaction of a page whose live payloads do not fit

    Nothing checks that the records written back stay behind the directory:
    they overwrite the directory, then the header, until the start of the page
    is reached and the next record's length cannot be subtracted. *)

Definition repack_outcome (records : list (N * list byte)) (fe : N) (p : Page) (r : DbResult N * Page) : Prop :=
  match r with
  | (Ok e, p') => total_bytes records <= fe /\ e = fe - total_bytes records /\ page_sized p'
      /\ (HEADER_SIZE <= e ->
          forall w o, o + w <= HEADER_SIZE -> uint_at w (bytes p') o = uint_at w (bytes p) o)
  | (Panic, _) => fe < total_bytes records
  | (Err _, _) => False
  end.

Lemma repack_total records fe p :
  page_sized p -> fe <= PAGE_SIZE ->
  Forall (fun r => slot_pos (fst r) + SLOT_SIZE <= PAGE_SIZE) records ->
  repack_outcome records fe p (repack records fe p).
Proof.
  revert fe p; induction records as [|[i d] records IH]; intros fe p Hp Hfe Hpos.
  { cbn. split; [lia|]. split; [lia|]. done. }
  apply Forall_cons in Hpos as [Hpi Hpos]. cbn [fst repack] in *.
  assert (Htot : total_bytes ((i, d) :: records) = len d + total_bytes records) by done.
  unfold sub_panic. destruct (len d <=? fe) eqn:Hd; reflect_bool;
    [|unfold bind_st at 1, lift; cbn [repack_outcome]; rewrite Htot; lia].
  erewrite bind_st_run by done. run put_bytes_run by (done || lia).
  run write_slot_entry_run by (sized; page_lia).
  match goal with |- context [repack records (fe - len d) ?q] => set (p1 := q) end.
  assert (Hp1 : page_sized p1) by (unfold p1; sized; lia).
  specialize (IH (fe - len d) p1 Hp1 ltac:(lia) Hpos). unfold repack_outcome in *. rewrite Htot.
  destruct (repack records (fe - len d) p1) as [[e| |] p']; [|done|lia].
  destruct IH as (Hle & -> & Hs & Hk). split; [lia|]. split; [lia|]. split; [done|].
  intros He w o Ho. rewrite Hk by lia. unfold p1. by frame_rw.
Qed.

Lemma compact_total p a :
  page_rep p a ->
  match compact p with
  | (Ok _, p') => live_bytes (a_cells a) <= PAGE_SIZE /\ page_sized p'
      /\ (live_bytes (a_cells a) + HEADER_SIZE <= PAGE_SIZE ->
          (forall w o, o + w <= OFF_FREE_END -> uint_at w (bytes p') o = uint_at w (bytes p) o)
          /\ uint_at 2 (bytes p') OFF_SLOT_COUNT = uint_at 2 (bytes p) OFF_SLOT_COUNT
          /\ uint_at 2 (bytes p') OFF_FREE_END = PAGE_SIZE - live_bytes (a_cells a))
  | (Panic, _) => PAGE_SIZE < live_bytes (a_cells a)
  | (Err _, _) => False
  end.
Proof.
  intros Hrep. pose proof (page_rep_pre _ _ Hrep) as [Hp Hh Hcells].
  pose proof (rep_dir_end p a Hrep) as [Hb1 Hb2].
  unfold compact. rewrite (bind_st_run _ _ p (header_of p a) p) by (by rewrite (rep_header_run p a Hrep)).
  rewrite (bind_st_run _ _ p (live_list 0 (a_cells a)) p) by (by rewrite (collect_live_refines p a Hrep)).
  cbn [header_of h_slot_count]. fold (dir_end a).
  erewrite bind_st_run by (unfold lift; by rewrite sub_panic_ok by lia).
  set (zeros := replicate (N.to_nat (PAGE_SIZE - dir_end a)) x00).
  assert (Hz : len zeros = PAGE_SIZE - dir_end a) by (unfold zeros; rewrite length_replicate; lia).
  run put_bytes_run by (done || lia). set (p1 := wr (dir_end a) zeros p).
  assert (Hp1 : page_sized p1) by (unfold p1; sized; lia).
  assert (Hr : repack_outcome (live_list 0 (a_cells a)) PAGE_SIZE p1
                 (repack (live_list 0 (a_cells a)) PAGE_SIZE p1)).
  { apply repack_total; [done|lia|]. apply Forall_forall.
    intros [i d] (j & Hj & ->)%live_list_spec. cbn [fst Nat.add].
    pose proof (rep_slot_bound a j (lookup_lt_Some _ _ _ Hj)). lia. }
  unfold repack_outcome in Hr. rewrite total_live_list in Hr. unfold bind_st at 1.
  destruct (repack (live_list 0 (a_cells a)) PAGE_SIZE p1) as [[e| |] p2]; [|done|done].
  destruct Hr as (Hle & -> & Hp2 & Hk). rewrite as_u16_small by lia.
  run put_uint_run by (done || lia). rewrite refresh_checksum_run by (sized; lia).
  split; [done|]. split; [sized; lia|]. intros Hl. specialize (Hk ltac:(lia)).
  split; [|split].
  - intros w o Ho. frame_rw. rewrite Hk by lia. unfold p1. by frame_rw.
  - frame_rw. rewrite Hk by lia. unfold p1. by frame_rw.
  - frame_rw. apply uint_at_wr_uint_same; [done|done|lia|lia].
Qed.

(** ** Consequences of the representation *)

Lemma live_bytes_app cs ds : live_bytes (cs ++ ds) = live_bytes cs + live_bytes ds.
Proof. induction cs as [|c cs IH]; simpl in *; [done|]. rewrite IH. lia. Qed.

Lemma live_bytes_cons c cs : live_bytes (c :: cs) = cell_bytes c + live_bytes cs.
Proof. done. Qed.

Lemma live_bytes_insert (cells : list cell) (i : nat) c c' :
  cells !! i = Some c ->
  live_bytes (<[i := c']> cells) + cell_bytes c = live_bytes cells + cell_bytes c'.
Proof.
  revert i; induction cells as [|d cells IH]; intros [|i] Hi; try done.
  - injection Hi as ->. change (<[0%nat := c']> (c :: cells)) with (c' :: cells).
    rewrite !live_bytes_cons. lia.
  - specialize (IH i Hi). change (<[S i := c']> (d :: cells)) with (d :: <[i := c']> cells).
    rewrite !live_bytes_cons. lia.
Qed.

Lemma packed_insert p a record i a' :
  page_rep p a -> packed a -> a_insert record a = Some (i, a') -> packed a'.
Proof.
  intros Hrep Hpk. pose proof (rep_dir_end p a Hrep). revert Hpk.
  unfold a_insert, packed, free_end_of, dir_end in *.
  case_test; [done|]. unfold a_needed in *.
  destruct (first_dead (a_cells a)) as [k|] eqn:Hd; rewrite ?Hd in *;
    intros Hpk [= <- <-]; cbn [a_cells a_free].
  - pose proof (live_bytes_insert _ _ _ (CLive record) (first_dead_Some _ _ Hd)) as Hl.
    cbn [cell_bytes] in Hl. rewrite length_insert. lia.
  - rewrite live_bytes_app, live_bytes_cons, length_app. cbn [live_bytes foldr cell_bytes length].
    lia.
Qed.

Lemma packed_delete a i d :
  packed a -> a_cells a !! i = Some (CLive d) -> packed (a_delete i a).
Proof.
  unfold packed, free_end_of, dir_end, a_delete. cbn [a_cells a_free]. intros Hpk Hi.
  pose proof (live_bytes_insert _ _ _ CDead Hi) as Hl. cbn [cell_bytes] in Hl.
  rewrite length_insert. lia.
Qed.

Lemma packed_compact p a : page_rep p a -> packed a -> packed (a_compact a).
Proof.
  intros Hrep. pose proof (rep_dir_end p a Hrep).
  unfold packed, a_compact, free_end_of, dir_end in *. cbn [a_cells a_free]. intros. lia.
Qed.

Lemma packed_new id ty : packed (a_new id ty).
Proof. unfold packed, free_end_of, dir_end, a_new. cbn. lia. Qed.

Lemma a_read_insert record a i a' :
  a_insert record a = Some (i, a') ->
  a_read a' i = Ok (Some record)
  /\ forall j, j <> i -> j < len (a_cells a) -> a_read a' j = a_read a j.
Proof.
  unfold a_insert, a_read. case_test; [done|].
  destruct (first_dead (a_cells a)) as [k|] eqn:Hd; intros [= <- <-]; cbn [a_cells].
  - pose proof (lookup_lt_Some _ _ _ (first_dead_Some _ _ Hd)).
    rewrite Nat2N.id, list_lookup_insert_eq by done. split; [done|].
    intros j Hj Hl. by rewrite list_lookup_insert_ne by lia.
  - rewrite Nat2N.id, lookup_app_r, Nat.sub_diag by done. split; [done|].
    intros j Hj Hl. by rewrite lookup_app_l by lia.
Qed.

(** ** Checksums detect a changed byte *)

Lemma sum_bytes_cons b bs : sum_bytes (b :: bs) = Byte.to_N b + sum_bytes bs.
Proof. done. Qed.

Lemma sum_bytes_insert bs (i : nat) (b c : byte) :
  bs !! i = Some b -> sum_bytes (<[i := c]> bs) + Byte.to_N b = sum_bytes bs + Byte.to_N c.
Proof.
  revert i; induction bs as [|x bs IH]; intros [|i] Hi; try done.
  - injection Hi as ->. change (<[0%nat := c]> (b :: bs)) with (c :: bs).
    rewrite !sum_bytes_cons. lia.
  - specialize (IH i Hi). change (<[S i := c]> (x :: bs)) with (x :: <[i := c]> bs).
    rewrite !sum_bytes_cons. lia.
Qed.

Lemma sum_bytes_bound bs : sum_bytes bs <= 255 * len bs.
Proof.
  induction bs as [|b bs IH]; [done|]. rewrite sum_bytes_cons, length_cons.
  pose proof (to_N_lt b). lia.
Qed.

Lemma checksum_insert_ne bs (i : nat) b c :
  len bs <= 16777216 -> bs !! i = Some b -> b <> c -> checksum (<[i := c]> bs) <> checksum bs.
Proof.
  intros Hl Hi Hbc. unfold checksum. rewrite !checksum_fold_eq.
  pose proof (sum_bytes_bound bs). pose proof (sum_bytes_bound (<[i := c]> bs)) as Hb.
  rewrite length_insert in Hb. pose proof (sum_bytes_insert bs i b c Hi).
  rewrite !N.mod_small by lia. intros He. apply Hbc, to_N_inj. lia.
Qed.

Lemma splice_insert_in {A} (l v : list A) o (i : nat) x :
  o + len v <= len l -> o <= N.of_nat i < o + len v -> splice (<[i := x]> l) o v = splice l o v.
Proof.
  intros Hl Hi. apply list_eq. intros j. rewrite !lookup_splice by (rewrite ?length_insert; lia).
  repeat case_decide; try done; apply list_lookup_insert_ne; lia.
Qed.

Lemma splice_insert_out {A} (l v : list A) o (i : nat) x :
  o + len v <= len l -> N.of_nat i < o \/ o + len v <= N.of_nat i -> (i < length l)%nat ->
  splice (<[i := x]> l) o v = <[i := x]> (splice l o v).
Proof.
  intros Hl Hi Hlt. apply list_eq. intros j.
  destruct (decide (i = j)) as [<-|Hij].
  - rewrite list_lookup_insert_eq by (rewrite length_splice; lia).
    rewrite lookup_splice by (rewrite ?length_insert; lia).
    repeat case_decide; try lia; by rewrite list_lookup_insert_eq.
  - rewrite (list_lookup_insert_ne (splice l o v)) by done.
    rewrite !lookup_splice by (rewrite ?length_insert; lia).
    repeat case_decide; try done; by rewrite list_lookup_insert_ne.
Qed.

Lemma slice_insert_out {A} (l : list A) o n (i : nat) x :
  N.of_nat i < o \/ o + n <= N.of_nat i -> slice (<[i := x]> l) o n = slice l o n.
Proof.
  intros Hi. apply slice_eq_lookup. intros j Hj. apply list_lookup_insert_ne. lia.
Qed.

Lemma slice_insert_in_ne (l : list byte) o n (i : nat) b x :
  o <= N.of_nat i < o + n -> l !! i = Some b -> b <> x ->
  slice (<[i := x]> l) o n <> slice l o n.
Proof.
  intros Hi Hb Hne He. apply Hne.
  assert (Hx : slice (<[i := x]> l) o n !! (i - N.to_nat o)%nat
               = slice l o n !! (i - N.to_nat o)%nat) by (by rewrite He).
  rewrite !lookup_slice in Hx. rewrite !decide_True in Hx by lia.
  replace (N.to_nat o + (i - N.to_nat o))%nat with i in Hx by lia.
  rewrite list_lookup_insert_eq, Hb in Hx by (by eapply lookup_lt_Some). congruence.
Qed.

(** All the errors of [header] report corruption. *)
Lemma header_err p e : header p = Err e -> page_sized p -> is_corruption e = true.
Proof.
  intros H Hp. unfold header, read_u16, read_u32, read_u64 in H.
  rewrite !read_uint_ok in H by page_lia. cbn [bind_outcome] in H.
  repeat (case_match; [by injection H as <-|]).
  destruct (page_type_from_u16 _) as [|e'|] eqn:He; cbn [bind_outcome] in H; try done.
  injection H as <-. unfold page_type_from_u16 in He. repeat case_match; try done.
  all: by injection He as <-.
Qed.

Lemma changed_byte_breaks_checksum p (i : nat) b c :
  page_sized p -> checksum_valid p -> bytes p !! i = Some b -> b <> c ->
  ~ checksum_valid (mkPage (<[i := c]> (bytes p))).
Proof.
  Transparent uint_at. unfold page_sized, checksum_valid, uint_at. Opaque uint_at.
  cbn [bytes]. intros Hp Hv Hb Hbc He.
  pose proof (lookup_lt_Some _ _ _ Hb) as Hlt.
  destruct (decide (OFF_CHECKSUM <= N.of_nat i < OFF_CHECKSUM + 4)) as [Hin|Hout].
  - rewrite splice_insert_in in He by (rewrite ?len_le_encode; lia). rewrite <- Hv in He.
    apply le_decode_inj in He; [|rewrite !length_slice; rewrite ?length_insert; lia].
    by eapply (slice_insert_in_ne (bytes p) OFF_CHECKSUM 4 i b c).
  - rewrite splice_insert_out in He by (rewrite ?len_le_encode; lia).
    rewrite slice_insert_out, Hv in He by lia. symmetry in He.
    revert He. apply (checksum_insert_ne _ i b c); [rewrite length_splice; rewrite ?length_le_encode; lia| |done].
    rewrite lookup_splice by lia. rewrite len_le_encode.
    repeat case_decide; (done || lia).
Qed.
