(* ===== verification/PageTheorems.v ===== *)
(** * PageTheorems: what the slotted page promises to its clients *)

From S2P Require Import Prelude Core Bytes Page PageFacts PageOps.

(** The record [data] used by the witnesses. *)
Definition sample : list byte := bytes_of_string "alpha".

Lemma sample_page_rep : page_rep (page_new 7 Heap) (a_new 7 Heap).
Proof. apply page_new_refines. lia. Qed.

(** A page with one live record in slot 0. *)
Definition sample_page : Page := snd (insert_record sample (page_new 7 Heap)).
Definition sample_apage : APage := mkAPage 7 0 Heap [CLive sample] 4051.

Lemma sample_insert : a_insert sample (a_new 7 Heap) = Some (0, sample_apage).
Proof. vm_compute. reflexivity. Qed.

Lemma sample_page1_rep : page_rep sample_page sample_apage /\ packed sample_apage.
Proof.
  pose proof (insert_record_refines _ _ sample sample_page_rep) as H.
  rewrite sample_insert in H. destruct H as (p' & Hr & Hp').
  unfold sample_page. rewrite Hr. split; [exact Hp'|].
  exact (packed_insert _ _ _ _ _ sample_page_rep (packed_new 7 Heap) sample_insert).
Qed.

(** C19. Inserting a record into a well-formed page either fails with a user
    error that leaves the page untouched, exactly when the record is longer
    than a u16 or does not fit in the free space (plus a directory entry when
    no dead slot can be reused), or returns the slot the record is then read
    back from; the other slots read as before, the page still validates, and
    the invariants that compaction relies on are kept.  No case panics. *)
Theorem insert_record_correct p a record :
  page_rep p a -> packed a ->
  match a_insert record a with
  | None => exists m, insert_record record p = (Err (User m), p)
  | Some (i, a') =>
      exists p', insert_record record p = (Ok i, p')
        /\ page_rep p' a' /\ packed a' /\ validate p' = Ok tt
        /\ read_record p' i = Ok (Some record)
        /\ forall j, j <> i -> j < len (a_cells a) -> read_record p' j = read_record p j
  end.
Proof.
  intros Hrep Hpk. pose proof (insert_record_refines p a record Hrep) as H.
  destruct (a_insert record a) as [[i a']|] eqn:Ha; [|done].
  destruct H as (p' & Hrun & Hrep'). destruct (a_read_insert _ _ _ _ Ha) as [Hi Ho].
  exists p'. split; [done|]. split; [done|]. split; [exact (packed_insert _ _ _ _ _ Hrep Hpk Ha)|].
  split; [by eapply validate_rep|]. split; [by rewrite (read_record_refines p' a')|].
  intros j Hj Hl. rewrite (read_record_refines p' a'), (read_record_refines p a) by done.
  by apply Ho.
Qed.

Lemma insert_record_correct_witness :
  exists p', insert_record sample (page_new 7 Heap) = (Ok 0, p')
             /\ read_record p' 0 = Ok (Some sample).
Proof.
  pose proof (insert_record_correct _ _ sample sample_page_rep (packed_new 7 Heap)) as H.
  rewrite sample_insert in H. destruct H as (p' & Hr & _ & _ & _ & Hread & _).
  exists p'. split; [exact Hr|exact Hread].
Defined.

(** C20. Compaction of a page whose live payloads fit the record area succeeds,
    keeps every slot id and every record, and makes all the room not taken by
    the header, the directory and the live payloads free again. *)
Theorem compact_correct p a :
  page_rep p a -> packed a ->
  exists p', compact p = (Ok tt, p') /\ page_rep p' (a_compact a) /\ validate p' = Ok tt
    /\ (forall j, read_record p' j = read_record p j)
    /\ free_space p = Ok (a_free a)
    /\ free_space p' = Ok (PAGE_SIZE - (HEADER_SIZE + len (a_cells a) * SLOT_SIZE)
                           - live_bytes (a_cells a))
    /\ a_free a <= PAGE_SIZE - (HEADER_SIZE + len (a_cells a) * SLOT_SIZE)
                   - live_bytes (a_cells a).
Proof.
  intros Hrep Hpk. destruct (compact_refines p a Hrep (packed_compactable a Hpk)) as (p' & Hrun & Hrep').
  exists p'. split; [done|]. split; [done|]. split; [by eapply validate_rep|]. split.
  { intros j. by rewrite (read_record_refines p' _ _ Hrep'), (read_record_refines p _ _ Hrep). }
  split; [by apply free_space_refines|]. split; [by rewrite (free_space_refines p' _ Hrep')|].
  unfold packed, free_end_of, dir_end in Hpk. lia.
Qed.

Lemma compact_correct_witness :
  exists p', compact sample_page = (Ok tt, p') /\ read_record p' 0 = read_record sample_page 0.
Proof.
  destruct sample_page1_rep as [Hr Hp].
  destruct (compact_correct _ _ Hr Hp) as (p' & Hrun & _ & _ & Hread & _).
  exists p'. split; [exact Hrun|exact (Hread 0)].
Defined.

(** C33. [validate] accepts a 4096-byte buffer exactly when the buffer is a
    well-formed page: it represents some array of cells. *)
Theorem validate_iff_represents p :
  page_sized p -> validate p = Ok tt <-> exists a, page_rep p a.
Proof.
  intros Hp. split; [|intros [a Ha]; by eapply validate_rep].
  intros Hv. destruct (header p) as [h| |] eqn:Hh.
  - exists (abstract p h). by apply validate_abstract.
  - unfold validate in Hv. by rewrite Hh in Hv.
  - unfold validate in Hv. by rewrite Hh in Hv.
Qed.

Lemma validate_iff_represents_witness : exists a, page_rep sample_page a.
Proof.
  apply (proj1 (validate_iff_represents sample_page ltac:(apply sample_page1_rep))).
  vm_compute. reflexivity.
Defined.

(** C34. A single changed byte, anywhere in a valid page, is reported as
    corruption when the page is parsed. *)
Theorem single_byte_corruption_detected p (i : nat) b c :
  page_sized p -> validate p = Ok tt -> bytes p !! i = Some b -> b <> c ->
  exists m, from_bytes (<[i := c]> (bytes p)) = Err (Corruption m).
Proof.
  intros Hp Hv Hb Hbc. set (q := mkPage (<[i := c]> (bytes p))).
  assert (Hq : page_sized q) by (unfold page_sized, q; cbn [bytes]; by rewrite length_insert).
  assert (Hcv : checksum_valid p).
  { unfold validate in Hv. steps_in Hv. destruct a0. by apply validate_page_checksum_iff. }
  pose proof (changed_byte_breaks_checksum p i b c Hp Hcv Hb Hbc) as Hbad.
  unfold from_bytes. fold q. unfold validate.
  destruct (header q) as [h|e|] eqn:Hh; cbn [bind_outcome].
  - destruct (validate_page_checksum_spec q Hq) as [[_ ?]|(m & -> & _)]; [done|].
    by exists m.
  - pose proof (header_err _ _ Hh Hq). destruct e as [| | |m| |]; try done. by exists m.
  - by apply header_no_panic in Hh.
Qed.

Lemma single_byte_corruption_detected_witness :
  exists m, from_bytes (<[4095%nat := x55]> (bytes sample_page)) = Err (Corruption m).
Proof.
  apply (single_byte_corruption_detected sample_page 4095 x61 x55).
  - apply sample_page1_rep.
  - vm_compute. reflexivity.
  - vm_compute. reflexivity.
  - discriminate.
Defined.

(** Deleting a live record makes its slot read as absent, keeps the others,
    and makes the slot the next insertion's candidate; deleting an absent
    record changes nothing, and a slot out of range is a user error. *)
Theorem delete_record_correct p a i :
  page_rep p a -> packed a ->
  match a_cells a !! N.to_nat i with
  | None => exists m, delete_record i p = (Err (User m), p)
  | Some (CLive _) =>
      exists p', delete_record i p = (Ok true, p')
        /\ page_rep p' (a_delete (N.to_nat i) a) /\ packed (a_delete (N.to_nat i) a)
        /\ validate p' = Ok tt /\ read_record p' i = Ok None
        /\ (forall j, j <> i -> read_record p' j = read_record p j)
        /\ is_Some (first_dead (a_cells (a_delete (N.to_nat i) a)))
  | Some _ => delete_record i p = (Ok false, p) /\ read_record p i = Ok None
  end.
Proof.
  intros Hrep Hpk. pose proof (delete_record_refines p a i Hrep) as H.
  pose proof (read_record_refines p a) as Hra.
  destruct (a_cells a !! N.to_nat i) as [[| |d]|] eqn:Hc.
  - split; [done|]. rewrite Hra by done. unfold a_read. by rewrite Hc.
  - split; [done|]. rewrite Hra by done. unfold a_read. by rewrite Hc.
  - destruct H as (p' & Hrun & Hrep'). exists p'.
    pose proof (lookup_lt_Some _ _ _ Hc) as Hlt.
    split; [done|]. split; [done|]. split; [by eapply packed_delete|].
    split; [by eapply validate_rep|].
    split; [|split].
    + rewrite (read_record_refines p' _ _ Hrep'). unfold a_read, a_delete. cbn [a_cells].
      by rewrite list_lookup_insert_eq.
    + intros j Hj. rewrite (read_record_refines p' _ _ Hrep'), Hra by done.
      unfold a_read, a_delete. cbn [a_cells]. by rewrite list_lookup_insert_ne by lia.
    + unfold a_delete. cbn [a_cells]. clear - Hlt. revert Hlt. generalize (N.to_nat i).
      induction (a_cells a) as [|c cells IH]; intros [|n] Hlt; simpl in *; try lia; [done|].
      destruct (cell_is_dead c); [done|]. destruct (IH n ltac:(lia)) as [k Hk].
      change (list_insert n CDead cells) with (<[n := CDead]> cells).
      rewrite Hk. by exists (S k).
  - by eexists.
Qed.

Lemma delete_record_correct_witness :
  exists p', delete_record 0 sample_page = (Ok true, p') /\ read_record p' 0 = Ok None.
Proof.
  destruct sample_page1_rep as [Hr Hp].
  pose proof (delete_record_correct _ _ 0 Hr Hp) as H.
  assert (a_cells sample_apage !! N.to_nat 0 = Some (CLive sample)) as Hc by done.
  rewrite Hc in H. destruct H as (p' & Hrun & _ & _ & _ & Hread & _).
  exists p'. split; [exact Hrun|exact Hread].
Defined.

(** ** A page that validates but cannot be compacted

    Slots 0 and 1 both claim the 3000 bytes of the first record. *)
Definition overlapping_page : Page :=
  snd ((let! _ := insert_record (replicate (N.to_nat 3000) x41) in
        let! _ := insert_record [x42] in
        let! _ := write_slot_entry 1 (mkSlotEntry 1096 3000 SLOT_LIVE) in
        refresh_checksum) (page_new 7 Heap)).

Lemma overlapping_page_rep : exists a, page_rep overlapping_page a /\ live_bytes (a_cells a) = 6000.
Proof.
  assert (Hh : header overlapping_page = Ok (mkPageHeader 7 0 Heap 46 1095 2 196039)).
  { vm_compute. reflexivity. }
  eexists. split; [refine (validate_abstract _ _ _ Hh _)|]; vm_compute; reflexivity.
Qed.

(** A directory with room for the records no longer is a page header. *)
Lemma overwritten_directory_invalid p a p' :
  page_rep p a -> page_sized p' ->
  (forall w o, o + w <= OFF_FREE_END -> uint_at w (bytes p') o = uint_at w (bytes p) o) ->
  uint_at 2 (bytes p') OFF_SLOT_COUNT = uint_at 2 (bytes p) OFF_SLOT_COUNT ->
  uint_at 2 (bytes p') OFF_FREE_END < dir_end a ->
  exists m, validate p' = Err (Corruption m).
Proof.
  intros Hrep Hp Hk Hc He. destruct (rep_header _ _ Hrep) as [Hm Hv _ _ _ Hs _ Hn _ Hd _].
  cbn [header_of h_free_start h_slot_count] in *.
  unfold validate, header, read_u16, read_u32, read_u64. rewrite !read_uint_ok by page_lia.
  cbn [bind_outcome]. rewrite !Hk, Hc by lia. rewrite Hm, Hv, Hs, Hn, !N.eqb_refl. cbn [negb bind_outcome].
  rewrite (proj2 (N.ltb_lt _ _) He). cbn [orb]. by eexists.
Qed.

(** C37. Compaction of any page that [validate] accepts, packed or not:
    [validate] lets live slots overlap, so the payloads to write back may be
    longer than the record area, and [compact] does not check it.  It succeeds
    and keeps every record when the live payloads fit behind the directory; it
    returns [Ok] but leaves a page that no longer validates when they fit behind
    the header only; and it panics exactly when they are longer than the page. *)
Theorem compact_on_valid_pages p a :
  page_rep p a ->
  (fst (compact p) = Panic <-> PAGE_SIZE < live_bytes (a_cells a))
  /\ (live_bytes (a_cells a) <= PAGE_SIZE -> fst (compact p) = Ok tt)
  /\ (dir_end a + live_bytes (a_cells a) <= PAGE_SIZE ->
      validate (snd (compact p)) = Ok tt
      /\ forall j, read_record (snd (compact p)) j = read_record p j)
  /\ (PAGE_SIZE < dir_end a + live_bytes (a_cells a) ->
      HEADER_SIZE + live_bytes (a_cells a) <= PAGE_SIZE ->
      exists m, validate (snd (compact p)) = Err (Corruption m)).
Proof.
  intros Hrep. pose proof (compact_total p a Hrep) as Ht. pose proof (compact_refines p a Hrep) as Hc.
  destruct (compact p) as [[[]| |] p']; [|done|]; cbn [fst snd].
  - destruct Ht as (Hl & Hs & Hk). split; [split; [done|lia]|]. split; [done|]. split.
    + intros Hf. destruct (Hc Hf) as (p2 & [= <-] & Hrep'). split; [by eapply validate_rep|].
      intros j. by rewrite (read_record_refines p' _ _ Hrep'), (read_record_refines p _ _ Hrep).
    + intros Hd Hh. destruct (Hk ltac:(lia)) as (Hb & Hn & He).
      apply (overwritten_directory_invalid p a p' Hrep Hs Hb Hn). lia.
  - split; [done|]. split; [lia|]. unfold dir_end. split; lia.
Qed.

Lemma compact_on_valid_pages_witness :
  validate overlapping_page = Ok tt /\ fst (compact overlapping_page) = Panic.
Proof.
  destruct overlapping_page_rep as (a & Hrep & Hl). split; [vm_compute; reflexivity|].
  apply (compact_on_valid_pages _ a Hrep). rewrite Hl. reflexivity.
Defined.
