(* ===== verification/Vfs.v ===== *)
(** * Vfs: random-access files and the page file of crate [rdbms_vfs]

    [VfsFile] is the crate's trait, [VfsLaws] states what its implementations
    promise and what all the layers above rely on.  The standard implementation
    [StdVfsFile] sits on the operating system's positioned reads and writes,
    which may transfer fewer bytes than asked for, be interrupted or fail; its
    retry loops are translated here, and [VfsTheorems] shows that they turn the
    operating system's behaviour ([OsLaws]) into [VfsLaws].

    The state of a file is threaded through reads as well: a read changes no
    contents, but the outcomes the operating system has in store advance. *)

From S2P Require Import Prelude Core Bytes Page.

(** ** The trait *)

Class VfsFile (F : Type) : Type := {
  file_read_exact_at : N -> N -> db F (list byte);
  file_write_all_at : N -> list byte -> db F unit;
  file_len : db F N;
  file_sync_data : db F unit
}.

(** The contents of a file after [v] was written at [off]: the gap between the
    old end of the file and [off] reads as zeros, and an empty write does
    nothing. *)
Definition file_write (c : list byte) (off : N) (v : list byte) : list byte :=
  match v with
  | [] => c
  | _ => splice (c ++ replicate (N.to_nat (off - len c)) x00) off v
  end.

(** Reading exactly [n] bytes at [off]. *)
Definition read_contents (c : list byte) (off n : N) : DbResult (list byte) :=
  if n =? 0 then Ok []
  else if off + n <=? len c then Ok (slice c off n)
  else Err (Io UnexpectedEof).

(** What an implementation promises: [contents] is what reads observe; a
    successful write replaces exactly the given range and a failed one has
    written some prefix of it.  [healthy] files do not fail. *)
Class VfsLaws (F : Type) `{VfsFile F} : Type := {
  contents : F -> list byte;
  healthy : F -> Prop;
  read_law f off n r f' :
    file_read_exact_at off n f = (r, f') ->
    contents f' = contents f /\ r <> Panic
    /\ (healthy f -> healthy f')
    /\ (forall bs, r = Ok bs -> read_contents (contents f) off n = Ok bs)
    /\ (healthy f -> N.min (off + n) (len (contents f)) <= U64_MAX ->
        r = read_contents (contents f) off n);
  write_law f off v r f' :
    file_write_all_at off v f = (r, f') ->
    r <> Panic
    /\ (healthy f -> healthy f')
    /\ (r = Ok tt -> contents f' = file_write (contents f) off v)
    /\ (exists k, contents f' = file_write (contents f) off (take k v))
    /\ (healthy f -> off + len v <= U64_MAX -> r = Ok tt);
  len_law f r f' :
    file_len f = (r, f') ->
    contents f' = contents f /\ r <> Panic /\ (healthy f -> healthy f')
    /\ (forall n, r = Ok n -> n = len (contents f))
    /\ (healthy f -> r = Ok (len (contents f)));
  sync_law f r f' :
    file_sync_data f = (r, f') ->
    contents f' = contents f /\ r <> Panic /\ (healthy f -> healthy f')
    /\ (healthy f -> r = Ok tt)
}.

(** ** The operating system's file

    [read_at] and [write_at] of [std::os::unix::fs::FileExt], [metadata().len()]
    and [sync_data()].  [interruptions] bounds how many more times the file's
    operations will return [ErrorKind::Interrupted]. *)

Class OsFile (F : Type) : Type := {
  read_at : N -> N -> st F ErrorKind (list byte);
  write_at : list byte -> N -> st F ErrorKind N;
  metadata_len : st F ErrorKind N;
  os_sync_data : st F ErrorKind unit;
  interruptions : F -> nat
}.

Class OsLaws (F : Type) `{OsFile F} : Type := {
  os_contents : F -> list byte;
  (** The file returns no error other than [Interrupted]. *)
  os_healthy : F -> Prop;
  read_at_law f n off r f' :
    read_at n off f = (r, f') ->
    os_contents f' = os_contents f /\ (os_healthy f -> os_healthy f')
    /\ match r with
       | Ok bs =>
           (interruptions f' <= interruptions f)%nat
           /\ len bs <= n /\ bs = slice (os_contents f) off (len bs)
           /\ (bs = [] -> n = 0 \/ len (os_contents f) <= off)
           /\ (bs <> [] -> off + len bs <= len (os_contents f))
       | Err Interrupted => (interruptions f' < interruptions f)%nat
       | Err _ => ~ os_healthy f
       | Panic => False
       end;
  write_at_law f v off r f' :
    write_at v off f = (r, f') ->
    (os_healthy f -> os_healthy f')
    /\ match r with
       | Ok k =>
           (interruptions f' <= interruptions f)%nat /\ k <= len v
           /\ os_contents f' = file_write (os_contents f) off (take (N.to_nat k) v)
           /\ (os_healthy f -> v <> [] -> k <> 0)
       | Err Interrupted =>
           os_contents f' = os_contents f /\ (interruptions f' < interruptions f)%nat
       | Err _ => os_contents f' = os_contents f /\ ~ os_healthy f
       | Panic => False
       end;
  metadata_len_law f r f' :
    metadata_len f = (r, f') ->
    os_contents f' = os_contents f /\ (os_healthy f -> os_healthy f')
    /\ match r with Ok n => n = len (os_contents f) | Err _ => ~ os_healthy f | Panic => False end;
  os_sync_law f r f' :
    os_sync_data f = (r, f') ->
    os_contents f' = os_contents f /\ (os_healthy f -> os_healthy f')
    /\ match r with Ok _ => True | Err _ => ~ os_healthy f | Panic => False end
}.

(** ** The retry loops *)

Section StdVfsFile.
Context {F : Type} `{OsFile F}.

(** The [while] loop of [read_exact_at]; [acc] is the part of the buffer
    already filled and [n] the length of the rest.  [Panic] on exhausted fuel
    is excluded by [read_exact_at_spec]. *)
Fixpoint read_exact_loop (fuel : nat) (offset n : N) (acc : list byte)
  : st F ErrorKind (list byte) :=
  if n =? 0 then ret acc else
  match fuel with
  | O => lift Panic
  | S fuel' => fun file =>
      match read_at n offset file with
      | (Ok bs, file') =>
          if len bs =? 0 then (Err UnexpectedEof, file') else
          match checked_add U64_MAX offset (len bs) with
          | None => (Err InvalidInput, file')
          | Some offset' =>
              if n <? len bs then (Panic, file')
              else read_exact_loop fuel' offset' (n - len bs) (acc ++ bs) file'
          end
      | (Err Interrupted, file') => read_exact_loop fuel' offset n acc file'
      | (Err e, file') => (Err e, file')
      | (Panic, file') => (Panic, file')
      end
  end.

(** Every iteration moves at least a byte or uses up an interruption. *)
Definition read_exact_at (offset n : N) : st F ErrorKind (list byte) := fun file =>
  read_exact_loop (N.to_nat n + interruptions file) offset n [] file.

Fixpoint write_all_loop (fuel : nat) (offset : N) (buf : list byte) : st F ErrorKind unit :=
  if len buf =? 0 then ret tt else
  match fuel with
  | O => lift Panic
  | S fuel' => fun file =>
      match write_at buf offset file with
      | (Ok written, file') =>
          if written =? 0 then (Err WriteZero, file') else
          match checked_add U64_MAX offset written with
          | None => (Err InvalidInput, file')
          | Some offset' =>
              if len buf <? written then (Panic, file')
              else write_all_loop fuel' offset' (drop (N.to_nat written) buf) file'
          end
      | (Err Interrupted, file') => write_all_loop fuel' offset buf file'
      | (Err e, file') => (Err e, file')
      | (Panic, file') => (Panic, file')
      end
  end.

Definition write_all_at (offset : N) (buf : list byte) : st F ErrorKind unit := fun file =>
  write_all_loop (length buf + interruptions file) offset buf file.

(** [?] on an [io::Result] inside a method that returns [DbResult]. *)
Definition io {A : Type} (m : st F ErrorKind A) : db F A := fun file =>
  let '(r, file') := m file in (from_io_error r, file').

(** [impl VfsFile for StdVfsFile]. *)
#[local] Instance StdVfsFile : VfsFile F := {
  file_read_exact_at offset n := io (read_exact_at offset n);
  file_write_all_at offset buf := io (write_all_at offset buf);
  file_len := io metadata_len;
  file_sync_data := io os_sync_data
}.
End StdVfsFile.

(** ** Platforms without positioned reads and writes

    On a platform that is neither Unix nor Windows both functions refuse. *)

Record OtherFile (F : Type) : Type := mkOtherFile { other_file : F }.
Arguments mkOtherFile {F}.
Arguments other_file {F}.

Section Other.
Context {F : Type} `{OsFile F}.

Definition other_read_at (_ : N) (_ : N) : st (OtherFile F) ErrorKind (list byte) := throw Unsupported.
Definition other_write_at (_ : list byte) (_ : N) : st (OtherFile F) ErrorKind N := throw Unsupported.

#[local] Instance OtherPlatform : OsFile (OtherFile F) := {
  read_at := other_read_at;
  write_at := other_write_at;
  metadata_len := zoom other_file (fun f _ => mkOtherFile f) metadata_len;
  os_sync_data := zoom other_file (fun f _ => mkOtherFile f) os_sync_data;
  interruptions f := interruptions (other_file f)
}.
End Other.

(** ** The page file: page [N] is stored at [N * PAGE_SIZE] *)

Definition page_offset (page_id : PageId) : DbResult N :=
  ok_or (checked_mul U64_MAX page_id PAGE_SIZE) (User "page offset overflow").

Section PageFile.
Context {F : Type} `{VfsFile F}.

Definition write_page_at (page_id : PageId) (page : Page) : db F unit :=
  let! _ := lift (validate page) in
  let! h := lift (header page) in
  if negb (h_page_id h =? page_id)
  then throw (User ("page id mismatch on write: target=" +:+ pretty page_id
                    +:+ ", page_header=" +:+ pretty (h_page_id h))) else
  let! offset := lift (page_offset page_id) in
  file_write_all_at offset (bytes page).

Definition write_page (page : Page) : db F unit :=
  let! h := lift (header page) in
  write_page_at (h_page_id h) page.

Definition read_page (page_id : PageId) : db F Page :=
  let! offset := lift (page_offset page_id) in
  let! bs := file_read_exact_at offset PAGE_SIZE in
  let! page := lift (from_bytes bs) in
  let! h := lift (header page) in
  if negb (h_page_id h =? page_id)
  then throw (Corruption ("page id mismatch on read: requested=" +:+ pretty page_id
                          +:+ ", page_header=" +:+ pretty (h_page_id h)))
  else ret page.
End PageFile.

(** ** A simulated operating-system file

    The concrete file of the witnesses: contents and the list of outcomes the
    system still has in store; with an empty list every operation succeeds and
    transfers everything. *)

Inductive event : Type :=
| Transfer (limit : positive)
| Interrupt
| Failure.

Record SimFile : Type := mkSimFile { sim_contents : list byte; sim_script : list event }.

Definition next_event (f : SimFile) : option event * SimFile :=
  match sim_script f with
  | [] => (None, f)
  | e :: rest => (Some e, mkSimFile (sim_contents f) rest)
  end.

Definition transfer_limit (e : option event) (n : N) : outcome ErrorKind N :=
  match e with
  | None => Ok n
  | Some (Transfer limit) => Ok (N.min (Npos limit) n)
  | Some Interrupt => Err Interrupted
  | Some Failure => Err OtherIo
  end.

Fixpoint count_interrupts (script : list event) : nat :=
  match script with
  | [] => 0
  | Interrupt :: rest => S (count_interrupts rest)
  | _ :: rest => count_interrupts rest
  end.

#[export] Instance SimOs : OsFile SimFile := {
  read_at n off f :=
    let '(e, f') := next_event f in
    match transfer_limit e (N.min n (len (sim_contents f) - off)) with
    | Ok k => (Ok (slice (sim_contents f) off k), f')
    | Err err => (Err err, f')
    | Panic => (Panic, f')
    end;
  write_at v off f :=
    let '(e, f') := next_event f in
    match transfer_limit e (len v) with
    | Ok k => (Ok k, mkSimFile (file_write (sim_contents f) off (take (N.to_nat k) v))
                               (sim_script f'))
    | Err err => (Err err, f')
    | Panic => (Panic, f')
    end;
  metadata_len f := (Ok (len (sim_contents f)), f);
  os_sync_data f := (Ok tt, f);
  interruptions f := count_interrupts (sim_script f)
}.

#[export] Instance SimVfs : VfsFile SimFile := StdVfsFile.
