(* ===== verification/VfsFacts.v ===== *)
(** * VfsFacts: the standard file keeps the file contract

    The retry loops of [StdVfsFile] end and implement [VfsLaws] over any
    operating system that satisfies [OsLaws]; the simulated file does. *)

From S2P Require Import Prelude Core Bytes Page Vfs.

(** ** Writes to file contents *)

Lemma file_write_nonempty c off v :
  v <> [] -> file_write c off v = splice (c ++ replicate (N.to_nat (off - len c)) x00) off v.
Proof. by destruct v. Qed.

Lemma len_file_write c off v :
  v <> [] -> len (file_write c off v) = N.max (len c) (off + len v).
Proof.
  intros Hv. rewrite file_write_nonempty by done. unfold splice.
  autorewrite with len. lia.
Qed.

Lemma lookup_file_write c off v (i : nat) :
  v <> [] ->
  file_write c off v !! i =
    if decide (N.of_nat i < off)
    then (if decide (N.of_nat i < len c) then c !! i else Some x00)
    else if decide (N.of_nat i < off + len v) then v !! (i - N.to_nat off)%nat else c !! i.
Proof.
  intros Hv. rewrite file_write_nonempty by done.
  rewrite lookup_splice by (autorewrite with len; lia).
  repeat case_decide; try done.
  - by rewrite lookup_app_l by lia.
  - rewrite lookup_app_r by lia. apply lookup_replicate_2. lia.
  - destruct (decide (N.of_nat i < len c)).
    + by rewrite lookup_app_l by lia.
    + rewrite !(proj2 (lookup_ge_None _ _)); autorewrite with len; done || lia.
Qed.

Lemma file_write_end c v : file_write c (len c) v = c ++ v.
Proof.
  destruct v as [|b v]; [by rewrite app_nil_r|].
  unfold file_write. rewrite N.sub_diag, app_nil_r. apply splice_app_end.
Qed.

Lemma file_write_app c off v w :
  file_write (file_write c off v) (off + len v) w = file_write c off (v ++ w).
Proof.
  destruct (decide (v = [])) as [->|Hv]; [by rewrite N.add_0_r|].
  destruct (decide (w = [])) as [->|Hw]; [by rewrite app_nil_r|].
  assert (Hvw : v ++ w <> []) by (destruct v; done).
  apply list_eq; intros i. rewrite !lookup_file_write, len_file_write, length_app by done.
  repeat case_decide; try lia; try done.
  - by rewrite lookup_app_l by lia.
  - rewrite lookup_app_r by lia. f_equal. lia.
Qed.

(** A written range reads back; other ranges inside the old file are kept. *)
Lemma slice_file_write_same c off v : v <> [] -> slice (file_write c off v) off (len v) = v.
Proof.
  intros Hv. apply list_eq; intros i. rewrite lookup_slice, lookup_file_write by done.
  repeat case_decide; try lia.
  - f_equal. lia.
  - symmetry. apply lookup_ge_None. lia.
Qed.

Lemma slice_file_write_other c off v o n :
  o + n <= len c -> o + n <= off \/ off + len v <= o ->
  slice (file_write c off v) o n = slice c o n.
Proof.
  intros Hr Hd. destruct (decide (v = [])) as [->|Hv]; [done|].
  apply slice_eq_lookup. intros i Hi. rewrite lookup_file_write by done.
  repeat case_decide; try lia; done.
Qed.

(** ** The retry loops *)

Section Std.
Context {F : Type} `{OsLaws F}.

Lemma read_exact_loop_spec fuel : forall offset n acc f r f',
  (N.to_nat n + interruptions f <= fuel)%nat ->
  read_exact_loop fuel offset n acc f = (r, f') ->
  os_contents f' = os_contents f /\ r <> Panic /\ (os_healthy f -> os_healthy f')
  /\ (forall bs, r = Ok bs -> bs = acc ++ slice (os_contents f) offset n
                              /\ (n = 0 \/ offset + n <= len (os_contents f)))
  /\ (os_healthy f -> N.min (offset + n) (len (os_contents f)) <= U64_MAX ->
      n = 0 \/ offset + n <= len (os_contents f) -> exists bs, r = Ok bs)
  /\ (os_healthy f -> N.min (offset + n) (len (os_contents f)) <= U64_MAX -> n <> 0 ->
      len (os_contents f) < offset + n -> r = Err UnexpectedEof).
Proof.
  induction fuel as [|fuel IH]; intros offset n acc f r f' Hf; cbn [read_exact_loop];
    destruct (n =? 0) eqn:Hn; reflect_bool.
  1, 3: intros [= <- <-]; subst n; split_and!; try done;
        [by intros ? [= <-]; rewrite app_nil_r; auto|by eauto].
  { lia. }
  destruct (read_at n offset f) as [ro f1] eqn:Hr.
  apply read_at_law in Hr as (Hc & Hh & Hr).
  destruct ro as [bs|e|]; [| |done].
  - destruct Hr as (Hi & Hl & Hbs & Hemp & Hne).
    destruct (len bs =? 0) eqn:Hz; reflect_bool.
    { intros [= <- <-]. assert (bs = []) as -> by (by apply nil_length_inv; lia).
      specialize (Hemp eq_refl). split_and!; try done. intros. lia. }
    assert (Hne' : bs <> []) by (by intros ->). specialize (Hne Hne').
    destruct (checked_add U64_MAX offset (len bs)) as [off'|] eqn:Ha.
    2: { apply checked_add_None in Ha. intros [= <- <-]. split_and!; try done; lia. }
    apply checked_add_Some in Ha as [-> Ha].
    destruct (n <? len bs) eqn:Hlt; reflect_bool; [lia|].
    intros Hloop. apply IH in Hloop; [|lia].
    destruct Hloop as (Hc' & Hp & Hh' & Hok & Hsome & Heof).
    rewrite Hc' in *. rewrite Hc in *.
    split; [done|]. split; [done|]. split; [auto|]. split; [|split].
    + intros bs' ->. destruct (Hok _ eq_refl) as [-> Hx]. split; [|right; lia].
      rewrite <- app_assoc. f_equal.
      replace n with (len bs + (n - len bs)) at 2 by lia.
      rewrite slice_split. by rewrite <- Hbs.
    + intros. apply Hsome; auto; lia.
    + intros. apply Heof; auto; lia.
  - destruct e; try (intros [= <- <-]; split_and!; done).
    intros Hloop. apply IH in Hloop; [|lia].
    rewrite Hc in Hloop. destruct Hloop as (Hc' & Hp & Hh' & Hok & Hsome & Heof).
    split_and!; auto; apply Hok; done.
Qed.

Lemma write_all_loop_spec fuel : forall offset buf f r f',
  (length buf + interruptions f <= fuel)%nat ->
  write_all_loop fuel offset buf f = (r, f') ->
  r <> Panic /\ (os_healthy f -> os_healthy f')
  /\ (r = Ok tt -> os_contents f' = file_write (os_contents f) offset buf)
  /\ (exists k, os_contents f' = file_write (os_contents f) offset (take k buf))
  /\ (os_healthy f -> offset + len buf <= U64_MAX -> r = Ok tt).
Proof.
  induction fuel as [|fuel IH]; intros offset buf f r f' Hf; cbn [write_all_loop];
    destruct (len buf =? 0) eqn:Hn; reflect_bool.
  1, 3: assert (buf = []) as -> by (by apply nil_length_inv; lia);
        intros [= <- <-]; split_and!; try done; by exists 0%nat.
  { lia. }
  assert (Hbuf : buf <> []) by (by intros ->).
  destruct (write_at buf offset f) as [ro f1] eqn:Hr.
  apply write_at_law in Hr as (Hh & Hr).
  destruct ro as [k|e|]; [| |done].
  - destruct Hr as (Hi & Hl & Hc & Hk).
    destruct (k =? 0) eqn:Hz; reflect_bool.
    { intros [= <- <-]. subst k. split_and!; try done.
      - by exists 0%nat.
      - intros Hhf. by destruct (Hk Hhf Hbuf). }
    assert (Htl : len (take (N.to_nat k) buf) = k) by (rewrite length_take; lia).
    destruct (checked_add U64_MAX offset k) as [off'|] eqn:Ha.
    2: { apply checked_add_None in Ha. intros [= <- <-]. split_and!; try done.
         - by eexists.
         - lia. }
    apply checked_add_Some in Ha as [-> Ha].
    destruct (len buf <? k) eqn:Hlt; reflect_bool; [lia|].
    intros Hloop. apply IH in Hloop; [|rewrite length_drop; lia].
    rewrite Hc in Hloop. destruct Hloop as (Hp & Hh' & Hok & (k' & Hpre) & Hall).
    assert (Happ : forall w, file_write (file_write (os_contents f) offset
                               (take (N.to_nat k) buf)) (offset + k) w
                             = file_write (os_contents f) offset (take (N.to_nat k) buf ++ w)).
    { intros w. rewrite <- Htl at 2. apply file_write_app. }
    rewrite Happ in Hok. rewrite Happ in Hpre. rewrite take_drop in Hok.
    split; [done|]. split; [auto|]. split; [done|]. split.
    + exists (N.to_nat k + k')%nat. rewrite Hpre. by rewrite take_take_drop.
    + intros. apply Hall; [auto|]. rewrite length_drop. lia.
  - destruct e; try (destruct Hr as [Hc Hn']; intros [= <- <-]; split_and!; try done;
                     by exists 0%nat).
    destruct Hr as [Hc Hi]. intros Hloop. apply IH in Hloop; [|lia].
    rewrite Hc in Hloop. destruct Hloop as (Hp & Hh' & Hok & Hpre & Hall).
    split_and!; auto.
Qed.
End Std.

(** ** [StdVfsFile] implements the file contract *)

Section StdLaws.
Context {F : Type} `{OsLaws F}.

Lemma io_run {A} (m : st F ErrorKind A) f r f' :
  io m f = (r, f') <-> exists r0, m f = (r0, f') /\ r = from_io_error r0.
Proof.
  unfold io. destruct (m f) as [r0 g]. split.
  - intros [= <- <-]. by exists r0.
  - by intros (? & [= <- <-] & ->).
Qed.

#[local] Existing Instance StdVfsFile.

#[local] Instance StdVfsLaws : VfsLaws F.
Proof.
  refine {| contents := os_contents; healthy := os_healthy |}.
  - intros f off n r f' (r0 & Hr & ->)%io_run.
    apply read_exact_loop_spec in Hr as (Hc & Hp & Hh & Hok & Hsome & Heof); [|lia].
    unfold read_contents. split_and!; try done; try (by destruct r0).
    + intros bs. destruct r0; simpl; try done. intros [= <-].
      destruct (Hok _ eq_refl) as [-> Hx]. case_test; [by subst n|].
      rewrite (proj2 (N.leb_le _ _)); [done|]. by destruct Hx.
    + intros Hhf Hm. case_test.
      { destruct (Hsome Hhf Hm (or_introl Hb)) as [bs ->].
        simpl. destruct (Hok _ eq_refl) as [-> _]. by subst n. }
      case_test.
      * destruct (Hsome Hhf Hm (or_intror Hb0)) as [bs ->].
        simpl. by destruct (Hok _ eq_refl) as [-> _].
      * by rewrite Heof.
  - intros f off v r f' (r0 & Hr & ->)%io_run.
    apply write_all_loop_spec in Hr as (Hp & Hh & Hok & Hpre & Hall); [|lia].
    split_and!; try done; try (by destruct r0).
    + destruct r0; simpl; try done. intros [= ->]. auto.
    + intros Hhf Hm. by rewrite (Hall Hhf Hm).
  - intros f r f' (r0 & Hr & ->)%io_run.
    apply metadata_len_law in Hr as (Hc & Hh & Hr).
    destruct r0; simpl in *; subst; split_and!; try done; by intros ? [= <-].
  - intros f r f' (r0 & Hr & ->)%io_run.
    apply os_sync_law in Hr as (Hc & Hh & Hr).
    split_and!; try done; destruct r0 as [[]| |]; subst; done.
Defined.
End StdLaws.

(** ** The simulated file satisfies the operating-system laws *)

Definition sim_healthy (f : SimFile) : Prop := Forall (fun e => e <> Failure) (sim_script f).

Lemma next_event_spec f e f' :
  next_event f = (e, f') ->
  sim_contents f' = sim_contents f /\ (sim_healthy f -> sim_healthy f' /\ e <> Some Failure)
  /\ (count_interrupts (sim_script f)
      = (match e with Some Interrupt => 1 | _ => 0 end) + count_interrupts (sim_script f'))%nat.
Proof.
  unfold next_event, sim_healthy. destruct f as [c [|x script]]; simpl; intros [= <- <-].
  - done.
  - split; [done|]. split.
    + intros Hh. inversion Hh; subst. split; [done|]. by intros [= ->].
    + by destruct x.
Qed.

Lemma transfer_limit_spec e n r :
  transfer_limit e n = r ->
  match r with
  | Ok k => k <= n /\ (n <> 0 -> k <> 0) /\ e <> Some Interrupt
  | Err Interrupted => e = Some Interrupt
  | Err _ => e = Some Failure
  | Panic => False
  end.
Proof.
  intros <-. destruct e as [[l| |]|]; simpl; try done; split_and!; done || lia.
Qed.

#[export] Instance SimOsLaws : OsLaws SimFile.
Proof.
  refine {| os_contents := sim_contents; os_healthy := sim_healthy |}.
  - intros f n off r f'. simpl. destruct (next_event f) as [e f1] eqn:He.
    apply next_event_spec in He as (Hc & Hh & Hi).
    destruct (transfer_limit e _) as [k|k|] eqn:Ht; apply transfer_limit_spec in Ht.
    + intros [= <- <-]. destruct Ht as (Hk & Hn & Hne).
      assert (Hl : len (slice (sim_contents f) off k) = k \/ len (sim_contents f) < off).
      { destruct (decide (off <= len (sim_contents f))); [left|right; lia].
        apply len_slice. lia. }
      assert (Hb : k <> 0 -> slice (sim_contents f) off k <> []).
      { intros Hk0 Hs. rewrite Hs in Hl. simpl in Hl. lia. }
      assert (Hz : len (sim_contents f) < off -> k = 0) by lia.
      assert (Hlk : len (slice (sim_contents f) off k) = k).
      { destruct Hl as [Hl|Hl]; [done|]. by rewrite (Hz Hl). }
      rewrite Hlk. split_and!; [done|tauto|lia|lia|done| |].
      * intros Hs. destruct (decide (k = 0)) as [->|Hk0]; [lia|]. by destruct (Hb Hk0).
      * intros Hs. destruct (decide (k = 0)) as [->|Hk0]; [by destruct Hs|]. lia.
    + intros [= <- <-]. split_and!; [done|tauto|].
      destruct k; subst e; try (intros Hf; by destruct (Hh Hf)). lia.
    + done.
  - intros f v off r f'. simpl. destruct (next_event f) as [e f1] eqn:He.
    apply next_event_spec in He as (Hc & Hh & Hi).
    destruct (transfer_limit e _) as [k|k|] eqn:Ht; apply transfer_limit_spec in Ht.
    + intros [= <- <-]. destruct Ht as (Hk & Hn & Hne). split_and!; simpl.
      * intros Hf. by destruct (Hh Hf).
      * lia.
      * done.
      * done.
      * intros _ Hv. apply Hn. by destruct v.
    + intros [= <- <-]. split; [tauto|].
      destruct k; subst e; try (split; [done|]; intros Hf; by destruct (Hh Hf)). split; [done|lia].
    + done.
  - intros f r f' [= <- <-]. done.
  - intros f r f' [= <- <-]. done.
Defined.

#[export] Instance SimLaws : VfsLaws SimFile := StdVfsLaws.
