(* ===== verification/PageStore.v ===== *)
(** * PageStore: the page file as a map from page ids to pages

    The abstract specification of [PageFile]: the contents of a page-aligned
    file are a partial function from page ids to valid pages; [write_page_at]
    updates it at one id and [read_page] looks it up. *)

From S2P Require Import Prelude Core Bytes Page PageFacts PageOps Vfs VfsFacts.

(** The page read for [id] from file contents [c]. *)
Definition stored_page (c : list byte) (id : PageId) : DbResult Page :=
  if len c <? (id + 1) * PAGE_SIZE then Err (Io UnexpectedEof) else
  let? page := from_bytes (slice c (id * PAGE_SIZE) PAGE_SIZE) in
  let? h := header page in
  if negb (h_page_id h =? id)
  then Err (Corruption ("page id mismatch on read: requested=" +:+ pretty id
                        +:+ ", page_header=" +:+ pretty (h_page_id h)))
  else Ok page.

Definition page_store (c : list byte) (id : PageId) : option Page :=
  match stored_page c id with Ok p => Some p | _ => None end.

Definition aligned (c : list byte) : Prop := len c mod PAGE_SIZE = 0.

(** The page id can be addressed with 64-bit file offsets. *)
Definition addressable (id : PageId) : Prop := (id + 1) * PAGE_SIZE <= U64_MAX.

(** [p] is a valid page that says it is page [id]. *)
Definition valid_page (id : PageId) (p : Page) : Prop :=
  page_sized p /\ validate p = Ok tt /\ exists h, header p = Ok h /\ h_page_id h = id.

(** What [page_store] becomes when [p] is written as page [id]. *)
Definition store_set (id : PageId) (p : Page) (s : PageId -> option Page) (i : PageId)
  : option Page := if decide (i = id) then Some p else s i.

(** ** Page-aligned contents *)

Lemma page_rep_valid p a : page_rep p a -> valid_page (a_id a) p.
Proof.
  intros Hp. split; [apply Hp|]. split; [by eapply validate_rep|].
  exists (header_of p a). split; [by apply rep_header_run|done].
Qed.

Lemma from_bytes_Ok bs p : from_bytes bs = Ok p <-> p = mkPage bs /\ validate p = Ok tt.
Proof.
  unfold from_bytes. split.
  - intros H. steps_in H. by destruct a.
  - intros [-> Hv]. by rewrite Hv.
Qed.

Lemma aligned_pages c : aligned c -> exists n, len c = n * PAGE_SIZE.
Proof.
  unfold aligned, PAGE_SIZE. intros Ha. exists (len c / 4096).
  pose proof (N.div_mod (len c) 4096). lia.
Qed.

Lemma aligned_write c id p : aligned c -> page_sized p ->
  aligned (file_write c (id * PAGE_SIZE) (bytes p)).
Proof.
  unfold page_sized. intros (n & Hn)%aligned_pages Hp. unfold aligned.
  rewrite len_file_write by (intros Hb; rewrite Hb in Hp; done). rewrite Hp, Hn.
  destruct (decide (id + 1 <= n)).
  - rewrite N.max_l by (unfold PAGE_SIZE; lia). apply N.Div0.mod_mul.
  - rewrite N.max_r by (unfold PAGE_SIZE; lia).
    replace (id * PAGE_SIZE + PAGE_SIZE) with ((id + 1) * PAGE_SIZE) by lia.
    apply N.Div0.mod_mul.
Qed.

Lemma zero_page_invalid p : from_bytes (replicate (N.to_nat PAGE_SIZE) x00) <> Ok p.
Proof.
  intros H. apply (f_equal (fun r => match r with Ok _ => true | _ => false end)) in H.
  vm_compute in H. discriminate.
Qed.

Lemma stored_page_Ok c id p :
  stored_page c id = Ok p ->
  (id + 1) * PAGE_SIZE <= len c /\ bytes p = slice c (id * PAGE_SIZE) PAGE_SIZE
  /\ valid_page id p.
Proof.
  unfold stored_page. case_test; [done|]. intros H. steps_in H. subst.
  apply from_bytes_Ok in Hm as [-> Hv].
  split_and!; [done|done|]. unfold valid_page, page_sized. split_and!; [|done|by eauto].
  simpl. rewrite length_slice by lia. unfold PAGE_SIZE. lia.
Qed.

Lemma stored_page_written c id p :
  valid_page id p -> stored_page (file_write c (id * PAGE_SIZE) (bytes p)) id = Ok p.
Proof.
  intros (Hp & Hv & h & Hh & Hid). unfold page_sized in Hp.
  assert (Hne : bytes p <> []) by (intros Hb; rewrite Hb in Hp; done).
  unfold stored_page. rewrite len_file_write by done.
  replace (_ <? _) with false by (symmetry; apply N.ltb_ge; lia).
  assert (Hs : slice (file_write c (id * PAGE_SIZE) (bytes p)) (id * PAGE_SIZE) PAGE_SIZE
               = bytes p) by (rewrite <- Hp at 3; by apply slice_file_write_same).
  rewrite Hs. assert (Hf : from_bytes (bytes p) = Ok p) by (apply from_bytes_Ok; by destruct p).
  rewrite Hf. simpl. rewrite Hh. simpl. by rewrite Hid, N.eqb_refl.
Qed.

(** Writing a page changes the store at its id only, also when the write leaves
    a hole: the zero-filled pages of the hole are not valid. *)
Lemma page_store_write c id p i :
  aligned c -> valid_page id p ->
  page_store (file_write c (id * PAGE_SIZE) (bytes p)) i = store_set id p (page_store c) i.
Proof.
  intros Ha Hp. unfold store_set. case_decide as Hi.
  { subst i. unfold page_store. by rewrite stored_page_written. }
  destruct (aligned_pages c Ha) as [n Hn].
  pose proof Hp as (Hs & _). unfold page_sized in Hs.
  assert (Hne : bytes p <> []) by (intros Hb; rewrite Hb in Hs; done).
  unfold page_store, stored_page. rewrite len_file_write, Hs by done.
  destruct (decide (i + 1 <= n)).
  - replace (len c <? _) with false
      by (symmetry; apply N.ltb_ge; rewrite Hn; unfold PAGE_SIZE; lia).
    replace (N.max _ _ <? _) with false
      by (symmetry; apply N.ltb_ge; rewrite Hn; unfold PAGE_SIZE; lia).
    rewrite slice_file_write_other; [done|rewrite Hn; unfold PAGE_SIZE; lia|].
    rewrite Hs. unfold PAGE_SIZE. lia.
  - replace (len c <? _) with true
      by (symmetry; apply N.ltb_lt; rewrite Hn; unfold PAGE_SIZE; lia).
    destruct (decide (i < id)).
    + replace (N.max _ _ <? _) with false
        by (symmetry; apply N.ltb_ge; unfold PAGE_SIZE; lia).
      assert (Hz : slice (file_write c (id * PAGE_SIZE) (bytes p)) (i * PAGE_SIZE) PAGE_SIZE
                   = replicate (N.to_nat PAGE_SIZE) x00).
      { apply list_eq. intros k. rewrite lookup_slice, lookup_file_write by done.
        unfold PAGE_SIZE in *. repeat case_decide; try lia.
        - symmetry. apply lookup_replicate_2. lia.
        - symmetry. apply lookup_ge_None. rewrite length_replicate. lia. }
      rewrite Hz. destruct (from_bytes _) eqn:Hf; [|done|done].
      by apply zero_page_invalid in Hf.
    + replace (N.max _ _ <? _) with true; [done|].
      symmetry. apply N.ltb_lt. rewrite Hn. unfold PAGE_SIZE. lia.
Qed.

(** ** [PageFile] over the file contract *)

Lemma page_offset_ok id : addressable id -> page_offset id = Ok (id * PAGE_SIZE).
Proof.
  unfold addressable, page_offset, PAGE_SIZE. intros Ha.
  rewrite (proj2 (checked_mul_Some _ _ _ (id * 4096))); [done|]. split; [done|lia].
Qed.

Lemma page_offset_inv id o : page_offset id = Ok o -> o = id * PAGE_SIZE.
Proof.
  unfold page_offset. intros H. steps_in H. by apply checked_mul_Some in Hm as [-> _].
Qed.

Lemma page_offset_no_panic id : page_offset id <> Panic.
Proof. unfold page_offset. by destruct (checked_mul _ _ _). Qed.

Lemma validate_no_panic p : page_sized p -> validate p <> Panic.
Proof.
  intros Hp. unfold validate. destruct (header p) as [h| |] eqn:Hh; simpl; [|done|].
  2: by apply header_no_panic in Hh.
  destruct (validate_page_checksum_spec p Hp) as [[-> _]|(m & -> & _)]; simpl; [|done].
  assert (Hb : forall i, i ∈ range (h_slot_count h) -> validate_slot p h i <> Panic).
  { intros i Hi%elem_of_range. apply header_inv in Hh; [|done].
    pose proof (header_slot_bound p h Hh) as Hsb. unfold validate_slot.
    rewrite slot_entry_run by (unfold slot_pos, SLOT_SIZE in *; done || lia).
    simpl. case_test; [done|]. case_test; [|done].
    destruct (checked_add _ _ _); simpl; [|done]. by case_test. }
  induction (range (h_slot_count h)) as [|i l IH]; simpl; [done|].
  destruct (validate_slot p h i) as [[]| |] eqn:Hv; simpl; [|done|].
  - apply IH. intros j Hj. apply Hb. by right.
  - by apply (Hb i) in Hv; [|left].
Qed.

Lemma from_bytes_no_panic bs : len bs = PAGE_SIZE -> from_bytes bs <> Panic.
Proof.
  intros Hl. unfold from_bytes. pose proof (validate_no_panic (mkPage bs) Hl).
  by destruct (validate (mkPage bs)).
Qed.

Section PageFileLaws.
Context {F : Type} `{VfsLaws F}.

Lemma read_page_spec id f r f' :
  read_page id f = (r, f') ->
  contents f' = contents f /\ r <> Panic /\ (healthy f -> healthy f')
  /\ (forall p, r = Ok p -> stored_page (contents f) id = Ok p)
  /\ (healthy f -> addressable id -> r = stored_page (contents f) id).
Proof.
  unfold read_page, bind_st at 1, lift at 1.
  destruct (page_offset id) as [o|e|] eqn:Ho.
  2: intros [= <- <-]; split_and!; try done; intros _ Ha; by rewrite page_offset_ok in Ho.
  2: by apply page_offset_no_panic in Ho.
  apply page_offset_inv in Ho as ->.
  unfold bind_st at 1. destruct (file_read_exact_at _ _ f) as [ro f1] eqn:Hr.
  apply read_law in Hr as (Hc & Hp & Hh & Hok & Hin).
  unfold stored_page, addressable. revert Hok Hin. unfold read_contents.
  assert (He : (id + 1) * PAGE_SIZE = id * PAGE_SIZE + PAGE_SIZE) by lia. rewrite !He.
  replace (PAGE_SIZE =? 0) with false by done. rewrite N.leb_antisym.
  intros Hok Hin. destruct ro as [bs|e|]; [| |done].
  - specialize (Hok _ eq_refl). destruct (_ <? _) eqn:Hl; [done|]. reflect_bool.
    injection Hok as <-. unfold bind_st, lift, ret, throw.
    destruct (from_bytes _) as [p|e|] eqn:Hf; simpl.
    + apply from_bytes_Ok in Hf as [-> Hv].
      destruct (header _) as [h|e|] eqn:Hd; simpl.
      * case_test; intros [= <- <-]; split_and!; done.
      * intros [= <- <-]; split_and!; done.
      * exfalso. apply header_no_panic in Hd; [done|]. unfold page_sized. simpl.
        by rewrite length_slice.
    + intros [= <- <-]; split_and!; done.
    + apply from_bytes_no_panic in Hf; [done|]. by apply len_slice.
  - intros [= <- <-]. split_and!; try done. intros Hhf Ha.
    assert (Hm : N.min (id * PAGE_SIZE + PAGE_SIZE) (len (contents f)) <= U64_MAX) by lia.
    specialize (Hin Hhf Hm). destruct (_ <? _) eqn:Hl; [|done]. simpl in Hin. congruence.
Qed.

Lemma write_page_at_spec id p f r f' :
  page_sized p -> write_page_at id p f = (r, f') ->
  r <> Panic /\ (healthy f -> healthy f')
  /\ (r = Ok tt -> valid_page id p
                  /\ contents f' = file_write (contents f) (id * PAGE_SIZE) (bytes p))
  /\ (exists k, contents f' = file_write (contents f) (id * PAGE_SIZE) (take k (bytes p)))
  /\ (healthy f -> addressable id -> valid_page id p -> r = Ok tt).
Proof.
  intros Hps. unfold write_page_at, bind_st, lift, throw.
  destruct (validate p) as [[]|e|] eqn:Hv.
  2: intros [= <- <-]; split_and!; try done; [by exists 0%nat|].
  2: intros _ _ (_ & Hv' & _); congruence.
  2: by apply validate_no_panic in Hv.
  destruct (header p) as [h|e|] eqn:Hh.
  2: intros [= <- <-]; split_and!; try done; [by exists 0%nat|].
  2: intros _ _ (_ & _ & h & Hv' & _); congruence.
  2: by apply header_no_panic in Hh.
  case_test.
  { intros [= <- <-]. split_and!; try done; [by exists 0%nat|].
    intros _ _ (_ & _ & h' & Hh' & Hid). congruence. }
  destruct (page_offset id) as [o|e|] eqn:Ho.
  2: intros [= <- <-]; split_and!; try done; [by exists 0%nat|].
  2: intros _ Ha; by rewrite page_offset_ok in Ho.
  2: by apply page_offset_no_panic in Ho.
  apply page_offset_inv in Ho as ->. intros Hw. apply write_law in Hw as (Hp & Hhf & Hok & Hpre & Hall).
  split_and!; [done|done| |done|].
  - intros Hr. split; [|auto]. unfold valid_page. eauto.
  - intros Hf Ha _. apply Hall; [done|]. unfold addressable in Ha. unfold page_sized in Hps. lia.
Qed.
End PageFileLaws.
