(* ===== verification/VfsTheorems.v ===== *)
(** * VfsTheorems: what the file layer promises to the storage layers *)

From S2P Require Import Prelude Core Bytes Page PageFacts PageOps Vfs VfsFacts PageStore.

(** On a platform without positioned reads and writes every transfer of at least
    one byte is refused, and the file stays what it was. *)
Lemma other_platform_refuses {F : Type} `{OsFile F} (f : OtherFile F) off n v :
  read_exact_at (H := OtherPlatform) off n f = (if n =? 0 then Ok [] else Err Unsupported, f)
  /\ write_all_at (H := OtherPlatform) off v f = (if len v =? 0 then Ok tt else Err Unsupported, f).
Proof.
  unfold read_exact_at, write_all_at. split.
  - destruct (N.to_nat n + _)%nat as [|fuel] eqn:Hf; cbn [read_exact_loop].
    + by replace n with 0 by lia.
    + by destruct (n =? 0).
  - destruct v as [|b v]; [by destruct (length [] + _)%nat|]. cbn [length Nat.add write_all_loop].
    unfold len. cbn [length]. by destruct (N.of_nat (S (length v)) =? 0) eqn:Hz.
Qed.

(** A file of eight bytes whose system transfers at most three bytes, is
    interrupted twice and then cooperates. *)
Definition flaky_file : SimFile :=
  mkSimFile [x00; x01; x02; x03; x04; x05; x06; x07]
    [Transfer 3; Interrupt; Transfer 1; Interrupt].

(** An empty file whose system writes a page in pieces. *)
Definition new_file : SimFile := mkSimFile [] [Transfer 1000; Interrupt; Transfer 1; Interrupt].

(** C31. The retry loop of the standard file never panics and always ends.  On a
    system that returns no error but [Interrupted], reading a range inside the
    file returns exactly its bytes, however the system splits the transfer, and
    reading past the end is [UnexpectedEof]. *)
Theorem std_read_exact_at_correct {F : Type} `{OsLaws F} f off n :
  fst (read_exact_at off n f) <> Panic
  /\ os_contents (snd (read_exact_at off n f)) = os_contents f
  /\ (os_healthy f -> N.min (off + n) (len (os_contents f)) <= U64_MAX -> n <> 0 ->
      fst (read_exact_at off n f)
      = if off + n <=? len (os_contents f) then Ok (slice (os_contents f) off n)
        else Err UnexpectedEof).
Proof.
  destruct (read_exact_at off n f) as [r f'] eqn:Hr.
  apply read_exact_loop_spec in Hr as (Hc & Hp & _ & Hok & Hsome & Heof); [|lia].
  split_and!; [done|done|]. intros Hh Hm Hn. cbn [fst]. case_test.
  - destruct (Hsome Hh Hm (or_intror Hb)) as [bs ->]. by destruct (Hok _ eq_refl) as [-> _].
  - by apply Heof.
Qed.

Lemma std_read_exact_at_correct_witness :
  fst (read_exact_at 2 5 flaky_file) = Ok [x02; x03; x04; x05; x06]
  /\ fst (read_exact_at 4 5 flaky_file) = Err UnexpectedEof.
Proof.
  split.
  - destruct (std_read_exact_at_correct flaky_file 2 5) as (_ & _ & Hr).
    apply Hr; [|done|done]. repeat constructor; discriminate.
  - destruct (std_read_exact_at_correct flaky_file 4 5) as (_ & _ & Hr).
    apply Hr; [|done|done]. repeat constructor; discriminate.
Defined.

(** C32. Writing through the retry loop never panics and always ends; whatever
    the system does, the file has then a prefix of the buffer at the offset and
    is otherwise unchanged, and the whole buffer on success, which is certain
    on a system that returns no error but [Interrupted]. *)
Theorem std_write_all_at_correct {F : Type} `{OsLaws F} f off buf r f' :
  write_all_at off buf f = (r, f') ->
  r <> Panic
  /\ (exists k, os_contents f' = file_write (os_contents f) off (take k buf))
  /\ (r = Ok tt -> os_contents f' = file_write (os_contents f) off buf)
  /\ (os_healthy f -> off + len buf <= U64_MAX -> r = Ok tt).
Proof.
  intros Hw. apply write_all_loop_spec in Hw as (Hp & _ & Hok & Hpre & Hall); [|lia]. done.
Qed.

Lemma std_write_all_at_correct_witness :
  fst (write_all_at 10 [x61; x62] new_file) = Ok tt
  /\ os_contents (snd (write_all_at 10 [x61; x62] new_file))
     = file_write [] 10 [x61; x62].
Proof.
  destruct (write_all_at 10 [x61; x62] new_file) as [r f'] eqn:Hw.
  destruct (std_write_all_at_correct new_file 10 [x61; x62] r f' Hw) as (_ & _ & Hok & Hall).
  assert (Hr : r = Ok tt) by (apply Hall; [repeat constructor; discriminate|done]).
  split; [exact Hr|exact (Hok Hr)].
Defined.

(** C30. A page file implements a map from page ids to valid pages.  Writing a
    valid page under its own id succeeds, updates the map at that id and
    nowhere else (also when the write leaves a hole in the file), and the page
    is then read back. *)
Theorem page_file_write_read {F : Type} `{VfsLaws F} f id p :
  healthy f -> aligned (contents f) -> addressable id -> valid_page id p ->
  exists f' f'', write_page p f = (Ok tt, f')
    /\ aligned (contents f') /\ healthy f'
    /\ (forall i, page_store (contents f') i = store_set id p (page_store (contents f)) i)
    /\ read_page id f' = (Ok p, f'') /\ contents f'' = contents f'.
Proof.
  intros Hf Ha Had Hv. pose proof Hv as (Hs & _ & h & Hh & Hid).
  assert (Hw : write_page p f = write_page_at id p f)
    by (unfold write_page, bind_st, lift; by rewrite Hh, Hid).
  rewrite Hw. destruct (write_page_at id p f) as [r f'] eqn:Hr.
  apply write_page_at_spec in Hr as (_ & Hhf & Hok & _ & Hall); [|done].
  assert (r = Ok tt) as -> by exact (Hall Hf Had Hv). destruct (Hok eq_refl) as [_ Hc].
  destruct (read_page id f') as [r2 f''] eqn:Hr2.
  pose proof (read_page_spec _ _ _ _ Hr2) as (Hc2 & _ & _ & _ & Hread).
  assert (r2 = Ok p) as -> by (rewrite Hread, Hc by auto; by apply stored_page_written).
  exists f', f''.
  split_and!; [done| |by apply Hhf| |done|done].
  - rewrite Hc. by apply aligned_write.
  - intros i. rewrite Hc. by apply page_store_write.
Qed.

Lemma page_file_write_read_witness :
  exists f' f'', write_page (page_new 3 Heap) new_file = (Ok tt, f')
                 /\ read_page 3 f' = (Ok (page_new 3 Heap), f'')
                 /\ page_store (contents f') 0 = None.
Proof.
  destruct (page_file_write_read new_file 3 (page_new 3 Heap)) as (f' & f'' & Hw & _ & _ & Hs & Hr & _).
  - repeat constructor; discriminate.
  - vm_compute. reflexivity.
  - unfold addressable, PAGE_SIZE, U64_MAX. lia.
  - split; [vm_compute; reflexivity|]. split; [vm_compute; reflexivity|].
    eexists. split; vm_compute; reflexivity.
  - exists f', f''. split; [exact Hw|]. split; [exact Hr|].
    rewrite Hs. reflexivity.
Defined.

(** Reading a page returns a page only if the file holds, at the offset of
    its id, a valid page with that id; it never panics and changes nothing.  On
    a healthy file the result, error or page, is a function of the contents. *)
Theorem read_page_refines_store {F : Type} `{VfsLaws F} f id :
  fst (read_page id f) <> Panic
  /\ contents (snd (read_page id f)) = contents f
  /\ (forall p, fst (read_page id f) = Ok p ->
        page_store (contents f) id = Some p /\ valid_page id p)
  /\ (healthy f -> addressable id -> fst (read_page id f) = stored_page (contents f) id).
Proof.
  destruct (read_page id f) as [r f'] eqn:Hr.
  apply read_page_spec in Hr as (Hc & Hp & _ & Hok & Hread).
  split_and!; [done|done| |done]. intros p Hrp. specialize (Hok p Hrp).
  unfold page_store. rewrite Hok. split; [done|]. by eapply stored_page_Ok.
Qed.

Lemma read_page_refines_store_witness :
  fst (read_page 0 new_file) = Err (Io UnexpectedEof).
Proof.
  destruct (read_page_refines_store new_file 0) as (_ & _ & _ & Hr).
  rewrite Hr; [reflexivity|repeat constructor; discriminate|].
  unfold addressable, PAGE_SIZE, U64_MAX. lia.
Defined.
