(* ===== verification/Wal.v ===== *)
(** * Wal: the write-ahead log of crate [rdbms_wal]

    A record is a 40-byte header and a payload; its LSN is its byte offset in
    the log file.  This file translates the record codec, the appender, the
    sequential reader and the redo hook. *)

From S2P Require Import Prelude Core Bytes Page Vfs.

Definition WAL_MAGIC : N := 0x52444257.
Definition WAL_VERSION : N := 1.
Definition WAL_HEADER_SIZE : N := 40.

Definition WOFF_MAGIC : N := 0.
Definition WOFF_VERSION : N := 4.
Definition WOFF_KIND : N := 6.
Definition WOFF_LSN : N := 8.
Definition WOFF_TX_ID : N := 16.
Definition WOFF_PAGE_ID : N := 24.
Definition WOFF_PAYLOAD_LEN : N := 32.
Definition WOFF_CHECKSUM : N := 36.

Definition KIND_BEGIN_TX : N := 1.
Definition KIND_PAGE_IMAGE : N := 2.
Definition KIND_COMMIT_TX : N := 3.
Definition KIND_ABORT_TX : N := 4.
Definition KIND_CHECKPOINT : N := 5.
Definition ABSENT_ID : N := U64_MAX.

(** WAL record kinds; [image] is a [Box<[u8; PAGE_SIZE]>]. *)
Inductive WalRecordKind : Type :=
| BeginTx (tx_id : TxId)
| PageImage (tx_id : TxId) (page_id : PageId) (image : list byte)
| CommitTx (tx_id : TxId)
| AbortTx (tx_id : TxId)
| Checkpoint.

Record WalRecord : Type := mkWalRecord { lsn : Lsn; kind : WalRecordKind }.

#[export] Instance WalRecordKind_eq_dec : EqDecision WalRecordKind.
Proof. solve_decision. Defined.
#[export] Instance WalRecord_eq_dec : EqDecision WalRecord.
Proof. solve_decision. Defined.

(** [WalRecordKind::page_image]. *)
Definition page_image (tx_id : TxId) (page : Page) : DbResult WalRecordKind :=
  let? _ := validate page in
  let? h := header page in
  Ok (PageImage tx_id (h_page_id h) (bytes page)).

Definition metadata (k : WalRecordKind) : N * N * N :=
  match k with
  | BeginTx tx_id => (KIND_BEGIN_TX, tx_id, ABSENT_ID)
  | PageImage tx_id page_id _ => (KIND_PAGE_IMAGE, tx_id, page_id)
  | CommitTx tx_id => (KIND_COMMIT_TX, tx_id, ABSENT_ID)
  | AbortTx tx_id => (KIND_ABORT_TX, tx_id, ABSENT_ID)
  | Checkpoint => (KIND_CHECKPOINT, ABSENT_ID, ABSENT_ID)
  end.

Definition payload (k : WalRecordKind) : list byte :=
  match k with
  | PageImage _ _ image => image
  | _ => []
  end.

(** ** The record codec *)

(** The loop of [wal_checksum] from byte [index] on. *)
Fixpoint wal_checksum_from (index : N) (acc : N) (bs : list byte) : N :=
  match bs with
  | [] => acc
  | b :: rest =>
      let acc' := if (WOFF_CHECKSUM <=? index) && (index <? WOFF_CHECKSUM + 4) then acc
                  else checksum_fold acc b in
      wal_checksum_from (index + 1) acc' rest
  end.
Definition wal_checksum (bs : list byte) : N := wal_checksum_from 0 0 bs.

Definition encoded_len_for_kind (k : WalRecordKind) : DbResult N :=
  ok_or (checked_add U64_MAX WAL_HEADER_SIZE (len (payload k)))
        (User "wal record length overflow").

Definition encode_record (record : WalRecord) : DbResult (list byte) :=
  let data := payload (kind record) in
  let payload_len := len data in
  if U32_MAX <? payload_len then Err (User "wal payload length overflow") else
  let '(k, tx_id, page_id) := metadata (kind record) in
  let bs := replicate (N.to_nat (WAL_HEADER_SIZE + payload_len)) x00 in
  let? bs := write_u32 bs WOFF_MAGIC WAL_MAGIC in
  let? bs := write_u16 bs WOFF_VERSION WAL_VERSION in
  let? bs := write_u16 bs WOFF_KIND k in
  let? bs := write_u64 bs WOFF_LSN (lsn record) in
  let? bs := write_u64 bs WOFF_TX_ID tx_id in
  let? bs := write_u64 bs WOFF_PAGE_ID page_id in
  let? bs := write_u32 bs WOFF_PAYLOAD_LEN payload_len in
  let? bs := write_u32 bs WOFF_CHECKSUM 0 in
  let? bs := splice_checked bs WAL_HEADER_SIZE data in
  write_u32 bs WOFF_CHECKSUM (wal_checksum bs).

Definition require_empty_payload (data : list byte) (record_name : string) : DbResult unit :=
  if len data =? 0 then Ok tt
  else Err (Corruption (record_name +:+ " wal record has unexpected payload length: "
                        +:+ pretty (len data))).

Definition decode_kind (k tx_id page_id : N) (data : list byte) : DbResult WalRecordKind :=
  if k =? KIND_BEGIN_TX then
    let? _ := require_empty_payload data "BeginTx" in Ok (BeginTx tx_id)
  else if k =? KIND_PAGE_IMAGE then
    if negb (len data =? PAGE_SIZE)
    then Err (Corruption ("invalid page image payload length: " +:+ pretty (len data)))
    else Ok (PageImage tx_id page_id data)
  else if k =? KIND_COMMIT_TX then
    let? _ := require_empty_payload data "CommitTx" in Ok (CommitTx tx_id)
  else if k =? KIND_ABORT_TX then
    let? _ := require_empty_payload data "AbortTx" in Ok (AbortTx tx_id)
  else if k =? KIND_CHECKPOINT then
    let? _ := require_empty_payload data "Checkpoint" in Ok Checkpoint
  else Err (Corruption ("unknown wal record kind: " +:+ pretty k)).

Definition decode_record (bs : list byte) : DbResult WalRecord :=
  if len bs <? WAL_HEADER_SIZE then Err (Corruption "truncated wal record header") else
  let? magic := read_u32 bs WOFF_MAGIC in
  if negb (magic =? WAL_MAGIC) then Err (Corruption "invalid wal magic") else
  let? version := read_u16 bs WOFF_VERSION in
  if negb (version =? WAL_VERSION)
  then Err (Corruption ("unsupported wal version: " +:+ pretty version)) else
  let? payload_len := read_u32 bs WOFF_PAYLOAD_LEN in
  let? expected_len := ok_or (checked_add USIZE_MAX WAL_HEADER_SIZE payload_len)
                         (Corruption "wal record length overflow") in
  if negb (len bs =? expected_len)
  then Err (Corruption ("wal record length mismatch: expected=" +:+ pretty expected_len
                        +:+ ", got=" +:+ pretty (len bs))) else
  let? stored_checksum := read_u32 bs WOFF_CHECKSUM in
  let actual_checksum := wal_checksum bs in
  if negb (stored_checksum =? actual_checksum)
  then Err (Corruption ("wal checksum mismatch: stored=" +:+ pretty stored_checksum
                        +:+ ", actual=" +:+ pretty actual_checksum)) else
  let? record_lsn := read_u64 bs WOFF_LSN in
  let? tx_id := read_u64 bs WOFF_TX_ID in
  let? page_id := read_u64 bs WOFF_PAGE_ID in
  let? data := slice_checked bs WAL_HEADER_SIZE (len bs) in
  let? k := read_u16 bs WOFF_KIND in
  let? record_kind := decode_kind k tx_id page_id data in
  Ok (mkWalRecord record_lsn record_kind).

(** ** Appending *)

(** [LsnAllocator]: the state is the next LSN. *)
Definition allocate (encoded_len : N) : db N Lsn := fun next =>
  match checked_add U64_MAX next encoded_len with
  | None => (Err (User "wal lsn overflow"), next)
  | Some next' => (Ok next, next')
  end.

Record WalWriter (F : Type) : Type := mkWalWriter { wal_file : F; allocator : N }.
Arguments mkWalWriter {F}.
Arguments wal_file {F}.
Arguments allocator {F}.

Section Log.
Context {F : Type} `{VfsFile F}.

Definition on_file {A} (m : db F A) : db (WalWriter F) A :=
  zoom wal_file (fun f w => mkWalWriter f (allocator w)) m.
Definition on_allocator {A} (m : db N A) : db (WalWriter F) A :=
  zoom allocator (fun n w => mkWalWriter (wal_file w) n) m.

(** [WalWriter::new]: the next LSN is the current end of the file. *)
Definition wal_writer_new : F -> DbResult (WalWriter F) := fun file =>
  match file_len file with
  | (Ok n, file') => Ok (mkWalWriter file' n)
  | (Err e, _) => Err e
  | (Panic, _) => Panic
  end.

Definition append (k : WalRecordKind) : db (WalWriter F) Lsn :=
  let! encoded_len := lift (encoded_len_for_kind k) in
  let! l := on_allocator (allocate encoded_len) in
  let! bs := lift (encode_record (mkWalRecord l k)) in
  let! _ := on_file (file_write_all_at l bs) in
  ret l.

Definition wal_sync_data : db (WalWriter F) unit := on_file file_sync_data.

(** ** Reading *)

Definition truncated_wal (offset remaining : N) : DbError :=
  Corruption ("truncated wal record at offset " +:+ pretty offset
              +:+ ": remaining bytes=" +:+ pretty remaining).

(** One turn of the [while] loop of [read_all]. *)
Definition read_record_at (length offset : N) : db F (WalRecord * N) :=
  let remaining := length - offset in
  if remaining <? WAL_HEADER_SIZE then throw (truncated_wal offset remaining) else
  let! head := file_read_exact_at offset WAL_HEADER_SIZE in
  let! payload_len := lift (read_u32 head WOFF_PAYLOAD_LEN) in
  let! record_len := lift (ok_or (checked_add U64_MAX WAL_HEADER_SIZE payload_len)
                             (Corruption "wal record length overflow")) in
  if remaining <? record_len then throw (truncated_wal offset remaining) else
  let! data := (if 0 <? payload_len then
                  let! start := lift (add_panic U64_MAX offset WAL_HEADER_SIZE) in
                  file_read_exact_at start payload_len
                else ret []) in
  let! record := lift (decode_record (head ++ data)) in
  if negb (lsn record =? offset)
  then throw (Corruption ("wal lsn mismatch: offset=" +:+ pretty offset
                          +:+ ", record_lsn=" +:+ pretty (lsn record))) else
  let! offset' := lift (ok_or (checked_add U64_MAX offset record_len)
                          (Corruption "wal offset overflow")) in
  ret (record, offset').

(** Every turn advances the offset by at least a header, so that [length]
    turns are more than enough; see [read_all_loop_spec]. *)
Fixpoint read_all_loop (fuel : nat) (length offset : N) (records : list WalRecord)
  : db F (list WalRecord) :=
  if offset <? length then
    match fuel with
    | O => lift Panic
    | S fuel' =>
        let! (record, offset') := read_record_at length offset in
        read_all_loop fuel' length offset' (records ++ [record])
    end
  else ret records.

Definition read_all : db F (list WalRecord) :=
  let! length := file_len in
  read_all_loop (N.to_nat length) length 0 [].
End Log.

(** ** Redo *)

Class PageImageRedo (R : Type) : Type := {
  redo_page_image : Lsn -> TxId -> PageId -> list byte -> db R unit
}.

(** The transactions with a commit marker and those with an abort marker. *)
Definition classify (records : list WalRecord) : gset N * gset N :=
  foldl (fun '(committed, aborted) record =>
    match kind record with
    | CommitTx tx_id => ({[ tx_id ]} ∪ committed, aborted)
    | AbortTx tx_id => (committed, {[ tx_id ]} ∪ aborted)
    | _ => (committed, aborted)
    end) (∅, ∅) records.

Section Redo.
Context {R : Type} `{PageImageRedo R}.

(** The body of the second loop of [redo_committed_page_images]. *)
Definition redo_record (committed aborted : gset N) (record : WalRecord) : db R unit :=
  match kind record with
  | PageImage tx_id page_id image =>
      if bool_decide (tx_id ∈ committed) && negb (bool_decide (tx_id ∈ aborted)) then
        let! page := lift (from_bytes image) in
        let! h := lift (header page) in
        if negb (h_page_id h =? page_id)
        then throw (Corruption ("wal page image id mismatch: record=" +:+ pretty page_id
                                +:+ ", image=" +:+ pretty (h_page_id h)))
        else redo_page_image (lsn record) tx_id page_id image
      else ret tt
  | _ => ret tt
  end.

Definition redo_committed_page_images (records : list WalRecord) : db R unit :=
  let '(committed, aborted) := classify records in
  for_each (redo_record committed aborted) records.
End Redo.
