(* ===== verification/WalFacts.v ===== *)
(** * WalFacts: the record codec and the log as a stream of records *)

From S2P Require Import Prelude Core Bytes Page PageFacts PageOps Vfs VfsFacts PageStore Wal.

#[local] Transparent uint_at.

(** ** Well-formed records *)

(** The field widths and the array type of the Rust record. *)
Definition kind_ok (k : WalRecordKind) : Prop :=
  match k with
  | BeginTx t | CommitTx t | AbortTx t => t <= U64_MAX
  | PageImage t p image => t <= U64_MAX /\ p <= U64_MAX /\ len image = PAGE_SIZE
  | Checkpoint => True
  end.

Definition record_len (k : WalRecordKind) : N := WAL_HEADER_SIZE + len (payload k).

Definition tag (k : WalRecordKind) : N := (metadata k).1.1.
Definition meta_tx (k : WalRecordKind) : N := (metadata k).1.2.
Definition meta_page (k : WalRecordKind) : N := (metadata k).2.

(** The bytes of a record with checksum field [sum]. *)
Definition layout (l : Lsn) (k : WalRecordKind) (sum : N) : list byte :=
  le_encode 4 WAL_MAGIC ++ le_encode 2 WAL_VERSION ++ le_encode 2 (tag k) ++ le_encode 8 l
  ++ le_encode 8 (meta_tx k) ++ le_encode 8 (meta_page k) ++ le_encode 4 (len (payload k))
  ++ le_encode 4 sum ++ payload k.

Definition encoded (l : Lsn) (k : WalRecordKind) : list byte :=
  layout l k (wal_checksum (layout l k 0)).

Lemma kind_ok_bounds k : kind_ok k ->
  tag k < 256 ^ 2 /\ meta_tx k < 256 ^ 8 /\ meta_page k < 256 ^ 8 /\ len (payload k) <= PAGE_SIZE.
Proof.
  unfold tag, meta_tx, meta_page, kind_ok, U64_MAX.
  destruct k; cbn -[N.pow]; intros; split_and!; try done; destruct_and?; try lia.
Qed.

Lemma len_layout l k s : len (layout l k s) = record_len k.
Proof.
  unfold layout, record_len, WAL_HEADER_SIZE. rewrite !length_app, !length_le_encode. lia.
Qed.

Lemma len_encoded l k : len (encoded l k) = record_len k.
Proof. apply len_layout. Qed.

(** ** Fields of a concatenation *)

Lemma splice_skip {A} (v rest : list A) off w :
  len v <= off -> splice (v ++ rest) off w = v ++ splice rest (off - len v) w.
Proof.
  intros H. unfold splice. rewrite take_app, drop_app, <- app_assoc.
  rewrite take_ge by lia. rewrite (drop_ge v) by lia.
  replace (N.to_nat off - length v)%nat with (N.to_nat (off - len v)) by lia.
  do 3 f_equal. simpl. f_equal. lia.
Qed.

Lemma splice_head {A} (old rest w : list A) :
  length old = length w -> splice (old ++ rest) 0 w = w ++ rest.
Proof. intros H. unfold splice. simpl. by rewrite <- H, drop_app_length. Qed.

Lemma splice_whole {A} (old w : list A) : length old = length w -> splice old 0 w = w.
Proof.
  intros H. rewrite <- (app_nil_r old), splice_head by done. apply app_nil_r.
Qed.

Lemma uint_at_skip w v rest off :
  len v <= off -> uint_at w (v ++ rest) off = uint_at w rest (off - len v).
Proof. intros. unfold uint_at. by rewrite slice_app_r. Qed.

Lemma uint_at_head w (wn : nat) v rest :
  w = N.of_nat wn -> v < 256 ^ w -> uint_at w (le_encode wn v ++ rest) 0 = v.
Proof.
  intros -> Hv. unfold uint_at.
  rewrite slice_app_l by (rewrite len_le_encode; lia).
  rewrite <- (len_le_encode wn v) at 1. rewrite slice_all. by apply le_decode_encode.
Qed.

(** Compute a write to, or a read from, a known field of a concatenation. *)
Ltac fields :=
  repeat first
    [ rewrite splice_head by (rewrite ?length_replicate, ?length_le_encode; done)
    | rewrite splice_skip by (rewrite ?length_replicate, ?length_le_encode; done || lia);
      rewrite ?length_replicate, ?length_le_encode;
      match goal with |- context [splice _ ?o _] =>
        let o' := eval vm_compute in o in progress change o with o' end ].

Lemma zeros_split n :
  replicate (N.to_nat (WAL_HEADER_SIZE + n)) x00
  = replicate 4 x00 ++ replicate 2 x00 ++ replicate 2 x00 ++ replicate 8 x00
    ++ replicate 8 x00 ++ replicate 8 x00 ++ replicate 4 x00 ++ replicate 4 x00
    ++ replicate (N.to_nat n) x00.
Proof.
  rewrite <- !replicate_add. f_equal. unfold WAL_HEADER_SIZE. lia.
Qed.

(** ** Encoding *)

Ltac put_field H :=
  rewrite H;
  [|unfold record_len, WAL_HEADER_SIZE;
    rewrite ?length_app, ?length_replicate, ?length_le_encode; lia|done];
  cbn [bind_outcome]; fields.

Lemma encode_record_run l k : kind_ok k -> encode_record (mkWalRecord l k) = Ok (encoded l k).
Proof.
  intros Hk. pose proof (kind_ok_bounds k Hk) as (_ & _ & _ & Hl). unfold PAGE_SIZE in Hl.
  unfold encode_record. cbn [kind lsn].
  replace (U32_MAX <? _) with false by (symmetry; apply N.ltb_ge; unfold U32_MAX; lia).
  destruct (metadata k) as [[t tx] pg] eqn:Hm. rewrite zeros_split.
  assert (t = tag k /\ tx = meta_tx k /\ pg = meta_page k) as (-> & -> & ->)
    by (unfold tag, meta_tx, meta_page; by rewrite Hm).
  unfold write_u16, write_u32, write_u64.
  assert (Hz : forall bs, len bs = record_len k -> forall off w v, off + N.of_nat w <= 40 ->
             write_uint w bs off v = Ok (splice bs off (le_encode w v))).
  { intros. apply write_uint_ok. unfold record_len, WAL_HEADER_SIZE in *. lia. }
  unfold WOFF_MAGIC at 1.
  do 8 (put_field Hz).
  rewrite splice_checked_ok by (unfold WAL_HEADER_SIZE;
    rewrite ?length_app, ?length_replicate, ?length_le_encode; lia).
  cbn [bind_outcome]. unfold WAL_HEADER_SIZE. fields.
  rewrite splice_whole by (rewrite length_replicate; lia).
  fold (layout l k 0). rewrite Hz by (apply len_layout || done). f_equal. Qed.

(** ** Checksums of records *)

Lemma wal_checksum_from_skip index acc bs :
  WOFF_CHECKSUM + 4 <= index -> wal_checksum_from index acc bs = foldl checksum_fold acc bs.
Proof.
  revert index acc; induction bs as [|b bs IH]; intros index acc Hi; simpl; [done|].
  rewrite (proj2 (N.ltb_ge index _)) by done. rewrite andb_false_r. apply IH. lia.
Qed.

Lemma wal_checksum_from_app index acc bs cs :
  wal_checksum_from index acc (bs ++ cs)
  = wal_checksum_from (index + len bs) (wal_checksum_from index acc bs) cs.
Proof.
  revert index acc; induction bs as [|b bs IH]; intros index acc; simpl.
  - by rewrite N.add_0_r.
  - rewrite IH. f_equal. lia.
Qed.

Lemma wal_checksum_from_below index acc bs :
  index + len bs <= WOFF_CHECKSUM -> wal_checksum_from index acc bs = foldl checksum_fold acc bs.
Proof.
  revert index acc; induction bs as [|b bs IH]; intros index acc Hi; simpl in *; [done|].
  rewrite (proj2 (N.leb_gt _ index)) by lia. apply IH. lia.
Qed.

Lemma wal_checksum_from_field acc bs :
  length bs = 4%nat -> wal_checksum_from WOFF_CHECKSUM acc bs = acc.
Proof. intros H. do 5 (destruct bs as [|? bs]; try done). Qed.

(** The checksum covers everything but its own field. *)
Lemma wal_checksum_parts pre field post :
  len pre = WOFF_CHECKSUM -> length field = 4%nat ->
  wal_checksum (pre ++ field ++ post) = (sum_bytes pre + sum_bytes post) mod 4294967296.
Proof.
  intros Hp Hf. unfold wal_checksum.
  rewrite wal_checksum_from_app, N.add_0_l, Hp.
  rewrite wal_checksum_from_app, wal_checksum_from_field by done.
  rewrite wal_checksum_from_skip by (rewrite Hf; done).
  rewrite wal_checksum_from_below by (rewrite Hp; done).
  rewrite <- foldl_app, checksum_fold_eq. by rewrite sum_bytes_app.
Qed.

(** The same on the bytes of a whole record, as a difference of sums. *)
Lemma wal_checksum_eq bs :
  WAL_HEADER_SIZE <= len bs ->
  exists s, sum_bytes bs = s + sum_bytes (slice bs WOFF_CHECKSUM 4)
            /\ wal_checksum bs = s mod 4294967296.
Proof.
  unfold WAL_HEADER_SIZE, WOFF_CHECKSUM. intros Hl.
  exists (sum_bytes (take 36 bs) + sum_bytes (drop 40 bs)).
  assert (Hparts : bs = take 36 bs ++ slice bs 36 4 ++ drop 40 bs).
  { change (slice bs 36 4) with (take 4 (drop 36 bs)).
    change (drop 40 bs) with (drop (36 + 4) bs). by rewrite <- drop_drop, !take_drop. }
  split.
  - rewrite Hparts at 1. rewrite !sum_bytes_app. lia.
  - rewrite Hparts at 1. apply wal_checksum_parts.
    + rewrite length_take. unfold WOFF_CHECKSUM. lia.
    + rewrite length_slice by lia. done.
Qed.

Definition head36 (l : Lsn) (k : WalRecordKind) : list byte :=
  le_encode 4 WAL_MAGIC ++ le_encode 2 WAL_VERSION ++ le_encode 2 (tag k) ++ le_encode 8 l
  ++ le_encode 8 (meta_tx k) ++ le_encode 8 (meta_page k) ++ le_encode 4 (len (payload k)).

Lemma layout_parts l k s : layout l k s = head36 l k ++ le_encode 4 s ++ payload k.
Proof. unfold layout, head36. by rewrite <- !app_assoc. Qed.

Lemma wal_checksum_layout l k s : wal_checksum (layout l k s) = wal_checksum (layout l k 0).
Proof. rewrite !layout_parts. by rewrite !wal_checksum_parts. Qed.

Lemma wal_checksum_layout_bound l k s : wal_checksum (layout l k s) < 256 ^ 4.
Proof.
  rewrite layout_parts, wal_checksum_parts by done. by apply N.mod_upper_bound.
Qed.

(** ** Decoding *)

Record layout_fields (bs : list byte) (l : Lsn) (k : WalRecordKind) (s : N) : Prop := {
  f_magic : uint_at 4 bs WOFF_MAGIC = WAL_MAGIC;
  f_version : uint_at 2 bs WOFF_VERSION = WAL_VERSION;
  f_kind : uint_at 2 bs WOFF_KIND = tag k;
  f_lsn : uint_at 8 bs WOFF_LSN = l;
  f_tx : uint_at 8 bs WOFF_TX_ID = meta_tx k;
  f_page : uint_at 8 bs WOFF_PAGE_ID = meta_page k;
  f_len : uint_at 4 bs WOFF_PAYLOAD_LEN = len (payload k);
  f_sum : uint_at 4 bs WOFF_CHECKSUM = s;
  f_data : slice bs WAL_HEADER_SIZE (len (payload k)) = payload k
}.

(** Walk to field [n] of the layout. *)
Ltac field_at :=
  unfold layout;
  repeat (rewrite uint_at_skip by (rewrite len_le_encode; done);
          rewrite len_le_encode;
          match goal with |- context [uint_at _ _ ?o] =>
            let o' := eval vm_compute in o in progress change o with o' end);
  apply uint_at_head; done || (simpl; lia).

Lemma layout_has_fields l k s rest :
  l <= U64_MAX -> kind_ok k -> s < 256 ^ 4 -> layout_fields (layout l k s ++ rest) l k s.
Proof.
  intros Hl Hk Hs. pose proof (kind_ok_bounds k Hk) as (Ht & Htx & Hp & Hpl).
  unfold PAGE_SIZE, U64_MAX in *.
  split; unfold layout; rewrite <- !app_assoc; try field_at.
  repeat (rewrite slice_app_r by (rewrite len_le_encode; done);
          rewrite len_le_encode).
  match goal with |- slice _ ?o _ = _ => change o with 0 end.
  rewrite slice_app_l by lia. apply slice_all.
Qed.

Lemma decode_kind_run k : kind_ok k -> decode_kind (tag k) (meta_tx k) (meta_page k) (payload k) = Ok k.
Proof. destruct k; simpl; try done. intros (_ & _ & Hl). unfold decode_kind. simpl. by rewrite Hl. Qed.

Lemma decode_encoded l k : l <= U64_MAX -> kind_ok k -> decode_record (encoded l k) = Ok (mkWalRecord l k).
Proof.
  intros Hl Hk. pose proof (len_encoded l k) as Hlen. unfold encoded in *.
  pose proof (wal_checksum_layout_bound l k 0) as Hs.
  pose proof (layout_has_fields l k _ [] Hl Hk Hs) as Hf. rewrite app_nil_r in Hf.
  pose proof (kind_ok_bounds k Hk) as (_ & _ & _ & Hpl). unfold PAGE_SIZE in Hpl.
  pose proof (wal_checksum_layout l k (wal_checksum (layout l k 0))) as Hck.
  set (bs := layout l k _) in *. clearbody bs. destruct Hf.
  unfold record_len, WAL_HEADER_SIZE in Hlen.
  assert (Hr : forall w off, off + w <= 40 -> read_uint w bs off = Ok (uint_at w bs off)).
  { intros. apply read_uint_ok. lia. }
  unfold decode_record, read_u16, read_u32, read_u64. rewrite !Hr by done.
  rewrite Hlen at 1. unfold WAL_HEADER_SIZE.
  replace (_ <? _) with false by (symmetry; apply N.ltb_ge; lia).
  cbn [bind_outcome]. rewrite f_magic0, f_version0, f_len0, f_sum0, f_kind0, f_lsn0, f_tx0, f_page0.
  rewrite (N.eqb_refl WAL_MAGIC), (N.eqb_refl WAL_VERSION). cbn [negb].
  rewrite checked_add_ok by (unfold USIZE_MAX, U64_MAX; lia). cbn [ok_or bind_outcome].
  rewrite Hlen, N.eqb_refl, Hck, N.eqb_refl. cbn [negb].
  rewrite slice_checked_ok by lia. cbn [bind_outcome].
  replace (40 + len (payload k) - 40) with (len (payload k)) by lia.
  unfold WAL_HEADER_SIZE in f_data0. rewrite f_data0, decode_kind_run by done. done.
Qed.

(** What every successful decoding checked. *)
Lemma decode_record_inv bs r :
  decode_record bs = Ok r ->
  WAL_HEADER_SIZE <= len bs /\ uint_at 4 bs WOFF_PAYLOAD_LEN = len bs - WAL_HEADER_SIZE
  /\ uint_at 4 bs WOFF_CHECKSUM = wal_checksum bs /\ lsn r = uint_at 8 bs WOFF_LSN.
Proof.
  unfold decode_record, read_u16, read_u32, read_u64. case_test; [done|].
  unfold WAL_HEADER_SIZE in *. rewrite !read_uint_ok by (done || (etrans; [|exact Hb]; done)).
  cbn [bind_outcome]. intros H. steps_in H.
  repeat match goal with
  | Hx : ok_or _ _ = Ok _ |- _ => step_in Hx
  | Hx : checked_add _ _ _ = Some _ |- _ => apply checked_add_Some in Hx as [? _]
  | Hx : Ok ?n = Ok (len bs) |- _ => injection Hx as ->
  end.
  simpl. split_and!; (done || lia).
Qed.

Lemma decode_record_err bs : decode_record bs <> Panic /\ forall e, decode_record bs = Err e -> is_corruption e = true.
Proof.
  unfold decode_record, read_u16, read_u32, read_u64, WAL_HEADER_SIZE. case_test; [by split; [|intros ? [= <-]]|].
  rewrite !read_uint_ok by (done || (etrans; [|exact Hb]; done)).
  rewrite slice_checked_ok by lia. cbn [bind_outcome].
  repeat (case_test; [by split; [|intros ? [= <-]]|]).
  destruct (checked_add _ _ _); cbn [bind_outcome ok_or]; [|by split; [|intros ? [= <-]]].
  repeat (case_test; [by split; [|intros ? [= <-]]|]).
  unfold decode_kind, require_empty_payload.
  repeat (case_test; cbn [bind_outcome]); by split; [|intros ? [= <-]].
Qed.

#[global] Opaque encoded layout record_len.
