(* ===== verification/WalStream.v ===== *)
(** * WalStream: the log file as a sequence of encoded records

    [stream] is the abstract view of a log: the kinds appended so far, each
    encoded at the offset where the previous one ended.  [parse_wal] is what the
    sequential reader computes, as a function of the file contents. *)

From Stdlib Require Import Sorting.Sorted.
From S2P Require Import Prelude Core Bytes Page PageFacts PageOps Vfs VfsFacts PageStore Wal WalFacts.

(** ** The log as a stream *)

Fixpoint stream (off : N) (ks : list WalRecordKind) : list byte :=
  match ks with
  | [] => []
  | k :: rest => encoded off k ++ stream (off + record_len k) rest
  end.

Fixpoint records_of (off : N) (ks : list WalRecordKind) : list WalRecord :=
  match ks with
  | [] => []
  | k :: rest => mkWalRecord off k :: records_of (off + record_len k) rest
  end.

Fixpoint stream_len (ks : list WalRecordKind) : N :=
  match ks with
  | [] => 0
  | k :: rest => record_len k + stream_len rest
  end.

Lemma len_stream off ks : len (stream off ks) = stream_len ks.
Proof.
  revert off; induction ks as [|k ks IH]; intros off; cbn [stream stream_len]; [done|].
  rewrite length_app, <- IH with (off := off + record_len k), <- (len_encoded off k). lia.
Qed.

Lemma stream_len_app ks ks' : stream_len (ks ++ ks') = stream_len ks + stream_len ks'.
Proof. induction ks as [|k ks IH]; cbn [stream stream_len records_of app]; [done|]. rewrite IH. lia. Qed.

Lemma stream_app off ks ks' :
  stream off (ks ++ ks') = stream off ks ++ stream (off + stream_len ks) ks'.
Proof.
  revert off; induction ks as [|k ks IH]; intros off; cbn [stream stream_len records_of app]; [by rewrite N.add_0_r|].
  rewrite IH, <- app_assoc. do 2 f_equal. f_equal. lia.
Qed.

Lemma records_of_app off ks ks' :
  records_of off (ks ++ ks') = records_of off ks ++ records_of (off + stream_len ks) ks'.
Proof.
  revert off; induction ks as [|k ks IH]; intros off; cbn [stream stream_len records_of app]; [by rewrite N.add_0_r|].
  rewrite IH. do 2 f_equal. f_equal. lia.
Qed.

Lemma records_of_kinds off ks : kind <$> records_of off ks = ks.
Proof. revert off; induction ks as [|k ks IH]; intros off; simpl; [done|]. by rewrite IH. Qed.

(** ** What the reader computes *)

Definition parse_record_at (c : list byte) (offset : N) : DbResult (WalRecord * N) :=
  let remaining := len c - offset in
  if remaining <? WAL_HEADER_SIZE then Err (truncated_wal offset remaining) else
  let? head := read_contents c offset WAL_HEADER_SIZE in
  let? payload_len := read_u32 head WOFF_PAYLOAD_LEN in
  let? rlen := ok_or (checked_add U64_MAX WAL_HEADER_SIZE payload_len)
                 (Corruption "wal record length overflow") in
  if remaining <? rlen then Err (truncated_wal offset remaining) else
  let? data := (if 0 <? payload_len then
                  let? start := add_panic U64_MAX offset WAL_HEADER_SIZE in
                  read_contents c start payload_len
                else Ok []) in
  let? record := decode_record (head ++ data) in
  if negb (lsn record =? offset)
  then Err (Corruption ("wal lsn mismatch: offset=" +:+ pretty offset
                        +:+ ", record_lsn=" +:+ pretty (lsn record))) else
  let? offset' := ok_or (checked_add U64_MAX offset rlen) (Corruption "wal offset overflow") in
  Ok (record, offset').

Fixpoint parse_loop (fuel : nat) (c : list byte) (offset : N) (records : list WalRecord)
  : DbResult (list WalRecord) :=
  if offset <? len c then
    match fuel with
    | O => Panic
    | S fuel' =>
        let? (record, offset') := parse_record_at c offset in
        parse_loop fuel' c offset' (records ++ [record])
    end
  else Ok records.

Definition parse_wal (c : list byte) : DbResult (list WalRecord) :=
  parse_loop (length c) c 0 [].

(** ** Read-only programs as functions of the contents *)

Section ReadOnly.
Context {F : Type} `{VfsLaws F}.

Definition reads_as {A} (m : db F A) (g : list byte -> DbResult A) : Prop :=
  forall f r f', m f = (r, f') ->
    contents f' = contents f /\ (healthy f -> healthy f')
    /\ (forall a, r = Ok a -> g (contents f) = Ok a)
    /\ (r = Panic -> g (contents f) = Panic)
    /\ (healthy f -> len (contents f) <= U64_MAX -> r = g (contents f)).

Lemma reads_as_lift {A} (o : DbResult A) : reads_as (lift o) (fun _ => o).
Proof. intros f r f' [= <- <-]. done. Qed.
Lemma reads_as_ret {A} (a : A) : reads_as (ret a) (fun _ => Ok a).
Proof. intros f r f' [= <- <-]. done. Qed.
Lemma reads_as_throw {A} e : reads_as (A := A) (throw e) (fun _ => Err e).
Proof. intros f r f' [= <- <-]. done. Qed.

Lemma reads_as_bind {A B} (m : db F A) g (k : A -> db F B) h :
  reads_as m g -> (forall a, reads_as (k a) (h a)) ->
  reads_as (bind_st m k) (fun c => let? a := g c in h a c).
Proof.
  intros Hm Hk f r f'. unfold bind_st. destruct (m f) as [r1 f1] eqn:E.
  apply Hm in E as (Hc & Hh & Hok & Hpanic & Hall). destruct r1 as [a|e|].
  - intros E2. apply Hk in E2 as (Hc2 & Hh2 & Hok2 & Hpanic2 & Hall2).
    rewrite Hc in *. rewrite (Hok a eq_refl). simpl. split_and!; auto.
  - intros [= <- <-]. split_and!; try done. intros Hf Hl. by rewrite <- (Hall Hf Hl).
  - intros [= <- <-]. split_and!; try done; intros; by rewrite (Hpanic eq_refl).
Qed.

Lemma reads_as_if {A} (b : bool) (m1 m2 : db F A) g1 g2 :
  reads_as m1 g1 -> reads_as m2 g2 ->
  reads_as (if b then m1 else m2) (fun c => if b then g1 c else g2 c).
Proof. by destruct b. Qed.

(** The in-range condition of the file contract: offsets fit 64 bits. *)
Lemma reads_as_read off n : reads_as (file_read_exact_at off n) (fun c => read_contents c off n).
Proof.
  intros f r f' Hr. apply read_law in Hr as (Hc & Hp & Hh & Hok & Hall).
  split_and!; try done. intros Hf Hl. apply Hall; [done|]. lia.
Qed.

Lemma reads_as_len : reads_as file_len (fun c => Ok (len c)).
Proof.
  intros f r f' Hr. apply len_law in Hr as (Hc & Hp & Hh & Hok & Hall).
  split_and!; try done; [|auto]. intros a Ha. by rewrite (Hok a Ha).
Qed.

End ReadOnly.

#[export] Hint Resolve reads_as_lift reads_as_ret reads_as_throw reads_as_bind reads_as_if
  reads_as_read reads_as_len : db.

Section Reader.
Context {F : Type} `{VfsLaws F}.

Lemma read_record_at_reads c offset f r f' :
  c = contents f -> read_record_at (len c) offset f = (r, f') ->
  contents f' = c /\ (healthy f -> healthy f')
  /\ (forall a, r = Ok a -> parse_record_at c offset = Ok a)
  /\ (r = Panic -> parse_record_at c offset = Panic)
  /\ (healthy f -> len c <= U64_MAX -> r = parse_record_at c offset).
Proof.
  intros -> Hr. set (n := len (contents f)) in *.
  assert (Hs : reads_as (read_record_at n offset) (fun c =>
    if n - offset <? WAL_HEADER_SIZE then Err (truncated_wal offset (n - offset)) else
    let? head := read_contents c offset WAL_HEADER_SIZE in
    let? payload_len := read_u32 head WOFF_PAYLOAD_LEN in
    let? rlen := ok_or (checked_add U64_MAX WAL_HEADER_SIZE payload_len)
                   (Corruption "wal record length overflow") in
    if n - offset <? rlen then Err (truncated_wal offset (n - offset)) else
    let? data := (if 0 <? payload_len then
                    let? start := add_panic U64_MAX offset WAL_HEADER_SIZE in
                    read_contents c start payload_len
                  else Ok []) in
    let? record := decode_record (head ++ data) in
    if negb (lsn record =? offset)
    then Err (Corruption ("wal lsn mismatch: offset=" +:+ pretty offset
                          +:+ ", record_lsn=" +:+ pretty (lsn record))) else
    let? offset' := ok_or (checked_add U64_MAX offset rlen)
                      (Corruption "wal offset overflow") in
    Ok (record, offset'))).
  { unfold read_record_at.
    repeat first [apply reads_as_if|apply reads_as_bind; [|intros ?]|auto with db]. }
  apply Hs in Hr as (? & ? & ? & ? & ?). done.
Qed.

Lemma read_all_loop_reads fuel : forall c offset records f r f',
  c = contents f -> read_all_loop fuel (len c) offset records f = (r, f') ->
  contents f' = c /\ (healthy f -> healthy f')
  /\ (forall a, r = Ok a -> parse_loop fuel c offset records = Ok a)
  /\ (r = Panic -> parse_loop fuel c offset records = Panic)
  /\ (healthy f -> len c <= U64_MAX -> r = parse_loop fuel c offset records).
Proof.
  induction fuel as [|fuel IH]; intros c offset records f r f' Hcf; simpl; case_test;
    try (intros [= <- <-]; done).
  unfold bind_st. destruct (read_record_at (len c) offset f) as [r1 f1] eqn:E.
  apply read_record_at_reads in E as (Hc & Hh & Hok & Hpanic & Hall); [|done].
  destruct r1 as [[record offset']|e|].
  - intros E2. rewrite (Hok _ eq_refl). simpl.
    apply IH in E2 as (? & ? & ? & ? & ?); [|done]. split_and!; auto.
  - intros [= <- <-]. split_and!; try done. intros Hf Hl. by rewrite <- (Hall Hf Hl).
  - intros [= <- <-]. split_and!; try done; intros; by rewrite (Hpanic eq_refl).
Qed.

(** The reader computes [parse_wal]. *)
Lemma read_all_reads : reads_as read_all parse_wal.
Proof.
  intros f r f'. unfold read_all, bind_st. destruct (file_len f) as [r1 f1] eqn:E.
  apply reads_as_len in E as (Hc & Hh & Hok & Hpanic & Hall).
  destruct r1 as [n|e|].
  - specialize (Hok n eq_refl). injection Hok as <-. rewrite Nat2N.id. intros E2.
    rewrite <- Hc in E2. rewrite <- Hc. apply read_all_loop_reads in E2; [|done].
    destruct E2 as (? & ? & ? & ? & ?). unfold parse_wal. split_and!; auto.
  - intros [= <- <-]. split_and!; try done. intros Hf Hl. by specialize (Hall Hf Hl).
  - by specialize (Hpanic eq_refl).
Qed.
End Reader.

(** ** The reader is total *)

Lemma read_contents_in c off n :
  off + n <= len c -> read_contents c off n = Ok (slice c off n).
Proof.
  intros H. unfold read_contents. case_test; [subst n|]; [done|].
  by rewrite (proj2 (N.leb_le _ _)) by done.
Qed.

(** The bytes [parse_record_at] hands to the decoder. *)
Lemma parse_record_at_eq c offset :
  offset <= len c -> len c <= U64_MAX ->
  parse_record_at c offset =
    if len c - offset <? WAL_HEADER_SIZE then Err (truncated_wal offset (len c - offset)) else
    let rlen := WAL_HEADER_SIZE + uint_at 4 c (offset + WOFF_PAYLOAD_LEN) in
    if len c - offset <? rlen then Err (truncated_wal offset (len c - offset)) else
    let? record := decode_record (slice c offset rlen) in
    if negb (lsn record =? offset)
    then Err (Corruption ("wal lsn mismatch: offset=" +:+ pretty offset
                          +:+ ", record_lsn=" +:+ pretty (lsn record)))
    else Ok (record, offset + rlen).
Proof.
  intros Ho Hl. unfold parse_record_at. case_test; [done|].
  unfold WAL_HEADER_SIZE, U64_MAX in *.
  rewrite read_contents_in by lia. cbn [bind_outcome].
  unfold read_u32. rewrite read_uint_ok by (rewrite len_slice by lia; done).
  cbn [bind_outcome].
  assert (Hu : uint_at 4 (slice c offset 40) WOFF_PAYLOAD_LEN = uint_at 4 c (offset + WOFF_PAYLOAD_LEN)).
  { Transparent uint_at. unfold uint_at. Opaque uint_at. by rewrite slice_slice. }
  rewrite Hu. set (n := uint_at 4 c _).
  assert (Hn : n < 256 ^ 4).
  { apply uint_at_bound. unfold WOFF_PAYLOAD_LEN. lia. }
  simpl in Hn. rewrite checked_add_ok by lia. cbn [ok_or bind_outcome].
  case_test; [done|].
  assert (Hd : (if 0 <? n then let? start := add_panic 18446744073709551615 offset 40 in
                read_contents c start n else Ok []) = Ok (slice c (offset + 40) n)).
  { case_test.
    - unfold add_panic. rewrite checked_add_ok by lia. apply read_contents_in. lia.
    - by replace n with 0 by lia. }
  rewrite Hd. cbn [bind_outcome]. rewrite <- slice_split.
  destruct (decode_record _); cbn [bind_outcome]; [|done|done].
  case_test; [done|]. by rewrite checked_add_ok by lia.
Qed.

Lemma parse_record_at_total c offset :
  offset <= len c -> len c <= U64_MAX ->
  match parse_record_at c offset with
  | Ok (record, offset') => lsn record = offset /\ offset + WAL_HEADER_SIZE <= offset' <= len c
  | Err e => is_corruption e = true
  | Panic => False
  end.
Proof.
  intros Ho Hl. rewrite parse_record_at_eq by done. cbn zeta. case_test; [done|]. case_test; [done|].
  destruct (decode_record_err (slice c offset (WAL_HEADER_SIZE + uint_at 4 c (offset + WOFF_PAYLOAD_LEN))))
    as [Hp He].
  destruct (decode_record _) as [record|e|]; cbn [bind_outcome]; [|by apply He|done].
  case_test; [done|]. unfold WAL_HEADER_SIZE in *. split; [done|]. lia.
Qed.

Lemma parse_loop_total fuel : forall c offset records,
  offset <= len c -> len c <= U64_MAX -> (N.to_nat (len c - offset) <= fuel)%nat ->
  match parse_loop fuel c offset records with
  | Ok rs => exists more, rs = records ++ more
             /\ Forall (fun r => offset <= lsn r < len c) more
             /\ StronglySorted N.lt (lsn <$> more)
  | Err e => is_corruption e = true
  | Panic => False
  end.
Proof.
  induction fuel as [|fuel IH]; intros c offset records Ho Hl Hf; simpl; case_test; try lia;
    try (exists []; rewrite app_nil_r; repeat constructor).
  pose proof (parse_record_at_total c offset Ho Hl) as Hp.
  destruct (parse_record_at c offset) as [[record offset']|e|]; [|done|done].
  unfold WAL_HEADER_SIZE in Hp. destruct Hp as [Hlsn Hoff]. cbn [bind_outcome].
  specialize (IH c offset' (records ++ [record]) ltac:(lia) Hl ltac:(lia)).
  destruct (parse_loop _ _ _ _) as [rs|e|]; [|done|done].
  destruct IH as (more & -> & Hr & Hs). exists (record :: more).
  split; [by rewrite <- app_assoc|]. split.
  - constructor; [lia|]. eapply Forall_impl; [exact Hr|]. simpl. intros. lia.
  - simpl. constructor; [done|]. rewrite Forall_fmap.
    eapply Forall_impl; [exact Hr|]. simpl. intros. lia.
Qed.

(** ** The reader on an appended log *)

Lemma record_len_bounds k : kind_ok k -> WAL_HEADER_SIZE <= record_len k <= WAL_HEADER_SIZE + PAGE_SIZE.
Proof.
  intros Hk. pose proof (kind_ok_bounds k Hk) as (_ & _ & _ & Hl).
  Transparent record_len. unfold record_len. Opaque record_len. lia.
Qed.

Lemma payload_len_at pre l k post :
  l <= U64_MAX -> kind_ok k ->
  WAL_HEADER_SIZE + uint_at 4 (pre ++ encoded l k ++ post) (len pre + WOFF_PAYLOAD_LEN)
  = record_len k.
Proof.
  intros Hl Hk. rewrite uint_at_skip by lia.
  replace (len pre + WOFF_PAYLOAD_LEN - len pre) with WOFF_PAYLOAD_LEN by lia.
  Transparent encoded. unfold encoded. Opaque encoded.
  erewrite f_len; [|apply layout_has_fields; [done|done|apply wal_checksum_layout_bound]].
  Transparent record_len. done.
Qed.
#[global] Opaque record_len.

Lemma parse_record_at_stream pre k post :
  kind_ok k -> len (pre ++ encoded (len pre) k ++ post) <= U64_MAX ->
  parse_record_at (pre ++ encoded (len pre) k ++ post) (len pre)
  = Ok (mkWalRecord (len pre) k, len pre + record_len k).
Proof.
  intros Hk Hl. pose proof (len_encoded (len pre) k) as He.
  pose proof (record_len_bounds k Hk) as Hb. unfold WAL_HEADER_SIZE in Hb.
  assert (Hlen : len (pre ++ encoded (len pre) k ++ post) = len pre + record_len k + len post)
    by (rewrite !length_app; lia).
  assert (Hp : len pre <= U64_MAX) by lia.
  rewrite parse_record_at_eq by (rewrite ?Hlen; done || lia). cbn zeta.
  rewrite payload_len_at by done. rewrite Hlen. unfold WAL_HEADER_SIZE.
  rewrite !(proj2 (N.ltb_ge _ _)) by lia.
  rewrite <- He at 1. rewrite slice_mid, decode_encoded by done. cbn [bind_outcome lsn].
  by rewrite N.eqb_refl.
Qed.

(** Scan the records of a stream, whatever follows them in the file. *)
Lemma parse_loop_stream ks : forall fuel pre post acc,
  Forall kind_ok ks -> len (pre ++ stream (len pre) ks ++ post) <= U64_MAX ->
  parse_loop (length ks + fuel) (pre ++ stream (len pre) ks ++ post) (len pre) acc
  = parse_loop fuel (pre ++ stream (len pre) ks ++ post) (len pre + stream_len ks)
      (acc ++ records_of (len pre) ks).
Proof.
  induction ks as [|k ks IH]; intros fuel pre post acc Hks Hl.
  { simpl. by rewrite N.add_0_r, app_nil_r. }
  apply Forall_cons in Hks as [Hk Hks]. cbn [stream stream_len records_of length] in *.
  pose proof (len_encoded (len pre) k) as He.
  pose proof (record_len_bounds k Hk) as Hb. unfold WAL_HEADER_SIZE in Hb.
  rewrite <- app_assoc in *.
  assert (Hp : len (pre ++ encoded (len pre) k) = len pre + record_len k)
    by (rewrite length_app; lia).
  cbn [Nat.add parse_loop]. rewrite (proj2 (N.ltb_lt _ _)) by (rewrite !length_app; lia).
  rewrite parse_record_at_stream by done. cbn [bind_outcome].
  specialize (IH fuel (pre ++ encoded (len pre) k) post (acc ++ [mkWalRecord (len pre) k]) Hks).
  rewrite Hp, <- !app_assoc in IH. rewrite IH by done.
  f_equal. lia.
Qed.

Lemma stream_fuel ks : Forall kind_ok ks -> N.of_nat (length ks) <= stream_len ks.
Proof.
  induction 1 as [|k ks Hk _ IH]; cbn [length stream_len]; [lia|].
  pose proof (record_len_bounds k Hk) as Hb. unfold WAL_HEADER_SIZE in Hb. lia.
Qed.

Lemma parse_wal_stream ks :
  Forall kind_ok ks -> stream_len ks <= U64_MAX ->
  parse_wal (stream 0 ks) = Ok (records_of 0 ks).
Proof.
  intros Hks Hl. unfold parse_wal.
  pose proof (len_stream 0 ks) as Hs. pose proof (stream_fuel ks Hks) as Hf.
  replace (length (stream 0 ks)) with (length ks + (length (stream 0 ks) - length ks))%nat by lia.
  pose proof (parse_loop_stream ks (length (stream 0 ks) - length ks) [] [] [] Hks) as Hp.
  rewrite app_nil_r in Hp. change (len (@nil byte)) with 0 in Hp. cbn [app] in Hp. rewrite Hp by lia.
  rewrite N.add_0_l.
  destruct (length (stream 0 ks) - length ks)%nat; simpl;
    rewrite (proj2 (N.ltb_ge _ _)) by lia; done.
Qed.

(** A log whose last record was torn: some bytes of it are missing. *)
Lemma parse_wal_torn ks k tail :
  Forall kind_ok ks -> kind_ok k -> stream_len ks + record_len k <= U64_MAX ->
  tail `prefix_of` encoded (stream_len ks) k -> tail <> [] -> len tail < record_len k ->
  exists m, parse_wal (stream 0 ks ++ tail) = Err (Corruption m).
Proof.
  intros Hks Hk Hl [rest Hrest] Hne Ht. pose proof (len_stream 0 ks) as Hs.
  pose proof (stream_fuel ks Hks) as Hf.
  unfold parse_wal. set (c := stream 0 ks ++ tail).
  assert (Hc : len c = stream_len ks + len tail) by (unfold c; rewrite length_app; lia).
  assert (Ht0 : 0 < len tail) by (destruct tail; [done|simpl; lia]).
  assert (exists fuel, length c = length ks + S fuel)%nat as [fuel ->]
    by (exists (length c - length ks - 1)%nat; lia).
  pose proof (parse_loop_stream ks (S fuel) [] tail [] Hks) as Hp.
  change (len (@nil byte)) with 0 in Hp. cbn [app] in Hp. fold c in Hp. rewrite Hp by lia. clear Hp.
  rewrite N.add_0_l. cbn [parse_loop]. rewrite (proj2 (N.ltb_lt _ _)) by lia.
  rewrite parse_record_at_eq by lia. case_test; [by eexists|].
  assert (Hn : WAL_HEADER_SIZE + uint_at 4 c (stream_len ks + WOFF_PAYLOAD_LEN) = record_len k).
  { rewrite <- (payload_len_at (stream 0 ks) (stream_len ks) k [] ltac:(lia) Hk).
    rewrite Hs. f_equal. rewrite app_nil_r, Hrest, app_assoc. fold c.
    Transparent uint_at. unfold uint_at. Opaque uint_at. rewrite slice_app_l; [done|].
    unfold WAL_HEADER_SIZE, WOFF_PAYLOAD_LEN in *. lia. }
  cbn zeta. rewrite Hn. rewrite (proj2 (N.ltb_lt _ _)) by lia. by eexists.
Qed.
