(* ===== verification/WalTheorems.v ===== *)
(** * WalTheorems: what the log promises to transactions and recovery *)

From Stdlib Require Import Sorting.Sorted.
From S2P Require Import Prelude Core Bytes Page PageFacts PageOps Vfs VfsFacts PageStore Wal WalFacts WalStream.

(** ** The log of a writer *)

(** The writer's file holds exactly the records [ks], and the next record goes
    to the end of the file. *)
Record wal_rep {F : Type} `{VfsLaws F} (w : WalWriter F) (ks : list WalRecordKind) : Prop := {
  wal_contents : contents (wal_file w) = stream 0 ks;
  wal_next : allocator w = stream_len ks;
  wal_kinds : Forall kind_ok ks
}.

(** The transactions redo replays, and the images it replays, in log order. *)
Definition is_committed (rs : list WalRecord) (t : TxId) : Prop :=
  CommitTx t ∈ kind <$> rs /\ AbortTx t ∉ kind <$> rs.

#[export] Instance is_committed_dec rs t : Decision (is_committed rs t).
Proof. unfold is_committed. apply _. Defined.

Definition committed_image (rs : list WalRecord) (r : WalRecord) : bool :=
  match kind r with
  | PageImage t _ _ => bool_decide (is_committed rs t)
  | _ => false
  end.

(** Redo one committed image: parse it, compare the page id, hand it over. *)
Definition redo_image {R} `{PageImageRedo R} (r : WalRecord) : db R unit :=
  match kind r with
  | PageImage t id image =>
      let! page := lift (from_bytes image) in
      let! h := lift (header page) in
      if negb (h_page_id h =? id)
      then throw (Corruption ("wal page image id mismatch: record=" +:+ pretty id
                              +:+ ", image=" +:+ pretty (h_page_id h)))
      else redo_page_image (lsn r) t id image
  | _ => ret tt
  end.

Section Appending.
Context {F : Type} `{VfsLaws F}.

(** [append] writes the encoded record at the allocator's position, which has
    advanced before the write is attempted. *)
Lemma append_run w k :
  kind_ok k -> allocator w + record_len k <= U64_MAX ->
  append k w
  = let '(r, f) := file_write_all_at (allocator w) (encoded (allocator w) k) (wal_file w) in
    (match r with Ok _ => Ok (allocator w) | Err e => Err e | Panic => Panic end,
     mkWalWriter f (allocator w + record_len k)).
Proof.
  intros Hk Hn. unfold append, bind_st, lift, on_allocator, on_file, zoom.
  pose proof (record_len_bounds k Hk) as Hb. unfold WAL_HEADER_SIZE, PAGE_SIZE in Hb.
  assert (Hel : encoded_len_for_kind k = Ok (record_len k)).
  { unfold encoded_len_for_kind. rewrite checked_add_ok; [done|].
    Transparent record_len. unfold record_len in *. Opaque record_len.
    unfold WAL_HEADER_SIZE, U64_MAX in *. lia. }
  rewrite Hel. unfold allocate. rewrite checked_add_ok by done.
  rewrite encode_record_run by done. cbn [wal_file allocator].
  by destruct (file_write_all_at _ _ _) as [[] f].
Qed.

(** Every outcome of [append] on a log. *)
Lemma append_spec w ks k r w' :
  wal_rep w ks -> kind_ok k -> stream_len ks + record_len k <= U64_MAX ->
  append k w = (r, w') ->
  r <> Panic /\ (healthy (wal_file w) -> healthy (wal_file w'))
  /\ (r = Ok (stream_len ks) -> wal_rep w' (ks ++ [k]))
  /\ (exists n, contents (wal_file w')
                = stream 0 ks ++ take n (encoded (stream_len ks) k))
  /\ allocator w' = stream_len ks + record_len k
  /\ (healthy (wal_file w) -> r = Ok (stream_len ks)).
Proof.
  intros [Hc Hn Hks] Hk Hl. rewrite append_run by (rewrite ?Hn; done). rewrite Hn.
  destruct (file_write_all_at _ _ _) as [o f'] eqn:Hw.
  apply write_law in Hw as (Hp & Hh & Hok & (n & Hpre) & Hall).
  pose proof (len_stream 0 ks) as Hs. rewrite Hc in Hok, Hpre.
  assert (Happ : forall v, file_write (stream 0 ks) (stream_len ks) v = stream 0 ks ++ v)
    by (intros; rewrite <- Hs; apply file_write_end).
  rewrite Happ in Hok, Hpre.
  destruct o as [[]|e|]; [| |done]; intros [= <- <-]; cbn [wal_file allocator].
  - split_and!; try done; [|by eauto].
    intros _. split; cbn [wal_file allocator].
    + rewrite stream_app, N.add_0_l. cbn [stream]. rewrite app_nil_r. by apply Hok.
    + rewrite stream_len_app. cbn [stream_len]. lia.
    + by apply Forall_app_2; [|constructor].
  - split_and!; try done; [by eauto|]. intros Hf.
    by specialize (Hall Hf ltac:(rewrite len_encoded; lia)).
Qed.

Lemma read_all_rep f ks :
  contents f = stream 0 ks -> Forall kind_ok ks -> healthy f -> stream_len ks <= U64_MAX ->
  fst (read_all f) = Ok (records_of 0 ks) /\ contents (snd (read_all f)) = stream 0 ks
  /\ healthy (snd (read_all f)).
Proof.
  intros Hc Hks Hf Hl. destruct (read_all f) as [r f'] eqn:Hr.
  apply read_all_reads in Hr as (Hc' & Hh & _ & _ & Hall).
  pose proof (len_stream 0 ks) as Hs. rewrite Hc in *.
  rewrite Hall by (done || lia). rewrite parse_wal_stream by done. simpl. auto.
Qed.
End Appending.

(** ** Redo as a function of the log *)

Lemma classify_spec rs t :
  (t ∈ (classify rs).1 <-> CommitTx t ∈ kind <$> rs)
  /\ (t ∈ (classify rs).2 <-> AbortTx t ∈ kind <$> rs).
Proof.
  unfold classify. induction rs as [|r rs IH] using rev_ind; [by split; split; intros ?%not_elem_of_nil || intros ?%not_elem_of_empty|].
  rewrite foldl_snoc, fmap_app, !elem_of_app.
  destruct (foldl _ _ rs) as [committed aborted]. simpl in IH |- *.
  destruct IH as [Hc Ha].
  destruct (kind r) eqn:Hk; simpl; rewrite ?Hk, ?elem_of_union, ?elem_of_singleton, ?Hc, ?Ha,
    !list_elem_of_singleton; split; split; intuition congruence.
Qed.

Lemma redo_record_eq {R} `{PageImageRedo R} rs r s :
  redo_record (classify rs).1 (classify rs).2 r s
  = (if committed_image rs r then redo_image r else ret tt) s.
Proof.
  unfold redo_record, committed_image, redo_image. destruct (kind r) as [|t id image| | |]; try done.
  destruct (classify_spec rs t) as [Hc Ha].
  assert (Hb : bool_decide (t ∈ (classify rs).1) && negb (bool_decide (t ∈ (classify rs).2))
               = bool_decide (is_committed rs t)).
  { unfold is_committed. apply eq_true_iff_eq.
    rewrite andb_true_iff, negb_true_iff, !bool_decide_eq_true, bool_decide_eq_false. tauto. }
  by rewrite Hb.
Qed.

Lemma for_each_ext {S E B} (f g : B -> st S E unit) xs s :
  (forall x s, f x s = g x s) -> for_each f xs s = for_each g xs s.
Proof.
  intros H. revert s; induction xs as [|x xs IH]; intros s; simpl; [done|].
  unfold bind_st. rewrite H. by destruct (g x s) as [[] ?].
Qed.

Lemma for_each_filter {S E B} (p : B -> bool) (f : B -> st S E unit) xs s :
  for_each (fun x => if p x then f x else ret tt) xs s
  = for_each f (filter (fun x => p x = true) xs) s.
Proof.
  revert s; induction xs as [|x xs IH]; intros s; [done|].
  rewrite filter_cons. simpl. destruct (p x) eqn:Hp; simpl.
  - unfold bind_st. by destruct (f x s) as [[] ?].
  - unfold bind_st, ret. done.
Qed.

Lemma redo_filter {R} `{PageImageRedo R} rs s :
  redo_committed_page_images rs s
  = for_each redo_image (filter (fun r => committed_image rs r = true) rs) s.
Proof.
  unfold redo_committed_page_images. rewrite <- for_each_filter.
  destruct (classify rs) as [committed aborted] eqn:Hcl.
  apply for_each_ext. intros r s0. rewrite <- redo_record_eq. by rewrite Hcl.
Qed.

Lemma slice_insert_in {A} (l : list A) o n (i : nat) x :
  o <= N.of_nat i < o + n -> (i < length l)%nat ->
  slice (<[i := x]> l) o n = <[(i - N.to_nat o)%nat := x]> (slice l o n).
Proof.
  intros Hi Hl. apply list_eq. intros j. rewrite lookup_slice.
  destruct (decide ((i - N.to_nat o)%nat = j)) as [<-|Hj].
  - rewrite decide_True by lia. rewrite list_lookup_insert_eq.
    + replace (N.to_nat o + (i - N.to_nat o))%nat with i by lia. by apply list_lookup_insert_eq.
    + unfold slice. rewrite length_take, length_drop. lia.
  - rewrite (list_lookup_insert_ne (slice l o n)) by done. rewrite lookup_slice.
    case_decide; [|done]. rewrite list_lookup_insert_ne by lia. done.
Qed.

(** ** A hole in the log *)

(** Zeros where a record is expected are not a record, whatever follows. *)
Lemma hole_not_parsed ks gap v :
  Forall kind_ok ks -> WAL_HEADER_SIZE <= gap -> v <> [] ->
  stream_len ks + gap + len v <= U64_MAX ->
  exists m, parse_wal (file_write (stream 0 ks) (stream_len ks + gap) v) = Err (Corruption m).
Proof.
  unfold WAL_HEADER_SIZE. intros Hks Hg Hv Hl. pose proof (len_stream 0 ks) as Hs.
  pose proof (stream_fuel ks Hks) as Hf.
  assert (Hw : file_write (stream 0 ks) (stream_len ks + gap) v
               = stream 0 ks ++ replicate (N.to_nat gap) x00 ++ v).
  { rewrite file_write_nonempty by done.
    replace (stream_len ks + gap - len (stream 0 ks)) with gap by lia.
    rewrite splice_skip by lia. f_equal.
    replace (stream_len ks + gap - len (stream 0 ks)) with (len (replicate (N.to_nat gap) x00))
      by (rewrite length_replicate; lia).
    apply splice_app_end. }
  rewrite Hw. set (tail := replicate (N.to_nat gap) x00 ++ v). set (c := stream 0 ks ++ tail).
  assert (Ht : len tail = gap + len v) by (unfold tail; rewrite length_app, length_replicate; lia).
  assert (Hc : len c = stream_len ks + gap + len v) by (unfold c; rewrite length_app; lia).
  unfold parse_wal.
  assert (exists fuel, length c = length ks + S fuel)%nat as [fuel ->]
    by (exists (length c - length ks - 1)%nat; lia).
  pose proof (parse_loop_stream ks (S fuel) [] tail [] Hks) as Hp.
  change (len (@nil byte)) with 0 in Hp. cbn [app] in Hp. fold c in Hp. rewrite Hp by lia.
  rewrite N.add_0_l. cbn [parse_loop]. rewrite (proj2 (N.ltb_lt _ _)) by lia.
  assert (Hz : slice c (stream_len ks) 40 = replicate 40 x00).
  { unfold c, tail. rewrite slice_app_r by lia. rewrite Hs, N.sub_diag.
    rewrite slice_app_l by (rewrite length_replicate; lia).
    apply list_eq. intros i. rewrite lookup_slice. case_decide.
    - rewrite !lookup_replicate_2 by lia. done.
    - symmetry. apply lookup_ge_None. rewrite length_replicate. lia. }
  assert (Hu : uint_at 4 c (stream_len ks + WOFF_PAYLOAD_LEN) = 0).
  { Transparent uint_at. unfold uint_at. Opaque uint_at.
    rewrite <- (slice_slice c (stream_len ks) 40) by done. rewrite Hz. vm_compute. done. }
  rewrite parse_record_at_eq by lia. cbn zeta. rewrite Hu. unfold WAL_HEADER_SIZE.
  rewrite !(proj2 (N.ltb_ge _ _)) by lia. change (40 + 0) with 40. rewrite Hz.
  exists "invalid wal magic". vm_compute. done.
Qed.

(** ** Concrete logs for the witnesses *)

Definition empty_file : SimFile := mkSimFile [] [].

Lemma healthy_script c : healthy (mkSimFile c []).
Proof. constructor. Qed.

Lemma wal_rep_new : wal_rep (mkWalWriter empty_file 0) [].
Proof. by split. Qed.

(** A data page with one record. *)
Definition page_one : Page := snd (insert_record [x6f; x6e; x65] (page_new 1 Heap)).
Definition image_one : WalRecordKind := PageImage 7 1 (bytes page_one).

Lemma image_one_ok : kind_ok image_one.
Proof. vm_compute. split_and!; congruence. Qed.

(** ** Claims *)

(** Every record whose fields fit their types is encoded, in exactly the
    number of bytes the writer reserves for it, and decodes to itself. *)
Theorem wal_record_roundtrip l k :
  l <= U64_MAX -> kind_ok k ->
  exists bs, encode_record (mkWalRecord l k) = Ok bs
    /\ encoded_len_for_kind k = Ok (len bs)
    /\ decode_record bs = Ok (mkWalRecord l k).
Proof.
  intros Hl Hk. exists (encoded l k). split; [by apply encode_record_run|].
  split; [|by apply decode_encoded]. pose proof (record_len_bounds k Hk) as Hb.
  rewrite len_encoded. unfold encoded_len_for_kind.
  Transparent record_len. unfold record_len, WAL_HEADER_SIZE, PAGE_SIZE in *. Opaque record_len.
  rewrite checked_add_ok by (unfold U64_MAX; lia). done.
Qed.

Lemma wal_record_roundtrip_witness :
  exists bs, encode_record (mkWalRecord 80 image_one) = Ok bs
    /\ encoded_len_for_kind image_one = Ok (len bs)
    /\ decode_record bs = Ok (mkWalRecord 80 image_one).
Proof. apply (wal_record_roundtrip 80 image_one); [by vm_compute|apply image_one_ok]. Defined.

(** Changing one byte of a record that decodes, anywhere in it, makes the
    decoder report corruption. *)
Theorem wal_single_byte_corruption bs r (i : nat) b c :
  decode_record bs = Ok r -> bs !! i = Some b -> b <> c ->
  exists m, decode_record (<[i := c]> bs) = Err (Corruption m).
Proof.
  intros Hd Hb Hbc. destruct (decode_record_err (<[i := c]> bs)) as [Hp He].
  destruct (decode_record (<[i := c]> bs)) as [r'|e|] eqn:Hd2; 
    [|destruct (is_corruption_inv e (He _ eq_refl)) as [m ->]; by exists m|done].
  exfalso. apply decode_record_inv in Hd as (Hl & _ & Hs & _).
  apply decode_record_inv in Hd2 as (_ & _ & Hs' & _).
  pose proof (lookup_lt_Some _ _ _ Hb) as Hi. unfold WAL_HEADER_SIZE in Hl.
  destruct (wal_checksum_eq bs Hl) as (s & Hsum & Hw).
  destruct (wal_checksum_eq (<[i := c]> bs)) as (s' & Hsum' & Hw');
    [rewrite length_insert; done|]. rewrite Hw in Hs. rewrite Hw' in Hs'.
  pose proof (sum_bytes_insert bs i b c Hb) as Hins.
  Transparent uint_at. unfold uint_at, WOFF_CHECKSUM in *. Opaque uint_at.
  destruct (decide (36 <= i < 40)%nat) as [Hin|Hout].
  - apply (slice_insert_in_ne bs 36 4 i b c); [lia|done|done|].
    apply le_decode_inj; [by rewrite !length_slice by (rewrite ?length_insert; lia)|].
    rewrite Hs, Hs'. f_equal.
    assert (Hsl : slice bs 36 4 !! (i - 36)%nat = Some b).
    { rewrite lookup_slice, decide_True by lia. rewrite <- Hb. f_equal. lia. }
    pose proof (sum_bytes_insert _ _ b c Hsl) as Hins2.
    rewrite slice_insert_in in Hsum' by lia.
    change (N.to_nat 36) with 36%nat in Hsum'. lia.
  - rewrite slice_insert_out in Hs', Hsum' by lia. rewrite Hs in Hs'.
    pose proof (N.div_mod s 4294967296). pose proof (N.div_mod s' 4294967296).
    pose proof (to_N_lt b). pose proof (to_N_lt c).
    apply Hbc, to_N_inj. lia.
Qed.

Lemma wal_single_byte_corruption_witness :
  exists m, decode_record (<[39%nat := x07]> (encoded 0 (CommitTx 7))) = Err (Corruption m).
Proof.
  apply (wal_single_byte_corruption (encoded 0 (CommitTx 7)) (mkWalRecord 0 (CommitTx 7)) 39 x00 x07).
  - vm_compute. reflexivity.
  - vm_compute. reflexivity.
  - discriminate.
Defined.

(** C21. Appending to a log assigns the end of the file as the record's LSN and
    extends the log by exactly this record: the reader then returns all the
    records appended so far, in order.  The append succeeds on a healthy file
    as long as the log stays below 2^64 bytes. *)
Theorem wal_append_read_back {F : Type} `{VfsLaws F} w ks k :
  wal_rep w ks -> healthy (wal_file w) -> kind_ok k -> stream_len (ks ++ [k]) <= U64_MAX ->
  exists w', append k w = (Ok (stream_len ks), w') /\ wal_rep w' (ks ++ [k])
    /\ healthy (wal_file w')
    /\ fst (read_all (wal_file w')) = Ok (records_of 0 ks ++ [mkWalRecord (stream_len ks) k]).
Proof.
  intros Hw Hf Hk Hl. rewrite stream_len_app in Hl. cbn [stream_len] in Hl.
  destruct (append k w) as [r w'] eqn:Ha.
  destruct (append_spec w ks k r w' Hw Hk ltac:(lia) Ha) as (_ & Hh & Hrep & _ & _ & Hall).
  specialize (Hall Hf). subst r. specialize (Hrep eq_refl).
  exists w'. split_and!; [done|done|auto|].
  destruct Hrep as [Hc _ Hks].
  destruct (read_all_rep _ _ Hc Hks (Hh Hf)) as (-> & _).
  { rewrite stream_len_app. cbn [stream_len]. lia. }
  by rewrite records_of_app.
Qed.

Lemma wal_append_read_back_witness :
  exists w', append (BeginTx 1) (mkWalWriter empty_file 0) = (Ok 0, w')
    /\ fst (read_all (wal_file w')) = Ok [mkWalRecord 0 (BeginTx 1)].
Proof.
  destruct (wal_append_read_back (mkWalWriter empty_file 0) [] (BeginTx 1)) as (w' & Ha & _ & _ & Hr).
  - apply wal_rep_new.
  - apply healthy_script.
  - by vm_compute.
  - by vm_compute.
  - exists w'. split; [exact Ha|exact Hr].
Defined.

(** C22. Whatever happens during an append (an error of the file, or a crash in
    the middle of the write), the file afterwards holds the old records and a
    prefix of the new one.  Then the reader returns the old records if the
    prefix is empty, all records if it is the whole record, and reports
    corruption otherwise: a torn record is never read as a record. *)
Theorem wal_append_atomic {F : Type} `{VfsLaws F} w ks k :
  wal_rep w ks -> kind_ok k -> stream_len (ks ++ [k]) <= U64_MAX ->
  exists tail, contents (wal_file (snd (append k w))) = stream 0 ks ++ tail
    /\ tail `prefix_of` encoded (stream_len ks) k
    /\ (tail = [] -> parse_wal (stream 0 ks ++ tail) = Ok (records_of 0 ks))
    /\ (len tail = record_len k ->
        parse_wal (stream 0 ks ++ tail) = Ok (records_of 0 (ks ++ [k])))
    /\ (0 < len tail < record_len k ->
        exists m, parse_wal (stream 0 ks ++ tail) = Err (Corruption m)).
Proof.
  intros Hw Hk Hl. destruct (append k w) as [r w'] eqn:Ha.
  pose proof (wal_kinds _ _ Hw) as Hks. rewrite stream_len_app in Hl. cbn [stream_len] in Hl.
  destruct (append_spec w ks k r w' Hw Hk ltac:(lia) Ha) as (_ & _ & _ & (n & Hc) & _).
  pose proof (len_encoded (stream_len ks) k) as He.
  exists (take n (encoded (stream_len ks) k)).
  split_and!; [exact Hc|apply prefix_take| | |].
  - intros ->. rewrite app_nil_r. apply parse_wal_stream; [done|lia].
  - intros Hn. rewrite take_ge by (rewrite length_take in Hn; lia).
    rewrite <- (parse_wal_stream (ks ++ [k])).
    + rewrite stream_app, N.add_0_l. cbn [stream]. by rewrite app_nil_r.
    + by apply Forall_app_2; [|constructor].
    + rewrite stream_len_app. cbn [stream_len]. lia.
  - intros [H1 H2]. eapply parse_wal_torn; try done; [lia|apply prefix_take|].
    intros Hn. by rewrite Hn in H1.
Qed.

(** The record is torn after three bytes: the system then fails. *)
Definition failing_file : SimFile := mkSimFile [] [Transfer 3; Failure].

Lemma wal_append_atomic_witness :
  exists m, parse_wal (contents (wal_file (snd (append (BeginTx 1) (mkWalWriter failing_file 0)))))
            = Err (Corruption m).
Proof.
  destruct (wal_append_atomic (mkWalWriter failing_file 0) [] (BeginTx 1))
    as (tail & Hc & _ & _ & _ & Htorn).
  - by split.
  - by vm_compute.
  - by vm_compute.
  - rewrite Hc. apply Htorn.
    assert (Hl : len tail = 3) by (change tail with (stream 0 [] ++ tail); rewrite <- Hc; vm_compute; reflexivity).
    rewrite Hl. by vm_compute.
Defined.

(** C35. Scanning a log never panics and always ends, whatever bytes the file
    holds.  On a healthy file the result is corruption or a list of records
    whose LSNs are strictly increasing offsets inside the file. *)
Theorem read_all_total {F : Type} `{VfsLaws F} f :
  len (contents f) <= U64_MAX ->
  match fst (read_all f) with
  | Ok rs => Forall (fun r => lsn r < len (contents f)) rs /\ StronglySorted N.lt (lsn <$> rs)
  | Err e => healthy f -> is_corruption e = true
  | Panic => False
  end.
Proof.
  intros Hl. destruct (read_all f) as [r f'] eqn:Hr.
  apply read_all_reads in Hr as (_ & _ & Hok & Hpanic & Hall).
  pose proof (parse_loop_total (length (contents f)) (contents f) 0 [] ltac:(lia) Hl ltac:(lia)) as Ht.
  fold (parse_wal (contents f)) in Ht. destruct r as [rs|e|]; cbn [fst].
  - rewrite (Hok rs eq_refl) in Ht. destruct Ht as (more & -> & Hf & Hs). split; [|done].
    eapply Forall_impl; [exact Hf|]. simpl. intros. lia.
  - intros Hh. by rewrite <- (Hall Hh Hl) in Ht.
  - by rewrite (Hpanic eq_refl) in Ht.
Qed.

(** Not a log at all. *)
Definition garbage_file : SimFile := mkSimFile (replicate 100 x52) [].

Lemma read_all_total_witness :
  match fst (read_all garbage_file) with
  | Err e => is_corruption e = true
  | _ => False
  end.
Proof.
  assert (Hl : len (contents garbage_file) <= U64_MAX) by (simpl; discriminate).
  pose proof (read_all_total garbage_file Hl) as Hr.
  destruct (fst (read_all garbage_file)) as [rs|e|] eqn:He.
  - vm_compute in He. discriminate He.
  - apply Hr, healthy_script.
  - exact Hr.
Defined.

(** C36. Redo replays exactly the page images of the transactions that have a
    commit marker and no abort marker, in log order, each parsed and checked
    against the page id of its record before the receiver sees it; images of
    other transactions have no effect. *)
Theorem redo_replays_committed_images {R : Type} `{PageImageRedo R} rs s :
  redo_committed_page_images rs s
  = for_each redo_image (filter (fun r => committed_image rs r = true) rs) s.
Proof. apply redo_filter. Qed.

(** The writer takes the LSN before it writes: after an append that failed
    before writing anything, a later successful append leaves a hole in the
    log, and from then on no scan of this log succeeds. *)
Theorem failed_append_poisons_log {F : Type} `{VfsLaws F} w ks k e w' k' l w'' :
  wal_rep w ks -> kind_ok k -> kind_ok k' -> stream_len (ks ++ [k; k']) <= U64_MAX ->
  append k w = (Err e, w') -> contents (wal_file w') = contents (wal_file w) ->
  append k' w' = (Ok l, w'') ->
  exists m, parse_wal (contents (wal_file w'')) = Err (Corruption m).
Proof.
  intros Hw Hk Hk' Hl Ha Hsame Ha'. rewrite stream_len_app in Hl. cbn [stream_len] in Hl.
  pose proof (record_len_bounds k Hk) as Hb. unfold WAL_HEADER_SIZE in Hb.
  pose proof (record_len_bounds k' Hk') as Hb'. unfold WAL_HEADER_SIZE in Hb'.
  destruct (append_spec w ks k _ w' Hw Hk ltac:(lia) Ha) as (_ & _ & _ & _ & Hnext & _).
  rewrite append_run in Ha' by (rewrite ?Hnext; done || lia). rewrite Hnext in Ha'.
  destruct (file_write_all_at _ _ _) as [o f'] eqn:Hwr.
  apply write_law in Hwr as (_ & _ & Hok & _ & _).
  destruct o as [[]|o|]; [|done|done]. injection Ha' as <- <-. cbn [wal_file].
  pose proof (wal_contents _ _ Hw) as Hc. pose proof (len_stream 0 ks) as Hs.
  pose proof (len_encoded (stream_len ks + record_len k) k') as He.
  rewrite (Hok eq_refl), Hsame, Hc. apply hole_not_parsed; [apply Hw|unfold WAL_HEADER_SIZE; lia| |lia].
  rewrite <- He in Hb'. intros Hn. rewrite Hn in Hb'. simpl in Hb'. lia.
Qed.

(** The system fails once, before transferring anything. *)
Definition hiccup_file : SimFile := mkSimFile [] [Failure].

Lemma failed_append_poisons_log_witness :
  exists w' w'' m, append (BeginTx 1) (mkWalWriter hiccup_file 0) = (Err (Io OtherIo), w')
    /\ append (BeginTx 2) w' = (Ok 40, w'')
    /\ parse_wal (contents (wal_file w'')) = Err (Corruption m).
Proof.
  set (w := mkWalWriter hiccup_file 0).
  set (w' := snd (append (BeginTx 1) w)). set (w'' := snd (append (BeginTx 2) w')).
  assert (Ha : append (BeginTx 1) w = (Err (Io OtherIo), w')) by (vm_compute; reflexivity).
  assert (Ha' : append (BeginTx 2) w' = (Ok 40, w'')) by (vm_compute; reflexivity).
  destruct (failed_append_poisons_log w [] (BeginTx 1) (Io OtherIo) w' (BeginTx 2) 40 w'')
    as [m Hm].
  - by split.
  - by vm_compute.
  - by vm_compute.
  - by vm_compute.
  - exact Ha.
  - vm_compute. reflexivity.
  - exact Ha'.
  - exists w', w'', m. split; [exact Ha|]. split; [exact Ha'|exact Hm].
Defined.
