(* ===== verification/Recovery.v ===== *)
(** * Recovery: the recovery pass of crate [rdbms_recovery]

    Opening a database scans the log and writes the page images of the committed
    transactions into the page file, then syncs it. *)

From S2P Require Import Prelude Core Bytes Page Vfs Wal.

Record RecoveryReport : Type := mkReport {
  scanned_wal_records : N;
  redone_page_images : N
}.

(** The two open files of a database. *)
Record DbFiles (F : Type) : Type := mkDbFiles { data_file : F; log_file : F }.
Arguments mkDbFiles {F}.
Arguments data_file {F}.
Arguments log_file {F}.

(** The redo receiver: the page file and the number of images applied. *)
Record PageFileRedo (F : Type) : Type := mkPageFileRedo { page_file : F; redone : N }.
Arguments mkPageFileRedo {F}.
Arguments page_file {F}.
Arguments redone {F}.

Section Recovery.
Context {F : Type} `{VfsFile F}.

Definition on_page_file {A} (m : db F A) : db (PageFileRedo F) A :=
  zoom page_file (fun f r => mkPageFileRedo f (redone r)) m.
Definition on_redone {A} (m : db N A) : db (PageFileRedo F) A :=
  zoom redone (fun n r => mkPageFileRedo (page_file r) n) m.
Definition on_log {A} (m : db F A) : db (DbFiles F) A :=
  zoom log_file (fun f d => mkDbFiles (data_file d) f) m.
(** [PageFileRedo::new(page_file)], run on the data file. *)
Definition with_redo {A} (m : db (PageFileRedo F) A) : db (DbFiles F) A :=
  zoom (fun d => mkPageFileRedo (data_file d) 0)
       (fun r d => mkDbFiles (page_file r) (log_file d)) m.

(** [self.redone_page_images += 1]. *)
Definition count_image : db N unit := fun n =>
  match checked_add USIZE_MAX n 1 with
  | Some n' => (Ok tt, n')
  | None => (Panic, n)
  end.

#[global] Instance page_file_redo : PageImageRedo (PageFileRedo F) := {
  redo_page_image _ _ page_id image :=
    let! page := lift (from_bytes image) in
    let! _ := on_page_file (write_page_at page_id page) in
    on_redone count_image
}.

(** The new state holds the files also when the pass fails. *)
Definition recover_page_file : db (DbFiles F) RecoveryReport :=
  let! records := on_log read_all in
  let scanned := len records in
  let! count := with_redo (let! _ := redo_committed_page_images records in
                           let! _ := on_page_file file_sync_data in
                           gets redone) in
  ret (mkReport scanned count).
End Recovery.
