(* ===== verification/RecoveryFacts.v ===== *)
(** * RecoveryFacts: recovery as a list of page writes

    [image_writes] is what the log asks for; [torn_writes] describes every state
    of the data file that an interrupted recovery can leave behind. *)

From S2P Require Import Prelude Core Bytes Page PageFacts PageOps Vfs VfsFacts PageStore Wal WalFacts WalStream WalTheorems Recovery.

(** ** Lists of writes to a file *)

Definition write : Type := N * list byte.

Definition apply_write (c : list byte) (w : write) : list byte := file_write c w.1 w.2.
Definition apply_writes (ws : list write) (c : list byte) : list byte := foldl apply_write c ws.

(** The first [n] writes and a prefix of the next one. *)
Definition torn_writes (ws : list write) (n k : nat) (c : list byte) : list byte :=
  match ws !! n with
  | Some w => apply_write (apply_writes (take n ws) c) (w.1, take k w.2)
  | None => apply_writes ws c
  end.

(** The byte the writes leave at position [i], if one of them covers it. *)
Fixpoint last_byte (ws : list write) (i : nat) : option byte :=
  match ws with
  | [] => None
  | w :: rest =>
      match last_byte rest i with
      | Some b => Some b
      | None => if decide (w.1 <= N.of_nat i) then w.2 !! (i - N.to_nat w.1)%nat else None
      end
  end.

(** One past the last position written. *)
Fixpoint end_of (ws : list write) : N :=
  match ws with
  | [] => 0
  | w :: rest => N.max (if decide (w.2 = []) then 0 else w.1 + len w.2) (end_of rest)
  end.

Lemma len_apply_write c w :
  len (apply_write c w) = N.max (len c) (if decide (w.2 = []) then 0 else w.1 + len w.2).
Proof.
  destruct w as [off v]. unfold apply_write. cbn [fst snd]. case_decide as Hv.
  - subst v. simpl. lia.
  - by apply len_file_write.
Qed.

Lemma len_apply_writes ws c : len (apply_writes ws c) = N.max (len c) (end_of ws).
Proof.
  revert c; induction ws as [|w ws IH]; intros c; cbn [apply_writes foldl end_of]; [lia|].
  fold (apply_writes ws (apply_write c w)). rewrite IH, len_apply_write. lia.
Qed.

Lemma lookup_apply_write c w (i : nat) :
  apply_write c w !! i =
    match (if decide (w.1 <= N.of_nat i) then w.2 !! (i - N.to_nat w.1)%nat else None) with
    | Some b => Some b
    | None => if decide (N.of_nat i < len c) then c !! i
              else if decide (N.of_nat i < len (apply_write c w)) then Some x00 else None
    end.
Proof.
  rewrite len_apply_write. destruct w as [off v]. unfold apply_write. cbn [fst snd].
  destruct (decide (v = [])) as [->|Hv].
  { cbn [file_write]. rewrite lookup_nil.
    repeat case_decide; try lia; try done; apply lookup_ge_None; lia. }
  rewrite lookup_file_write by done.
  destruct (v !! (i - N.to_nat off)%nat) as [b|] eqn:Hb.
  - pose proof (lookup_lt_Some _ _ _ Hb). repeat case_decide; try lia; done.
  - apply lookup_ge_None in Hb.
    repeat case_decide; try lia; try done; rewrite ?lookup_ge_None; try lia.
    all: by rewrite (proj2 (lookup_ge_None c i)) by lia.
Qed.

Lemma lookup_apply_writes ws c (i : nat) :
  apply_writes ws c !! i =
    match last_byte ws i with
    | Some b => Some b
    | None => if decide (N.of_nat i < len c) then c !! i
              else if decide (N.of_nat i < end_of ws) then Some x00 else None
    end.
Proof.
  revert c; induction ws as [|w ws IH]; intros c; cbn [apply_writes foldl last_byte end_of].
  - case_decide; [done|]. rewrite decide_False by lia. apply lookup_ge_None. lia.
  - fold (apply_writes ws (apply_write c w)). rewrite IH. destruct (last_byte ws i); [done|].
    rewrite lookup_apply_write, len_apply_write.
    set (m := if decide (w.2 = []) then 0 else w.1 + len w.2).
    destruct (if decide (w.1 <= N.of_nat i) then w.2 !! (i - N.to_nat w.1)%nat else None) eqn:Hw.
    + rewrite decide_True; [done|]. case_decide as Hle; [|done].
      pose proof (lookup_lt_Some _ _ _ Hw). unfold m.
      rewrite decide_False by (intros Hn; by rewrite Hn in Hw). lia.
    + clearbody m. repeat case_decide; try lia; done.
Qed.

(** Writes that stay inside what [ws] rewrites anyway are undone by [ws]. *)
Lemma apply_writes_absorb ws pre c :
  (forall i, is_Some (last_byte pre i) -> is_Some (last_byte ws i)) ->
  end_of pre <= end_of ws ->
  apply_writes ws (apply_writes pre c) = apply_writes ws c.
Proof.
  intros Hcov Hend. apply list_eq. intros i. rewrite !lookup_apply_writes.
  destruct (last_byte ws i) eqn:Hws; [done|].
  assert (Hpre : last_byte pre i = None).
  { destruct (last_byte pre i) eqn:Hp; [|done]. destruct (Hcov i); [by rewrite Hp|congruence]. }
  rewrite len_apply_writes, Hpre. repeat case_decide; try lia; done.
Qed.

Lemma last_byte_app ws ws' i :
  last_byte (ws ++ ws') i = match last_byte ws' i with Some b => Some b | None => last_byte ws i end.
Proof.
  induction ws as [|w ws IH]; simpl; [by destruct (last_byte ws' i)|].
  rewrite IH. by destruct (last_byte ws' i).
Qed.

Lemma end_of_app ws ws' : end_of (ws ++ ws') = N.max (end_of ws) (end_of ws').
Proof. induction ws as [|w ws IH]; simpl; [by rewrite N.max_0_l|]. rewrite IH. lia. Qed.

(** An interrupted run is a run of writes that the whole run covers. *)
Lemma torn_writes_pre ws n k c :
  exists pre, torn_writes ws n k c = apply_writes pre c
    /\ (forall i, is_Some (last_byte pre i) -> is_Some (last_byte ws i)) /\ end_of pre <= end_of ws.
Proof.
  unfold torn_writes. destruct (ws !! n) as [w|] eqn:Hn; [|by exists ws].
  exists (take n ws ++ [(w.1, take k w.2)]). split; [unfold apply_writes; by rewrite foldl_snoc|].
  pose proof (take_drop_middle ws n w Hn) as Hmid. clear Hn.
  generalize dependent (take n ws). generalize dependent (drop (S n) ws).
  intros post pre <-. split.
  - intros i. rewrite !last_byte_app. cbn [last_byte fst snd].
    intros Hi. destruct (last_byte post i); [by eexists|].
    destruct (decide (w.1 <= N.of_nat i)); [|done].
    destruct (take k w.2 !! (i - N.to_nat w.1)%nat) as [b|] eqn:Hb.
    + apply lookup_take_Some in Hb as [-> _]. by eexists.
    + destruct (w.2 !! (i - N.to_nat w.1)%nat); [by eexists|done].
  - rewrite !end_of_app. cbn [end_of fst snd].
    rewrite length_take. repeat case_decide; try lia.
    destruct w as [o v]; simpl in *. subst v. by rewrite take_nil in H.
Qed.

(** Running writes that end with [ws] after an interrupted run of [ws] gives
    what they give on the file before, byte for byte. *)
Lemma apply_writes_torn_suffix ws ws' n k c :
  apply_writes (ws' ++ ws) (torn_writes ws n k c) = apply_writes (ws' ++ ws) c.
Proof.
  destruct (torn_writes_pre ws n k c) as (pre & -> & Hcov & Hend). apply apply_writes_absorb.
  - intros i Hi. rewrite last_byte_app. destruct (Hcov i Hi) as [b ->]. by eexists.
  - rewrite end_of_app. lia.
Qed.

Lemma apply_writes_torn ws n k c :
  apply_writes ws (torn_writes ws n k c) = apply_writes ws c.
Proof. apply (apply_writes_torn_suffix ws []). Qed.

Lemma apply_writes_again ws c : apply_writes ws (apply_writes ws c) = apply_writes ws c.
Proof.
  assert (Hall : torn_writes ws (length ws) 0 c = apply_writes ws c) by (unfold torn_writes; by rewrite lookup_ge_None_2).
  pose proof (apply_writes_torn ws (length ws) 0 c) as Hw. by rewrite Hall in Hw.
Qed.

(** ** What the log asks for *)

(** The image of [r], if its transaction is committed in the log [rs]. *)
Definition committed_of (rs : list WalRecord) (r : WalRecord) : option (PageId * list byte) :=
  match kind r with
  | PageImage t id image => if bool_decide (is_committed rs t) then Some (id, image) else None
  | _ => None
  end.

(** The images of committed transactions, in log order. *)
Definition committed_images (rs : list WalRecord) : list (PageId * list byte) :=
  omap (committed_of rs) rs.

Definition image_write (i : PageId * list byte) : write := (i.1 * PAGE_SIZE, i.2).
Definition image_writes (rs : list WalRecord) : list write := image_write <$> committed_images rs.

(** The image is a valid page that says it is the page of its record. *)
Definition image_valid (i : PageId * list byte) : Prop :=
  valid_page i.1 (mkPage i.2) /\ addressable i.1.

(** The last image of page [id]. *)
Definition last_image (images : list (PageId * list byte)) (id : PageId) : option Page :=
  foldl (fun acc i => if decide (i.1 = id) then Some (mkPage i.2) else acc) None images.

(** The same images as records, the form in which redo walks over them. *)
Definition image_of (r : WalRecord) : option (PageId * list byte) :=
  match kind r with PageImage _ id image => Some (id, image) | _ => None end.

Lemma committed_of_eq rs r :
  committed_of rs r = if committed_image rs r then image_of r else None.
Proof. unfold committed_of, committed_image, image_of. by destruct (kind r). Qed.

Lemma committed_images_filter rs :
  omap image_of (filter (fun r => committed_image rs r = true) rs) = committed_images rs.
Proof.
  unfold committed_images.
  enough (Hg : forall l, omap image_of (filter (fun r => committed_image rs r = true) l)
                         = omap (committed_of rs) l) by apply Hg.
  induction l as [|r l IH]; [done|]. rewrite filter_cons. cbn [omap list_omap].
  rewrite committed_of_eq. destruct (committed_image rs r); simpl; [|exact IH].
  destruct (image_of r); [f_equal|]; exact IH.
Qed.

(** Every committed image comes from a record of the log. *)
Lemma committed_images_sized rs :
  Forall (fun r => kind_ok (kind r)) rs -> Forall (fun i => len i.2 = PAGE_SIZE) (committed_images rs).
Proof.
  intros H. apply Forall_forall. intros [id image] Hi.
  apply list_elem_of_omap in Hi as (r & Hr & Hm). rewrite Forall_forall in H. specialize (H r Hr).
  unfold committed_of in Hm. destruct (kind r); try done. case_bool_decide; [|done].
  injection Hm as -> ->. apply H.
Qed.

(** ** Decoded records are well formed *)

Lemma decode_record_kind_ok bs r : decode_record bs = Ok r -> kind_ok (kind r).
Proof.
  unfold decode_record, read_u16, read_u32, read_u64. case_test; [done|].
  unfold WAL_HEADER_SIZE in *. rewrite !read_uint_ok by (done || (etrans; [|exact Hb]; done)).
  pose proof (uint_at_bound 8 bs WOFF_TX_ID ltac:(etrans; [|exact Hb]; done)) as Ht.
  pose proof (uint_at_bound 8 bs WOFF_PAGE_ID ltac:(etrans; [|exact Hb]; done)) as Hp.
  change (256 ^ 8) with 18446744073709551616 in Ht, Hp.
  rewrite slice_checked_ok by lia. cbn [bind_outcome]. intros H. steps_in H. cbn [kind].
  clear - Ht Hp Hm0. revert Hm0. unfold decode_kind, require_empty_payload, kind_ok, U64_MAX.
  repeat (case_test; cbn [bind_outcome]); intros [= <-]; split_and?; (done || lia).
Qed.

Lemma parse_loop_kinds fuel : forall c offset records rs,
  offset <= len c -> len c <= U64_MAX ->
  parse_loop fuel c offset records = Ok rs ->
  Forall (fun r => kind_ok (kind r)) records ->
  Forall (fun r => kind_ok (kind r)) rs /\ (length rs <= length records + fuel)%nat.
Proof.
  induction fuel as [|fuel IH]; intros c offset records rs Ho Hl; simpl; case_test; try done;
    try (intros [= <-]; split; [done|lia]).
  pose proof (parse_record_at_total c offset Ho Hl) as Ht.
  destruct (parse_record_at c offset) as [[record offset']|e|] eqn:Hr; [|done|done].
  cbn [bind_outcome]. destruct Ht as [_ Ht]. intros Hp Hall.
  rewrite parse_record_at_eq in Hr by done. cbn zeta in Hr. steps_in Hr.
  apply decode_record_kind_ok in Hm.
  apply IH in Hp as [Hk Hn]; [|lia|done|by apply Forall_app_2; [|constructor]].
  rewrite length_app in Hn. simpl in Hn. split; [done|lia].
Qed.

Lemma parse_wal_kinds c rs :
  len c <= U64_MAX -> parse_wal c = Ok rs ->
  Forall (fun r => kind_ok (kind r)) rs /\ len rs <= len c.
Proof.
  intros Hl Hp. apply parse_loop_kinds in Hp as [Hk Hn]; [|lia|done|done].
  split; [done|]. simpl in Hn. lia.
Qed.

(** ** Redo into the page file *)

Section Redo.
Context {F : Type} `{VfsLaws F}.

Lemma redo_image_spec r id image (s : PageFileRedo F) res s' :
  image_of r = Some (id, image) -> len image = PAGE_SIZE -> redone s < USIZE_MAX ->
  redo_image r s = (res, s') ->
  res <> Panic /\ (healthy (page_file s) -> healthy (page_file s'))
  /\ (exists k, contents (page_file s')
                = apply_write (contents (page_file s)) (id * PAGE_SIZE, take k image))
  /\ (res = Ok tt ->
        contents (page_file s') = apply_write (contents (page_file s)) (id * PAGE_SIZE, image)
        /\ valid_page id (mkPage image) /\ redone s' = redone s + 1)
  /\ (healthy (page_file s) -> image_valid (id, image) -> res = Ok tt).
Proof.
  unfold image_of, redo_image. destruct (kind r) as [|t id' image'| | |]; try done.
  intros [= -> ->] Hlen Hn.
  assert (Hnone : contents (page_file s) = apply_write (contents (page_file s)) (id * PAGE_SIZE, take 0 image))
    by done.
  unfold bind_st, lift, throw. cbn [redo_page_image page_file_redo].
  destruct (from_bytes image) as [p|e|] eqn:Hf; [| |by apply from_bytes_no_panic in Hf].
  2: { intros [= <- <-]. split_and!; try done; [by exists 0%nat|].
       intros _ [(_ & Hv & _) _]. unfold from_bytes in Hf. cbn [fst snd] in Hv. by rewrite Hv in Hf. }
  pose proof Hf as Hf'. apply from_bytes_Ok in Hf' as [-> Hv].
  destruct (header (mkPage image)) as [h|e|] eqn:Hh; [| |by apply header_no_panic in Hh].
  2: { intros [= <- <-]. split_and!; try done; [by exists 0%nat|].
       intros _ [(_ & _ & h & Hh2 & _) _]. cbn [fst snd] in Hh2. congruence. }
  case_test.
  { intros [= <- <-]. split_and!; try done; [by exists 0%nat|].
    intros _ [(_ & _ & h2 & Hh2 & Hid) _]. cbn [fst snd] in *. congruence. }
  unfold bind_st, lift, on_page_file, on_redone, zoom.
  destruct (write_page_at id (mkPage image) (page_file s)) as [o f'] eqn:Hw.
  apply write_page_at_spec in Hw as (Hp & Hhf & Hok & Hpre & Hall); [|done].
  destruct o as [[]|e|]; [| |done].
  - unfold count_image. cbn [redone page_file].
    rewrite checked_add_ok by (unfold USIZE_MAX in *; lia).
    intros [= <- <-]. cbn [redone page_file]. destruct (Hok eq_refl) as [Hvp Hc].
    split_and!; done.
  - intros [= <- <-]. cbn [page_file]. split_and!; try done.
    intros Hs [Hvp Ha]. by specialize (Hall Hs Ha Hvp).
Qed.

Lemma redo_images_spec rs : forall (s : PageFileRedo F) res s',
  Forall (fun r => is_Some (image_of r)) rs ->
  Forall (fun i => len i.2 = PAGE_SIZE) (omap image_of rs) ->
  redone s + len rs <= USIZE_MAX ->
  for_each redo_image rs s = (res, s') ->
  res <> Panic /\ (healthy (page_file s) -> healthy (page_file s'))
  /\ (exists n k, contents (page_file s')
        = torn_writes (image_write <$> omap image_of rs) n k (contents (page_file s)))
  /\ (res = Ok tt ->
        contents (page_file s')
        = apply_writes (image_write <$> omap image_of rs) (contents (page_file s))
        /\ Forall (fun i => valid_page i.1 (mkPage i.2)) (omap image_of rs)
        /\ redone s' = redone s + len rs)
  /\ (healthy (page_file s) -> Forall image_valid (omap image_of rs) -> res = Ok tt).
Proof.
  induction rs as [|r rs IH]; intros s res s' Him Hlen Hn; cbn [for_each].
  { intros [= <- <-]. split_and!; try done; [by exists 0%nat, 0%nat|].
    intros _. split_and!; [done|constructor|]. simpl. lia. }
  apply Forall_cons in Him as [[[id image] Hr] Him]. cbn [length] in Hn.
  assert (Homap : omap image_of (r :: rs) = (id, image) :: omap image_of rs)
    by (cbn [omap list_omap]; by rewrite Hr).
  rewrite Homap in *. apply Forall_cons in Hlen as [Hl Hlen]. rewrite fmap_cons.
  unfold bind_st. destruct (redo_image r s) as [o s1] eqn:E.
  assert (Hlt : redone s < USIZE_MAX) by lia.
  destruct (redo_image_spec _ _ _ _ _ _ Hr Hl Hlt E) as (Hp & Hhf & (k & Hpre) & Hok & Hall).
  destruct o as [[]|e|]; [| |done].
  - destruct (Hok eq_refl) as (Hc & Hv & Hr1). intros Hrest.
    apply IH in Hrest as (Hp2 & Hhf2 & (n & k2 & Hpre2) & Hok2 & Hall2); [|done|done|lia].
    rewrite Hc in *. split_and!; [done|auto| | |].
    + exists (S n), k2. rewrite Hpre2. unfold torn_writes. cbn [lookup list_lookup].
      destruct ((image_write <$> omap image_of rs) !! n); done.
    + intros Hres. destruct (Hok2 Hres) as (Hc2 & Hv2 & Hr2). split_and!; [done|by constructor|].
      cbn [length]. lia.
    + intros Hs Hiv. apply Forall_cons in Hiv as [_ Hiv]. auto.
  - intros [= <- <-]. split_and!; try done.
    + exists 0%nat, k. rewrite Hpre. done.
    + intros Hs Hiv. apply Forall_cons in Hiv as [Hiv _]. by specialize (Hall Hs Hiv).
Qed.
End Redo.

(** ** The recovery pass *)

Section Pass.
Context {F : Type} `{VfsLaws F}.

Definition files_healthy (d : DbFiles F) : Prop := healthy (data_file d) /\ healthy (log_file d).

Lemma recover_spec d r d' :
  len (contents (log_file d)) <= U64_MAX ->
  recover_page_file d = (r, d') ->
  r <> Panic /\ contents (log_file d') = contents (log_file d)
  /\ (files_healthy d -> files_healthy d')
  /\ (contents (data_file d') = contents (data_file d)
      \/ exists rs n k, parse_wal (contents (log_file d)) = Ok rs
         /\ contents (data_file d') = torn_writes (image_writes rs) n k (contents (data_file d)))
  /\ (forall report, r = Ok report -> exists rs, parse_wal (contents (log_file d)) = Ok rs
        /\ contents (data_file d') = apply_writes (image_writes rs) (contents (data_file d))
        /\ Forall (fun i => valid_page i.1 (mkPage i.2)) (committed_images rs)
        /\ report = mkReport (len rs) (len (committed_images rs)))
  /\ (files_healthy d -> forall rs, parse_wal (contents (log_file d)) = Ok rs ->
        Forall image_valid (committed_images rs) -> exists report, r = Ok report)
  /\ (files_healthy d -> forall e, parse_wal (contents (log_file d)) = Err e -> r = Err e).
Proof.
  intros Hl. unfold recover_page_file, on_log, with_redo, bind_st at 1, zoom at 1.
  destruct (read_all (log_file d)) as [o f] eqn:Hr.
  apply read_all_reads in Hr as (Hc & Hh & Hok & Hpanic & Hall).
  destruct o as [rs|e|].
  2: { intros [= <- <-]. unfold files_healthy. cbn [data_file log_file].
       split_and!; try tauto; try done.
       - intros [_ Hhl] rs Hp. specialize (Hall Hhl Hl). congruence.
       - intros [_ Hhl] e' He'. specialize (Hall Hhl Hl). congruence. }
  2: { specialize (Hpanic eq_refl).
       pose proof (parse_loop_total (length (contents (log_file d))) (contents (log_file d)) 0 []
                     ltac:(lia) Hl ltac:(lia)) as Ht.
       unfold parse_wal in Hpanic. by rewrite Hpanic in Ht. }
  specialize (Hok rs eq_refl). destruct (parse_wal_kinds _ _ Hl Hok) as [Hk Hn].
  assert (Hparse : forall e, parse_wal (contents (log_file d)) <> Err e) by congruence.
  unfold bind_st, zoom. cbn [data_file log_file]. rewrite redo_filter.
  set (crs := filter (fun r => committed_image rs r = true) rs).
  destruct (for_each redo_image crs (mkPageFileRedo (data_file d) 0)) as [o s1] eqn:Hre.
  assert (Hsome : Forall (fun r => is_Some (image_of r)) crs).
  { apply Forall_forall. intros x [Hx _]%list_elem_of_filter. revert Hx.
    unfold committed_image, image_of. destruct (kind x); try done; by eexists. }
  assert (Hlen : (length crs <= length rs)%nat) by apply length_filter.
  pose proof (committed_images_filter rs) as Hcf. fold crs in Hcf.
  assert (Hcount : len crs = len (committed_images rs)).
  { rewrite <- Hcf. clear - Hsome. induction Hsome as [|x l [i Hi] _ IH]; [done|].
    cbn [omap list_omap]. rewrite Hi. cbn [length]. lia. }
  apply redo_images_spec in Hre as (Hp & Hhf & (n & k & Hpre) & Hok2 & Hall2);
    [|done|rewrite Hcf; by apply committed_images_sized
     |cbn [redone]; unfold USIZE_MAX in *; lia].
  rewrite Hcf in *. cbn [page_file redone] in *. fold (image_writes rs) in *.
  unfold on_page_file, zoom, files_healthy. destruct o as [[]|e|]; [| |done].
  2: { intros [= <- <-]. cbn [data_file log_file]. split_and!; try tauto; try done.
       - right. eauto 10.
       - intros [Hd _] rs' Hp' Hiv. assert (rs' = rs) as -> by congruence.
         by specialize (Hall2 Hd Hiv).
       - intros _ e' He'. by apply Hparse in He'. }
  destruct (Hok2 eq_refl) as (Hc2 & Hv & Hred).
  destruct (file_sync_data (page_file s1)) as [o f1] eqn:Hs.
  apply sync_law in Hs as (Hcs & Hps & Hhs & Hos). destruct o as [[]|e|]; [| |done].
  - unfold gets, ret. intros [= <- <-]. cbn [data_file log_file redone page_file].
    split_and!; try tauto; try done.
    + right. exists rs, n, k. split; [done|congruence].
    + intros report [= <-]. exists rs. split_and!; [done|congruence|done|].
      rewrite Hred. f_equal. lia.
    + intros _ rs' _ _. by eexists.
    + intros _ e' He'. by apply Hparse in He'.
  - intros [= <- <-]. cbn [data_file log_file page_file]. split_and!; try tauto; try done.
    + right. exists rs, n, k. split; [done|congruence].
    + intros [Hd _] rs' Hp' Hiv. by specialize (Hos (Hhf Hd)).
    + intros _ e' He'. by apply Hparse in He'.
Qed.
End Pass.

(** ** Images as a page store *)

(** Applying valid images page by page updates the store to the last image of
    each page. *)
Lemma page_store_images images c :
  aligned c -> Forall (fun i => valid_page i.1 (mkPage i.2)) images ->
  aligned (apply_writes (image_write <$> images) c)
  /\ forall id, page_store (apply_writes (image_write <$> images) c) id
       = match last_image images id with Some p => Some p | None => page_store c id end.
Proof.
  intros Ha Hv. induction images as [|[i image] images IH] using rev_ind; [done|].
  apply Forall_app in Hv as [Hv [Hi _]%Forall_cons]. cbn [fst snd] in Hi.
  destruct (IH Hv) as [IHa IHs]. rewrite fmap_app. unfold apply_writes.
  rewrite foldl_app. fold (apply_writes (image_write <$> images) c).
  cbn [fmap list_fmap foldl]. unfold apply_write, image_write. cbn [fst snd].
  change image with (bytes (mkPage image)). split.
  - apply aligned_write; [done|apply Hi].
  - intros id. rewrite page_store_write by done. unfold store_set, last_image.
    rewrite foldl_snoc. cbn [fst snd]. fold (last_image images id).
    destruct (decide (id = i)) as [->|Hne]; [by rewrite decide_True|].
    by rewrite decide_False.
Qed.

Lemma last_image_app l l' id :
  last_image (l ++ l') id = match last_image l' id with Some p => Some p | None => last_image l id end.
Proof.
  induction l' as [|i l' IH] using rev_ind; [by rewrite app_nil_r|].
  rewrite app_assoc. unfold last_image in *. rewrite !foldl_snoc. by case_decide.
Qed.

(** ** Recovery until it ends

    The process may end, or a file fail, while recovery runs; it then runs again,
    on what the files hold. *)

Section Until.
Context {F : Type} `{VfsLaws F}.

(** Passes over a data file that holds [c] next to a log that holds [l], whatever
    became of each of them, and what they left of the data file. *)
Inductive passes (c l : list byte) : list byte -> Prop :=
| no_pass : passes c l c
| one_more_pass (d : DbFiles F) r d' :
    passes c l (contents (data_file d)) -> contents (log_file d) = l -> recover_page_file d = (r, d') ->
    passes c l (contents (data_file d')).

(** The last pass succeeds, or ends with an error although the files work: the log
    does not scan. *)
Definition recovered (c l : list byte) (d' : DbFiles F) : Prop :=
  exists d r, passes c l (contents (data_file d)) /\ contents (log_file d) = l /\ recover_page_file d = (r, d')
    /\ ((exists report, r = Ok report) \/ files_healthy d).

Lemma passes_contents c l c' :
  len l <= U64_MAX -> passes c l c' ->
  match parse_wal l with Ok rs => apply_writes (image_writes rs) c' = apply_writes (image_writes rs) c | _ => c' = c end.
Proof.
  intros Hl. induction 1 as [|d r d' _ IH Hlog Hrun]; [by destruct (parse_wal l)|].
  apply recover_spec in Hrun as (_ & _ & _ & Hc & _); rewrite Hlog in *; [|done].
  destruct Hc as [-> |(rs & n & k & Hrs & ->)]; [done|]. rewrite Hrs in *. by rewrite apply_writes_torn.
Qed.

Lemma recovered_contents c l d' :
  len l <= U64_MAX -> (forall rs, parse_wal l = Ok rs -> Forall image_valid (committed_images rs)) -> recovered c l d' ->
  contents (log_file d') = l
  /\ match parse_wal l with Ok rs => contents (data_file d') = apply_writes (image_writes rs) c | _ => contents (data_file d') = c end.
Proof.
  intros Hl Hval (d & r & Hp%passes_contents & Hlog & Hrun & Hend); [|done].
  apply recover_spec in Hrun as (_ & Hlog' & _ & Hc & Hok & Hsucc & _); rewrite Hlog in *; [|done]. split; [done|].
  destruct (parse_wal l) as [rs|e|] eqn:Hrs.
  - assert (exists report, r = Ok report) as [report Hr] by (destruct Hend as [?|Hh]; [done|by apply (Hsucc Hh rs), Hval]).
    destruct (Hok report Hr) as (rs' & [= <-] & -> & _). done.
  - destruct Hc as [-> |(rs & n & k & Hrs' & _)]; [done|congruence].
  - destruct Hc as [-> |(rs & n & k & Hrs' & _)]; [done|congruence].
Qed.

(** On files that work, one pass is enough. *)
Lemma recovered_healthy (d : DbFiles F) :
  files_healthy d -> recovered (contents (data_file d)) (contents (log_file d)) (recover_page_file d).2.
Proof.
  intros Hh. destruct (recover_page_file d) as [r d'] eqn:Hrun. exists d, r. split; [constructor|]. by auto.
Qed.
End Until.
