(* ===== verification/RecoveryTheorems.v ===== *)
(** * RecoveryTheorems: what opening a database guarantees *)

From S2P Require Import Prelude Core Bytes Page PageFacts PageOps Vfs VfsFacts PageStore Wal WalFacts WalStream WalTheorems Recovery RecoveryFacts.

(** ** A crashed database for the witnesses

    Transaction 1 logged an image of page 1 and committed, transaction 2 logged
    an image of page 2 and did not; the data file is still empty. *)
Definition page_two : Page := snd (insert_record [x74; x77; x6f] (page_new 2 Heap)).

Definition crash_log : list WalRecordKind :=
  [BeginTx 1; PageImage 1 1 (bytes page_one); CommitTx 1; BeginTx 2;
   PageImage 2 2 (bytes page_two)].

Definition crashed : DbFiles SimFile :=
  mkDbFiles (mkSimFile [] []) (mkSimFile (stream 0 crash_log) []).

Lemma crash_log_ok : Forall kind_ok crash_log.
Proof.
  assert (H1 : kind_ok (PageImage 1 1 (bytes page_one))) by (split_and!; vm_compute; congruence).
  assert (H2 : kind_ok (PageImage 2 2 (bytes page_two))) by (split_and!; vm_compute; congruence).
  assert (H0 : 1 <= U64_MAX) by done. assert (H3 : 2 <= U64_MAX) by done.
  apply Forall_cons_2; [exact H0|]. apply Forall_cons_2; [exact H1|].
  apply Forall_cons_2; [exact H0|]. apply Forall_cons_2; [exact H3|].
  apply Forall_cons_2; [exact H2|]. apply Forall_nil_2.
Qed.

Lemma crash_log_parsed : parse_wal (contents (log_file crashed)) = Ok (records_of 0 crash_log).
Proof. apply parse_wal_stream; [apply crash_log_ok|vm_compute; congruence]. Qed.

Lemma crash_log_images :
  committed_images (records_of 0 crash_log) = [(1, bytes page_one)].
Proof. vm_compute. reflexivity. Qed.

Lemma page_one_valid : image_valid (1, bytes page_one).
Proof.
  split; [|by vm_compute]. split; [vm_compute; reflexivity|].
  split; [vm_compute; reflexivity|]. eexists. split; vm_compute; reflexivity.
Qed.

Lemma crashed_healthy : files_healthy crashed.
Proof. split; apply healthy_script. Qed.

Lemma crash_log_size : len (contents (log_file crashed)) <= U64_MAX.
Proof.
  change (len (stream 0 crash_log) <= U64_MAX). rewrite len_stream. vm_compute. discriminate.
Qed.

(** ** Claims *)

(** C9. Recovery of an intact log succeeds.  Afterwards each page of the data
    file is the last image a committed transaction logged for it, and pages
    without one are as before; in particular nothing an uncommitted or aborted
    transaction logged shows.  The log is not changed and the report counts the
    records and the applied images. *)
Theorem recovery_applies_committed_images {F : Type} `{VfsLaws F} d rs :
  files_healthy d -> aligned (contents (data_file d)) ->
  len (contents (log_file d)) <= U64_MAX ->
  parse_wal (contents (log_file d)) = Ok rs -> Forall image_valid (committed_images rs) ->
  exists d', recover_page_file d = (Ok (mkReport (len rs) (len (committed_images rs))), d')
    /\ contents (log_file d') = contents (log_file d)
    /\ aligned (contents (data_file d'))
    /\ forall id, page_store (contents (data_file d')) id
         = match last_image (committed_images rs) id with
           | Some p => Some p
           | None => page_store (contents (data_file d)) id
           end.
Proof.
  intros Hd Ha Hl Hrs Hiv. destruct (recover_page_file d) as [r d'] eqn:Hr.
  apply recover_spec in Hr as (_ & Hlog & _ & _ & Hok & Hall & _); [|done].
  destruct (Hall Hd rs Hrs Hiv) as [report ->].
  destruct (Hok report eq_refl) as (rs' & Hrs' & Hc & Hv & ->).
  assert (rs' = rs) as -> by congruence. exists d'. split; [done|]. split; [done|].
  rewrite Hc. by apply page_store_images.
Qed.

Lemma recovery_applies_committed_images_witness :
  exists d', recover_page_file crashed = (Ok (mkReport 5 1), d')
    /\ page_store (contents (data_file d')) 1 = Some page_one
    /\ page_store (contents (data_file d')) 2 = None.
Proof.
  destruct (recovery_applies_committed_images crashed (records_of 0 crash_log))
    as (d' & Hr & _ & _ & Hs).
  - apply crashed_healthy.
  - reflexivity.
  - apply crash_log_size.
  - apply crash_log_parsed.
  - rewrite crash_log_images. constructor; [apply page_one_valid|constructor].
  - rewrite crash_log_images in Hr, Hs. exists d'.
    split; [exact Hr|]. split; [exact (Hs 1)|exact (Hs 2)].
Defined.

(** C13. Recovery can be interrupted and restarted.  Take any outcome of a
    recovery pass, on files that may fail at any operation and tear the page
    being written; once the files work again, a second pass leaves the data
    file exactly, byte for byte, as an uninterrupted pass would have. *)
Theorem recovery_restartable {F : Type} `{VfsLaws F} d r d' g rs :
  len (contents (log_file d)) <= U64_MAX ->
  recover_page_file d = (r, d') ->
  files_healthy g -> contents (data_file g) = contents (data_file d') ->
  contents (log_file g) = contents (log_file d') ->
  parse_wal (contents (log_file d)) = Ok rs -> Forall image_valid (committed_images rs) ->
  exists report g', recover_page_file g = (Ok report, g')
    /\ contents (data_file g') = apply_writes (image_writes rs) (contents (data_file d)).
Proof.
  intros Hl Hr Hg Hgd Hgl Hrs Hiv.
  apply recover_spec in Hr as (_ & Hlog & _ & Htorn & _); [|done].
  destruct (recover_page_file g) as [r2 g'] eqn:Hr2.
  apply recover_spec in Hr2 as (_ & _ & _ & _ & Hok & Hall & _); [|by rewrite Hgl, Hlog].
  rewrite Hgl, Hlog in *. destruct (Hall Hg rs Hrs Hiv) as [report ->].
  destruct (Hok report eq_refl) as (rs2 & Hrs2 & Hc & _).
  assert (rs2 = rs) as -> by congruence. exists report, g'. split; [done|].
  rewrite Hc, Hgd. destruct Htorn as [->|(rs3 & n & k & Hrs3 & ->)]; [done|].
  assert (rs3 = rs) as -> by congruence. apply apply_writes_torn.
Qed.

(** The data file takes 100 bytes of the page and then fails. *)
Definition crashed_failing : DbFiles SimFile :=
  mkDbFiles (mkSimFile [] [Transfer 100; Failure]) (mkSimFile (stream 0 crash_log) []).

(** The same contents on files that work. *)
Definition reboot (d : DbFiles SimFile) : DbFiles SimFile :=
  mkDbFiles (mkSimFile (contents (data_file d)) []) (mkSimFile (contents (log_file d)) []).

Lemma recovery_restartable_witness :
  fst (recover_page_file crashed_failing) = Err (Io OtherIo)
  /\ exists report g', recover_page_file (reboot (snd (recover_page_file crashed_failing)))
                        = (Ok report, g')
       /\ contents (data_file g') = apply_writes (image_writes (records_of 0 crash_log))
                                      (contents (data_file crashed_failing)).
Proof.
  split; [vm_compute; reflexivity|].
  destruct (recover_page_file crashed_failing) as [r d'] eqn:Hr. cbn [snd].
  apply (recovery_restartable crashed_failing r d' (reboot d') (records_of 0 crash_log)).
  - apply crash_log_size.
  - exact Hr.
  - split; apply healthy_script.
  - reflexivity.
  - reflexivity.
  - apply crash_log_parsed.
  - rewrite crash_log_images. constructor; [apply page_one_valid|constructor].
Defined.

(** A log that does not scan (torn, corrupt or unreadable) stops recovery
    with the scan's error before anything is written to the data file. *)
Theorem recovery_stops_on_corrupt_log {F : Type} `{VfsLaws F} d e :
  len (contents (log_file d)) <= U64_MAX -> parse_wal (contents (log_file d)) = Err e ->
  contents (data_file (snd (recover_page_file d))) = contents (data_file d)
  /\ (exists e', fst (recover_page_file d) = Err e')
  /\ (files_healthy d -> fst (recover_page_file d) = Err e).
Proof.
  intros Hl He. destruct (recover_page_file d) as [r d'] eqn:Hr.
  apply recover_spec in Hr as (Hp & _ & _ & Hc & Hok & _ & Herr); [|done]. cbn [fst snd].
  split_and!.
  - destruct Hc as [Hc|(rs & n & k & Hrs & _)]; [done|congruence].
  - destruct r as [report|e'|]; [|by eexists|done].
    destruct (Hok report eq_refl) as (rs & Hrs & _). congruence.
  - auto.
Qed.

(** The last byte of the log is missing. *)
Definition torn_database : DbFiles SimFile :=
  mkDbFiles (mkSimFile [] []) (mkSimFile (stream 0 [BeginTx 1] ++ take 39 (encoded 40 (CommitTx 1))) []).

Lemma recovery_stops_on_corrupt_log_witness :
  exists m, fst (recover_page_file torn_database) = Err (Corruption m)
            /\ contents (data_file (snd (recover_page_file torn_database))) = [].
Proof.
  assert (He : exists m, parse_wal (contents (log_file torn_database)) = Err (Corruption m))
    by (eexists; vm_compute; reflexivity).
  destruct He as [m He]. exists m.
  destruct (recovery_stops_on_corrupt_log torn_database (Corruption m)) as (Hc & _ & Herr).
  - vm_compute. discriminate.
  - exact He.
  - split; [|exact Hc]. apply Herr. split; apply healthy_script.
Defined.
