(* ===== verification/Catalog.v ===== *)
(** * Catalog: relation metadata and the catalog page of crate [rdbms_catalog]

    The catalog is kept in memory as a list of relations and extensions and
    persisted as one record of page 0.  The names [Catalog], [Index] and [Heap]
    are those of this crate; the page kinds are [Page.Catalog] and so on. *)

From S2P Require Import Prelude Core Bytes Page Vfs.

Definition CATALOG_PAGE_ID : PageId := 0.

(** ** Data *)

Inductive RelationKind : Type := Table | Index | System.

Record ColumnDef : Type := mkColumnDef { col_name : string; type_name : string }.

Record ExtensionInfo : Type := mkExtensionInfo {
  ext_name : string;
  abi_version : N;
  ext_kind : string
}.

Record IndexStorage : Type := mkIndexStorage {
  table_id : RelationId;
  column_name : string;
  root_page_id : PageId
}.

(** [HeapStorage] is its list of pages. *)
Inductive StorageObject : Type :=
| Heap (pages : list PageId)
| BPlusTree (storage : IndexStorage).

Record RelationInfo : Type := mkRelationInfo {
  rel_id : RelationId;
  rel_name : string;
  rel_kind : RelationKind;
  storage : StorageObject;
  columns : list ColumnDef
}.

Record Catalog : Type := mkCatalog {
  next_relation_id : N;
  next_page_id : N;
  relations : list RelationInfo;
  extensions : list ExtensionInfo
}.

#[export] Instance RelationKind_eq_dec : EqDecision RelationKind.
Proof. solve_decision. Defined.
#[export] Instance ColumnDef_eq_dec : EqDecision ColumnDef.
Proof. solve_decision. Defined.
#[export] Instance IndexStorage_eq_dec : EqDecision IndexStorage.
Proof. solve_decision. Defined.
#[export] Instance StorageObject_eq_dec : EqDecision StorageObject.
Proof. solve_decision. Defined.

Definition with_storage (s : StorageObject) (r : RelationInfo) : RelationInfo :=
  mkRelationInfo (rel_id r) (rel_name r) (rel_kind r) s (columns r).
Definition with_relations (rs : list RelationInfo) (c : Catalog) : Catalog :=
  mkCatalog (next_relation_id c) (next_page_id c) rs (extensions c).
Definition with_next_relation (n : N) (c : Catalog) : Catalog :=
  mkCatalog n (next_page_id c) (relations c) (extensions c).
Definition with_next_page (n : N) (c : Catalog) : Catalog :=
  mkCatalog (next_relation_id c) n (relations c) (extensions c).
Definition with_extensions (es : list ExtensionInfo) (c : Catalog) : Catalog :=
  mkCatalog (next_relation_id c) (next_page_id c) (relations c) es.

(** ** Accessors *)

Definition storage_heap_pages (s : StorageObject) : list PageId :=
  match s with Heap pages => pages | BPlusTree _ => [] end.
Definition storage_index (s : StorageObject) : option IndexStorage :=
  match s with Heap _ => None | BPlusTree i => Some i end.

Definition rel_heap_pages (r : RelationInfo) : list PageId := storage_heap_pages (storage r).
Definition is_heap_table (r : RelationInfo) : bool := bool_decide (rel_kind r = Table).
Definition index_storage (r : RelationInfo) : option IndexStorage := storage_index (storage r).

(** [iter().find(p)] and [iter_mut().find(p)]: the first match, with its index. *)
Fixpoint find_first {A : Type} (p : A -> bool) (l : list A) : option (nat * A) :=
  match l with
  | [] => None
  | x :: rest =>
      if p x then Some (0%nat, x)
      else match find_first p rest with
           | Some (i, y) => Some (S i, y)
           | None => None
           end
  end.

Definition find_relation (relation_id : RelationId) (c : Catalog) : option (nat * RelationInfo) :=
  find_first (fun r => rel_id r =? relation_id) (relations c).
Definition relation_by_id (relation_id : RelationId) (c : Catalog) : option RelationInfo :=
  snd <$> find_relation relation_id c.
Definition relation_by_name (name : string) (c : Catalog) : option RelationInfo :=
  snd <$> find_first (fun r => bool_decide (rel_name r = name)) (relations c).
Definition extension_by_name (name : string) (c : Catalog) : option ExtensionInfo :=
  snd <$> find_first (fun e => bool_decide (ext_name e = name)) (extensions c).

Definition indexes_on_table (table : RelationId) (c : Catalog) : list RelationInfo :=
  filter (fun r => bool_decide (rel_kind r = Index)
                   && match index_storage r with
                      | Some s => table_id s =? table
                      | None => false
                      end = true) (relations c).

(** ** Validation *)

Definition validate_name (kind name : string) : DbResult unit :=
  if string_len name =? 0 then Err (User (kind +:+ " name must not be empty")) else
  if U16_MAX <? string_len name then Err (User (kind +:+ " name is too long")) else
  Ok tt.

(** The loop of [validate_columns]; [previous] is [columns[..index]]. *)
Fixpoint validate_columns_from (previous cols : list ColumnDef) : DbResult unit :=
  match cols with
  | [] => Ok tt
  | column :: rest =>
      let? _ := validate_name "column" (col_name column) in
      let? _ := validate_name "type" (type_name column) in
      if existsb (fun p => bool_decide (col_name p = col_name column)) previous
      then Err (User ("duplicate column name: " +:+ col_name column))
      else validate_columns_from (previous ++ [column]) rest
  end.

Definition validate_columns (cols : list ColumnDef) : DbResult unit :=
  if U16_MAX <? len cols then Err (User "too many columns")
  else validate_columns_from [] cols.

(** ** Metadata operations *)

Definition empty : Catalog := mkCatalog 1 1 [] [].

Definition register_extension_metadata (name : string) (abi : N) (kind : string)
  : db Catalog bool :=
  let! _ := lift (validate_name "extension" name) in
  let! _ := lift (validate_name "extension kind" kind) in
  let! existing := gets (extension_by_name name) in
  match existing with
  | Some e =>
      if (abi_version e =? abi) && bool_decide (ext_kind e = kind) then ret false
      else throw (User ("extension already registered with different metadata: " +:+ name))
  | None =>
      let! _ := modify (fun c => with_extensions (extensions c ++ [mkExtensionInfo name abi kind]) c) in
      ret true
  end.

Definition allocate_relation_id : db Catalog RelationId := fun c =>
  match checked_add U64_MAX (next_relation_id c) 1 with
  | Some n => (Ok (next_relation_id c), with_next_relation n c)
  | None => (Err (User "relation id overflow"), c)
  end.

Definition allocate_page_id : db Catalog PageId := fun c =>
  match checked_add U64_MAX (next_page_id c) 1 with
  | Some n => (Ok (next_page_id c), with_next_page n c)
  | None => (Err (User "page id overflow"), c)
  end.

Definition push_relation (r : RelationInfo) : db Catalog unit :=
  modify (fun c => with_relations (relations c ++ [r]) c).

Definition create_table_metadata (name : string) (cols : list ColumnDef)
  : db Catalog (RelationId * PageId) :=
  let! _ := lift (validate_name "relation" name) in
  let! _ := lift (validate_columns cols) in
  let! existing := gets (relation_by_name name) in
  match existing with
  | Some _ => throw (User ("relation already exists: " +:+ name))
  | None =>
      let! relation_id := allocate_relation_id in
      let! page_id := allocate_page_id in
      let! _ := push_relation (mkRelationInfo relation_id name Table (Heap [page_id]) cols) in
      ret (relation_id, page_id)
  end.

Definition unknown_relation (relation_id : RelationId) : DbError :=
  User ("unknown relation id: " +:+ pretty relation_id).
Definition not_a_heap_table (relation_id : RelationId) : DbError :=
  User ("relation is not a heap table: " +:+ pretty relation_id).

(** Write back the relation found at position [i]. *)
Definition replace_relation (i : nat) (r : RelationInfo) : db Catalog unit :=
  modify (fun c => with_relations (<[i := r]> (relations c)) c).

Definition append_heap_page (relation_id : RelationId) (page_id : PageId) : db Catalog unit :=
  let! found := gets (find_relation relation_id) in
  match found with
  | None => throw (unknown_relation relation_id)
  | Some (i, r) =>
      if negb (bool_decide (rel_kind r = Table)) then throw (not_a_heap_table relation_id) else
      match storage r with
      | Heap pages => replace_relation i (with_storage (Heap (pages ++ [page_id])) r)
      | BPlusTree _ => throw (InternalInvariant "table relation without heap storage")
      end
  end.

Definition create_index_metadata (name : string) (table : RelationId) (column : string)
  : db Catalog (RelationId * PageId) :=
  let! _ := lift (validate_name "index" name) in
  let! _ := lift (validate_name "column" column) in
  let! existing := gets (relation_by_name name) in
  if existing is Some _ then throw (User ("relation already exists: " +:+ name)) else
  let! found := gets (relation_by_id table) in
  let! t := lift (ok_or found (User ("unknown table relation id: " +:+ pretty table))) in
  if negb (is_heap_table t)
  then throw (User ("indexed relation is not a heap table: " +:+ pretty table)) else
  if forallb (fun c => negb (bool_decide (col_name c = column))) (columns t)
  then throw (User ("unknown indexed column '" +:+ column +:+ "' on relation '"
                    +:+ rel_name t +:+ "'")) else
  let! indexes := gets (indexes_on_table table) in
  if existsb (fun r => match index_storage r with
                       | Some s => bool_decide (column_name s = column)
                       | None => false
                       end) indexes
  then throw (User ("index already exists on relation " +:+ pretty table +:+ " column " +:+ column))
  else
  let! relation_id := allocate_relation_id in
  let! root := allocate_page_id in
  let! _ := push_relation (mkRelationInfo relation_id name Index
                             (BPlusTree (mkIndexStorage table column root))
                             [mkColumnDef column "INDEX_KEY"]) in
  ret (relation_id, root).

Definition set_index_root_page (index_relation_id : RelationId) (root : PageId) : db Catalog unit :=
  let! found := gets (find_relation index_relation_id) in
  match found with
  | None => throw (User ("unknown index relation id: " +:+ pretty index_relation_id))
  | Some (i, r) =>
      if negb (bool_decide (rel_kind r = Index))
      then throw (User ("relation is not an index: " +:+ pretty index_relation_id)) else
      match storage r with
      | BPlusTree s =>
          replace_relation i
            (with_storage (BPlusTree (mkIndexStorage (table_id s) (column_name s) root)) r)
      | Heap _ => throw (InternalInvariant "index relation without index storage")
      end
  end.

(** ** The catalog record *)

Definition CATALOG_MAGIC : list byte := [x52; x44; x42; x43].
Definition CATALOG_VERSION : N := 1.
Definition STORAGE_HEAP : N := 1.
Definition STORAGE_INDEX : N := 2.

Definition kind_to_u8 (k : RelationKind) : N :=
  match k with Table => 1 | Index => 2 | System => 3 end.
Definition kind_from_u8 (value : N) : DbResult RelationKind :=
  match value with
  | 1 => Ok Table
  | 2 => Ok Index
  | 3 => Ok System
  | _ => Err (Corruption ("unknown catalog relation kind: " +:+ pretty value))
  end.

Definition write_string (s : string) : db (list byte) unit :=
  let! _ := write_u16_len (string_len s) "string length" in
  extend_from_slice (bytes_of_string s).

Definition encode_storage_object (s : StorageObject) : db (list byte) unit :=
  match s with
  | Heap pages =>
      let! _ := push_uint 1 STORAGE_HEAP in
      let! _ := write_u32_len (len pages) "heap page count" in
      for_each (push_uint 8) pages
  | BPlusTree index =>
      let! _ := push_uint 1 STORAGE_INDEX in
      let! _ := push_uint 8 (table_id index) in
      let! _ := push_uint 8 (root_page_id index) in
      write_string (column_name index)
  end.

Definition encode_column (c : ColumnDef) : db (list byte) unit :=
  let! _ := write_string (col_name c) in
  write_string (type_name c).

Definition encode_relation (r : RelationInfo) : db (list byte) unit :=
  let! _ := push_uint 8 (rel_id r) in
  let! _ := push_uint 1 (kind_to_u8 (rel_kind r)) in
  let! _ := encode_storage_object (storage r) in
  let! _ := write_string (rel_name r) in
  let! _ := write_u16_len (len (columns r)) "column count" in
  for_each encode_column (columns r).

Definition encode_extension (e : ExtensionInfo) : db (list byte) unit :=
  let! _ := write_string (ext_name e) in
  let! _ := push_uint 4 (abi_version e) in
  write_string (ext_kind e).

Definition encode_catalog_to (c : Catalog) : db (list byte) unit :=
  let! _ := extend_from_slice CATALOG_MAGIC in
  let! _ := push_uint 2 CATALOG_VERSION in
  let! _ := push_uint 8 (next_relation_id c) in
  let! _ := push_uint 8 (next_page_id c) in
  let! _ := write_u32_len (len (relations c)) "relation count" in
  let! _ := for_each encode_relation (relations c) in
  let! _ := write_u32_len (len (extensions c)) "extension count" in
  for_each encode_extension (extensions c).

Definition encode_catalog (c : Catalog) : DbResult (list byte) :=
  let '(r, bs) := encode_catalog_to c [] in let? _ := r in Ok bs.

Definition catalog_texts : cursor_texts :=
  mkCursorTexts "catalog offset overflow" "catalog record is truncated"
    "catalog record has trailing bytes".

Definition read_string : db DecodeCursor string :=
  let! n := cursor_u16 catalog_texts in
  let! bs := read_bytes catalog_texts n in
  lift (from_utf8 "catalog string is not valid UTF-8" bs).

Definition decode_storage_object : db DecodeCursor StorageObject :=
  let! storage_kind := cursor_u8 catalog_texts in
  if storage_kind =? STORAGE_HEAP then
    let! page_count := cursor_u32 catalog_texts in
    let! pages := repeat_st (N.to_nat page_count) (cursor_u64 catalog_texts) in
    if len pages =? 0 then throw (Corruption "heap storage has no pages")
    else ret (Heap pages)
  else if storage_kind =? STORAGE_INDEX then
    let! table := cursor_u64 catalog_texts in
    let! root := cursor_u64 catalog_texts in
    let! column := read_string in
    ret (BPlusTree (mkIndexStorage table column root))
  else throw (Corruption ("unknown catalog storage object kind: " +:+ pretty storage_kind)).

Definition decode_column : db DecodeCursor ColumnDef :=
  let! name := read_string in
  let! ty := read_string in
  ret (mkColumnDef name ty).

Definition decode_relation : db DecodeCursor RelationInfo :=
  let! id := cursor_u64 catalog_texts in
  let! raw_kind := cursor_u8 catalog_texts in
  let! kind := lift (kind_from_u8 raw_kind) in
  let! st := decode_storage_object in
  let! name := read_string in
  let! column_count := cursor_u16 catalog_texts in
  let! cols := repeat_st (N.to_nat column_count) decode_column in
  ret (mkRelationInfo id name kind st cols).

Definition decode_extension : db DecodeCursor ExtensionInfo :=
  let! name := read_string in
  let! abi := cursor_u32 catalog_texts in
  let! kind := read_string in
  ret (mkExtensionInfo name abi kind).

(** A record that ends after the relations has no extension list. *)
Definition decode_extensions : db DecodeCursor (list ExtensionInfo) :=
  let! finished := gets is_finished in
  if finished then ret [] else
  let! extension_count := cursor_u32 catalog_texts in
  repeat_st (N.to_nat extension_count) decode_extension.

(** [decode_catalog] up to the end of the fields. *)
Definition decode_catalog_fields : db DecodeCursor Catalog :=
  let! magic := read_bytes catalog_texts 4 in
  if negb (bool_decide (magic = CATALOG_MAGIC)) then throw (Corruption "invalid catalog magic") else
  let! version := cursor_u16 catalog_texts in
  if negb (version =? CATALOG_VERSION)
  then throw (Corruption ("unsupported catalog version: " +:+ pretty version)) else
  let! next_relation := cursor_u64 catalog_texts in
  let! next_page := cursor_u64 catalog_texts in
  let! relation_count := cursor_u32 catalog_texts in
  let! rs := repeat_st (N.to_nat relation_count) decode_relation in
  let! es := decode_extensions in
  ret (mkCatalog next_relation next_page rs es).

Definition decode_catalog (bs : list byte) : DbResult Catalog :=
  fst ((let! catalog := decode_catalog_fields in
        let! _ := finish catalog_texts in
        ret catalog) (cursor_new bs)).

(** ** The catalog page *)

Definition to_page (c : Catalog) : DbResult Page :=
  let? bs := encode_catalog c in
  let '(r, page) := insert_record bs (page_new CATALOG_PAGE_ID Page.Catalog) in
  let? _ := r in
  Ok page.

Section CatalogPage.
Context {F : Type} `{VfsFile F}.

Definition save (c : Catalog) : db F unit :=
  let! page := lift (to_page c) in
  write_page page.

Definition load_or_bootstrap : db F Catalog :=
  let! n := file_len in
  if n =? 0 then
    let! _ := save empty in
    ret empty
  else if n <? PAGE_SIZE then
    throw (Corruption ("database file is too short for catalog page: " +:+ pretty n +:+ " bytes"))
  else
  let! page := read_page CATALOG_PAGE_ID in
  let! h := lift (header page) in
  if negb (bool_decide (h_page_type h = Page.Catalog))
  then throw (Corruption "page 0 is not a catalog page") else
  let! r := lift (read_record page 0) in
  let! bs := lift (ok_or r (Corruption "catalog record is missing")) in
  lift (decode_catalog bs).
End CatalogPage.
