(* ===== verification/CatalogFacts.v ===== *)
(** * CatalogFacts: the catalog record round-trips, the metadata stays well formed *)

From S2P Require Import Prelude Core Bytes Page PageFacts PageOps Vfs VfsFacts PageStore Catalog.

(** ** Values the Rust types allow *)

Definition storage_typed (s : StorageObject) : Prop :=
  match s with
  | Heap pages => pages <> [] /\ Forall (fun p => p <= U64_MAX) pages
  | BPlusTree i => table_id i <= U64_MAX /\ root_page_id i <= U64_MAX /\ string_ok (column_name i)
  end.

Definition column_typed (c : ColumnDef) : Prop := string_ok (col_name c) /\ string_ok (type_name c).

Record relation_typed (r : RelationInfo) : Prop := {
  rt_id : rel_id r <= U64_MAX;
  rt_name : string_ok (rel_name r);
  rt_storage : storage_typed (storage r);
  rt_columns : Forall column_typed (columns r)
}.

Definition extension_typed (e : ExtensionInfo) : Prop :=
  string_ok (ext_name e) /\ abi_version e <= U32_MAX /\ string_ok (ext_kind e).

(** The field types of [Catalog], and heap tables that own a page. *)
Record catalog_typed (c : Catalog) : Prop := {
  ct_next_relation : next_relation_id c <= U64_MAX;
  ct_next_page : next_page_id c <= U64_MAX;
  ct_relations : Forall relation_typed (relations c);
  ct_extensions : Forall extension_typed (extensions c)
}.

(** ** The codec, field by field *)

Lemma codec_ok_uint texts w (wn : nat) v :
  w = N.of_nat wn -> v < 256 ^ w -> codec_ok (push_uint wn v) (cursor_uint texts w) v.
Proof. intros. by apply codec_ok_total, codec_uint. Qed.

Lemma codec_ok_u64 texts v : v <= U64_MAX -> codec_ok (push_uint 8 v) (cursor_u64 texts) v.
Proof. intros H. apply codec_ok_uint; [done|]. unfold U64_MAX in H. simpl. lia. Qed.

Lemma codec_ok_string s : string_ok s -> codec_ok (write_string s) read_string s.
Proof.
  intros Hs. unfold write_string, read_string.
  apply codec_ok_bind with (string_len s); [by apply codec_ok_len|].
  intros v v' [= <-]. exists (bytes_of_string s). split; [done|].
  rewrite <- (app_nil_r (bytes_of_string s)).
  eapply reads_bind; [apply reads_bytes|]. apply reads_lift. by apply from_utf8_string.
Qed.

Lemma codec_ok_column c : column_typed c -> codec_ok (encode_column c) decode_column c.
Proof.
  intros [Hn Ht]. unfold encode_column, decode_column.
  apply codec_ok_bind with (col_name c); [by apply codec_ok_string|].
  destruct c as [n t]. apply (codec_ok_map _ _ (fun ty => mkColumnDef n ty)).
  by apply codec_ok_string.
Qed.

Lemma codec_ok_storage s :
  storage_typed s -> codec_ok (encode_storage_object s) decode_storage_object s.
Proof.
  destruct s as [pages|[t col root]]; cbn [encode_storage_object storage_typed]; intros H;
    unfold decode_storage_object.
  - destruct H as [Hne Hp]. apply codec_ok_bind with STORAGE_HEAP; [by apply codec_ok_uint|].
    replace (STORAGE_HEAP =? STORAGE_HEAP) with true by done.
    apply codec_ok_bind with (len pages); [by apply codec_ok_len|].
    assert (Hlist : codec_ok (for_each (push_uint 8) pages)
                      (repeat_st (N.to_nat (len pages)) (cursor_u64 catalog_texts)) pages).
    { rewrite Nat2N.id. apply codec_ok_list. eapply Forall_impl; [exact Hp|].
      intros. by apply codec_ok_u64. }
    intros v v' Hw. destruct (Hlist _ _ Hw) as (bs & -> & Hr). exists bs. split; [done|].
    rewrite <- (app_nil_r bs). eapply reads_bind; [exact Hr|].
    replace (len pages =? 0) with false; [apply reads_ret|].
    symmetry. apply N.eqb_neq. destruct pages; [done|]. simpl. lia.
  - destruct H as (Ht & Hr & Hc). cbn [table_id root_page_id column_name] in *.
    apply codec_ok_bind with STORAGE_INDEX; [by apply codec_ok_uint|].
    replace (STORAGE_INDEX =? STORAGE_HEAP) with false by done.
    replace (STORAGE_INDEX =? STORAGE_INDEX) with true by done.
    apply codec_ok_bind with t; [by apply codec_ok_u64|].
    apply codec_ok_bind with root; [by apply codec_ok_u64|].
    apply (codec_ok_map _ _ (fun c => BPlusTree (mkIndexStorage t c root))).
    by apply codec_ok_string.
Qed.

Lemma kind_roundtrip k : kind_from_u8 (kind_to_u8 k) = Ok k.
Proof. by destruct k. Qed.

Lemma codec_ok_relation r : relation_typed r -> codec_ok (encode_relation r) decode_relation r.
Proof.
  destruct r as [id name k s cols]. intros [Hid Hn Hs Hc]. cbn in Hid, Hn, Hs, Hc.
  unfold encode_relation, decode_relation. cbn [rel_id rel_kind storage rel_name columns].
  apply codec_ok_bind with id; [by apply codec_ok_u64|].
  apply codec_ok_bind with (kind_to_u8 k); [apply codec_ok_uint; [done|by destruct k]|].
  apply codec_ok_pure with k; [apply reads_lift, kind_roundtrip|].
  apply codec_ok_bind with s; [by apply codec_ok_storage|].
  apply codec_ok_bind with name; [by apply codec_ok_string|].
  apply codec_ok_bind with (len cols); [by apply codec_ok_len|].
  apply (codec_ok_map _ _ (mkRelationInfo id name k s)). rewrite Nat2N.id.
  apply codec_ok_list. eapply Forall_impl; [exact Hc|]. apply codec_ok_column.
Qed.

Lemma codec_ok_extension e : extension_typed e -> codec_ok (encode_extension e) decode_extension e.
Proof.
  destruct e as [n a k]. intros (Hn & Ha & Hk). cbn in Hn, Ha, Hk.
  unfold encode_extension, decode_extension. cbn [ext_name abi_version ext_kind].
  apply codec_ok_bind with n; [by apply codec_ok_string|].
  apply codec_ok_bind with a; [apply codec_ok_uint; [done|unfold U32_MAX in Ha; simpl; lia]|].
  apply (codec_ok_map _ _ (mkExtensionInfo n a)). by apply codec_ok_string.
Qed.

(** A test for the end of the input, in front of bytes that are there. *)
Lemma reads_unless_finished {A} (m1 m2 : db DecodeCursor A) bs a :
  bs <> [] -> reads m2 bs a ->
  reads (let! finished := gets is_finished in if finished then m1 else m2) bs a.
Proof.
  intros Hne Hr pre post Hl. unfold bind_st, gets, is_finished. cbn [cur_offset cur_bytes].
  replace (len pre =? len (pre ++ bs ++ post)) with false; [by apply Hr|].
  symmetry. apply N.eqb_neq. rewrite !length_app. destruct bs; [done|]. simpl. lia.
Qed.

Lemma for_each_extends {B} (f : B -> db (list byte) unit) xs v v' :
  (forall x u u', f x u = (Ok tt, u') -> exists bs, u' = u ++ bs) ->
  for_each f xs v = (Ok tt, v') -> exists bs, v' = v ++ bs.
Proof.
  intros Hf. revert v; induction xs as [|x xs IH]; intros v; cbn [for_each].
  - intros [= <-]. exists []. by rewrite app_nil_r.
  - intros H. apply bind_st_inv in H as ([] & v1 & H1 & H2).
    apply Hf in H1 as [b1 ->]. apply IH in H2 as [b2 ->].
    exists (b1 ++ b2). by rewrite app_assoc.
Qed.

Lemma codec_ok_extensions es :
  Forall extension_typed es ->
  codec_ok (let! _ := write_u32_len (len es) "extension count" in for_each encode_extension es)
    decode_extensions es.
Proof.
  intros Hes v v' Hw.
  assert (Hinner : codec_ok
    (let! _ := write_u32_len (len es) "extension count" in for_each encode_extension es)
    (let! n := cursor_u32 catalog_texts in repeat_st (N.to_nat n) decode_extension) es).
  { apply codec_ok_bind with (len es); [by apply codec_ok_len|]. rewrite Nat2N.id.
    apply codec_ok_list. eapply Forall_impl; [exact Hes|]. apply codec_ok_extension. }
  destruct (Hinner _ _ Hw) as (bs & -> & Hr). exists bs. split; [done|].
  apply reads_unless_finished; [|exact Hr].
  intros ->. apply bind_st_inv in Hw as ([] & v1 & H1 & H2).
  assert (Hext : forall x u u', encode_extension x u = (Ok tt, u') -> exists b, u' = u ++ b).
  { intros x u u' H. unfold encode_extension, write_string, write_u16_len, push_len in H.
    apply bind_st_inv in H as ([] & u1 & Ha & Hb).
    apply bind_st_inv in Ha as ([] & u2 & Ha1 & Ha2). 
    apply bind_st_inv in Hb as ([] & u3 & Hb1 & Hb2).
    apply bind_st_inv in Hb2 as ([] & u4 & Hb3 & Hb4).
    destruct (string_len (ext_name x) <=? U16_MAX); [|done].
    destruct (string_len (ext_kind x) <=? U16_MAX); [|done].
    injection Ha1 as <-. injection Ha2 as <-. injection Hb1 as <-. injection Hb3 as <-.
    injection Hb4 as <-. rewrite <- !app_assoc. by eexists. }
  apply for_each_extends in H2 as [b Hb]; [|done].
  unfold write_u32_len, push_len in H1. destruct (len es <=? U32_MAX); [|done].
  injection H1 as <-. rewrite <- app_assoc in Hb. by apply app_inv_head in Hb.
Qed.

Lemma decode_encoded_catalog c bs :
  catalog_typed c -> encode_catalog c = Ok bs -> len bs <= USIZE_MAX -> decode_catalog bs = Ok c.
Proof.
  destruct c as [nr np rs es]. intros [Hnr Hnp Hrs Hes] He Hl. cbn in Hnr, Hnp, Hrs, Hes.
  unfold encode_catalog in He. destruct (encode_catalog_to _ []) as [r v] eqn:Hw.
  steps_in He. destruct a.
  assert (Hc : codec_ok (encode_catalog_to (mkCatalog nr np rs es)) decode_catalog_fields
                 (mkCatalog nr np rs es)).
  { unfold encode_catalog_to, decode_catalog_fields. cbn [next_relation_id next_page_id relations extensions].
    apply codec_ok_bind with CATALOG_MAGIC; [apply codec_ok_total; exact (codec_bytes catalog_texts CATALOG_MAGIC)|].
    rewrite bool_decide_true by done. cbn [negb].
    apply codec_ok_bind with CATALOG_VERSION; [by apply codec_ok_uint|].
    rewrite N.eqb_refl. cbn [negb].
    apply codec_ok_bind with nr; [by apply codec_ok_u64|].
    apply codec_ok_bind with np; [by apply codec_ok_u64|].
    apply codec_ok_bind with (len rs); [by apply codec_ok_len|]. rewrite Nat2N.id.
    apply codec_ok_bind with rs.
    { apply codec_ok_list. eapply Forall_impl; [exact Hrs|]. apply codec_ok_relation. }
    apply (codec_ok_map _ _ (mkCatalog nr np rs)). by apply codec_ok_extensions. }
  destruct (Hc _ _ Hw) as (b & -> & Hr). cbn [app] in *.
  pose proof (run_codec catalog_texts _ b _ Hr Hl) as Hrun.
  unfold decode_catalog. by rewrite Hrun.
Qed.

(** ** Replacing one relation *)

Lemma find_first_insert_same {A} (p : A -> bool) l i x y :
  find_first p l = Some (i, x) -> p y = true -> find_first p (<[i := y]> l) = Some (i, y).
Proof.
  revert i. induction l as [|z l IH]; intros i; cbn [find_first]; [done|].
  destruct (p z) eqn:Hz; [by intros [= <- <-] Hy; simpl; rewrite Hy|].
  destruct (find_first p l) as [[j w]|]; [|done]. intros [= <- <-] Hy.
  change (<[Datatypes.S j := y]> (z :: l)) with (z :: <[j := y]> l). cbn [find_first]. rewrite Hz.
  by rewrite (IH j eq_refl Hy).
Qed.

Lemma find_first_insert_other {A} (q : A -> bool) l i x y :
  l !! i = Some x -> q x = false -> q y = false ->
  snd <$> find_first q (<[i := y]> l) = snd <$> find_first q l.
Proof.
  revert i. induction l as [|z l IH]; intros [|i] Hi Hx Hy; try done; cbn [lookup list_lookup] in Hi.
  - injection Hi as ->. simpl. by rewrite Hx, Hy.
  - change (<[Datatypes.S i := y]> (z :: l)) with (z :: <[i := y]> l). cbn [find_first].
    destruct (q z); [done|]. specialize (IH i Hi Hx Hy).
    destruct (find_first q (<[i:=y]> l)) as [[]|], (find_first q l) as [[]|]; simpl in *; congruence.
Qed.

(** ** The schema

    What a catalog says apart from page ids: a statement depends on nothing else. *)

Definition rel_schema (r : RelationInfo) : RelationId * string * RelationKind * list ColumnDef * option (RelationId * string) :=
  (rel_id r, rel_name r, rel_kind r, columns r, (fun s => (table_id s, column_name s)) <$> index_storage r).
Definition schema (c : Catalog) := rel_schema <$> relations c.

Lemma schema_replace c i r r' :
  relations c !! i = Some r -> rel_schema r' = rel_schema r ->
  schema (with_relations (<[i := r']> (relations c)) c) = schema c.
Proof.
  intros Hi Hr. unfold schema. cbn [relations with_relations].
  rewrite list_fmap_insert, Hr. apply list_insert_id. by rewrite list_lookup_fmap, Hi.
Qed.

