(* ===== verification/CatalogWf.v ===== *)
(** * CatalogWf: the well-formedness of the metadata is an invariant *)

From S2P Require Import Prelude Core Bytes Page PageFacts PageOps Vfs VfsFacts PageStore Catalog CatalogFacts.

(** ** The invariant *)

Definition rel_pages (r : RelationInfo) : list PageId :=
  match storage r with Heap pages => pages | BPlusTree i => [root_page_id i] end.
Definition catalog_pages (c : Catalog) : list PageId := relations c ≫= rel_pages.

Definition index_key (r : RelationInfo) : option (RelationId * string) :=
  match storage r with
  | Heap _ => None
  | BPlusTree i => Some (table_id i, column_name i)
  end.

(** A table has heap pages and distinct columns; an index names a column of a
    table of the catalog. *)
Definition relation_shape (rs : list RelationInfo) (r : RelationInfo) : Prop :=
  match rel_kind r, storage r with
  | Table, Heap pages => NoDup (col_name <$> columns r)
  | Index, BPlusTree i =>
      exists t, t ∈ rs /\ rel_id t = table_id i /\ rel_kind t = Table
                /\ column_name i ∈ (col_name <$> columns t)
  | _, _ => False
  end.

(** Two operations attach a page to a relation, whatever its id is.  [owned] says
    that they are given pages that were allocated and are in no other relation; then
    no page belongs to two relations. *)
Record catalog_inv (owned : bool) (c : Catalog) : Prop := {
  wf_typed : catalog_typed c;
  wf_next_page : 1 <= next_page_id c;
  wf_ids : NoDup (rel_id <$> relations c);
  wf_id_range : Forall (fun r => rel_id r < next_relation_id c) (relations c);
  wf_names : NoDup (rel_name <$> relations c);
  wf_pages_if : owned = true -> NoDup (catalog_pages c);
  wf_page_range_if : owned = true -> Forall (fun p => 1 <= p < next_page_id c) (catalog_pages c);
  wf_shape : Forall (relation_shape (relations c)) (relations c);
  wf_index_keys : NoDup (omap index_key (relations c));
  wf_extensions : NoDup (ext_name <$> extensions c)
}.
Arguments wf_typed {owned}.
Arguments wf_next_page {owned}.
Arguments wf_ids {owned}.
Arguments wf_id_range {owned}.
Arguments wf_names {owned}.
Arguments wf_pages_if {owned}.
Arguments wf_page_range_if {owned}.
Arguments wf_shape {owned}.
Arguments wf_index_keys {owned}.
Arguments wf_extensions {owned}.

Abbreviation catalog_wf := (catalog_inv true).

Lemma wf_pages c : catalog_wf c -> NoDup (catalog_pages c).
Proof. intros Hc. by apply (wf_pages_if c Hc). Qed.
Lemma wf_page_range c : catalog_wf c -> Forall (fun p => 1 <= p < next_page_id c) (catalog_pages c).
Proof. intros Hc. by apply (wf_page_range_if c Hc). Qed.

(** A page id that was allocated and belongs to no relation. *)
Definition fresh_page (p : PageId) (c : Catalog) : Prop :=
  1 <= p < next_page_id c /\ p ∉ catalog_pages c.

(** The page ids that the two operations are given. *)
Definition attachable (owned : bool) (p : PageId) (c : Catalog) : Prop :=
  p <= U64_MAX /\ (owned = true -> fresh_page p c).

Lemma fresh_attachable p c : catalog_wf c -> fresh_page p c -> attachable true p c.
Proof.
  intros Hc Hp. destruct (wf_typed _ Hc) as [_ Hty _ _].
  split; [|done]. destruct Hp as [Hr _]. lia.
Qed.

(** ** Searching *)

Lemma find_first_Some {A} (p : A -> bool) l i x :
  find_first p l = Some (i, x) -> l !! i = Some x /\ p x = true.
Proof.
  revert i; induction l as [|y l IH]; intros i; simpl; [done|].
  destruct (p y) eqn:Hy; [by intros [= <- <-]|].
  destruct (find_first p l) as [[j z]|]; [|done]. intros [= <- <-]. by apply IH.
Qed.

Lemma find_first_None {A} (p : A -> bool) l x :
  find_first p l = None -> x ∈ l -> p x = false.
Proof.
  induction l as [|y l IH]; simpl; [by intros _ ?%not_elem_of_nil|].
  destruct (p y) eqn:Hy; [done|]. destruct (find_first p l) as [[]|]; [done|].
  intros _ [->|Hx]%elem_of_cons; auto.
Qed.

Lemma relation_by_name_None name c r :
  relation_by_name name c = None -> r ∈ relations c -> rel_name r <> name.
Proof.
  unfold relation_by_name. intros H Hr.
  destruct (find_first _ _) eqn:Hf; [done|].
  pose proof (find_first_None _ _ _ Hf Hr) as Hn. by apply bool_decide_eq_false in Hn.
Qed.

Lemma relation_by_id_Some id c r :
  relation_by_id id c = Some r -> r ∈ relations c /\ rel_id r = id.
Proof.
  unfold relation_by_id, find_relation. destruct (find_first _ _) as [[i x]|] eqn:Hf; [|done].
  intros [= <-]. apply find_first_Some in Hf as [Hi Hp].
  split; [by eapply list_elem_of_lookup_2|by apply N.eqb_eq].
Qed.

(** With distinct ids the relation found for an id is the one that has it. *)
Lemma find_relation_lookup c i r :
  NoDup (rel_id <$> relations c) -> relations c !! i = Some r ->
  find_relation (rel_id r) c = Some (i, r).
Proof.
  unfold find_relation. generalize (relations c). intros l Hnd Hi.
  revert i Hi; induction l as [|y l IH]; intros i Hi; [done|].
  apply NoDup_cons in Hnd as [Hy Hnd]. destruct i as [|i]; simpl in *.
  - injection Hi as ->. by rewrite N.eqb_refl.
  - destruct (rel_id y =? rel_id r) eqn:He.
    + exfalso. apply Hy. apply N.eqb_eq in He. rewrite He.
      apply list_elem_of_fmap. exists r. split; [done|]. by eapply list_elem_of_lookup_2.
    + by rewrite (IH Hnd i Hi).
Qed.

(** ** Allocation *)

(** ** Pages of the relations *)

Lemma bind_insert {A B} (f : A -> list B) (l : list A) i x y :
  l !! i = Some x -> l ≫= f = (take i l ≫= f) ++ f x ++ (drop (S i) l ≫= f)
  /\ <[i := y]> l ≫= f = (take i l ≫= f) ++ f y ++ (drop (S i) l ≫= f).
Proof.
  intros Hi. pose proof (lookup_lt_Some _ _ _ Hi) as Hl. split.
  - rewrite <- (take_drop_middle l i x Hi) at 1. by rewrite bind_app, bind_cons.
  - rewrite insert_take_drop by done. by rewrite bind_app, bind_cons.
Qed.

(** The relation gets the fresh page [p] besides (or in place of) its own. *)
Lemma replace_pages_fresh c i r s p :
  catalog_wf c -> relations c !! i = Some r -> fresh_page p c ->
  rel_pages (with_storage s r) ⊆+ p :: rel_pages r ->
  NoDup (catalog_pages (with_relations (<[i := with_storage s r]> (relations c)) c))
  /\ Forall (fun p => 1 <= p < next_page_id c)
       (catalog_pages (with_relations (<[i := with_storage s r]> (relations c)) c)).
Proof.
  intros Hc Hi [Hp Hpn] Hsub. unfold catalog_pages in *. cbn [with_relations relations].
  destruct (bind_insert rel_pages _ _ _ (with_storage s r) Hi) as [Hold ->].
  set (A := take i (relations c) ≫= rel_pages) in *.
  set (B := drop (S i) (relations c) ≫= rel_pages) in *.
  assert (Hs : A ++ rel_pages (with_storage s r) ++ B ⊆+ p :: (relations c ≫= rel_pages)).
  { rewrite Hold. etrans.
    - apply submseteq_app; [reflexivity|]. apply submseteq_app; [exact Hsub|reflexivity].
    - apply Permutation_submseteq. cbn [app]. symmetry. apply Permutation_middle. }
  assert (Hnd : NoDup (p :: (relations c ≫= rel_pages)))
    by (apply NoDup_cons; split; [done|by apply wf_pages]).
  assert (Hrng : Forall (fun p => 1 <= p < next_page_id c) (p :: (relations c ≫= rel_pages)))
    by (constructor; [done|by apply wf_page_range]).
  apply submseteq_Permutation in Hs as [k Hk]. rewrite Hk in Hnd, Hrng.
  apply NoDup_app in Hnd as [Hnd _]. by apply Forall_app in Hrng as [Hrng _].
Qed.

Section Inv.
Context {owned : bool}.

Lemma allocate_page_id_wf c : catalog_inv owned c -> catalog_inv owned (snd (allocate_page_id c)).
Proof.
  intros Hc. unfold allocate_page_id.
  destruct (checked_add _ _ _) as [n|] eqn:Ha; [|done].
  apply checked_add_Some in Ha as [-> Ha]. destruct Hc as [[? ? ? ?] ? ? ? ? ? Hr ? ? ?].
  split; try done; cbn [snd with_next_page next_page_id]; [lia|]. intros Ho.
  eapply Forall_impl; [exact (Hr Ho)|]. simpl. intros. lia.
Qed.

Lemma allocate_page_id_attachable c p c' :
  catalog_inv owned c -> allocate_page_id c = (Ok p, c') -> p < next_page_id c' /\ (owned = true -> fresh_page p c').
Proof.
  intros Hc. unfold allocate_page_id.
  destruct (checked_add _ _ _) as [n|] eqn:Ha; [|done]. intros [= <- <-].
  apply checked_add_Some in Ha as [-> Ha]. pose proof (wf_next_page c Hc).
  cbn [with_next_page next_page_id]. split; [lia|]. intros Ho. split; cbn [with_next_page next_page_id]; [lia|].
  change (catalog_pages (with_next_page _ c)) with (catalog_pages c). intros Hp.
  pose proof (wf_page_range_if c Hc Ho) as Hr. rewrite Forall_forall in Hr.
  apply Hr in Hp. lia.
Qed.

Lemma allocate_relation_id_wf c : catalog_inv owned c -> catalog_inv owned (snd (allocate_relation_id c)).
Proof.
  intros Hc. unfold allocate_relation_id.
  destruct (checked_add _ _ _) as [n|] eqn:Ha; [|done].
  apply checked_add_Some in Ha as [-> Ha]. destruct Hc as [[? ? ? ?] ? ? Hr ? ? ? ? ? ?].
  split; try done; cbn [snd with_next_relation next_relation_id].
  eapply Forall_impl; [exact Hr|]. simpl. intros. lia.
Qed.

Lemma allocate_relation_id_fresh c id c' :
  catalog_inv owned c -> allocate_relation_id c = (Ok id, c') ->
  id < next_relation_id c' /\ (id ∉ (rel_id <$> relations c')) /\ relations c' = relations c.
Proof.
  intros Hc. unfold allocate_relation_id.
  destruct (checked_add _ _ _) as [n|] eqn:Ha; [|done]. intros [= <- <-].
  apply checked_add_Some in Ha as [-> Ha]. cbn [with_next_relation next_relation_id relations].
  split_and!; [lia| |done]. intros Hin. apply list_elem_of_fmap in Hin as (r & He & Hr).
  pose proof (wf_id_range c Hc) as Hrng. rewrite Forall_forall in Hrng.
  apply Hrng in Hr. lia.
Qed.

(** ** Adding a relation *)

Lemma relation_shape_mono rs rs' r :
  (forall t, t ∈ rs -> t ∈ rs') -> relation_shape rs r -> relation_shape rs' r.
Proof.
  intros Hm. unfold relation_shape. destruct (rel_kind r), (storage r); try done.
  intros (t & Ht & Hrest). exists t. auto.
Qed.

Lemma push_relation_wf r c :
  catalog_inv owned c -> relation_typed r ->
  rel_id r < next_relation_id c -> rel_id r ∉ (rel_id <$> relations c) ->
  rel_name r ∉ (rel_name <$> relations c) ->
  (owned = true -> NoDup (rel_pages r) /\ Forall (fun p => fresh_page p c) (rel_pages r)) ->
  relation_shape (relations c ++ [r]) r ->
  (forall k, index_key r = Some k -> k ∉ omap index_key (relations c)) ->
  catalog_inv owned (snd (push_relation r c)).
Proof.
  intros Hc Hr Hid Hidn Hname Hp Hs Hk.
  destruct Hc as [[? ? Hrs ?] Hnp Hids Hrange Hnames Hpages Hprange Hshape Hkeys ?].
  unfold push_relation, modify. cbn [snd].
  assert (Hcp : catalog_pages (with_relations (relations c ++ [r]) c)
                = catalog_pages c ++ rel_pages r).
  { unfold catalog_pages. cbn [with_relations relations].
    by rewrite bind_app, bind_singleton. }
  split; try done; rewrite ?Hcp; cbn [with_relations relations next_page_id next_relation_id];
    rewrite ?fmap_app, ?omap_app.
  - split; try done. cbn. by apply Forall_app_2; [|constructor].
  - apply NoDup_app. split_and!; [done| |apply NoDup_singleton].
    intros x Hx ->%list_elem_of_singleton. done.
  - by apply Forall_app_2; [|constructor].
  - apply NoDup_app. split_and!; [done| |apply NoDup_singleton].
    intros x Hx ->%list_elem_of_singleton. done.
  - intros Ho. destruct (Hp Ho) as [Hnd Hfresh]. rewrite Forall_forall in Hfresh.
    apply NoDup_app. split_and!; [by apply Hpages| |done]. intros x Hx Hxr. by apply Hfresh in Hxr as [_ ?].
  - intros Ho. destruct (Hp Ho) as [Hnd Hfresh]. apply Forall_app_2; [by apply Hprange|].
    eapply Forall_impl; [exact Hfresh|]. by intros x [? _].
  - apply Forall_app_2; [|by constructor].
    eapply Forall_impl; [exact Hshape|]. intros t. apply relation_shape_mono.
    intros. apply elem_of_app. by left.
  - cbn [omap list_omap]. destruct (index_key r) as [k|]; [|by rewrite app_nil_r].
    apply NoDup_app. split_and!; [done| |apply NoDup_singleton].
    intros x Hx ->%list_elem_of_singleton. by eapply Hk.
Qed.

(** ** Changing the storage of a relation *)

Lemma with_storage_wf c i r s :
  catalog_inv owned c -> relations c !! i = Some r -> storage_typed s ->
  index_key (with_storage s r) = index_key r ->
  (owned = true -> NoDup (catalog_pages (with_relations (<[i := with_storage s r]> (relations c)) c))
    /\ Forall (fun p => 1 <= p < next_page_id c)
         (catalog_pages (with_relations (<[i := with_storage s r]> (relations c)) c))) ->
  relation_shape (relations c) (with_storage s r) ->
  catalog_inv owned (snd (replace_relation i (with_storage s r) c)).
Proof.
  intros Hc Hi Hs Hkey Hown Hsh. unfold replace_relation, modify. cbn [snd].
  destruct Hc as [[? ? Hrs ?] Hnp Hids Hrange Hnames Hpages Hprange Hshape Hkeys ?].
  pose proof (Forall_lookup_1 _ _ _ _ Hrs Hi) as Hrt.
  assert (Hfm : forall B (f : RelationInfo -> B), f (with_storage s r) = f r ->
            f <$> <[i := with_storage s r]> (relations c) = f <$> relations c).
  { intros B f Hf. rewrite list_fmap_insert, Hf. apply list_insert_id.
    by rewrite list_lookup_fmap, Hi. }
  assert (Hom : omap index_key (<[i := with_storage s r]> (relations c))
                = omap index_key (relations c)).
  { rewrite insert_take_drop by (by eapply lookup_lt_Some).
    rewrite <- (take_drop_middle _ _ _ Hi) at 3. rewrite !omap_app. f_equal.
    cbn [omap list_omap]. by rewrite Hkey. }
  split; try done; cbn [with_relations relations next_page_id next_relation_id];
    rewrite ?Hfm, ?Hom by done; try done.
  - split; try done. cbn. apply Forall_insert; [done|]. destruct Hrt. by split.
  - apply Forall_insert; [done|]. cbn. exact (Forall_lookup_1 _ _ _ _ Hrange Hi).
  - intros Ho. by apply Hown.
  - intros Ho. by apply Hown.
  - assert (Hmono : forall t, relation_shape (relations c) t ->
              relation_shape (<[i := with_storage s r]> (relations c)) t).
    { intros t. unfold relation_shape. destruct (rel_kind t), (storage t); try done.
      intros (u & Hu & Hid & Hk & Hcol). apply list_elem_of_lookup in Hu as [j Hj].
      destruct (decide (i = j)) as [<-|Hne].
      - assert (u = r) as -> by congruence. exists (with_storage s r).
        split; [|done]. apply list_elem_of_lookup. exists i.
        apply list_lookup_insert_eq. by eapply lookup_lt_Some.
      - exists u. split; [|done]. apply list_elem_of_lookup. exists j.
        by rewrite list_lookup_insert_ne. }
    apply Forall_insert; [|by apply Hmono].
    eapply Forall_impl; [exact Hshape|exact Hmono].
Qed.

(** ** Every operation preserves the invariant *)

Definition catalog_op {A} (m : db Catalog A) : Prop :=
  forall c, catalog_inv owned c -> catalog_inv owned (snd (m c)).

Lemma validate_columns_from_Ok previous cols :
  validate_columns_from previous cols = Ok tt -> NoDup (col_name <$> previous) ->
  NoDup (col_name <$> previous ++ cols).
Proof.
  revert previous; induction cols as [|c cols IH]; intros previous H Hnd.
  { by rewrite app_nil_r. }
  cbn [validate_columns_from] in H. steps_in H.
  replace (previous ++ c :: cols) with ((previous ++ [c]) ++ cols) by (by rewrite <- app_assoc).
  apply IH; [done|]. rewrite fmap_app. apply NoDup_app. split_and!; [done| |apply NoDup_singleton].
  intros x Hx ->%list_elem_of_singleton. apply list_elem_of_fmap in Hx as (d & Hd & Hin).
  apply not_true_iff_false in Hb. apply Hb. apply existsb_exists. exists d.
  split; [by apply list_elem_of_In|]. by rewrite bool_decide_true.
Qed.

Lemma register_extension_wf name abi kind :
  string_ok name -> string_ok kind -> abi <= U32_MAX ->
  catalog_op (register_extension_metadata name abi kind).
Proof.
  intros Hn Hk Ha c Hc. unfold register_extension_metadata, bind_st, lift, gets.
  destruct (validate_name "extension" name); try done.
  destruct (validate_name "extension kind" kind); try done.
  unfold extension_by_name. destruct (find_first _ _) as [[i e]|] eqn:Hf; cbn [fmap option_fmap option_map].
  { by destruct (_ && _). }
  unfold modify, ret. cbn [snd]. destruct Hc as [[? ? ? ?] ? ? ? ? ? ? ? ? ?].
  split; try done; cbn [with_extensions extensions].
  - split; try done. cbn. by apply Forall_app_2; [|constructor].
  - rewrite fmap_app. apply NoDup_app. split_and!; [done| |apply NoDup_singleton].
    intros x Hx ->%list_elem_of_singleton. apply list_elem_of_fmap in Hx as (d & Hd & Hin).
    pose proof (find_first_None _ _ _ Hf Hin) as Hne. apply bool_decide_eq_false in Hne.
    by apply Hne.
Qed.

(** The common end of [create_table_metadata] and [create_index_metadata]. *)
Lemma add_relation_wf {A} (mk : N -> N -> RelationInfo) (k : N -> N -> A) c :
  catalog_inv owned c ->
  (forall id p, id <= U64_MAX -> p <= U64_MAX -> relation_typed (mk id p)) ->
  (forall id p, rel_id (mk id p) = id) ->
  (forall id p, rel_name (mk id p) ∉ (rel_name <$> relations c)) ->
  (forall id p, rel_pages (mk id p) = [p]) ->
  (forall id p, relation_shape (relations c ++ [mk id p]) (mk id p)) ->
  (forall id p x, index_key (mk id p) = Some x -> x ∉ omap index_key (relations c)) ->
  catalog_inv owned (snd ((let! id := allocate_relation_id in
                    let! p := allocate_page_id in
                    let! _ := push_relation (mk id p) in ret (k id p)) c)).
Proof.
  intros Hc Htyped Hid Hname Hpages Hshape Hkey. unfold bind_st at 1.
  pose proof (allocate_relation_id_wf c Hc) as Hc1.
  destruct (allocate_relation_id c) as [[id|e|] c1] eqn:E1; [|done|done]. cbn [snd] in Hc1.
  destruct (allocate_relation_id_fresh c id c1 Hc E1) as (Hidlt & Hidn & Hrel).
  unfold bind_st at 1. pose proof (allocate_page_id_wf c1 Hc1) as Hc2.
  destruct (allocate_page_id c1) as [[p|e|] c2] eqn:E2; [|done|done]. cbn [snd] in Hc2.
  destruct (allocate_page_id_attachable c1 p c2 Hc1 E2) as [Hlt Hp].
  assert (Hc2r : relations c2 = relations c1 /\ next_relation_id c2 = next_relation_id c1).
  { revert E2. unfold allocate_page_id. destruct (checked_add _ _ _); [|done]. by intros [= _ <-]. }
  destruct Hc2r as [Hr2 Hn2]. unfold bind_st, ret.
  pose proof (ct_next_relation _ (wf_typed _ Hc2)). pose proof (ct_next_page _ (wf_typed _ Hc2)).
  pose proof (push_relation_wf (mk id p) c2 Hc2) as Hpush.
  destruct (push_relation (mk id p) c2) as [r c3] eqn:E3.
  injection E3 as <- <-. cbn [snd] in *. rewrite Hr2, Hrel, Hn2 in *.
  apply Hpush.
  - apply Htyped; lia.
  - by rewrite Hid.
  - by rewrite Hid.
  - apply Hname.
  - rewrite Hpages. intros Ho. split; [apply NoDup_singleton|by constructor; [apply Hp|]].
  - apply Hshape.
  - apply Hkey.
Qed.

Lemma create_table_wf name cols :
  string_ok name -> Forall column_typed cols -> catalog_op (create_table_metadata name cols).
Proof.
  intros Hn Hcols c Hc. unfold create_table_metadata.
  unfold bind_st at 1, lift at 1. destruct (validate_name "relation" name) as [[]|e|]; try done.
  unfold bind_st at 1, lift at 1. destruct (validate_columns cols) as [[]|e|] eqn:Hv; try done.
  unfold bind_st at 1, gets at 1. destruct (relation_by_name name c) as [r|] eqn:Hr; [done|].
  assert (Hnd : NoDup (col_name <$> cols)).
  { unfold validate_columns in Hv. destruct (_ <? _); [done|].
    apply (validate_columns_from_Ok [] cols Hv). constructor. }
  apply (add_relation_wf (fun id p => mkRelationInfo id name Table (Heap [p]) cols)
           (fun id p => (id, p)) c Hc); try done.
  - intros id p Hid Hp. split; try done. cbn. split; [done|]. by constructor.
  - intros id p Hin. cbn in Hin. apply list_elem_of_fmap in Hin as (x & He & Hx).
    by apply (relation_by_name_None _ _ _ Hr) in Hx.
Qed.

Lemma omap_index_key_indexes c table column :
  existsb (fun r => match index_storage r with
                    | Some s => bool_decide (column_name s = column)
                    | None => false
                    end) (indexes_on_table table c) = false ->
  Forall (relation_shape (relations c)) (relations c) ->
  (table, column) ∉ omap index_key (relations c).
Proof.
  intros He Hs Hin. apply list_elem_of_omap in Hin as (r & Hr & Hk).
  apply not_true_iff_false in He. apply He. apply existsb_exists. exists r.
  rewrite Forall_forall in Hs. specialize (Hs r Hr). unfold relation_shape, index_key in *.
  unfold indexes_on_table, index_storage, storage_index.
  destruct (rel_kind r) eqn:Hkind, (storage r) as [|s] eqn:Hst; try done.
  injection Hk as Ht Hc'. split.
  - apply list_elem_of_In, list_elem_of_filter. split; [|done]. rewrite Hkind. 
    unfold index_storage, storage_index. rewrite Hst, Ht, N.eqb_refl. done.
  - by rewrite Hc', bool_decide_true.
Qed.

Lemma create_index_wf name table column :
  string_ok name -> string_ok column -> table <= U64_MAX ->
  catalog_op (create_index_metadata name table column).
Proof.
  intros Hn Hcol Ht c Hc. unfold create_index_metadata.
  unfold bind_st at 1, lift at 1. destruct (validate_name "index" name) as [[]|e|]; try done.
  unfold bind_st at 1, lift at 1. destruct (validate_name "column" column) as [[]|e|]; try done.
  unfold bind_st at 1, gets at 1. destruct (relation_by_name name c) as [r|] eqn:Hr; [done|].
  unfold bind_st at 1, gets at 1. unfold bind_st at 1, lift at 1.
  destruct (relation_by_id table c) as [t|] eqn:Hid; [|done]. cbn [ok_or].
  apply relation_by_id_Some in Hid as [Hin Hid].
  destruct (negb (is_heap_table t)) eqn:Hk; [done|]. reflect_bool.
  destruct (forallb _ (columns t)) eqn:Hf; [done|].
  unfold bind_st at 1, gets at 1. destruct (existsb _ _) eqn:He; [done|].
  apply (add_relation_wf
    (fun id p => mkRelationInfo id name Index (BPlusTree (mkIndexStorage table column p))
                   [mkColumnDef column "INDEX_KEY"])
    (fun id p => (id, p)) c Hc); try done.
  - intros id p Hi Hp. split; try done; cbn. by constructor; [split|].
  - intros id p Hx. cbn in Hx. apply list_elem_of_fmap in Hx as (x & Hxe & Hx).
    by apply (relation_by_name_None _ _ _ Hr) in Hx.
  - intros id p. cbn. exists t. split_and!; [by apply elem_of_app; left|done| |].
    + unfold is_heap_table in Hk. by apply bool_decide_eq_true in Hk.
    + destruct (decide (column ∈ (col_name <$> columns t))) as [Hy|Hy]; [done|].
      exfalso. apply not_true_iff_false in Hf. apply Hf. apply forallb_forall.
      intros y Hyin. apply negb_true_iff, bool_decide_eq_false.
      intros Heq. apply Hy. apply list_elem_of_fmap. exists y.
      split; [done|]. by apply list_elem_of_In.
  - intros id p x [= <-]. apply omap_index_key_indexes; [done|]. apply Hc.
Qed.

Lemma append_heap_page_wf rid p c :
  catalog_inv owned c -> attachable owned p c -> catalog_inv owned (snd (append_heap_page rid p c)).
Proof.
  intros Hc [Hp Hown]. unfold append_heap_page, bind_st at 1, gets at 1.
  destruct (find_relation rid c) as [[i r]|] eqn:Hf; [|done].
  apply find_first_Some in Hf as [Hi _].
  destruct (negb _) eqn:Hk; [done|]. reflect_bool. apply bool_decide_eq_true in Hk.
  destruct (storage r) as [pages|s] eqn:Hs; [|done].
  pose proof (Forall_lookup_1 _ _ _ _ (ct_relations _ (wf_typed _ Hc)) Hi) as Ht.
  apply with_storage_wf; try done.
  - pose proof (rt_storage _ Ht) as Hst. rewrite Hs in Hst. destruct Hst as [_ Hall].
    split; [by destruct pages|]. apply Forall_app_2; [done|]. constructor; [lia|done].
  - unfold index_key. cbn [with_storage storage]. by rewrite Hs.
  - intros Ho. destruct owned; [|done]. apply (replace_pages_fresh c i r _ p Hc Hi (Hown Ho)).
    unfold rel_pages. cbn [with_storage storage]. rewrite Hs. apply Permutation_submseteq. by rewrite Permutation_app_comm.
  - pose proof (Forall_lookup_1 _ _ _ _ (wf_shape _ Hc) Hi) as Hsh.
    unfold relation_shape in *. cbn [with_storage rel_kind storage columns].
    by rewrite Hk, Hs in *.
Qed.

Lemma set_index_root_page_wf idx p c :
  catalog_inv owned c -> attachable owned p c -> catalog_inv owned (snd (set_index_root_page idx p c)).
Proof.
  intros Hc [Hp Hown]. unfold set_index_root_page, bind_st at 1, gets at 1.
  destruct (find_relation idx c) as [[i r]|] eqn:Hf; [|done].
  apply find_first_Some in Hf as [Hi _].
  destruct (negb _) eqn:Hk; [done|]. reflect_bool. apply bool_decide_eq_true in Hk.
  destruct (storage r) as [pages|s] eqn:Hs; [done|].
  pose proof (Forall_lookup_1 _ _ _ _ (ct_relations _ (wf_typed _ Hc)) Hi) as Ht.
  apply with_storage_wf; try done.
  - pose proof (rt_storage _ Ht) as Hst. rewrite Hs in Hst. destruct Hst as (? & ? & ?).
    split_and!; [done|cbn; lia|done].
  - unfold index_key. cbn [with_storage storage table_id column_name]. by rewrite Hs.
  - intros Ho. destruct owned; [|done]. apply (replace_pages_fresh c i r _ p Hc Hi (Hown Ho)).
    unfold rel_pages. cbn [with_storage storage root_page_id]. apply submseteq_skip, submseteq_nil_l.
  - pose proof (Forall_lookup_1 _ _ _ _ (wf_shape _ Hc) Hi) as Hsh.
    unfold relation_shape in *. cbn [with_storage rel_kind storage columns table_id column_name].
    by rewrite Hk, Hs in *.
Qed.

End Inv.

Lemma allocate_page_id_fresh c p c' : catalog_wf c -> allocate_page_id c = (Ok p, c') -> fresh_page p c'.
Proof. intros Hc Ha. by apply (allocate_page_id_attachable c p c' Hc Ha). Qed.

Lemma empty_inv owned : catalog_inv owned empty.
Proof. split; try done; repeat constructor; done. Qed.

(** ** Reachable catalogs

    One step per operation a client can perform, successful or not, on any page
    ids ([owned = false]), or on page ids that were allocated and belong to no
    relation ([owned = true]). *)

Inductive catalog_step (owned : bool) : Catalog -> Catalog -> Prop :=
| step_register name abi kind c :
    string_ok name -> string_ok kind -> abi <= U32_MAX ->
    catalog_step owned c (snd (register_extension_metadata name abi kind c))
| step_create_table name cols c :
    string_ok name -> Forall column_typed cols ->
    catalog_step owned c (snd (create_table_metadata name cols c))
| step_create_index name table column c :
    string_ok name -> string_ok column -> table <= U64_MAX ->
    catalog_step owned c (snd (create_index_metadata name table column c))
| step_allocate_page c :
    catalog_step owned c (snd (allocate_page_id c))
| step_append_heap_page rid p c :
    attachable owned p c -> catalog_step owned c (snd (append_heap_page rid p c))
| step_set_root idx p c :
    attachable owned p c -> catalog_step owned c (snd (set_index_root_page idx p c)).

Lemma catalog_step_inv owned c c' : catalog_step owned c c' -> catalog_inv owned c -> catalog_inv owned c'.
Proof.
  destruct 1; intros Hc.
  - by apply register_extension_wf.
  - by apply create_table_wf.
  - by apply create_index_wf.
  - by apply allocate_page_id_wf.
  - by apply append_heap_page_wf.
  - by apply set_index_root_page_wf.
Qed.
