(* ===== verification/CatalogTheorems.v ===== *)
(** * CatalogTheorems: what the catalog promises to the storage layers *)

From stdpp Require Import relations.
From S2P Require Import Prelude Core Bytes Page PageFacts PageOps Vfs VfsFacts PageStore Catalog CatalogFacts CatalogWf.

(** ** The catalog page *)

(** Page [p] is the catalog page of a catalog whose record is [bs]. *)
Lemma to_page_Ok c p :
  to_page c = Ok p ->
  exists bs a, encode_catalog c = Ok bs /\ page_rep p a /\ a_id a = CATALOG_PAGE_ID
    /\ a_type a = Page.Catalog /\ a_cells a = [CLive bs] /\ len bs <= U16_MAX.
Proof.
  unfold to_page. intros H. apply bind_outcome_Ok in H as (bs & Hb & H).
  pose proof (page_new_refines CATALOG_PAGE_ID Page.Catalog ltac:(done)) as Hn.
  pose proof (insert_record_refines _ _ bs Hn) as Hi.
  destruct (insert_record bs _) as [r q] eqn:E.
  destruct (a_insert bs (a_new CATALOG_PAGE_ID Page.Catalog)) as [[i ap]|] eqn:Ha.
  2: { destruct Hi as [m Hm]. injection Hm as -> ->. done. }
  destruct Hi as (q' & Hq & Hrep). injection Hq as -> ->. cbn [bind_outcome] in H.
  injection H as ->. unfold a_insert in Ha. destruct (_ || _) eqn:Ho; [done|]. reflect_bool.
  injection Ha as <- <-. exists bs. eexists. split_and!; [done|exact Hrep|done..].
Qed.

Lemma load_stored {F} `{VfsLaws F} f p a bs :
  healthy f -> len (contents f) <= U64_MAX ->
  stored_page (contents f) CATALOG_PAGE_ID = Ok p -> page_rep p a -> a_type a = Page.Catalog ->
  a_cells a = [CLive bs] ->
  exists f', load_or_bootstrap f = (decode_catalog bs, f') /\ contents f' = contents f /\ healthy f'.
Proof.
  intros Hf Hmax Hp Hrep Hty Hcells. pose proof (stored_page_Ok _ _ _ Hp) as (Hlen & _ & _).
  unfold load_or_bootstrap, bind_st at 1. destruct (file_len f) as [r f1] eqn:E1.
  apply len_law in E1 as (Hc1 & _ & Hh1 & _ & Hr). rewrite (Hr Hf).
  unfold CATALOG_PAGE_ID, PAGE_SIZE in Hlen.
  rewrite (proj2 (N.eqb_neq _ _)) by lia. rewrite (proj2 (N.ltb_ge _ _)) by (unfold PAGE_SIZE; lia).
  unfold bind_st at 1. destruct (read_page CATALOG_PAGE_ID f1) as [r2 f2] eqn:E2.
  apply read_page_spec in E2 as (Hc2 & _ & Hh2 & _ & Hr2).
  rewrite Hr2, Hc1, Hp by (auto; unfold addressable, CATALOG_PAGE_ID, U64_MAX; lia).
  unfold bind_st, lift. rewrite (rep_header_run p a Hrep). cbn [header_of h_page_type].
  rewrite Hty, bool_decide_true by done. cbn [negb].
  rewrite (read_record_refines p a 0 Hrep). unfold a_read. rewrite Hcells. cbn [lookup list_lookup N.to_nat].
  exists f2. split_and!; [done|congruence|auto].
Qed.

(** ** Concrete catalogs for the witnesses *)

Definition users_columns : list ColumnDef :=
  [mkColumnDef "id" "INTEGER"; mkColumnDef "name" "TEXT"].
Definition users_catalog : Catalog :=
  snd (create_index_metadata "users_by_name" 1 "name"
    (snd (create_table_metadata "users" users_columns empty))).

Lemma users_steps : rtc (catalog_step true) empty users_catalog.
Proof.
  eapply rtc_l; [apply (step_create_table true "users" users_columns); repeat constructor|].
  eapply rtc_once. by apply step_create_index.
Qed.

Lemma steps_inv owned c : rtc (catalog_step owned) empty c -> catalog_inv owned c.
Proof.
  intros Hs. assert (Hg : forall a b, rtc (catalog_step owned) a b -> catalog_inv owned a -> catalog_inv owned b).
  { induction 1; [done|]. eauto using catalog_step_inv. }
  eapply Hg; [exact Hs|apply empty_inv].
Qed.

(** A file that holds a page of zeros. *)
Definition blank_file : SimFile := mkSimFile (replicate 4096 x00) [].

(** ** Claims *)

(** C28. Every catalog reachable from the empty one, by any sequence of operations
    that succeed or fail, with any page ids, is well formed: relation ids, relation
    names, extension names and indexed columns are distinct, ids are below the
    allocation counters, and every index names a column of an existing table.  If
    [append_heap_page] and [set_index_root_page] are given pages only that were
    allocated and are in no relation, as the callers in the store and in
    transactions do, no page belongs to two relations or is the catalog's own page
    0; given any other page, they record it without a check. *)
Theorem reachable_catalogs_wf owned c :
  rtc (catalog_step owned) empty c ->
  catalog_typed c
  /\ NoDup (rel_id <$> relations c) /\ Forall (fun r => rel_id r < next_relation_id c) (relations c)
  /\ NoDup (rel_name <$> relations c) /\ NoDup (ext_name <$> extensions c)
  /\ NoDup (omap index_key (relations c)) /\ Forall (relation_shape (relations c)) (relations c)
  /\ (owned = true -> NoDup (catalog_pages c) /\ Forall (fun p => 1 <= p < next_page_id c) (catalog_pages c)).
Proof.
  intros Hs. pose proof (steps_inv owned c Hs) as Hc.
  split_and!; try apply Hc. intros Ho. split; [by apply (wf_pages_if c Hc)|by apply (wf_page_range_if c Hc)].
Qed.

(** Page 0 given to a table: the names stay distinct, the pages do not. *)
Lemma reachable_catalogs_wf_witness :
  NoDup (catalog_pages users_catalog) /\ catalog_pages users_catalog = [1; 2]
  /\ let c := snd (append_heap_page 1 CATALOG_PAGE_ID users_catalog) in
     NoDup (rel_name <$> relations c) /\ catalog_pages c = [1; 0; 2].
Proof.
  destruct (reachable_catalogs_wf true users_catalog users_steps) as (_ & _ & _ & _ & _ & _ & _ & Hp).
  split; [apply (Hp eq_refl)|]. split; [vm_compute; reflexivity|]. intros c.
  destruct (reachable_catalogs_wf false c) as (_ & _ & _ & Hn & _).
  - eapply rtc_l; [apply (step_create_table false "users" users_columns); repeat constructor|].
    eapply rtc_l; [by apply (step_create_index false "users_by_name" 1 "name")|].
    apply rtc_once. apply (step_append_heap_page false 1 CATALOG_PAGE_ID). split; [vm_compute; discriminate|discriminate].
  - split; [exact Hn|vm_compute; reflexivity].
Defined.

(** The catalog record round-trips: whenever a catalog can be encoded, the
    bytes decode to the same catalog. *)
Theorem catalog_record_roundtrip c bs :
  catalog_typed c -> encode_catalog c = Ok bs -> len bs <= USIZE_MAX ->
  decode_catalog bs = Ok c.
Proof. apply decode_encoded_catalog. Qed.

Lemma catalog_record_roundtrip_witness :
  exists bs, encode_catalog users_catalog = Ok bs /\ decode_catalog bs = Ok users_catalog.
Proof.
  destruct (encode_catalog users_catalog) as [bs|e|] eqn:He;
    [|vm_compute in He; discriminate He|vm_compute in He; discriminate He].
  exists bs. split; [reflexivity|].
  apply (catalog_record_roundtrip users_catalog bs).
  - apply (steps_inv true users_catalog users_steps).
  - exact He.
  - vm_compute in He. injection He as <-. vm_compute. discriminate.
Defined.

(** C29. Saving a catalog whose record fits the page writes page 0 and nothing
    else, and opening the file afterwards loads the same catalog. *)
Theorem catalog_save_load {F : Type} `{VfsLaws F} f c p :
  healthy f -> aligned (contents f) -> len (contents f) <= U64_MAX - PAGE_SIZE ->
  catalog_typed c -> to_page c = Ok p ->
  exists f' f'', save c f = (Ok tt, f') /\ healthy f' /\ aligned (contents f')
    /\ (forall i, page_store (contents f') i
                  = store_set CATALOG_PAGE_ID p (page_store (contents f)) i)
    /\ load_or_bootstrap f' = (Ok c, f'') /\ contents f'' = contents f'.
Proof.
  intros Hf Ha Hmax Hc Hp.
  destruct (to_page_Ok c p Hp) as (bs & a & Hb & Hrep & Hid & Hty & Hcells & Hlb).
  pose proof (page_rep_valid p a Hrep) as Hv. rewrite Hid in Hv.
  unfold save, bind_st at 1, lift at 1. rewrite Hp.
  unfold write_page, bind_st at 1, lift at 1. rewrite (rep_header_run p a Hrep).
  cbn [header_of h_page_id]. rewrite Hid.
  destruct (write_page_at CATALOG_PAGE_ID p f) as [r f'] eqn:Hw.
  assert (Had : addressable CATALOG_PAGE_ID) by (unfold addressable, CATALOG_PAGE_ID, U64_MAX; lia).
  apply write_page_at_spec in Hw as (_ & Hh & Hok & _ & Hall); [|apply Hrep].
  assert (r = Ok tt) as -> by auto. destruct (Hok eq_refl) as [_ Hcf].
  assert (Hl : len (contents f') <= U64_MAX).
  { pose proof (rep_sized _ _ Hrep) as Hs. unfold page_sized in Hs.
    rewrite Hcf, len_file_write by (intros Hn; rewrite Hn in Hs; done).
    rewrite Hs. unfold CATALOG_PAGE_ID, U64_MAX in *. lia. }
  assert (Hstored : stored_page (contents f') CATALOG_PAGE_ID = Ok p)
    by (rewrite Hcf; by apply stored_page_written).
  destruct (load_stored f' p a bs (Hh Hf) Hl Hstored Hrep Hty Hcells) as (f'' & Hload & Hcf'' & _).
  exists f', f''. split_and!; [done|auto| | | |done].
  - rewrite Hcf. by apply aligned_write; [|apply Hrep].
  - intros i. rewrite Hcf. by apply page_store_write.
  - rewrite Hload. f_equal. apply decode_encoded_catalog; [done|done|].
    unfold USIZE_MAX, U64_MAX, U16_MAX in *. lia.
Qed.

Lemma catalog_save_load_witness :
  exists f' f'', save users_catalog blank_file = (Ok tt, f')
    /\ load_or_bootstrap f' = (Ok users_catalog, f'').
Proof.
  destruct (to_page users_catalog) as [p|e|] eqn:Hp;
    [|vm_compute in Hp; discriminate Hp|vm_compute in Hp; discriminate Hp].
  destruct (catalog_save_load blank_file users_catalog p) as (f' & f'' & Hs & _ & _ & _ & Hl & _).
  - apply Forall_nil_2.
  - vm_compute. reflexivity.
  - vm_compute. discriminate.
  - apply (steps_inv true users_catalog users_steps).
  - exact Hp.
  - exists f', f''. split; [exact Hs|exact Hl].
Defined.

(** Creating a table.  On a well-formed catalog with ids left, a valid new
    name and valid columns give a table with a fresh id and one fresh page, that
    is then found by name and by id; the other relations keep their ids, names
    and storage.  A name in use is a user error and changes nothing. *)
Theorem create_table_metadata_correct c name cols :
  catalog_wf c -> validate_name "relation" name = Ok tt -> validate_columns cols = Ok tt ->
  next_relation_id c < U64_MAX -> next_page_id c < U64_MAX ->
  match relation_by_name name c with
  | Some _ => exists m, create_table_metadata name cols c = (Err (User m), c)
  | None =>
      let r := mkRelationInfo (next_relation_id c) name Table (Heap [next_page_id c]) cols in
      exists c', create_table_metadata name cols c = (Ok (next_relation_id c, next_page_id c), c')
        /\ relation_by_name name c' = Some r /\ relation_by_id (next_relation_id c) c' = Some r
        /\ (forall name', name' <> name -> relation_by_name name' c' = relation_by_name name' c)
        /\ (forall id, id <> next_relation_id c -> relation_by_id id c' = relation_by_id id c)
        /\ next_page_id c' = next_page_id c + 1
  end.
Proof.
  intros Hc Hn Hcols Hr Hp.
  set (r := mkRelationInfo (next_relation_id c) name Table (Heap [next_page_id c]) cols).
  assert (Hrun : create_table_metadata name cols c
    = match relation_by_name name c with
      | Some _ => (Err (User ("relation already exists: " +:+ name)), c)
      | None => (Ok (next_relation_id c, next_page_id c),
                 mkCatalog (next_relation_id c + 1) (next_page_id c + 1)
                   (relations c ++ [r]) (extensions c))
      end).
  { unfold create_table_metadata, bind_st, lift, gets. rewrite Hn, Hcols.
    destruct (relation_by_name name c); [done|].
    unfold allocate_relation_id, allocate_page_id. rewrite checked_add_ok by lia.
    cbn [with_next_relation next_page_id]. by rewrite checked_add_ok by lia. }
  rewrite Hrun. cbn zeta. clear Hrun.
  destruct (relation_by_name name c) as [old|] eqn:Hold; [by eexists|].
  eexists. split; [reflexivity|].
  unfold relation_by_name, relation_by_id, find_relation in *.
  cbn [relations next_page_id].
  assert (Happ : forall (p : RelationInfo -> bool) l x,
    snd <$> find_first p (l ++ [x]) = match snd <$> find_first p l with
                                      | Some y => Some y
                                      | None => if p x then Some x else None end).
  { intros p l x. induction l as [|y l IH]; simpl; [by destruct (p x)|].
    destruct (p y); [done|]. revert IH.
    destruct (find_first p (l ++ [x])) as [[]|], (find_first p l) as [[]|]; done. }
  rewrite !Happ, Hold. subst r. cbn [rel_name rel_id]. rewrite bool_decide_true by done.
  split_and!; [done| | | |done].
  - rewrite N.eqb_refl.
    destruct (find_first (fun r => rel_id r =? next_relation_id c) (relations c))
      as [[i x]|] eqn:Hf; [|done].
    apply find_first_Some in Hf as [Hi Hx]. reflect_bool.
    pose proof (Forall_lookup_1 _ _ _ _ (wf_id_range _ Hc) Hi) as Hlt. simpl in Hlt. lia.
  - intros name' Hne. rewrite Happ. cbn [rel_name].
    rewrite bool_decide_false by congruence. by match goal with |- match ?x with _ => _ end = _ => destruct x end.
  - intros id Hne. rewrite Happ. cbn [rel_id].
    rewrite (proj2 (N.eqb_neq _ _)) by congruence. by match goal with |- match ?x with _ => _ end = _ => destruct x end.
Qed.

Lemma create_table_metadata_correct_witness :
  exists c', create_table_metadata "orders" users_columns users_catalog = (Ok (3, 3), c')
    /\ relation_by_name "users" c' = relation_by_name "users" users_catalog.
Proof.
  pose proof (create_table_metadata_correct users_catalog "orders" users_columns
                (steps_inv true users_catalog users_steps) eq_refl eq_refl eq_refl eq_refl) as H.
  assert (Hn : relation_by_name "orders" users_catalog = None) by (vm_compute; reflexivity).
  rewrite Hn in H. cbn zeta in H. destruct H as (c' & Hr & _ & _ & Hother & _).
  exists c'. split; [exact Hr|]. apply Hother. discriminate.
Defined.
