(* ===== verification/Heap.v ===== *)
(** * Heap: rows in the heap pages of a table

    [CatalogStore] and [Transaction] (crates [rdbms_catalog] and [rdbms_tx])
    walk over the heap pages of a table with the same code; they differ in where
    a page comes from and where it goes.  [PageAccess] is that difference, and
    [PageAccessLaws] is what the walks rely on. *)

From S2P Require Import Prelude Core Bytes Page PageFacts PageOps Vfs VfsFacts PageStore.

(** Materialized heap row returned by a full scan. *)
Record HeapRow : Type := mkHeapRow { row_id : RowId; row_bytes : list byte }.

Class PageAccess (S : Type) : Type := {
  load_page : PageId -> db S Page;
  put_page : PageId -> Page -> db S unit
}.

Class PageAccessLaws (S : Type) `{PageAccess S} : Type := {
  view : S -> PageId -> option Page;
  ready : S -> Prop;
  (** What no page access changes. *)
  stable : S -> S -> Prop;
  stable_preorder :: PreOrder stable;
  load_law s id p :
    ready s -> addressable id -> view s id = Some p ->
    exists s', load_page id s = (Ok p, s') /\ ready s' /\ (forall i, view s' i = view s i)
               /\ stable s s';
  put_law s id p :
    ready s -> addressable id -> valid_page id p ->
    exists s', put_page id p s = (Ok tt, s') /\ ready s'
               /\ (forall i, view s' i = store_set id p (view s) i) /\ stable s s'
}.

(** ** The walks *)

Definition not_a_heap_page (page_id : PageId) : DbError :=
  Corruption ("relation page is not a heap page: " +:+ pretty page_id).

(** The loop over the slots of one page of [full_scan]. *)
Definition scan_page (page_id : PageId) (page : Page) : DbResult (list HeapRow) :=
  let? h := header page in
  if negb (bool_decide (h_page_type h = Page.Heap)) then Err (not_a_heap_page page_id) else
  fold_outcome (fun rows slot_id =>
    let? r := read_record page slot_id in
    match r with
    | Some bs => Ok (rows ++ [mkHeapRow (mkRowId page_id slot_id) bs])
    | None => Ok rows
    end) [] (range (h_slot_count h)).

Section Walks.
Context {S : Type} `{PageAccess S}.

(** The loop over the pages of [full_scan]. *)
Fixpoint scan_pages (page_ids : list PageId) (rows : list HeapRow) : db S (list HeapRow) :=
  match page_ids with
  | [] => ret rows
  | page_id :: rest =>
      let! page := load_page page_id in
      let! more := lift (scan_page page_id page) in
      scan_pages rest (rows ++ more)
  end.

(** The loop of [insert_row]: the first page with room takes the record; a user
    error of the page means that it has none. *)
Fixpoint insert_into_pages (page_ids : list PageId) (record : list byte) : db S (option RowId) :=
  match page_ids with
  | [] => ret None
  | page_id :: rest =>
      let! page := load_page page_id in
      match insert_record record page with
      | (Ok slot_id, page') =>
          let! _ := put_page page_id page' in
          ret (Some (mkRowId page_id slot_id))
      | (Err (User _), _) => insert_into_pages rest record
      | (Err e, _) => throw e
      | (Panic, _) => lift Panic
      end
  end.

(** The part of [read_row] after the ownership test. *)
Definition read_heap_row (r : RowId) : db S (option HeapRow) :=
  let! page := load_page (page_id r) in
  let! h := lift (header page) in
  if negb (bool_decide (h_page_type h = Page.Heap)) then throw (not_a_heap_page (page_id r)) else
  let! data := lift (read_record page (slot_id r)) in
  ret (match data with Some bs => Some (mkHeapRow r bs) | None => None end).
End Walks.

(** ** The abstract table: an array of cells per page *)

Fixpoint rows_from (id : PageId) (k : N) (cells : list cell) : list HeapRow :=
  match cells with
  | [] => []
  | CLive d :: rest => mkHeapRow (mkRowId id k) d :: rows_from id (k + 1) rest
  | _ :: rest => rows_from id (k + 1) rest
  end.

Definition page_rows (id : PageId) (a : APage) : list HeapRow := rows_from id 0 (a_cells a).

Fixpoint table_rows (t : list (PageId * APage)) : list HeapRow :=
  match t with
  | [] => []
  | (id, a) :: rest => page_rows id a ++ table_rows rest
  end.

(** Page [id] of the store is the heap page [a]. *)
Definition heap_page (s : PageId -> option Page) (i : PageId * APage) : Prop :=
  exists p, s i.1 = Some p /\ page_rep p i.2 /\ a_type i.2 = Page.Heap /\ a_id i.2 = i.1
            /\ addressable i.1.

(** The pages [ids] of the store hold the table [t]. *)
Definition table_rep (s : PageId -> option Page) (ids : list PageId) (t : list (PageId * APage)) : Prop :=
  t.*1 = ids /\ Forall (heap_page s) t.

(** The table after the first page with room took the record. *)
Fixpoint table_insert (record : list byte) (t : list (PageId * APage))
  : option (RowId * list (PageId * APage)) :=
  match t with
  | [] => None
  | (id, a) :: rest =>
      match a_insert record a with
      | Some (slot, a') => Some (mkRowId id slot, (id, a') :: rest)
      | None => match table_insert record rest with
                | Some (r, rest') => Some (r, (id, a) :: rest')
                | None => None
                end
      end
  end.

(** ** Rows of a page *)

Lemma rows_from_app id k cells cells' :
  rows_from id k (cells ++ cells') = rows_from id k cells ++ rows_from id (k + len cells) cells'.
Proof.
  revert k; induction cells as [|c cells IH]; intros k; cbn [rows_from app length].
  - by rewrite N.add_0_r.
  - replace (k + N.of_nat (Datatypes.S (length cells))) with (k + 1 + len cells) by lia.
    destruct c; rewrite IH; done.
Qed.

Lemma rows_from_ids id k cells r :
  r ∈ rows_from id k cells -> page_id (row_id r) = id /\ k <= slot_id (row_id r) < k + len cells.
Proof.
  revert k; induction cells as [|c cells IH]; intros k; cbn [rows_from length];
    [by intros ?%not_elem_of_nil|].
  assert (Hrest : r ∈ rows_from id (k + 1) cells ->
            page_id (row_id r) = id
            /\ k <= slot_id (row_id r) < k + N.of_nat (Datatypes.S (length cells))).
  { intros Hr. destruct (IH _ Hr) as [-> ?]. split; [done|lia]. }
  destruct c; try exact Hrest.
  intros [->|Hr]%elem_of_cons; [|by apply Hrest]. cbn. split; [done|lia].
Qed.

(** Putting a record into a free slot adds exactly its row. *)
Lemma rows_from_insert id cells (i : nat) d c :
  cells !! i = Some c -> cell_is_live c = false ->
  rows_from id 0 (<[i := CLive d]> cells)
  ≡ₚ mkHeapRow (mkRowId id (N.of_nat i)) d :: rows_from id 0 cells.
Proof.
  intros Hi Hc. pose proof (lookup_lt_Some _ _ _ Hi) as Hl.
  rewrite insert_take_drop by done. rewrite <- (take_drop_middle cells i c Hi) at 3.
  rewrite !rows_from_app, length_take, N.add_0_l.
  replace (N.of_nat (i `min` length cells)) with (N.of_nat i) by lia. cbn [rows_from].
  destruct c; try done; by rewrite Permutation_middle.
Qed.

Lemma page_rows_insert id record a slot a' :
  a_insert record a = Some (slot, a') ->
  page_rows id a' ≡ₚ mkHeapRow (mkRowId id slot) record :: page_rows id a
  /\ a_type a' = a_type a /\ a_id a' = a_id a
  /\ (forall d, mkHeapRow (mkRowId id slot) d ∉ page_rows id a).
Proof.
  unfold a_insert. case_test; [done|].
  destruct (first_dead (a_cells a)) as [i|] eqn:Hd; intros [= <- <-];
    unfold page_rows; cbn [a_cells a_type a_id].
  - apply first_dead_Some in Hd. split_and!; [|done|done|].
    + by apply rows_from_insert with CDead.
    + intros d Hin. revert Hin. rewrite <- (take_drop_middle _ _ _ Hd).
      pose proof (lookup_lt_Some _ _ _ Hd) as Hl.
      rewrite rows_from_app, length_take. cbn [rows_from].
      intros [Hin|Hin]%elem_of_app; apply rows_from_ids in Hin as [_ Hin]; cbn in Hin;
        rewrite ?length_take in Hin; lia.
  - split_and!; [|done|done|].
    + rewrite rows_from_app. cbn [rows_from]. rewrite N.add_0_l. by rewrite Permutation_app_comm.
    + intros d Hin. apply rows_from_ids in Hin as [_ Hin]. cbn in Hin. lia.
Qed.

Lemma page_rows_id id a r : r ∈ page_rows id a -> page_id (row_id r) = id.
Proof. intros Hr. by apply rows_from_ids in Hr as [? _]. Qed.

(** ** Rows of a table *)

Lemma table_rows_id t r : r ∈ table_rows t -> page_id (row_id r) ∈ t.*1.
Proof.
  induction t as [|[id a] t IH]; simpl; [by intros ?%not_elem_of_nil|].
  intros [Hr|Hr]%elem_of_app.
  - apply page_rows_id in Hr as ->. by left.
  - right. by apply IH.
Qed.

Lemma rows_from_lookup id k cells slot d :
  mkHeapRow (mkRowId id slot) d ∈ rows_from id k cells
  <-> k <= slot /\ cells !! N.to_nat (slot - k) = Some (CLive d).
Proof.
  revert k; induction cells as [|c cells IH]; intros k; cbn [rows_from].
  { rewrite lookup_nil. split; [by intros ?%not_elem_of_nil|by intros []]. }
  assert (Hrest : mkHeapRow (mkRowId id slot) d ∈ rows_from id (k + 1) cells
            <-> k < slot /\ (c :: cells) !! N.to_nat (slot - k) = Some (CLive d)).
  { rewrite IH. split; intros [Hk Hl]; (split; [lia|]);
      replace (N.to_nat (slot - k)) with (S (N.to_nat (slot - (k + 1)))) in * by lia; done. }
  assert (Hhere : c <> CLive d -> (c :: cells) !! N.to_nat (slot - k) = Some (CLive d) -> k <= slot ->
            k < slot).
  { intros Hc Hl Hk. destruct (decide (slot = k)) as [->|]; [|lia].
    rewrite N.sub_diag in Hl. injection Hl as ->. done. }
  destruct c as [| |e].
  1,2: rewrite Hrest; split; intros [Hk Hl]; (split; [|done]); [lia|by apply Hhere].
  rewrite elem_of_cons, Hrest. split.
  - intros [[= -> <-]|[Hk Hl]]; [by rewrite N.sub_diag|]. split; [lia|done].
  - intros [Hk Hl]. destruct (decide (slot = k)) as [->|]; [|by right; split; [lia|]].
    left. rewrite N.sub_diag in Hl. injection Hl as ->. done.
Qed.

Lemma table_rows_lookup t id a slot d :
  NoDup t.*1 -> (id, a) ∈ t ->
  mkHeapRow (mkRowId id slot) d ∈ table_rows t <-> a_cells a !! N.to_nat slot = Some (CLive d).
Proof.
  intros Hnd Hin. assert (Hp : mkHeapRow (mkRowId id slot) d ∈ page_rows id a
                             <-> a_cells a !! N.to_nat slot = Some (CLive d)).
  { unfold page_rows. rewrite rows_from_lookup, N.sub_0_r. split; [by intros []|]. split; [lia|done]. }
  rewrite <- Hp. clear Hp. induction t as [|[j b] t IH]; [by apply not_elem_of_nil in Hin|].
  cbn [fmap list_fmap fst] in Hnd. apply NoDup_cons in Hnd as [Hj Hnd]. cbn [table_rows].
  rewrite elem_of_app. apply elem_of_cons in Hin as [[= <- <-]|Hin].
  - split; [|by left]. intros [Hr|Hr]; [done|]. by apply table_rows_id in Hr.
  - rewrite <- (IH Hnd Hin). split; [|by right]. intros [Hr|Hr]; [|done].
    apply page_rows_id in Hr. cbn in Hr. subst j. destruct Hj.
    apply list_elem_of_fmap. by exists (id, a).
Qed.

Lemma table_rows_app t t' : table_rows (t ++ t') = table_rows t ++ table_rows t'.
Proof. induction t as [|[id a] t IH]; simpl; [done|]. by rewrite IH, app_assoc. Qed.

(** A table that grows by the page [id], which holds one record. *)
Lemma table_rows_new_page t id record slot a :
  a_insert record (a_new id Page.Heap) = Some (slot, a) -> id ∉ t.*1 ->
  table_rows (t ++ [(id, a)]) ≡ₚ mkHeapRow (mkRowId id slot) record :: table_rows t
  /\ (forall d, mkHeapRow (mkRowId id slot) d ∉ table_rows t)
  /\ a_type a = Page.Heap /\ a_id a = id.
Proof.
  intros Ha Hid. apply (page_rows_insert id) in Ha as (Hp & Hty & Hai & _).
  rewrite table_rows_app. cbn [table_rows]. rewrite app_nil_r, Hp. split_and!; [| |done..].
  - change (page_rows id (a_new id Page.Heap)) with (@nil HeapRow). by rewrite Permutation_app_comm.
  - intros d Hd. by apply table_rows_id in Hd.
Qed.

(** The row is new: no row had its address. *)
Lemma table_insert_rows record t r t' :
  table_insert record t = Some (r, t') -> NoDup t.*1 ->
  table_rows t' ≡ₚ mkHeapRow r record :: table_rows t
  /\ t'.*1 = t.*1 /\ page_id r ∈ t.*1
  /\ (forall d, mkHeapRow r d ∉ table_rows t).
Proof.
  revert r t'; induction t as [|[id a] t IH]; intros r t'; simpl; [done|].
  intros Hins [Hid Hnd]%NoDup_cons. destruct (a_insert record a) as [[slot a']|] eqn:Ha.
  - injection Hins as <- <-. apply (page_rows_insert id) in Ha as (Hp & _ & _ & Hnew). simpl.
    split_and!; [by rewrite Hp|done|by left|].
    intros d [Hd|Hd]%elem_of_app; [by eapply Hnew|]. by apply table_rows_id in Hd.
  - destruct (table_insert record t) as [[r1 t1]|] eqn:Ht; [|done]. injection Hins as <- <-.
    destruct (IH r1 t1 eq_refl Hnd) as (Hp & Hids & Hin & Hnew). simpl.
    split_and!; [rewrite Hp; by rewrite Permutation_middle|by apply (f_equal (cons id))|by right|].
    intros d [Hd|Hd]%elem_of_app; [|by eapply Hnew].
    apply page_rows_id in Hd. cbn in Hd. by rewrite Hd in Hin.
Qed.

(** ** The walks compute the abstract operations *)

Lemma scan_page_refines id p a :
  page_rep p a -> a_type a = Page.Heap -> scan_page id p = Ok (page_rows id a).
Proof.
  intros Hrep Hty. unfold scan_page. rewrite (rep_header_run p a Hrep).
  cbn [bind_outcome header_of h_page_type h_slot_count].
  rewrite Hty, bool_decide_true by done. cbn [negb]. unfold range. rewrite Nat2N.id.
  rewrite (fold_cells _ (fun rows c i => match c with
                         | CLive d => rows ++ [mkHeapRow (mkRowId id (N.of_nat i)) d]
                         | _ => rows end)).
  - assert (Hf : forall cells acc k,
      fst (foldl (fun '(x, i) c => (match c with
                                    | CLive d => x ++ [mkHeapRow (mkRowId id (N.of_nat i)) d]
                                    | _ => x end, Datatypes.S i)) (acc, k) cells)
      = acc ++ rows_from id (N.of_nat k) cells).
    { induction cells as [|c cells IH]; intros acc k; simpl; [by rewrite app_nil_r|].
      rewrite IH. replace (N.of_nat (Datatypes.S k)) with (N.of_nat k + 1) by lia.
      destruct c; [done|done|]. by rewrite <- app_assoc. }
    by rewrite Hf.
  - intros acc i c Hc. cbn [Nat.add].
    rewrite (read_record_refines p a) by done. unfold a_read. rewrite Nat2N.id, Hc.
    by destruct c.
Qed.

Lemma heap_page_ext s s' i : (s' i.1 = s i.1) -> heap_page s i -> heap_page s' i.
Proof. intros He (p & Hp & Hrest). exists p. split; [congruence|done]. Qed.

Lemma table_rep_ext s s' ids t :
  (forall i, i ∈ ids -> s' i = s i) -> table_rep s ids t -> table_rep s' ids t.
Proof.
  intros He [Hids Hf]. split; [done|]. apply Forall_forall. intros [id a] Hin.
  rewrite Forall_forall in Hf. apply (heap_page_ext s); [|by apply Hf].
  apply He. rewrite <- Hids. apply list_elem_of_fmap. by exists (id, a).
Qed.

Section WalkFacts.
Context {S : Type} `{PageAccessLaws S}.
Implicit Types s : S.

Lemma scan_pages_spec ids t : forall rows s,
  ready s -> table_rep (view s) ids t ->
  exists s', scan_pages ids rows s = (Ok (rows ++ table_rows t), s') /\ ready s'
             /\ (forall i, view s' i = view s i) /\ stable s s'.
Proof.
  revert ids; induction t as [|[id a] t IH]; intros ids rows s Hs [<- Hf]; simpl.
  { exists s. by rewrite app_nil_r. }
  apply Forall_cons in Hf as [(p & Hp & Hrep & Hty & Hid & Haddr) Hf]. cbn in Hp, Hrep, Hty, Hid, Haddr.
  destruct (load_law s id p Hs Haddr Hp) as (s1 & Hl & Hs1 & Hv1 & Hst1).
  unfold bind_st at 1. rewrite Hl. unfold bind_st at 1, lift at 1.
  rewrite (scan_page_refines id p a Hrep Hty).
  destruct (IH t.*1 (rows ++ page_rows id a) s1 Hs1) as (s2 & Hr & Hs2 & Hv2 & Hst2).
  { split; [done|]. eapply Forall_impl; [exact Hf|]. intros x. by apply heap_page_ext. }
  exists s2. split_and!; [etrans; [exact Hr|by rewrite <- app_assoc]|done| |by etrans].
  intros i. by rewrite Hv2, Hv1.
Qed.

Lemma insert_into_pages_spec record t : forall ids s,
  ready s -> NoDup ids -> table_rep (view s) ids t ->
  match table_insert record t with
  | Some (r, t') =>
      exists s', insert_into_pages ids record s = (Ok (Some r), s') /\ ready s'
        /\ table_rep (view s') ids t' /\ (forall i, i <> page_id r -> view s' i = view s i)
        /\ stable s s'
  | None =>
      exists s', insert_into_pages ids record s = (Ok None, s') /\ ready s'
        /\ (forall i, view s' i = view s i) /\ stable s s'
  end.
Proof.
  induction t as [|[id a] t IH]; intros ids s Hs Hnd [<- Hf]; simpl; [by exists s|].
  apply Forall_cons in Hf as [(p & Hp & Hrep & Hty & Hid & Haddr) Hf]. cbn in Hp, Hrep, Hty, Hid, Haddr.
  cbn in Hnd. apply NoDup_cons in Hnd as [Hnin Hnd].
  destruct (load_law s id p Hs Haddr Hp) as (s1 & Hl & Hs1 & Hv1 & Hst1).
  unfold bind_st at 1 3. rewrite Hl.
  pose proof (insert_record_refines p a record Hrep) as Hins.
  assert (Htail : table_rep (view s1) t.*1 t).
  { split; [done|]. eapply Forall_impl; [exact Hf|]. intros x. by apply heap_page_ext. }
  destruct (a_insert record a) as [[slot a']|] eqn:Ha.
  - destruct Hins as (p' & -> & Hrep'). apply (page_rows_insert id) in Ha as (_ & Hty' & Hid' & _).
    assert (Hvalid : valid_page id p').
    { rewrite <- Hid, <- Hid'. by apply page_rep_valid. }
    destruct (put_law s1 id p' Hs1 Haddr Hvalid) as (s2 & Hput & Hs2 & Hv2 & Hst2).
    unfold bind_st, ret. rewrite Hput. exists s2. split_and!; [done|done| | |by etrans].
    + split; [done|]. constructor.
      * exists p'. cbn. rewrite Hv2. unfold store_set. rewrite decide_True by done.
        split_and!; congruence.
      * apply Forall_forall. intros x Hx. destruct Htail as [_ Ht]. rewrite Forall_forall in Ht.
        apply (heap_page_ext (view s1)); [|by apply Ht]. rewrite Hv2. unfold store_set.
        rewrite decide_False; [done|]. intros He. apply Hnin. rewrite <- He.
        apply list_elem_of_fmap. by exists x.
    + intros i Hi. cbn in Hi. rewrite Hv2. unfold store_set. by rewrite decide_False, Hv1.
  - destruct Hins as [m ->]. specialize (IH t.*1 s1 Hs1 Hnd Htail).
    destruct (table_insert record t) as [[r t']|] eqn:Ht.
    + destruct IH as (s2 & Hr & Hs2 & [Hids Hrep2] & Hother & Hst2). exists s2.
      split_and!; [exact Hr|done| | |by etrans].
      * split; [by apply (f_equal (cons id))|]. constructor; [|done].
        apply (heap_page_ext (view s)); [|by exists p]. cbn. rewrite Hother, Hv1; [done|].
        intros He. apply table_insert_rows in Ht as (_ & _ & Hin & _); [|done].
        by rewrite <- He in Hin.
      * intros i Hi. by rewrite Hother, Hv1.
    + destruct IH as (s2 & Hr & Hs2 & Hv2 & Hst2). exists s2. split_and!; [exact Hr|done| |by etrans].
      intros i. by rewrite Hv2, Hv1.
Qed.

Lemma read_heap_row_spec s r a :
  ready s -> heap_page (view s) (page_id r, a) ->
  exists s', read_heap_row r s
    = (let? d := a_read a (slot_id r) in
       Ok (match d with Some bs => Some (mkHeapRow r bs) | None => None end), s')
    /\ ready s' /\ (forall i, view s' i = view s i) /\ stable s s'.
Proof.
  intros Hs (p & Hp & Hrep & Hty & Hid & Haddr). cbn in Hp, Hrep, Hty, Haddr.
  destruct (load_law s _ p Hs Haddr Hp) as (s1 & Hl & Hs1 & Hv1 & Hst1).
  unfold read_heap_row, bind_st at 1. rewrite Hl.
  unfold bind_st, lift, ret. rewrite (rep_header_run p a Hrep).
  cbn [header_of h_page_type]. rewrite Hty, bool_decide_true by done. cbn [negb].
  rewrite (read_record_refines p a) by done. exists s1.
  by destruct (a_read a (slot_id r)).
Qed.
End WalkFacts.
