(* ===== verification/HeapDb.v ===== *)
(** * HeapDb: the catalog and the pages together represent tables

    [heap_db c v tables]: with catalog [c], the pages visible through [v] hold
    the tables [tables], one per table relation.  The lemmas say how this
    abstraction moves when a page of a table changes, when a table gets a new
    page and when a table is created; [CatalogStore] and [Transaction] share
    them. *)

From S2P Require Import Prelude Core Bytes Page PageFacts PageOps Vfs VfsFacts PageStore Catalog CatalogFacts CatalogWf Heap.

Definition table : Type := list (PageId * APage).
Definition set_table (id : RelationId) (t : table) (tables : RelationId -> table) : RelationId -> table :=
  fun i => if decide (i = id) then t else tables i.

Record heap_db (c : Catalog) (v : PageId -> option Page) (tables : RelationId -> table) : Prop := {
  hd_wf : catalog_wf c;
  hd_tables : forall r, r ∈ relations c -> rel_kind r = Table ->
    table_rep v (rel_heap_pages r) (tables (rel_id r))
}.

(** [id] is the heap table [r]. *)
Definition is_table (c : Catalog) (id : RelationId) (r : RelationInfo) : Prop :=
  relation_by_id id c = Some r /\ rel_kind r = Table.

(** ** Pages and relations *)

Lemma rel_pages_incl c r p : r ∈ relations c -> p ∈ rel_pages r -> p ∈ catalog_pages c.
Proof. intros Hr Hp. apply list_elem_of_bind. by exists r. Qed.

Lemma table_pages c r :
  catalog_wf c -> r ∈ relations c -> rel_kind r = Table ->
  exists pages, storage r = Heap pages /\ rel_heap_pages r = pages /\ rel_pages r = pages.
Proof.
  intros Hc Hr Hk. pose proof (wf_shape _ Hc) as Hs. rewrite Forall_forall in Hs.
  specialize (Hs r Hr). unfold relation_shape, rel_heap_pages, rel_pages in *. rewrite Hk in Hs.
  destruct (storage r) as [pages|s]; [|done]. by exists pages.
Qed.

Lemma bind_NoDup_disjoint {A B} (f : A -> list B) l i j x y b :
  NoDup (l ≫= f) -> l !! i = Some x -> l !! j = Some y -> b ∈ f x -> b ∈ f y -> i = j.
Proof.
  revert i j; induction l as [|z l IH]; intros i j Hnd Hi Hj Hx Hy; [done|].
  rewrite bind_cons in Hnd. apply NoDup_app in Hnd as (_ & Hdis & Hnd).
  destruct i as [|i], j as [|j]; simpl in *; [done| | |].
  - injection Hi as ->. exfalso. apply (Hdis b Hx). apply list_elem_of_bind.
    exists y. split; [done|]. by eapply list_elem_of_lookup_2.
  - injection Hj as ->. exfalso. apply (Hdis b Hy). apply list_elem_of_bind.
    exists x. split; [done|]. by eapply list_elem_of_lookup_2.
  - f_equal. by apply (IH i j).
Qed.

Lemma bind_NoDup_member {A B} (f : A -> list B) l x : NoDup (l ≫= f) -> x ∈ l -> NoDup (f x).
Proof.
  induction l as [|z l IH]; intros Hnd; [by intros ?%not_elem_of_nil|].
  rewrite bind_cons in Hnd. apply NoDup_app in Hnd as (Hz & _ & Hnd).
  intros [->|Hx]%elem_of_cons; auto.
Qed.

(** A page belongs to one relation. *)
Lemma page_owner c r r' p :
  catalog_wf c -> r ∈ relations c -> r' ∈ relations c -> p ∈ rel_pages r -> p ∈ rel_pages r' -> r = r'.
Proof.
  intros Hc Hr Hr' Hp Hp'. apply list_elem_of_lookup in Hr as [i Hi].
  apply list_elem_of_lookup in Hr' as [j Hj].
  assert (i = j) as -> by (by eapply (bind_NoDup_disjoint _ _ _ _ _ _ p (wf_pages _ Hc))).
  congruence.
Qed.

Lemma relation_id_inj c r r' :
  catalog_wf c -> r ∈ relations c -> r' ∈ relations c -> rel_id r = rel_id r' -> r = r'.
Proof.
  intros Hc Hr Hr' He. apply list_elem_of_lookup in Hr as [i Hi].
  apply list_elem_of_lookup in Hr' as [j Hj].
  pose proof (find_relation_lookup c i r (wf_ids _ Hc) Hi) as H1.
  pose proof (find_relation_lookup c j r' (wf_ids _ Hc) Hj) as H2. rewrite He in H1. congruence.
Qed.

Lemma is_table_rep c v tables id r :
  heap_db c v tables -> is_table c id r ->
  exists pages, storage r = Heap pages /\ rel_heap_pages r = pages /\ NoDup pages
    /\ r ∈ relations c /\ rel_id r = id /\ table_rep v pages (tables id).
Proof.
  intros Hdb [Hid Hk]. apply relation_by_id_Some in Hid as [Hin Hid].
  destruct (table_pages c r (hd_wf _ _ _ Hdb) Hin Hk) as (pages & Hs & Hh & Hrp).
  exists pages. split_and!; try done.
  - rewrite <- Hrp. by apply (bind_NoDup_member _ _ _ (wf_pages _ (hd_wf _ _ _ Hdb))).
  - rewrite <- Hh, <- Hid. by apply (hd_tables _ _ _ Hdb).
Qed.

(** Pages of relations are allocated, so a fresh page is none of them. *)
Lemma table_page_range c r p : catalog_wf c -> r ∈ relations c -> p ∈ rel_pages r -> 1 <= p < next_page_id c.
Proof.
  intros Hc Hr Hp. pose proof (wf_page_range _ Hc) as Hrng. rewrite Forall_forall in Hrng.
  apply Hrng. by eapply rel_pages_incl.
Qed.

Lemma heap_db_view c v v' tables :
  (forall i, 1 <= i < next_page_id c -> v' i = v i) -> heap_db c v tables -> heap_db c v' tables.
Proof.
  intros Hv [Hc Ht]. split; [done|]. intros r Hr Hk.
  destruct (table_pages c r Hc Hr Hk) as (pages & _ & Hh & Hrp).
  apply (table_rep_ext v); [|by apply Ht]. intros i Hi. apply Hv.
  rewrite Hh, <- Hrp in Hi. by eapply table_page_range.
Qed.

(** ** Updates *)

(** The pages of one table change, and no page of another relation does. *)
Lemma heap_db_update c v v' tables id r t' :
  heap_db c v tables -> is_table c id r -> table_rep v' (rel_heap_pages r) t' ->
  (forall i, i ∉ rel_heap_pages r -> 1 <= i < next_page_id c -> v' i = v i) ->
  heap_db c v' (set_table id t' tables).
Proof.
  intros Hdb Hit Ht' Hv. pose proof Hdb as [Hc Ht].
  destruct (is_table_rep _ _ _ _ _ Hdb Hit) as (pages & Hs & Hh & Hnd & Hin & Hid & _).
  split; [done|]. intros r' Hr' Hk'. unfold set_table. case_decide as Hd.
  - assert (r' = r) as -> by (apply (relation_id_inj c); congruence). done.
  - apply (table_rep_ext v); [|by apply Ht]. intros i Hi.
    destruct (table_pages c r' Hc Hr' Hk') as (pages' & _ & Hh' & Hrp').
    rewrite Hh', <- Hrp' in Hi. apply Hv.
    + intros Hir. rewrite Hh in Hir. apply Hd. rewrite <- Hid. f_equal.
      apply (page_owner c r' r i); try done.
      unfold rel_pages. by rewrite Hs.
    + by eapply table_page_range.
Qed.

(** A table gets the fresh page [p], which holds [a]. *)
Lemma append_heap_page_run c id r p :
  catalog_wf c -> is_table c id r ->
  exists i pages, relations c !! i = Some r /\ storage r = Heap pages
    /\ append_heap_page id p c
       = (Ok tt, with_relations (<[i := with_storage (Heap (pages ++ [p])) r]> (relations c)) c).
Proof.
  intros Hc [Hid Hk]. unfold relation_by_id, append_heap_page, bind_st, gets in *.
  destruct (find_relation id c) as [[i x]|] eqn:Hf; [|done]. cbn in Hid. injection Hid as ->.
  apply find_first_Some in Hf as [Hi _].
  destruct (table_pages c r Hc ltac:(by eapply list_elem_of_lookup_2) Hk) as (pages & Hs & _).
  exists i, pages. rewrite Hs, bool_decide_true by done. done.
Qed.

(** What appending a heap page changes of the catalog. *)
Lemma append_heap_page_frame c id r p c' :
  catalog_wf c -> is_table c id r -> append_heap_page id p c = (Ok tt, c') ->
  schema c' = schema c /\ (forall id', id' <> id -> relation_by_id id' c' = relation_by_id id' c)
  /\ (forall r' i, r' ∈ relations c' -> rel_kind r' = Table -> i ∈ rel_heap_pages r' ->
        (exists r0, r0 ∈ relations c /\ rel_kind r0 = Table /\ i ∈ rel_heap_pages r0) \/ i = p).
Proof.
  intros Hc Hit Hrun. destruct (append_heap_page_run c id r p Hc Hit) as (i & pages & Hi & Hs & Hrun').
  rewrite Hrun in Hrun'. injection Hrun' as ->. destruct Hit as [Hid Hk].
  apply relation_by_id_Some in Hid as [Hin Hid]. split; [|split].
  - apply (schema_replace c i r); [done|]. unfold rel_schema, index_storage. cbn. by rewrite Hs.
  - intros id' Hne. apply find_first_insert_other with r; [done|apply N.eqb_neq..]; cbn; congruence.
  - intros r' j Hr' Hk' Hj. apply list_elem_of_lookup in Hr' as [n Hn]. cbn [relations with_relations] in Hn.
    apply list_lookup_insert_Some in Hn as [(_ & <- & _)|[_ Hn]].
    + cbn in Hj. apply elem_of_app in Hj as [Hj|Hj%list_elem_of_singleton]; [left|by right].
      exists r. split; [done|]. split; [done|]. unfold rel_heap_pages. by rewrite Hs.
    + left. exists r'. split; [by eapply list_elem_of_lookup_2|done].
Qed.

Lemma heap_db_new_page c v v' tables id r p a :
  heap_db c v tables -> is_table c id r -> fresh_page p c ->
  (forall i, i <> p -> 1 <= i < next_page_id c -> v' i = v i) -> heap_page v' (p, a) ->
  exists c', append_heap_page id p c = (Ok tt, c')
    /\ heap_db c' v' (set_table id (tables id ++ [(p, a)]) tables)
    /\ next_page_id c' = next_page_id c.
Proof.
  intros Hdb Hit Hp Hv Ha. pose proof Hdb as [Hc Ht].
  destruct (is_table_rep _ _ _ _ _ Hdb Hit) as (pages & Hs & Hh & Hnd & Hin & Hid & [Hids Hall]).
  destruct (append_heap_page_run c id r p Hc Hit) as (i & pages' & Hi & Hs' & Hrun).
  assert (pages' = pages) as -> by congruence.
  eexists. split; [exact Hrun|]. split; [|done].
  pose proof (append_heap_page_wf id p c Hc (fresh_attachable p c Hc Hp)) as Hwf. rewrite Hrun in Hwf. cbn [snd] in Hwf.
  assert (Hpn : forall r', r' ∈ relations c -> p ∉ rel_pages r').
  { intros r' Hr' Hpr. destruct Hp as [_ Hp]. apply Hp. by eapply rel_pages_incl. }
  assert (Hext : forall r', r' ∈ relations c -> rel_kind r' = Table ->
            table_rep v' (rel_heap_pages r') (tables (rel_id r'))).
  { intros r' Hr' Hk'. destruct (table_pages c r' Hc Hr' Hk') as (ps & _ & Hh' & Hrp').
    apply (table_rep_ext v); [|by apply Ht]. intros k Hk. rewrite Hh', <- Hrp' in Hk.
    apply Hv; [|by eapply table_page_range]. intros ->. by eapply Hpn. }
  split; [done|]. cbn [with_relations relations]. intros r' Hr' Hk'.
  apply list_elem_of_lookup in Hr' as [j Hj]. unfold set_table.
  destruct (decide (i = j)) as [<-|Hne].
  - rewrite list_lookup_insert_eq in Hj by (by eapply lookup_lt_Some). injection Hj as <-.
    cbn [with_storage rel_id]. rewrite decide_True by done.
    destruct (Hext r Hin (proj2 Hit)) as [Hids' Hall']. rewrite Hid in Hids', Hall'.
    split; [|by apply Forall_app_2; [|constructor]].
    rewrite fmap_app, Hids'. unfold rel_heap_pages. cbn [with_storage storage storage_heap_pages].
    by rewrite Hs.
  - rewrite list_lookup_insert_ne in Hj by done.
    rewrite decide_False.
    + apply Hext; [by eapply list_elem_of_lookup_2|done].
    + intros He. apply Hne.
      pose proof (find_relation_lookup c i r (wf_ids _ Hc) Hi) as H1.
      pose proof (find_relation_lookup c j r' (wf_ids _ Hc) Hj) as H2. congruence.
Qed.
