(* ===== verification/CatalogStore.v ===== *)
(** * CatalogStore: heap tables over a page file

    [CatalogStore] of crate [rdbms_catalog] keeps an open page file and the
    in-memory catalog.  Every operation is translated as the code orders its
    effects: the catalog in memory changes first, pages are written, and the
    catalog page last. *)

From S2P Require Import Prelude Core Bytes Page PageFacts PageOps Vfs VfsFacts PageStore Catalog CatalogFacts CatalogWf Heap HeapDb.

(** Pages of a page file: [PageFile::read_page] and [PageFile::write_page]. *)
#[export] Instance file_access {F : Type} `{VfsFile F} : PageAccess F := {
  load_page := read_page;
  put_page _ page := write_page page
}.

Record CatalogStore (F : Type) : Type := mkCatalogStore { page_file : F; catalog : Catalog }.
Arguments mkCatalogStore {F} page_file catalog.
Arguments page_file {F} c.
Arguments catalog {F} c.

(** [ensure_heap_relation] and [heap_pages], which only look at the catalog. *)
Definition ensure_heap_relation (relation_id : RelationId) (c : Catalog) : DbResult unit :=
  let? r := ok_or (relation_by_id relation_id c) (unknown_relation relation_id) in
  if negb (bool_decide (rel_kind r = Table)) then Err (not_a_heap_table relation_id) else Ok tt.

Definition heap_pages (relation_id : RelationId) (c : Catalog) : DbResult (list PageId) :=
  let? r := ok_or (relation_by_id relation_id c) (unknown_relation relation_id) in
  Ok (rel_heap_pages r).

Definition foreign_page (r : RowId) (relation_id : RelationId) : DbError :=
  User ("row page " +:+ pretty (page_id r) +:+ " does not belong to relation "
        +:+ pretty relation_id).

Section CatalogStore.
Context {F : Type} `{VfsFile F}.

(** [self.page_file.method()] and [self.catalog.method()]. *)
Definition on_file {A : Type} (m : db F A) : db (CatalogStore F) A :=
  zoom page_file (fun f s => mkCatalogStore f (catalog s)) m.
Definition on_catalog {A : Type} (m : db Catalog A) : db (CatalogStore F) A :=
  zoom catalog (fun c s => mkCatalogStore (page_file s) c) m.
Definition ask_catalog {A : Type} (q : Catalog -> DbResult A) : db (CatalogStore F) A :=
  fun s => (q (catalog s), s).

(** [self.catalog.save(&mut self.page_file)]. *)
Definition save_catalog : db (CatalogStore F) unit :=
  let! c := gets catalog in
  on_file (save c).

Definition open : db F (CatalogStore F) := fun f =>
  match load_or_bootstrap f with
  | (Ok c, f') => (Ok (mkCatalogStore f' c), f')
  | (Err e, f') => (Err e, f')
  | (Panic, f') => (Panic, f')
  end.

Definition create_table (name : string) (cols : list ColumnDef) : db (CatalogStore F) RelationId :=
  let! (relation_id, first_page_id) := on_catalog (create_table_metadata name cols) in
  let page := page_new first_page_id Page.Heap in
  let! _ := on_file (write_page page) in
  let! _ := save_catalog in
  ret relation_id.

(** The end of [insert_row], when no page of the table has room. *)
Definition insert_new_page (relation_id : RelationId) (record : list byte)
  : db (CatalogStore F) RowId :=
  let! page_id := on_catalog allocate_page_id in
  let '(slot, page) := insert_record record (page_new page_id Page.Heap) in
  let! slot_id := lift slot in
  let! _ := on_file (write_page page) in
  let! _ := on_catalog (append_heap_page relation_id page_id) in
  let! _ := save_catalog in
  ret (mkRowId page_id slot_id).

Definition insert_row (relation_id : RelationId) (record : list byte) : db (CatalogStore F) RowId :=
  let! _ := ask_catalog (ensure_heap_relation relation_id) in
  let! page_ids := ask_catalog (heap_pages relation_id) in
  let! found := on_file (insert_into_pages page_ids record) in
  match found with
  | Some row => ret row
  | None => insert_new_page relation_id record
  end.

Definition full_scan (relation_id : RelationId) : db (CatalogStore F) (list HeapRow) :=
  let! _ := ask_catalog (ensure_heap_relation relation_id) in
  let! page_ids := ask_catalog (heap_pages relation_id) in
  on_file (scan_pages page_ids []).

Definition read_row (relation_id : RelationId) (r : RowId) : db (CatalogStore F) (option HeapRow) :=
  let! _ := ask_catalog (ensure_heap_relation relation_id) in
  let! page_ids := ask_catalog (heap_pages relation_id) in
  if negb (bool_decide (page_id r ∈ page_ids)) then throw (foreign_page r relation_id) else
  on_file (read_heap_row r).

Definition sync_data : db (CatalogStore F) unit := on_file file_sync_data.

Definition replace_catalog (c : Catalog) : db (CatalogStore F) unit :=
  modify (fun s => mkCatalogStore (page_file s) c).
End CatalogStore.

(** ** Files as page stores *)

#[export] Instance file_access_laws {F : Type} `{VfsLaws F} : PageAccessLaws F.
Proof.
  refine {| view f := page_store (contents f);
            ready f := healthy f /\ aligned (contents f);
            stable _ _ := True |}.
  - by split.
  - intros f id p [Hf Ha] Had Hp. cbn [load_page file_access].
    destruct (read_page id f) as [r f'] eqn:Hr.
    apply read_page_spec in Hr as (Hc & _ & Hh & _ & Hr). rewrite Hr by done. exists f'.
    unfold page_store in *. rewrite Hc.
    destruct (stored_page (contents f) id); try done. injection Hp as ->.
    split_and!; [done|auto| |done|done]. cbn beta. congruence.
  - intros f id p [Hf Ha] Had Hv. cbn [put_page file_access].
    pose proof Hv as (Hs & _ & h & Hh & Hid).
    unfold write_page, bind_st at 1, lift at 1. rewrite Hh, Hid.
    destruct (write_page_at id p f) as [r f'] eqn:Hw.
    apply write_page_at_spec in Hw as (_ & Hhf & Hok & _ & Hall); [|done].
    rewrite Hall by done. destruct (Hok (Hall Hf Had Hv)) as [_ Hc]. exists f'.
    split_and!; [done|auto| | |done].
    + rewrite Hc. by apply aligned_write.
    + intros i. cbn beta. rewrite Hc. by apply page_store_write.
Defined.

(** ** The abstraction of a catalog store *)

(** Page 0 holds the record of [c]. *)
Definition stored_catalog (v : PageId -> option Page) (c : Catalog) : Prop :=
  exists p a bs, v CATALOG_PAGE_ID = Some p /\ page_rep p a /\ a_type a = Page.Catalog
    /\ a_cells a = [CLive bs] /\ encode_catalog c = Ok bs /\ len bs <= U16_MAX.

(** What opening the pages [v] shows. *)
Definition durable (v : PageId -> option Page) (tables : RelationId -> table) : Prop :=
  exists c, stored_catalog v c /\ heap_db c v tables.

(** The store holds [tables], and its catalog is the one on page 0. *)
Record store_rep {F} `{VfsLaws F} (s : CatalogStore F) (tables : RelationId -> table) : Prop := {
  sr_ready : ready (page_file s);
  sr_db : heap_db (catalog s) (view (page_file s)) tables;
  sr_saved : stored_catalog (view (page_file s)) (catalog s)
}.
