(* ===== verification/CatalogStoreFacts.v ===== *)
(** * CatalogStoreFacts: the steps of the heap operations *)

From S2P Require Import Prelude Core Bytes Page PageFacts PageOps Vfs VfsFacts PageStore Catalog CatalogFacts CatalogWf CatalogTheorems Heap HeapDb CatalogStore.

(** ** Programs whose only failures are user errors *)

Definition ok_or_user {A} (r : DbResult A) : Prop :=
  match r with Ok _ | Err (User _) => True | _ => False end.
Definition only_user {S A} (m : db S A) : Prop := forall s, ok_or_user (m s).1.

Create HintDb user discriminated.

Lemma only_user_bind {S A B} (m : db S A) (k : A -> db S B) :
  only_user m -> (forall a, only_user (k a)) -> only_user (bind_st m k).
Proof.
  intros Hm Hk s. unfold bind_st. specialize (Hm s). destruct (m s) as [[a|e|] s']; [|done|done].
  apply Hk.
Qed.

Lemma only_user_ret {S A} (a : A) : only_user (ret (S := S) a).
Proof. by intros s. Qed.
Lemma only_user_throw {S A} m : only_user (throw (S := S) (A := A) (User m)).
Proof. by intros s. Qed.
Lemma only_user_gets {S A} (f : S -> A) : only_user (gets f).
Proof. by intros s. Qed.
Lemma only_user_modify {S} (f : S -> S) : only_user (modify f).
Proof. by intros s. Qed.
Lemma only_user_lift {S A} (r : DbResult A) : ok_or_user r -> only_user (lift (S := S) r).
Proof. by intros Hr s. Qed.
Lemma only_user_if {S A} (b : bool) (m1 m2 : db S A) :
  only_user m1 -> only_user m2 -> only_user (if b then m1 else m2).
Proof. by destruct b. Qed.
Lemma only_user_for_each {S B} (f : B -> db S unit) xs :
  (forall x, only_user (f x)) -> only_user (for_each f xs).
Proof.
  intros Hf. induction xs; simpl; [apply only_user_ret|]. by apply only_user_bind; [|intros _].
Qed.

#[export] Hint Resolve only_user_bind only_user_ret only_user_throw only_user_gets only_user_modify
  only_user_lift only_user_if only_user_for_each : user.

Lemma only_user_push_len wn max msg n : only_user (push_len wn max msg n).
Proof. unfold push_len, push_uint, extend_from_slice. auto with user. Qed.
#[export] Hint Resolve only_user_push_len : user.

Lemma only_user_push_uint wn n : only_user (push_uint wn n).
Proof. apply only_user_modify. Qed.
Lemma only_user_extend bs : only_user (extend_from_slice bs).
Proof. apply only_user_modify. Qed.
Lemma only_user_u16_len n t : only_user (write_u16_len n t).
Proof. apply only_user_push_len. Qed.
Lemma only_user_u32_len n t : only_user (write_u32_len n t).
Proof. apply only_user_push_len. Qed.
#[export] Hint Resolve only_user_push_uint only_user_extend only_user_u16_len only_user_u32_len : user.

Lemma only_user_string s : only_user (write_string s).
Proof. unfold write_string. auto with user. Qed.
#[export] Hint Resolve only_user_string : user.

Lemma only_user_storage s : only_user (encode_storage_object s).
Proof. destruct s; cbn [encode_storage_object]; auto 20 with user. Qed.
#[export] Hint Resolve only_user_storage : user.

Lemma only_user_column c : only_user (encode_column c).
Proof. unfold encode_column. auto with user. Qed.
#[export] Hint Resolve only_user_column : user.

Lemma only_user_relation r : only_user (encode_relation r).
Proof. unfold encode_relation. auto 20 with user. Qed.
Lemma only_user_extension e : only_user (encode_extension e).
Proof. unfold encode_extension. auto 20 with user. Qed.
#[export] Hint Resolve only_user_relation only_user_extension : user.

Lemma only_user_encode c : only_user (encode_catalog_to c).
Proof. unfold encode_catalog_to. auto 30 with user. Qed.

(** The catalog page can be built, or the record is too long: a user error. *)
Lemma to_page_ok_or_user c : ok_or_user (to_page c).
Proof.
  unfold to_page, encode_catalog. pose proof (only_user_encode c []) as He.
  destruct (encode_catalog_to c []) as [[[]|e|] bs]; cbn [bind_outcome fst] in *; [|done|done].
  pose proof (page_new_refines CATALOG_PAGE_ID Page.Catalog ltac:(done)) as Hn.
  pose proof (insert_record_refines _ _ bs Hn) as Hi.
  destruct (a_insert bs _) as [[i ap]|]; [destruct Hi as (p & -> & _)|destruct Hi as [m ->]]; done.
Qed.

Lemma validate_name_ok_or_user kind name : ok_or_user (validate_name kind name).
Proof. unfold validate_name. by repeat case_test. Qed.

Lemma validate_columns_ok_or_user cols : ok_or_user (validate_columns cols).
Proof.
  unfold validate_columns. case_test; [done|]. clear Hb. generalize (@nil ColumnDef).
  induction cols as [|c cols IH]; intros prev; simpl; [done|].
  pose proof (validate_name_ok_or_user "column" (col_name c)).
  destruct (validate_name "column" _); simpl; [|done|done].
  pose proof (validate_name_ok_or_user "type" (type_name c)).
  destruct (validate_name "type" _); simpl; [|done|done].
  case_test; [done|]. apply IH.
Qed.

Lemma only_user_allocate_page : only_user allocate_page_id.
Proof. intros c. unfold allocate_page_id. by destruct (checked_add _ _ _). Qed.
Lemma only_user_allocate_relation : only_user allocate_relation_id.
Proof. intros c. unfold allocate_relation_id. by destruct (checked_add _ _ _). Qed.
#[export] Hint Resolve validate_name_ok_or_user validate_columns_ok_or_user
  only_user_allocate_page only_user_allocate_relation : user.

Lemma only_user_create_table name cols : only_user (create_table_metadata name cols).
Proof.
  unfold create_table_metadata, push_relation. apply only_user_bind; [auto with user|intros _].
  apply only_user_bind; [auto with user|intros _]. apply only_user_bind; [auto with user|intros old].
  destruct old; auto 20 with user.
Qed.

(** ** The catalog page of a page store *)

Lemma stored_catalog_ext v v' c :
  v' CATALOG_PAGE_ID = v CATALOG_PAGE_ID -> stored_catalog v c -> stored_catalog v' c.
Proof. intros He (p & a & bs & Hp & Hrest). exists p, a, bs. by rewrite He. Qed.

Lemma addressable_catalog_page : addressable CATALOG_PAGE_ID.
Proof. unfold addressable, CATALOG_PAGE_ID, U64_MAX, PAGE_SIZE. lia. Qed.

(** [save], as the write of page 0. *)
Lemma save_run {F} `{VfsLaws F} (f : F) c :
  ready f ->
  match to_page c with
  | Ok p => exists f', save c f = (Ok tt, f') /\ ready f'
              /\ (forall i, view f' i = store_set CATALOG_PAGE_ID p (view f) i)
              /\ stored_catalog (view f') c
  | Err e => save c f = (Err e, f)
  | Panic => False
  end.
Proof.
  intros Hf. pose proof (to_page_ok_or_user c) as Hu. unfold save, bind_st, lift.
  destruct (to_page c) as [p|e|] eqn:Hp; [|done|done].
  destruct (to_page_Ok c p Hp) as (bs & a & Hb & Hrep & Hid & Hty & Hcells & Hlen).
  destruct (put_law f CATALOG_PAGE_ID p Hf addressable_catalog_page) as (f' & Hw & Hf' & Hv & _).
  { rewrite <- Hid. by apply page_rep_valid. }
  cbn [put_page file_access] in Hw. exists f'. split; [done|]. split; [done|]. split; [done|].
  by exists p, a, bs.
Qed.

(** Opening a page store whose page 0 holds [c] loads [c]. *)
Lemma open_stored {F} `{VfsLaws F} (f : F) c :
  ready f -> len (contents f) <= U64_MAX -> catalog_typed c -> stored_catalog (view f) c ->
  exists f', open f = (Ok (mkCatalogStore f' c), f') /\ ready f' /\ contents f' = contents f.
Proof.
  intros [Hf Ha] Hl Hc (p & a & bs & Hp & Hrep & Hty & Hcells & Hb & Hlen).
  cbn [view file_access_laws] in Hp. unfold page_store in Hp.
  destruct (stored_page (contents f) CATALOG_PAGE_ID) as [q| |] eqn:Hq; try done. injection Hp as ->.
  destruct (load_stored f p a bs Hf Hl Hq Hrep Hty Hcells) as (f' & Hr & Hcf & Hf').
  unfold open. rewrite Hr, (decode_encoded_catalog c bs); [|done|done|].
  - exists f'. split; [done|]. split; [|done]. split; [done|]. by rewrite Hcf.
  - unfold USIZE_MAX, U64_MAX, U16_MAX in *. lia.
Qed.

(** ** New tables *)

Lemma create_table_metadata_run c name cols id p c' :
  create_table_metadata name cols c = (Ok (id, p), c') ->
  relation_by_name name c = None /\ id = next_relation_id c /\ p = next_page_id c
  /\ c' = mkCatalog (next_relation_id c + 1) (next_page_id c + 1)
            (relations c ++ [mkRelationInfo id name Table (Heap [p]) cols]) (extensions c).
Proof.
  unfold create_table_metadata. intros H.
  apply bind_st_inv in H as ([] & c1 & H1 & H). apply bind_st_inv in H as ([] & c2 & H2 & H).
  injection H1 as _ <-. injection H2 as _ <-. unfold bind_st at 1, gets in H.
  destruct (relation_by_name name c) as [old|]; [done|]. split; [done|]. revert H.
  unfold bind_st, allocate_relation_id, allocate_page_id.
  destruct (checked_add _ (next_relation_id c) 1) as [n|] eqn:E1; [|done].
  cbn [with_next_relation next_page_id].
  destruct (checked_add _ (next_page_id c) 1) as [m|] eqn:E2; [|done].
  intros [= <- <- <-]. apply checked_add_Some in E1 as [-> _]. by apply checked_add_Some in E2 as [-> _].
Qed.

(** A new table whose page holds [a]. *)
Lemma heap_db_new_table c v v' tables name cols id p c' a :
  heap_db c v tables -> string_ok name -> Forall column_typed cols ->
  create_table_metadata name cols c = (Ok (id, p), c') ->
  (forall i, 1 <= i < next_page_id c -> v' i = v i) -> heap_page v' (p, a) ->
  heap_db c' v' (set_table id [(p, a)] tables).
Proof.
  intros Hdb Hn Hcols Hrun Hv Ha. pose proof (create_table_wf name cols Hn Hcols c (hd_wf _ _ _ Hdb)) as Hwf.
  rewrite Hrun in Hwf. cbn [snd] in Hwf.
  apply create_table_metadata_run in Hrun as (_ & Hid & Hp & Hc').
  split; [done|]. intros r Hr Hk. subst c'. cbn [relations] in Hr. unfold set_table.
  apply elem_of_app in Hr as [Hr|Hr%list_elem_of_singleton].
  - rewrite decide_False.
    + apply (hd_tables _ _ _ (heap_db_view c v v' tables Hv Hdb)); done.
    + pose proof (wf_id_range _ (hd_wf _ _ _ Hdb)) as Hrng. rewrite Forall_forall in Hrng.
      apply Hrng in Hr. lia.
  - subst r. cbn [rel_id]. rewrite decide_True by done. split; [done|]. by constructor.
Qed.

(** ** Looking a table up *)

Lemma ensure_heap_relation_ok c id r : is_table c id r -> ensure_heap_relation id c = Ok tt.
Proof. intros [Hid Hk]. unfold ensure_heap_relation. rewrite Hid. simpl. by rewrite Hk. Qed.

Lemma heap_pages_ok c id r : is_table c id r -> heap_pages id c = Ok (rel_heap_pages r).
Proof. intros [Hid _]. unfold heap_pages. by rewrite Hid. Qed.

Lemma table_page_positive c v tables id r p :
  heap_db c v tables -> is_table c id r -> p ∈ rel_heap_pages r -> 1 <= p < next_page_id c.
Proof.
  intros Hdb Hit Hp. destruct (is_table_rep _ _ _ _ _ Hdb Hit) as (pages & Hs & Hh & _ & Hin & _).
  apply (table_page_range c r p); [apply Hdb|done|]. unfold rel_pages. rewrite Hs. by rewrite <- Hh.
Qed.

Lemma fresh_heap_page v v' p pg a :
  (forall i, v' i = store_set p pg v i) -> page_rep pg a -> a_type a = Page.Heap -> a_id a = p ->
  addressable p -> heap_page v' (p, a).
Proof.
  intros Hv Hrep Hty Hid Had. exists pg. cbn. split_and!; try done.
  rewrite Hv. unfold store_set. by rewrite decide_True.
Qed.

(** ** Steps on a store *)

Section Steps.
Context {F : Type} `{VfsLaws F}.
Implicit Types s : CatalogStore F.

(** The operations on a heap table start by looking the table up. *)
Lemma on_table {A} s id r (k : list PageId -> db (CatalogStore F) A) :
  is_table (catalog s) id r ->
  (let! _ := ask_catalog (ensure_heap_relation id) in
   let! page_ids := ask_catalog (heap_pages id) in k page_ids) s
  = k (rel_heap_pages r) s.
Proof.
  intros Hit. unfold bind_st, ask_catalog.
  by rewrite (ensure_heap_relation_ok _ _ _ Hit), (heap_pages_ok _ _ _ Hit).
Qed.

(** The view did not change: neither did anything the store says. *)
Lemma store_rep_same_view s (f : F) tables :
  store_rep s tables -> ready f -> (forall i, view f i = view (page_file s) i) ->
  store_rep (mkCatalogStore f (catalog s)) tables.
Proof.
  intros [Hr Hdb Hs] Hf Hv. split; [done| |]; cbn [catalog page_file].
  - exact (heap_db_view _ _ _ _ (fun i _ => Hv i) Hdb).
  - exact (stored_catalog_ext _ _ _ (Hv _) Hs).
Qed.

Lemma store_rep_durable s tables : store_rep s tables -> durable (view (page_file s)) tables.
Proof. intros [? ? ?]. by exists (catalog s). Qed.

(** A page that the stored catalog does not know changes nothing durable. *)
Lemma durable_fresh_page s (f : F) tables p pg :
  store_rep s tables -> next_page_id (catalog s) <= p ->
  (forall i, view f i = store_set p pg (view (page_file s)) i) -> durable (view f) tables.
Proof.
  intros [_ Hdb Hs] Hp Hv. exists (catalog s).
  pose proof (wf_next_page _ (hd_wf _ _ _ Hdb)). split.
  - apply (stored_catalog_ext (view (page_file s))); [|done]. rewrite Hv. unfold store_set.
    rewrite decide_False; [done|]. unfold CATALOG_PAGE_ID. lia.
  - apply (heap_db_view _ (view (page_file s))); [|done]. intros i Hi. rewrite Hv. unfold store_set.
    rewrite decide_False; [done|]. lia.
Qed.

(** Writing a fresh heap page of a page with room. *)
Lemma write_fresh_page (f : F) pg a :
  ready f -> page_rep pg a -> addressable (a_id a) ->
  exists f', write_page pg f = (Ok tt, f') /\ ready f'
    /\ forall i, view f' i = store_set (a_id a) pg (view f) i.
Proof. intros Hf Hrep Had.
  destruct (put_law f (a_id a) pg Hf Had (page_rep_valid _ _ Hrep)) as (f' & Hw & Hf' & Hv & _).
  by exists f'. Qed.

(** The last steps of [create_table] and [insert_row]: the catalog in memory is
    ahead of page 0, and is saved. *)
Lemma save_catalog_run (f : F) c tables :
  ready f -> heap_db c (view f) tables ->
  match save_catalog (mkCatalogStore f c) with
  | (Ok _, s') => store_rep s' tables /\ catalog s' = c
  | (Err (User _), s') => s' = mkCatalogStore f c
  | _ => False
  end.
Proof.
  intros Hf Hdb. unfold save_catalog, bind_st at 1, gets, on_file, zoom. cbn [page_file catalog].
  pose proof (save_run f c Hf) as Hs. pose proof (to_page_ok_or_user c) as Hu.
  destruct (to_page c) as [p|e|]; [|rewrite Hs; by destruct e|done].
  destruct Hs as (f' & -> & Hf' & Hv & Hst). split; [|done]. split; [done| |done].
  apply (heap_db_view _ (view f)); [|done]. intros i Hi. rewrite Hv. unfold store_set.
  rewrite decide_False; [done|]. unfold CATALOG_PAGE_ID. lia.
Qed.
End Steps.

(** ** A row on a new page *)

Lemma insert_new_page_spec {F} `{VfsLaws F} (s : CatalogStore F) tables id r record :
  store_rep s tables -> is_table (catalog s) id r -> addressable (next_page_id (catalog s)) ->
  match insert_new_page id record s with
  | (Ok row, s') => exists a slot,
      let p := next_page_id (catalog s) in
      a_insert record (a_new p Page.Heap) = Some (slot, a) /\ row = mkRowId p slot
      /\ store_rep s' (set_table id (tables id ++ [(p, a)]) tables)
  | (Err (User _), s') => durable (view (page_file s')) tables
  | _ => False
  end.
Proof.
  intros Hs Hit Had. set (p := next_page_id (catalog s)) in *. pose proof (sr_db _ _ Hs) as Hdb.
  pose proof (allocate_page_id_wf _ (hd_wf _ _ _ Hdb)) as Hwf.
  pose proof (allocate_page_id_fresh (catalog s) p) as Hfresh.
  unfold insert_new_page, bind_st at 1, on_catalog, zoom. unfold allocate_page_id in *.
  rewrite checked_add_ok in * by (unfold addressable, U64_MAX, PAGE_SIZE in *; lia).
  specialize (Hfresh _ (hd_wf _ _ _ Hdb) eq_refl). cbn [snd] in Hwf.
  set (c1 := with_next_page (next_page_id (catalog s) + 1) (catalog s)) in *. fold p.
  assert (Hp : p <= U64_MAX) by (unfold addressable, U64_MAX, PAGE_SIZE in *; lia).
  pose proof (insert_record_refines _ _ record (page_new_refines p Page.Heap Hp)) as Hins.
  destruct (a_insert record (a_new p Page.Heap)) as [[slot a]|] eqn:Ha.
  2: { destruct Hins as [m ->]. cbn [lift]. unfold bind_st, lift. cbn [page_file].
       by apply (store_rep_durable s). }
  destruct Hins as (pg & -> & Hrep).
  destruct (table_rows_new_page [] p record slot a Ha ltac:(by apply not_elem_of_nil)) as (_ & _ & Hty & Hid).
  unfold bind_st at 1, lift at 1. unfold bind_st at 1, on_file, zoom. cbn [page_file catalog].
  destruct (write_fresh_page (page_file s) pg a (sr_ready _ _ Hs) Hrep ltac:(by rewrite Hid))
    as (f' & -> & Hf' & Hv). rewrite Hid in Hv.
  assert (Hdb1 : heap_db c1 (view (page_file s)) tables) by (split; [done|apply Hdb]).
  destruct (heap_db_new_page c1 (view (page_file s)) (view f') tables id r p a Hdb1 Hit Hfresh)
    as (c2 & Hrun & Hdb2 & Hn).
  { intros i Hi _. rewrite Hv. unfold store_set. by rewrite decide_False. }
  { by apply (fresh_heap_page (view (page_file s)) _ p pg). }
  unfold bind_st at 1. cbn [catalog page_file]. rewrite Hrun.
  unfold bind_st. pose proof (save_catalog_run f' c2 _ Hf' Hdb2) as Hsave.
  destruct (save_catalog (mkCatalogStore f' c2)) as [[[]|[]|] s'] eqn:Es; try done.
  - exists a, slot. split_and!; [done|done|apply Hsave].
  - subst s'. by apply (durable_fresh_page s f' tables p pg).
Qed.

(** ** Creating a table *)

Lemma create_table_spec {F} `{VfsLaws F} (s : CatalogStore F) tables name cols :
  store_rep s tables -> string_ok name -> Forall column_typed cols ->
  addressable (next_page_id (catalog s)) ->
  match create_table name cols s with
  | (Ok id, s') => exists p,
      create_table_metadata name cols (catalog s) = (Ok (id, p), catalog s')
      /\ store_rep s' (set_table id [(p, a_new p Page.Heap)] tables)
  | (Err (User _), s') => durable (view (page_file s')) tables
  | _ => False
  end.
Proof.
  intros Hs Hn Hcols Had. pose proof (sr_db _ _ Hs) as Hdb.
  unfold create_table, bind_st at 1, on_catalog, zoom.
  pose proof (only_user_create_table name cols (catalog s)) as Hu.
  destruct (create_table_metadata name cols (catalog s)) as [[[id p]|e|] c'] eqn:Hm; [| |done].
  2: { destruct e; try done. by apply (store_rep_durable s). }
  pose proof (create_table_metadata_run _ _ _ _ _ _ Hm) as (_ & _ & Hp & _).
  assert (Hpm : p <= U64_MAX) by (subst p; unfold addressable, U64_MAX, PAGE_SIZE in *; lia).
  pose proof (page_new_refines p Page.Heap Hpm) as Hrep.
  unfold bind_st at 1, on_file, zoom. cbn [page_file catalog].
  destruct (write_fresh_page (page_file s) _ _ (sr_ready _ _ Hs) Hrep ltac:(by rewrite Hp in *))
    as (f' & -> & Hf' & Hv). cbn [a_new a_id] in Hv.
  assert (Hdb' : heap_db c' (view f') (set_table id [(p, a_new p Page.Heap)] tables)).
  { apply (heap_db_new_table (catalog s) (view (page_file s)) _ _ name cols id p c' _ Hdb Hn Hcols Hm).
    - intros i Hi. rewrite Hv. unfold store_set. rewrite decide_False; [done|]. lia.
    - apply (fresh_heap_page (view (page_file s)) _ p (page_new p Page.Heap)); try done. by rewrite Hp. }
  unfold bind_st. pose proof (save_catalog_run f' c' _ Hf' Hdb') as Hsave.
  destruct (save_catalog (mkCatalogStore f' c')) as [[[]|[]|] s'] eqn:Es; try done.
  - exists p. destruct Hsave as [Hs' Hc]. by rewrite Hc.
  - subst s'. apply (durable_fresh_page s f' tables p (page_new p Page.Heap)); [done|lia|done].
Qed.

(** ** Opening an empty file *)

Lemma empty_heap_db v : heap_db empty v (fun _ => []).
Proof. split; [apply (empty_inv true)|]. by intros r Hr%not_elem_of_nil. Qed.

Lemma open_empty {F} `{VfsLaws F} (f : F) :
  healthy f -> contents f = [] ->
  exists f', open f = (Ok (mkCatalogStore f' empty), f')
    /\ store_rep (mkCatalogStore f' empty) (fun _ => []).
Proof.
  intros Hf Hc. unfold open, load_or_bootstrap, bind_st at 1.
  destruct (file_len f) as [r f1] eqn:E1. apply len_law in E1 as (Hc1 & _ & Hh1 & _ & Hr).
  rewrite (Hr Hf), Hc. change (len (@nil byte) =? 0) with true. unfold bind_st.
  assert (Hf1 : ready f1) by (split; [auto|by rewrite Hc1, Hc]).
  pose proof (save_run f1 empty Hf1) as Hs. destruct (to_page empty) as [p|e|] eqn:Hp;
    [|vm_compute in Hp; discriminate Hp|vm_compute in Hp; discriminate Hp].
  destruct Hs as (f' & -> & Hf' & Hv & Hst). exists f'. split; [done|].
  split; [done|apply empty_heap_db|done].
Qed.
