(* ===== verification/CatalogStoreTheorems.v ===== *)
(** * CatalogStoreTheorems: tables of rows over the page file *)

From S2P Require Import Prelude Core Bytes Page PageFacts PageOps Vfs VfsFacts PageStore Catalog CatalogFacts CatalogWf CatalogTheorems Heap HeapDb CatalogStore CatalogStoreFacts.

(** ** Concrete stores for the witnesses *)

Definition no_tables : RelationId -> table := fun _ => [].
Definition empty_store : CatalogStore SimFile :=
  match open (mkSimFile [] []) with
  | (Ok s, _) => s
  | (_, f) => mkCatalogStore f empty
  end.
Definition users_store : CatalogStore SimFile := snd (create_table "users" users_columns empty_store).
Definition users_tables : RelationId -> table := set_table 1 [(1, a_new 1 Page.Heap)] no_tables.
Definition users_relation : RelationInfo := mkRelationInfo 1 "users" Table (Heap [1]) users_columns.

Lemma empty_store_rep : store_rep empty_store no_tables.
Proof.
  assert (Hf : healthy (mkSimFile [] [])) by apply Forall_nil_2.
  destruct (open_empty (mkSimFile [] []) Hf eq_refl) as (f' & Ho & Hs).
  unfold empty_store. by rewrite Ho.
Qed.

Lemma users_columns_typed : Forall column_typed users_columns.
Proof. repeat constructor. Qed.

Lemma users_store_rep : store_rep users_store users_tables.
Proof.
  pose proof (create_table_spec empty_store no_tables "users" users_columns empty_store_rep
    eq_refl users_columns_typed ltac:(vm_compute; discriminate)) as Hs.
  unfold users_store. assert (Ho : (create_table "users" users_columns empty_store).1 = Ok 1)
    by (vm_compute; reflexivity).
  destruct (create_table "users" users_columns empty_store) as [o s'] eqn:E. cbn [fst] in Ho. subst o.
  destruct Hs as (p & Hm & Hs). apply create_table_metadata_run in Hm as (_ & _ & Hp & _).
  replace (next_page_id (catalog empty_store)) with 1 in Hp by (vm_compute; reflexivity). by subst p.
Qed.

Lemma users_store_table : is_table (catalog users_store) 1 users_relation.
Proof. split; vm_compute; reflexivity. Qed.

Lemma users_store_addressable : addressable (next_page_id (catalog users_store)).
Proof. vm_compute. discriminate. Qed.

(** ** Claims *)

(** A full scan of a table returns exactly its rows, in page and slot
    order, and changes nothing. *)
Theorem full_scan_correct {F : Type} `{VfsLaws F} (s : CatalogStore F) tables id r :
  store_rep s tables -> is_table (catalog s) id r ->
  exists s', full_scan id s = (Ok (table_rows (tables id)), s')
    /\ store_rep s' tables /\ catalog s' = catalog s.
Proof.
  intros Hs Hit. unfold full_scan. rewrite (on_table _ _ _ _ Hit). unfold on_file, zoom.
  destruct (is_table_rep _ _ _ _ _ (sr_db _ _ Hs) Hit) as (pages & _ & -> & _ & _ & _ & Hrep).
  destruct (scan_pages_spec _ _ [] _ (sr_ready _ _ Hs) Hrep) as (f' & -> & Hf' & Hv & _).
  eexists. split_and!; [done|by apply store_rep_same_view..|done].
Qed.

Lemma full_scan_correct_witness :
  exists s', full_scan 1 users_store = (Ok [], s') /\ store_rep s' users_tables.
Proof.
  destruct (full_scan_correct users_store users_tables 1 users_relation users_store_rep
    users_store_table) as (s' & Hs & Hr & _).
  exists s'. split; [exact Hs|exact Hr].
Defined.

(** C25. Inserting a row.  The row id is new and the table has exactly one row
    more, in the page that the catalog on disk knows; other tables keep their
    rows.  The only failures are user errors: the record does not fit an empty
    page, or the grown catalog does not fit page 0; what opening the file shows
    is then unchanged. *)
Theorem insert_row_correct {F : Type} `{VfsLaws F} (s : CatalogStore F) tables id r record :
  store_rep s tables -> is_table (catalog s) id r -> addressable (next_page_id (catalog s)) ->
  match insert_row id record s with
  | (Ok row, s') => exists t', store_rep s' (set_table id t' tables)
      /\ table_rows t' ≡ₚ mkHeapRow row record :: table_rows (tables id)
      /\ (forall d, mkHeapRow row d ∉ table_rows (tables id))
  | (Err (User _), s') => durable (view (page_file s')) tables
      /\ table_insert record (tables id) = None
  | _ => False
  end.
Proof.
  intros Hs Hit Had. pose proof (sr_db _ _ Hs) as Hdb. unfold insert_row.
  rewrite (on_table _ _ _ _ Hit). unfold bind_st, on_file, zoom.
  destruct (is_table_rep _ _ _ _ _ Hdb Hit) as (pages & Hst & Hpages & Hnd & _ & _ & Hrep).
  rewrite Hpages.
  pose proof (insert_into_pages_spec record _ _ _ (sr_ready _ _ Hs) Hnd Hrep) as Hins.
  destruct (table_insert record (tables id)) as [[row t']|] eqn:Ht.
  - destruct Hins as (f' & -> & Hf' & Hrep' & Hv & _). unfold ret. exists t'.
    apply table_insert_rows in Ht as (Hp & _ & Hin & Hnew); [|by rewrite (proj1 Hrep)].
    rewrite (proj1 Hrep), <- Hpages in Hin.
    split_and!; [|done..]. split; [done| |]; cbn [catalog page_file].
    + apply (heap_db_update _ (view (page_file s)) _ _ _ r); [done..|by rewrite Hpages|].
      intros i Hi _. apply Hv. by intros ->.
    + apply (stored_catalog_ext (view (page_file s))); [|apply Hs]. apply Hv.
      apply (table_page_positive _ _ _ _ _ _ Hdb Hit) in Hin. unfold CATALOG_PAGE_ID. lia.
  - destruct Hins as (f' & -> & Hf' & Hv & _).
    pose proof (store_rep_same_view s f' tables Hs Hf' Hv) as Hs1.
    pose proof (insert_new_page_spec _ tables id r record Hs1 Hit Had) as Hnew.
    destruct (insert_new_page id record _) as [[row|[]|] s']; try done.
    destruct Hnew as (a & slot & Ha & -> & Hs'). exists (tables id ++ [(next_page_id (catalog s), a)]).
    split; [done|]. apply (table_rows_new_page (tables id)) in Ha as (Hp & Hn & _); [done|].
    rewrite (proj1 Hrep), <- Hpages. intros Hin.
    apply (table_page_positive _ _ _ _ _ _ Hdb Hit) in Hin. cbn [catalog] in Hin. lia.
Qed.

Lemma insert_row_correct_witness :
  exists s' t', insert_row 1 [x61; x62] users_store = (Ok (mkRowId 1 0), s')
    /\ store_rep s' (set_table 1 t' users_tables)
    /\ table_rows t' ≡ₚ [mkHeapRow (mkRowId 1 0) [x61; x62]].
Proof.
  pose proof (insert_row_correct users_store users_tables 1 users_relation [x61; x62]
    users_store_rep users_store_table users_store_addressable) as Hs.
  assert (Ho : (insert_row 1 [x61; x62] users_store).1 = Ok (mkRowId 1 0)) by (vm_compute; reflexivity).
  destruct (insert_row 1 [x61; x62] users_store) as [o s'] eqn:E. cbn [fst] in Ho. subst o.
  destruct Hs as (t' & Hs & Hp & _). exists s', t'. split; [reflexivity|]. split; [exact Hs|exact Hp].
Defined.

(** Creating a table in a store succeeds only for a new name; the table is
    empty, has the given columns under a fresh relation id and one page of its
    own, and the other tables keep their rows.  Failures are user errors and
    leave what opening the file shows unchanged. *)
Theorem create_table_correct {F : Type} `{VfsLaws F} (s : CatalogStore F) tables name cols :
  store_rep s tables -> string_ok name -> Forall column_typed cols ->
  addressable (next_page_id (catalog s)) ->
  match create_table name cols s with
  | (Ok id, s') => exists t, store_rep s' (set_table id t tables) /\ table_rows t = []
      /\ relation_by_name name (catalog s) = None
      /\ relation_by_id id (catalog s') = Some (mkRelationInfo id name Table (Heap t.*1) cols)
      /\ id ∉ (rel_id <$> relations (catalog s))
  | (Err (User _), s') => durable (view (page_file s')) tables
  | _ => False
  end.
Proof.
  intros Hs Hn Hcols Had. pose proof (create_table_spec s tables name cols Hs Hn Hcols Had) as Hct.
  destruct (create_table name cols s) as [[id|[]|] s']; try done.
  destruct Hct as (p & Hm & Hs'). exists [(p, a_new p Page.Heap)].
  pose proof (create_table_metadata_run _ _ _ _ _ _ Hm) as (Hname & Hid & _ & Hc').
  split_and!; [done|done|done| |].
  - pose proof (hd_wf _ _ _ (sr_db _ _ Hs')) as Hwf. rewrite Hc'. unfold relation_by_id.
    rewrite Hc' in Hwf. set (x := mkRelationInfo id name Table (Heap [p]) cols) in *.
    change id with (rel_id x) at 1.
    by rewrite (find_relation_lookup _ (length (relations (catalog s))) x (wf_ids _ Hwf)
      (list_lookup_middle _ [] x _ eq_refl)).
  - subst id. intros Hin. apply list_elem_of_fmap in Hin as (x & He & Hx).
    pose proof (wf_id_range _ (hd_wf _ _ _ (sr_db _ _ Hs))) as Hr. rewrite Forall_forall in Hr.
    apply Hr in Hx. lia.
Qed.

Lemma create_table_correct_witness :
  exists s' t, create_table "users" users_columns empty_store = (Ok 1, s')
    /\ store_rep s' (set_table 1 t no_tables) /\ table_rows t = [].
Proof.
  pose proof (create_table_correct empty_store no_tables "users" users_columns empty_store_rep
    eq_refl users_columns_typed ltac:(vm_compute; discriminate)) as Hs.
  assert (Ho : (create_table "users" users_columns empty_store).1 = Ok 1) by (vm_compute; reflexivity).
  destruct (create_table "users" users_columns empty_store) as [o s'] eqn:E. cbn [fst] in Ho. subst o.
  destruct Hs as (t & Hs & Ht & _). exists s', t. split; [reflexivity|]. split; [exact Hs|exact Ht].
Defined.

(** Opening the file of a store shows the tables that were durable: the
    operations that succeeded survive, and the ones that failed left no trace. *)
Theorem open_shows_durable_tables {F : Type} `{VfsLaws F} (f : F) tables :
  ready f -> len (contents f) <= U64_MAX -> durable (view f) tables ->
  exists s f', open f = (Ok s, f') /\ store_rep s tables.
Proof.
  intros Hf Hl (c & Hs & Hdb).
  destruct (open_stored f c Hf Hl (wf_typed _ (hd_wf _ _ _ Hdb)) Hs) as (f' & -> & Hf' & Hc).
  exists (mkCatalogStore f' c), f'. split; [done|]. cbn [view file_access_laws] in *.
  split; [done| |]; cbn [page_file catalog view file_access_laws]; by rewrite Hc.
Qed.

Lemma open_shows_durable_tables_witness :
  exists s f', open (page_file users_store) = (Ok s, f') /\ store_rep s users_tables.
Proof.
  apply (open_shows_durable_tables (page_file users_store) users_tables).
  - exact (sr_ready _ _ users_store_rep).
  - vm_compute. discriminate.
  - exact (store_rep_durable _ _ users_store_rep).
Defined.

(** Reading by row id agrees with the scan: a row id of a page of the table
    gives the row of the table with that address, if there is one, and a row id
    of any other page is a user error. *)
Theorem read_row_agrees_with_scan {F : Type} `{VfsLaws F} (s : CatalogStore F) tables id r row :
  store_rep s tables -> is_table (catalog s) id r ->
  match read_row id row s with
  | (Ok (Some x), s') => row_id x = row /\ x ∈ table_rows (tables id) /\ store_rep s' tables
  | (Ok None, s') => (forall d, mkHeapRow row d ∉ table_rows (tables id)) /\ store_rep s' tables
  | (Err _, s') => (forall d, mkHeapRow row d ∉ table_rows (tables id)) /\ store_rep s' tables
  | (Panic, _) => False
  end.
Proof.
  intros Hs Hit. unfold read_row. rewrite (on_table _ _ _ _ Hit).
  destruct (is_table_rep _ _ _ _ _ (sr_db _ _ Hs) Hit) as (pages & _ & -> & Hnd & _ & _ & Hids & Hall).
  rewrite <- Hids in *. destruct row as [pid slot]. cbn [page_id].
  case_bool_decide as Hin; cbn [negb].
  2: { unfold throw. split; [|done]. intros d Hd. by apply table_rows_id in Hd. }
  apply list_elem_of_fmap in Hin as ([i a] & -> & Hin). cbn [fst] in *.
  rewrite Forall_forall in Hall. pose proof (Hall _ Hin) as Hp.
  pose proof (fun d => table_rows_lookup _ i a slot d Hnd Hin) as Hl.
  destruct (read_heap_row_spec (page_file s) (mkRowId i slot) a (sr_ready _ _ Hs) Hp)
    as (f' & Hr & Hf' & Hv & _).
  pose proof (store_rep_same_view s f' tables Hs Hf' Hv) as Hs'.
  unfold on_file, zoom. rewrite Hr. unfold a_read. cbn [slot_id].
  destruct (a_cells a !! N.to_nat slot) as [[| |d]|]; cbn [bind_outcome].
  3: { split_and!; [done|by apply Hl|done]. }
  all: split; [|done]; intros d; by rewrite Hl.
Qed.

Lemma read_row_agrees_with_scan_witness :
  exists s', read_row 1 (mkRowId 2 0) users_store
             = (Err (User "row page 2 does not belong to relation 1"), s')
    /\ (forall d, mkHeapRow (mkRowId 2 0) d ∉ table_rows (users_tables 1)).
Proof.
  pose proof (read_row_agrees_with_scan users_store users_tables 1 users_relation (mkRowId 2 0)
    users_store_rep users_store_table) as Hs.
  assert (Ho : (read_row 1 (mkRowId 2 0) users_store).1
    = Err (User "row page 2 does not belong to relation 1")) by (vm_compute; reflexivity).
  destruct (read_row 1 (mkRowId 2 0) users_store) as [o s'] eqn:E. cbn [fst] in Ho. subst o.
  exists s'. split; [reflexivity|apply Hs].
Defined.
