(* ===== verification/Tx.v ===== *)
(** * Tx: transactions over the catalog store and the log

    [TransactionalStore] and [Transaction] of crate [rdbms_tx].  A transaction
    borrows the store for its whole life; here it carries it as [manager] and
    gives it back when it is committed, rolled back or dropped.  The index
    operations are not part of this file. *)

From S2P Require Import Prelude Core Bytes Page Vfs Wal Catalog Heap CatalogStore.

(** ** [BTreeMap]: the entries in key order *)

Section BTreeMap.
Context {V : Type}.

Fixpoint btree_get (k : N) (m : list (N * V)) : option V :=
  match m with
  | [] => None
  | (j, w) :: rest => if j =? k then Some w else btree_get k rest
  end.

Fixpoint btree_insert (k : N) (v : V) (m : list (N * V)) : list (N * V) :=
  match m with
  | [] => [(k, v)]
  | (j, w) :: rest =>
      if k <? j then (k, v) :: m
      else if k =? j then (k, v) :: rest
      else (j, w) :: btree_insert k v rest
  end.
End BTreeMap.

(** ** The store and the transaction *)

Definition FIRST_TX_ID : TxId := 1.

Inductive TransactionState : Type := Active | Committed | RolledBack.

#[export] Instance TransactionState_eq_dec : EqDecision TransactionState.
Proof. solve_decision. Defined.

Record TransactionalStore (F : Type) : Type := mkTransactionalStore {
  store : CatalogStore F;
  wal : WalWriter F;
  next_tx_id : TxId;
  active_writer : bool
}.
Arguments mkTransactionalStore {F}.
Arguments store {F}.
Arguments wal {F}.
Arguments next_tx_id {F}.
Arguments active_writer {F}.

Record Transaction (F : Type) : Type := mkTransaction {
  manager : TransactionalStore F;
  tx_id : TxId;
  working_catalog : Catalog;
  dirty_pages : list (PageId * Page);
  state : TransactionState
}.
Arguments mkTransaction {F}.
Arguments manager {F}.
Arguments tx_id {F}.
Arguments working_catalog {F}.
Arguments dirty_pages {F}.
Arguments state {F}.

Section Fields.
Context {F : Type}.

Definition with_store (s : CatalogStore F) (m : TransactionalStore F) : TransactionalStore F :=
  mkTransactionalStore s (wal m) (next_tx_id m) (active_writer m).
Definition with_wal (w : WalWriter F) (m : TransactionalStore F) : TransactionalStore F :=
  mkTransactionalStore (store m) w (next_tx_id m) (active_writer m).
Definition with_next_tx (n : TxId) (m : TransactionalStore F) : TransactionalStore F :=
  mkTransactionalStore (store m) (wal m) n (active_writer m).
Definition with_active (b : bool) (m : TransactionalStore F) : TransactionalStore F :=
  mkTransactionalStore (store m) (wal m) (next_tx_id m) b.

Definition with_manager (m : TransactionalStore F) (t : Transaction F) : Transaction F :=
  mkTransaction m (tx_id t) (working_catalog t) (dirty_pages t) (state t).
Definition with_catalog (c : Catalog) (t : Transaction F) : Transaction F :=
  mkTransaction (manager t) (tx_id t) c (dirty_pages t) (state t).
Definition with_dirty (d : list (PageId * Page)) (t : Transaction F) : Transaction F :=
  mkTransaction (manager t) (tx_id t) (working_catalog t) d (state t).
Definition with_state (s : TransactionState) (t : Transaction F) : Transaction F :=
  mkTransaction (manager t) (tx_id t) (working_catalog t) (dirty_pages t) s.

(** The open data file of the store. *)
Definition data (m : TransactionalStore F) : F := CatalogStore.page_file (store m).
End Fields.

Section Tx.
Context {F : Type} `{VfsFile F}.

(** [self.manager.store.method()], [self.manager.wal.method()] and
    [self.working_catalog.method()]. *)
Definition on_store {A} (m : db (CatalogStore F) A) : db (Transaction F) A :=
  zoom (fun t => store (manager t)) (fun s t => with_manager (with_store s (manager t)) t) m.
Definition on_wal {A} (m : db (WalWriter F) A) : db (Transaction F) A :=
  zoom (fun t => wal (manager t)) (fun w t => with_manager (with_wal w (manager t)) t) m.
Definition on_working_catalog {A} (m : db Catalog A) : db (Transaction F) A :=
  zoom working_catalog with_catalog m.
Definition dirty_insert (id : PageId) (page : Page) : db (Transaction F) unit :=
  modify (fun t => with_dirty (btree_insert id page (dirty_pages t)) t).

(** ** [TransactionalStore] *)

Definition tx_store_new (s : CatalogStore F) (w : WalWriter F) : TransactionalStore F :=
  mkTransactionalStore s w FIRST_TX_ID false.

(** [open_transactional_store], on the two opened files. *)
Definition open_transactional_store (data_file wal_file : F) : DbResult (TransactionalStore F) :=
  let? s := fst (open data_file) in
  let? w := wal_writer_new wal_file in
  Ok (tx_store_new s w).

Definition allocate_tx_id : db (TransactionalStore F) TxId := fun m =>
  match checked_add U64_MAX (next_tx_id m) 1 with
  | Some n => (Ok (next_tx_id m), with_next_tx n m)
  | None => (Err (User "transaction id overflow"), m)
  end.

Definition finish_writer (m : TransactionalStore F) : TransactionalStore F := with_active false m.

Definition begin : db (TransactionalStore F) (Transaction F) :=
  let! busy := gets active_writer in
  if busy : bool then throw (Retryable "a write transaction is already active") else
  let! id := allocate_tx_id in
  let! _ := modify (with_active true) in
  fun m =>
    match append (BeginTx id) (wal m) with
    | (Ok _, w) =>
        let m' := with_wal w m in
        (Ok (mkTransaction m' id (catalog (store m')) [] Active), m')
    | (Err e, w) => (Err e, finish_writer (with_wal w m))
    | (Panic, w) => (Panic, with_wal w m)
    end.

(** [impl Drop for Transaction]. *)
Definition drop_tx (t : Transaction F) : TransactionalStore F :=
  if bool_decide (state t = Active) then finish_writer (manager t) else manager t.

(** ** [Transaction] *)

Definition ensure_active : db (Transaction F) unit := fun t =>
  if bool_decide (state t = Active) then (Ok tt, t)
  else (Err (User "transaction is no longer active"), t).

Definition mark_catalog_dirty : db (Transaction F) unit :=
  let! c := gets working_catalog in
  let! page := lift (to_page c) in
  dirty_insert CATALOG_PAGE_ID page.

Definition ensure_heap_relation (relation_id : RelationId) : db (Transaction F) unit :=
  let! c := gets working_catalog in
  let! r := lift (ok_or (relation_by_id relation_id c) (unknown_relation relation_id)) in
  if negb (is_heap_table r) then throw (not_a_heap_table relation_id) else ret tt.

Definition heap_pages (relation_id : RelationId) : db (Transaction F) (list PageId) :=
  let! c := gets working_catalog in
  let! r := lift (ok_or (relation_by_id relation_id c) (unknown_relation relation_id)) in
  ret (rel_heap_pages r).

(** A page of the transaction, else the committed page of the data file. *)
Definition tx_load_page (page_id : PageId) : db (Transaction F) Page :=
  let! dirty := gets dirty_pages in
  match btree_get page_id dirty with
  | Some page => ret page
  | None => on_store (CatalogStore.on_file (read_page page_id))
  end.

#[export] Instance tx_access : PageAccess (Transaction F) := {
  load_page := tx_load_page;
  put_page := dirty_insert
}.

Definition register_extension (name : string) (abi : N) (kind : string) : db (Transaction F) bool :=
  let! _ := ensure_active in
  let! inserted := on_working_catalog (register_extension_metadata name abi kind) in
  let! _ := (if inserted : bool then mark_catalog_dirty else ret tt) in
  ret inserted.

Definition create_table (name : string) (cols : list ColumnDef) : db (Transaction F) RelationId :=
  let! _ := ensure_active in
  let! (relation_id, first_page_id) := on_working_catalog (create_table_metadata name cols) in
  let! _ := dirty_insert first_page_id (page_new first_page_id Page.Heap) in
  let! _ := mark_catalog_dirty in
  ret relation_id.

(** The end of [insert_row], when no page of the table has room. *)
Definition insert_new_page (relation_id : RelationId) (record : list byte)
  : db (Transaction F) RowId :=
  let! page_id := on_working_catalog allocate_page_id in
  let '(slot, page) := insert_record record (page_new page_id Page.Heap) in
  let! slot_id := lift slot in
  let! _ := on_working_catalog (append_heap_page relation_id page_id) in
  let! _ := dirty_insert page_id page in
  let! _ := mark_catalog_dirty in
  ret (mkRowId page_id slot_id).

Definition insert_row (relation_id : RelationId) (record : list byte) : db (Transaction F) RowId :=
  let! _ := ensure_active in
  let! _ := ensure_heap_relation relation_id in
  let! page_ids := heap_pages relation_id in
  let! found := insert_into_pages page_ids record in
  match found with
  | Some row => ret row
  | None => insert_new_page relation_id record
  end.

Definition full_scan (relation_id : RelationId) : db (Transaction F) (list HeapRow) :=
  let! _ := ensure_active in
  let! _ := ensure_heap_relation relation_id in
  let! page_ids := heap_pages relation_id in
  scan_pages page_ids [].

(** ** Commit and rollback *)

(** The body of the first loop of [commit]. *)
Definition log_page (page : Page) : db (Transaction F) unit :=
  let! id := gets tx_id in
  let! k := lift (page_image id page) in
  let! _ := on_wal (append k) in
  ret tt.

Definition write_dirty_page (page : Page) : db (Transaction F) unit :=
  on_store (CatalogStore.on_file (write_page page)).

Definition commit_body : db (Transaction F) unit :=
  let! _ := ensure_active in
  let! pages := gets (fun t => (dirty_pages t).*2) in
  let! _ := for_each log_page pages in
  let! id := gets tx_id in
  let! _ := on_wal (append (CommitTx id)) in
  let! _ := on_wal wal_sync_data in
  let! _ := for_each write_dirty_page pages in
  let! _ := on_store sync_data in
  let! c := gets working_catalog in
  let! _ := on_store (replace_catalog c) in
  let! _ := modify (with_state Committed) in
  modify (fun t => with_manager (finish_writer (manager t)) t).

(** [commit] consumes the transaction, which is dropped when it returns. *)
Definition commit (t : Transaction F) : DbResult unit * TransactionalStore F :=
  let '(r, t') := commit_body t in (r, drop_tx t').

Definition rollback_body : db (Transaction F) unit :=
  let! _ := ensure_active in
  let! id := gets tx_id in
  fun t =>
    let '(result, t1) := on_wal (let! _ := append (AbortTx id) in wal_sync_data) t in
    match result with
    | Panic => (Panic, t1)
    | _ => (result, with_manager (finish_writer (manager t1)) (with_state RolledBack (with_dirty [] t1)))
    end.

Definition rollback (t : Transaction F) : DbResult unit * TransactionalStore F :=
  let '(r, t') := rollback_body t in (r, drop_tx t').

(** ** Autocommit: one operation in its own transaction *)

Definition autocommit {A : Type} (op : db (Transaction F) A) : db (TransactionalStore F) A := fun m =>
  match begin m with
  | (Ok t, _) =>
      match op t with
      | (Ok a, t1) => let '(r, m') := commit t1 in (let? _ := r in Ok a, m')
      | (Err e, t1) => (Err e, drop_tx t1)
      | (Panic, t1) => (Panic, drop_tx t1)
      end
  | (Err e, m') => (Err e, m')
  | (Panic, m') => (Panic, m')
  end.

Definition create_table_autocommit (name : string) (cols : list ColumnDef) :=
  autocommit (create_table name cols).
Definition insert_row_autocommit (relation_id : RelationId) (record : list byte) :=
  autocommit (insert_row relation_id record).
Definition register_extension_autocommit (name : string) (abi : N) (kind : string) :=
  autocommit (register_extension name abi kind).

(** [TransactionalStore::full_scan], [read_row] and [sync_data]. *)
Definition committed_scan (relation_id : RelationId) : db (TransactionalStore F) (list HeapRow) :=
  zoom store with_store (CatalogStore.full_scan relation_id).
Definition committed_row (relation_id : RelationId) (r : RowId)
  : db (TransactionalStore F) (option HeapRow) :=
  zoom store with_store (CatalogStore.read_row relation_id r).
Definition tx_sync_data : db (TransactionalStore F) unit :=
  let! _ := zoom store with_store sync_data in
  zoom wal with_wal wal_sync_data.
End Tx.
