(* ===== verification/TxFacts.v ===== *)
(** * TxFacts: dirty pages over the committed pages

    A transaction is a page store of its own: its dirty pages hide the pages of
    the data file.  The heap walks then work on it as they do on a file. *)

From Stdlib Require Import Sorting.Sorted.
From S2P Require Import Prelude Core Bytes Page PageFacts PageOps Vfs VfsFacts PageStore Wal WalFacts WalStream WalTheorems Recovery RecoveryFacts Catalog CatalogFacts CatalogWf CatalogTheorems Heap HeapDb CatalogStore CatalogStoreFacts Tx.

(** ** The map of dirty pages *)

Definition keys_sorted {V} (m : list (N * V)) : Prop := StronglySorted N.lt m.*1.

Lemma btree_get_insert {V} k (v : V) m j :
  btree_get j (btree_insert k v m) = if decide (j = k) then Some v else btree_get j m.
Proof.
  induction m as [|[i w] m IH]; simpl.
  - case_decide as Hj; [by rewrite (proj2 (N.eqb_eq _ _))|by rewrite (proj2 (N.eqb_neq k j)) by congruence].
  - repeat case_test; simpl; repeat case_decide; repeat case_test; subst; try done; try lia;
      rewrite IH; repeat case_decide; try done; try lia.
Qed.

Lemma btree_insert_keys {V} k (v : V) m i : i ∈ (btree_insert k v m).*1 <-> i = k \/ i ∈ m.*1.
Proof.
  induction m as [|[j w] m IH]; simpl.
  - rewrite list_elem_of_singleton, elem_of_nil. tauto.
  - repeat case_test; subst; cbn [fmap list_fmap fst]; rewrite !elem_of_cons; [tauto..|].
    rewrite IH. tauto.
Qed.

Lemma btree_insert_sorted {V} k (v : V) m : keys_sorted m -> keys_sorted (btree_insert k v m).
Proof.
  unfold keys_sorted. induction m as [|[j w] m IH]; simpl; intros Hm; [repeat constructor|].
  inversion_clear Hm as [|? ? Hs Hf].
  repeat case_test; subst; cbn [fmap list_fmap fst]; constructor; auto; [by constructor|..].
  - constructor; [done|]. eapply Forall_impl; [exact Hf|]. simpl. lia.
  - apply Forall_forall. intros i [->|Hi]%btree_insert_keys; [lia|].
    rewrite Forall_forall in Hf. by apply Hf.
Qed.

Lemma btree_insert_Forall {V} (P : N * V -> Prop) k (v : V) m :
  P (k, v) -> Forall P m -> Forall P (btree_insert k v m).
Proof.
  intros Hp. induction 1 as [|[j w] m Hj Hm IH]; simpl; [by constructor|].
  repeat case_test; by repeat constructor.
Qed.

Lemma btree_get_In {V} k (v : V) m : btree_get k m = Some v -> (k, v) ∈ m.
Proof.
  induction m as [|[j w] m IH]; simpl; [done|]. case_test; [intros [= ->]; subst; by left|].
  intros Hk. right. auto.
Qed.

(** ** The transaction as a page store *)

Definition dirty_ok (m : list (PageId * Page)) : Prop :=
  keys_sorted m /\ Forall (fun i => valid_page i.1 i.2 /\ addressable i.1) m.

Lemma dirty_ok_insert id p m :
  valid_page id p -> addressable id -> dirty_ok m -> dirty_ok (btree_insert id p m).
Proof.
  intros Hp Ha [Hs Hf]. split; [by apply btree_insert_sorted|]. by apply btree_insert_Forall.
Qed.

(** The committed state of the store: everything but the outcomes the data file
    has in store. *)
Record same_manager {F} `{VfsLaws F} (m m' : TransactionalStore F) : Prop := {
  sm_data : contents (data m') = contents (data m);
  sm_catalog : catalog (store m') = catalog (store m);
  sm_wal : wal m' = wal m;
  sm_next : next_tx_id m' = next_tx_id m;
  sm_active : active_writer m' = active_writer m;
  sm_healthy : healthy (data m) -> healthy (data m')
}.

#[export] Instance same_manager_preorder {F} `{VfsLaws F} : PreOrder (same_manager (F := F)).
Proof.
  split; [by intros m; split|]. intros m1 m2 m3 [] []. split; [congruence..|auto].
Qed.

Record same_transaction {F} `{VfsLaws F} (t t' : Transaction F) : Prop := {
  st_manager : same_manager (manager t) (manager t');
  st_id : tx_id t' = tx_id t;
  st_catalog : working_catalog t' = working_catalog t;
  st_state : state t' = state t
}.

#[export] Instance same_transaction_preorder {F} `{VfsLaws F} : PreOrder (same_transaction (F := F)).
Proof.
  split; [by intros t; split|]. intros t1 t2 t3 [] []. split; [by etrans|congruence..].
Qed.

(** Reading a page advances only the data file. *)
Lemma same_manager_read {F} `{VfsLaws F} (m : TransactionalStore F) f :
  contents f = contents (data m) -> (healthy (data m) -> healthy f) -> same_manager m (with_store (mkCatalogStore f (catalog (store m))) m).
Proof. by split. Qed.

#[export] Instance tx_access_laws {F} `{VfsLaws F} : PageAccessLaws (Transaction F).
Proof.
  refine {| view t i := match btree_get i (dirty_pages t) with
                        | Some p => Some p
                        | None => view (data (manager t)) i
                        end;
            ready t := ready (data (manager t)) /\ dirty_ok (dirty_pages t);
            stable := same_transaction |}.
  - intros t id p [Hf Hd] Had Hp. cbn [load_page tx_access].
    unfold tx_load_page, bind_st at 1, gets. destruct (btree_get id (dirty_pages t)) as [q|].
    { injection Hp as ->. by exists t. }
    unfold on_store, CatalogStore.on_file, zoom. fold (data (manager t)).
    destruct (read_page id (data (manager t))) as [r f'] eqn:Hr.
    pose proof Hr as Hr0. apply read_page_spec in Hr0 as (Hc & _ & Hhl & _).
    destruct (load_law (data (manager t)) id p Hf Had Hp) as (f1 & Hl & Hf1 & Hv & _).
    cbn [load_page file_access] in Hl. rewrite Hr in Hl. injection Hl as -> ->.
    eexists. split; [done|]. split; [done|]. split.
    + intros i. cbn [dirty_pages with_manager]. by destruct (btree_get i _).
    + split; [|done..]. by apply same_manager_read.
  - intros t id p [Hf Hd] Had Hv. eexists. split; [done|]. split.
    { split; [done|]. by apply dirty_ok_insert. }
    split; [|by split].
    intros i. cbn [dirty_pages with_dirty]. rewrite btree_get_insert. unfold store_set.
    by case_decide.
Defined.

(** ** Operations that leave the committed state alone *)

Definition isolated {F A} `{VfsLaws F} (m : db (Transaction F) A) : Prop :=
  forall t, same_manager (manager t) (manager (m t).2) /\ state (m t).2 = state t /\ tx_id (m t).2 = tx_id t.

Create HintDb isolated discriminated.

Section Isolation.
Context {F : Type} `{VfsLaws F}.

Lemma isolated_bind {A B} (m : db (Transaction F) A) (k : A -> db (Transaction F) B) :
  isolated m -> (forall a, isolated (k a)) -> isolated (bind_st m k).
Proof.
  intros Hm Hk t. unfold bind_st. specialize (Hm t). destruct (m t) as [[a|e|] t']; [|done|done].
  cbn [snd] in Hm. destruct Hm as (Hm & Hs & Hi), (Hk a t') as (Hm2 & Hs2 & Hi2). split; [by etrans|split; congruence].
Qed.
Lemma isolated_same {A} (m : db (Transaction F) A) :
  (forall t, manager (m t).2 = manager t /\ state (m t).2 = state t /\ tx_id (m t).2 = tx_id t) -> isolated m.
Proof. intros Hm t. destruct (Hm t) as (-> & -> & ->). done. Qed.
Lemma isolated_if {A} (b : bool) (m1 m2 : db (Transaction F) A) :
  isolated m1 -> isolated m2 -> isolated (if b then m1 else m2).
Proof. by destruct b. Qed.

Lemma isolated_ret {A} (a : A) : isolated (ret (S := Transaction F) a).
Proof. by apply isolated_same. Qed.
Lemma isolated_throw {A} e : isolated (throw (S := Transaction F) (A := A) e).
Proof. by apply isolated_same. Qed.
Lemma isolated_lift {A} (r : DbResult A) : isolated (lift (S := Transaction F) r).
Proof. by apply isolated_same. Qed.
Lemma isolated_gets {A} (f : Transaction F -> A) : isolated (gets f).
Proof. by apply isolated_same. Qed.
Lemma isolated_dirty id p : isolated (dirty_insert (F := F) id p).
Proof. by apply isolated_same. Qed.
Lemma isolated_catalog {A} (m : db Catalog A) : isolated (on_working_catalog (F := F) m).
Proof.
  apply isolated_same. intros t. unfold on_working_catalog, zoom.
  by destruct (m (working_catalog t)).
Qed.
Lemma isolated_active : isolated (ensure_active (F := F)).
Proof. apply isolated_same. intros t. unfold ensure_active. by case_bool_decide. Qed.

Lemma isolated_load id : isolated (tx_load_page (F := F) id).
Proof.
  unfold tx_load_page. apply isolated_bind; [apply isolated_gets|]. intros d.
  destruct (btree_get id d); [apply isolated_ret|]. intros t.
  unfold on_store, CatalogStore.on_file, zoom. fold (data (manager t)).
  destruct (read_page id (data (manager t))) as [r f] eqn:Hr. apply read_page_spec in Hr as (Hc & _ & Hhl & _).
  split; [by apply same_manager_read|done].
Qed.
End Isolation.

#[export] Hint Resolve isolated_bind isolated_if isolated_ret isolated_throw isolated_lift
  isolated_gets isolated_dirty isolated_catalog isolated_active isolated_load : isolated.

Section IsolatedOperations.
Context {F : Type} `{VfsLaws F}.

Lemma isolated_mark_dirty : isolated (mark_catalog_dirty (F := F)).
Proof. unfold mark_catalog_dirty. auto with isolated. Qed.
Lemma isolated_ensure id : isolated (ensure_heap_relation (F := F) id).
Proof. unfold ensure_heap_relation. auto 10 with isolated. Qed.
Lemma isolated_pages id : isolated (heap_pages (F := F) id).
Proof. unfold heap_pages. auto 10 with isolated. Qed.

Lemma isolated_scan ids : forall rows, isolated (scan_pages (S := Transaction F) ids rows).
Proof. induction ids; intros rows; simpl; auto 10 with isolated. Qed.

Lemma isolated_insert ids record : isolated (insert_into_pages (S := Transaction F) ids record).
Proof.
  induction ids as [|id ids IH]; simpl; [apply isolated_ret|].
  apply isolated_bind; [apply isolated_load|]. intros p.
  destruct (insert_record record p) as [[slot|[]|] q]; auto 10 with isolated.
Qed.
End IsolatedOperations.

#[export] Hint Resolve isolated_mark_dirty isolated_ensure isolated_pages isolated_scan
  isolated_insert : isolated.

(** ** The states of the store and of a transaction *)

(** The transaction a log record belongs to. *)
Definition kind_tx (k : WalRecordKind) : option TxId :=
  match k with
  | BeginTx t | PageImage t _ _ | CommitTx t | AbortTx t => Some t
  | Checkpoint => None
  end.

(** No id of the log is [n] or above. *)
Definition fresh_ids (n : TxId) (ks : list WalRecordKind) : Prop :=
  Forall (fun k => forall t, kind_tx k = Some t -> t < n) ks.

(** The log has at most the beginning of transaction [u]. *)
Definition begun_only (u : TxId) (ks : list WalRecordKind) : Prop :=
  Forall (fun k => kind_tx k = Some u -> k = BeginTx u) ks.

(** Every image of the log is committed and nothing was rolled back: a
    transaction that takes an id of the log again changes nothing about it. *)
Definition settled (ks : list WalRecordKind) : Prop :=
  Forall (fun k => match k with
                   | PageImage t _ _ => CommitTx t ∈ ks
                   | AbortTx _ => False
                   | _ => True
                   end) ks.

(** The log [ks] of a store with the committed pages [v] that will hand out
    transaction id [n] next: no id of the log is handed out again, or the log
    is settled, as when a store was opened on it; and what recovery would write
    is already there. *)
Record log_rep (v : PageId -> option Page) (n : TxId) (ks : list WalRecordKind) : Prop := {
  lr_ids : fresh_ids n ks \/ settled ks;
  lr_valid : Forall image_valid (committed_images (records_of 0 ks));
  lr_covers : forall id p,
    last_image (committed_images (records_of 0 ks)) id = Some p ->
    v id = Some p
}.

(** The store has committed [tables]; its log holds [ks]. *)
Record manager_rep {F} `{VfsLaws F} (m : TransactionalStore F) (tables : RelationId -> table)
    (ks : list WalRecordKind) : Prop := {
  mr_store : store_rep (store m) tables;
  mr_wal : wal_rep (wal m) ks;
  mr_log : log_rep (view (data m)) (next_tx_id m) ks
}.

(** The transaction sees [tables'], the store has committed [tables]. *)
Record transaction_rep {F} `{VfsLaws F} (t : Transaction F) (tables tables' : RelationId -> table)
    (ks : list WalRecordKind) : Prop := {
  tr_manager : manager_rep (manager t) tables ks;
  tr_dirty : dirty_ok (dirty_pages t);
  tr_db : heap_db (working_catalog t) (view t) tables';
  tr_saved : stored_catalog (view t) (working_catalog t);
  tr_id : tx_id t < next_tx_id (manager t);
  tr_fresh : begun_only (tx_id t) ks \/ settled ks;
  tr_state : state t = Active
}.

Section States.
Context {F : Type} `{VfsLaws F}.
Implicit Types (m : TransactionalStore F) (t : Transaction F).

Lemma tr_ready t T T' ks : transaction_rep t T T' ks -> ready t.
Proof. intros Ht. split; [apply (sr_ready _ _ (mr_store _ _ _ (tr_manager _ _ _ _ Ht)))|apply Ht]. Qed.

Lemma view_contents (f f' : F) i : contents f' = contents f -> view f' i = view f i.
Proof. intros Hc. cbn [view file_access_laws]. by rewrite Hc. Qed.

Lemma manager_rep_same m m' T ks :
  manager_rep m T ks -> same_manager m m' -> ready (data m') -> manager_rep m' T ks.
Proof.
  intros [Hs Hw Hl] [Hc Hcat Hwal Hn _] Hr. pose proof (fun i => view_contents _ _ i Hc) as Hv.
  split.
  - destruct (store m') as [f c] eqn:Es. cbn [catalog] in Hcat. subst c.
    apply store_rep_same_view; [done|unfold data in *; by rewrite Es in *|].
    intros i. unfold data in *. rewrite Es in Hv. apply Hv.
  - by rewrite Hwal.
  - destruct Hl as [Hi Hval Hcov]. rewrite Hn. split; [done|done|]. intros id p Hp.
    rewrite Hv. by apply Hcov.
Qed.

(** A transaction that staged something. *)
Lemma transaction_rep_same t t' T T' T'' ks :
  transaction_rep t T T' ks -> same_transaction t t' -> ready t' ->
  heap_db (working_catalog t') (view t') T'' -> stored_catalog (view t') (working_catalog t') ->
  transaction_rep t' T T'' ks.
Proof.
  intros Ht [Hm Hid Hc Hst] [Hr Hd] Hdb Hsaved.
  pose proof (sm_next _ _ Hm) as Hn. destruct Ht as [Hmr _ _ _ Hlt Hfresh Hstate].
  split; [by apply (manager_rep_same (manager t))|done|done|done|by rewrite Hid, Hn|by rewrite Hid|congruence].
Qed.

Lemma mark_catalog_dirty_run t T :
  ready t -> heap_db (working_catalog t) (view t) T ->
  match mark_catalog_dirty t with
  | (Ok _, t') => ready t' /\ same_transaction t t' /\ heap_db (working_catalog t) (view t') T
      /\ stored_catalog (view t') (working_catalog t)
  | (Err (User _), t') => t' = t
  | _ => False
  end.
Proof.
  intros Hr Hdb. unfold mark_catalog_dirty, bind_st, gets, lift.
  pose proof (to_page_ok_or_user (working_catalog t)) as Hu.
  destruct (to_page (working_catalog t)) as [p|[]|] eqn:Hp; try done.
  destruct (to_page_Ok _ p Hp) as (bs & a & Hb & Hrep & Hid & Hty & Hcells & Hlen).
  destruct (put_law t CATALOG_PAGE_ID p Hr addressable_catalog_page) as (t' & Hw & Hr' & Hv & Hst).
  { rewrite <- Hid. by apply page_rep_valid. }
  cbn [put_page tx_access] in Hw. rewrite Hw. split; [done|]. split; [done|]. split.
  - apply (heap_db_view _ (view t)); [|done]. intros i Hi. rewrite Hv. unfold store_set.
    rewrite decide_False; [done|]. unfold CATALOG_PAGE_ID. lia.
  - exists p, a, bs. split; [|done]. rewrite Hv. unfold store_set. by rewrite decide_True.
Qed.
End States.
