(* ===== verification/TxCommit.v ===== *)
(** * TxCommit: what a commit leaves in the two files

    A commit appends the images of the dirty pages and a commit marker to the
    log, and then writes the pages.  Every outcome of the file operations is
    followed here: a commit that stops anywhere leaves a part of the log records,
    possibly with a torn one, and an untouched data file, or the whole log and a
    part of the pages, possibly with a torn one. *)

From Stdlib Require Import Sorting.Sorted.
From S2P Require Import Prelude Core Bytes Page PageFacts PageOps Vfs VfsFacts PageStore Wal WalFacts WalStream WalTheorems Recovery RecoveryFacts Catalog CatalogFacts CatalogWf CatalogTheorems Heap HeapDb CatalogStore CatalogStoreFacts Tx TxFacts.

(** ** Appending several records *)

Section AppendAll.
Context {F : Type} `{VfsLaws F}.

Definition append_all (ks : list WalRecordKind) : db (WalWriter F) unit :=
  for_each (fun k => let! _ := append k in ret tt) ks.

(** The log after an interrupted [append_all ks'] on [ks]. *)
Definition torn_log (ks ks' : list WalRecordKind) (c : list byte) : Prop :=
  exists whole k rest n, ks' = whole ++ k :: rest
    /\ c = stream 0 (ks ++ whole) ++ take n (encoded (stream_len (ks ++ whole)) k).

Lemma append_all_spec ks' : forall w ks r w',
  wal_rep w ks -> Forall kind_ok ks' -> stream_len (ks ++ ks') <= U64_MAX ->
  append_all ks' w = (r, w') ->
  r <> Panic /\ (healthy (wal_file w) -> healthy (wal_file w') /\ r = Ok tt)
  /\ (r = Ok tt -> wal_rep w' (ks ++ ks'))
  /\ (r <> Ok tt -> torn_log ks ks' (contents (wal_file w'))).
Proof.
  induction ks' as [|k ks' IH]; intros w ks r w' Hw Hks Hl; cbn [append_all for_each].
  { intros [= <- <-]. by rewrite app_nil_r. }
  apply Forall_cons in Hks as [Hk Hks]. rewrite stream_len_app in Hl. cbn [stream_len] in Hl.
  unfold bind_st. destruct (append k w) as [o w1] eqn:Ha.
  destruct (append_spec w ks k o w1 Hw Hk ltac:(lia) Ha) as (Hp & Hh & Hok & (n & Hc) & _ & Hall).
  assert (Ho : (exists l, o = Ok l) \/ (exists e, o = Err e)) by (destruct o; eauto; done).
  destruct Ho as [[l ->]|[e ->]].
  - assert (l = stream_len ks) as ->.
    { rewrite (append_run w k Hk) in Ha by (rewrite (wal_next _ _ Hw); lia).
      destruct (file_write_all_at _ _ _) as [[] ?]; try done. injection Ha as <- <-.
      apply (wal_next _ _ Hw). }
    unfold ret. intros Hrest. fold (append_all ks') in Hrest.
    replace (ks ++ k :: ks') with ((ks ++ [k]) ++ ks') by by rewrite <- app_assoc.
    destruct (IH w1 (ks ++ [k]) r w' (Hok eq_refl) Hks) as (Hp2 & Hh2 & Hok2 & Ht2); [|done|].
    { rewrite !stream_len_app. cbn [stream_len]. lia. }
    split_and!; [done|by auto|done|]. intros Hr.
    destruct (Ht2 Hr) as (whole & k2 & rest & n2 & -> & Hc2).
    exists (k :: whole), k2, rest, n2. split; [done|]. by rewrite <- app_assoc in Hc2.
  - intros [= <- <-]. split_and!; [done|intros Hf; by specialize (Hall Hf)|done|].
    intros _. exists [], k, ks', n. by rewrite app_nil_r.
Qed.

(** Scanning a torn log fails, unless the tear is between two records. *)
Lemma torn_log_parse ks ks' c rs :
  Forall kind_ok ks -> Forall kind_ok ks' -> stream_len (ks ++ ks') <= U64_MAX ->
  torn_log ks ks' c -> parse_wal c = Ok rs ->
  exists whole rest, ks' = whole ++ rest /\ rs = records_of 0 (ks ++ whole).
Proof.
  intros Hks Hks' Hl (whole & k & rest & n & -> & ->) Hp.
  apply Forall_app in Hks' as [Hw [Hk _]%Forall_cons].
  assert (Hkw : Forall kind_ok (ks ++ whole)) by by apply Forall_app_2.
  rewrite !stream_len_app in Hl. cbn [stream_len] in Hl.
  pose proof (len_encoded (stream_len (ks ++ whole)) k) as Hlen.
  destruct (decide (take n (encoded (stream_len (ks ++ whole)) k) = [])) as [He|Hne].
  { rewrite He, app_nil_r, parse_wal_stream in Hp by (done || (rewrite stream_len_app; lia)).
    injection Hp as <-. by exists whole, (k :: rest). }
  destruct (decide (length (encoded (stream_len (ks ++ whole)) k) <= n)%nat) as [Hn|Hn].
  - rewrite take_ge in Hp by done.
    assert (Hs : stream 0 (ks ++ whole) ++ encoded (stream_len (ks ++ whole)) k
                 = stream 0 ((ks ++ whole) ++ [k])).
    { rewrite (stream_app 0 (ks ++ whole) [k]), N.add_0_l. cbn [stream]. by rewrite app_nil_r. }
    rewrite Hs, parse_wal_stream in Hp.
    + injection Hp as <-. exists (whole ++ [k]), rest. by rewrite <- !app_assoc.
    + by apply Forall_app_2; [|constructor].
    + rewrite !stream_len_app. cbn [stream_len]. lia.
  - destruct (parse_wal_torn (ks ++ whole) k (take n (encoded (stream_len (ks ++ whole)) k)))
      as [m Hm]; try done.
    + rewrite stream_len_app. lia.
    + apply prefix_take.
    + rewrite length_take. lia.
    + congruence.
Qed.
End AppendAll.

(** ** Committed images of an extended log *)

Definition kind_image (k : WalRecordKind) : option (PageId * list byte) :=
  match k with PageImage _ id image => Some (id, image) | _ => None end.

(** The images of [ks] whose transaction is committed in [all]. *)
Definition images_in (all ks : list WalRecordKind) : list (PageId * list byte) :=
  omap (fun k => match k with
                 | PageImage t id image =>
                     if bool_decide (CommitTx t ∈ all /\ AbortTx t ∉ all) then Some (id, image) else None
                 | _ => None
                 end) ks.

Lemma committed_images_kinds ks : committed_images (records_of 0 ks) = images_in ks ks.
Proof.
  unfold committed_images, images_in.
  assert (Hg : forall l off, omap (committed_of (records_of 0 ks)) (records_of off l)
    = omap (fun k => match k with
                     | PageImage t id image =>
                         if bool_decide (CommitTx t ∈ ks /\ AbortTx t ∉ ks) then Some (id, image) else None
                     | _ => None
                     end) l); [|apply Hg].
  induction l as [|k l IH]; intros off; cbn [records_of omap list_omap]; [done|].
  rewrite IH. unfold committed_of. cbn [kind]. destruct k as [|u id image| | |]; try done.
  rewrite (bool_decide_ext (is_committed (records_of 0 ks) u) (CommitTx u ∈ ks /\ AbortTx u ∉ ks)); [done|].
  unfold is_committed. by rewrite records_of_kinds.
Qed.

Lemma omap_ext_in {A B} (f g : A -> option B) (l : list A) :
  (forall x, x ∈ l -> f x = g x) -> omap f l = omap g l.
Proof.
  intros He. apply list_omap_ext. apply Forall2_same_length_lookup_2; [done|].
  intros i x y Hx Hy. assert (y = x) as -> by congruence. apply He. by eapply list_elem_of_lookup_2.
Qed.

Lemma omap_none {A B} (l : list A) : omap (fun _ => None) l = @nil B.
Proof. by induction l. Qed.

(** The beginning of a transaction changes nothing. *)
Lemma committed_images_begin ks u :
  committed_images (records_of 0 (ks ++ [BeginTx u])) = committed_images (records_of 0 ks).
Proof.
  rewrite !committed_images_kinds. unfold images_in. rewrite omap_app. cbn [omap list_omap].
  rewrite app_nil_r. apply omap_ext_in. intros k _. destruct k as [|t id image| | |]; try done.
  rewrite (bool_decide_ext _ (CommitTx t ∈ ks /\ AbortTx t ∉ ks)); [done|].
  rewrite !elem_of_app, !list_elem_of_singleton. intuition congruence.
Qed.

(** The next id, once it has begun. *)
Lemma begun_only_begin n ks : fresh_ids n ks -> begun_only n (ks ++ [BeginTx n]).
Proof.
  intros Hids. apply Forall_app. split; [|by constructor]. eapply Forall_impl; [exact Hids|].
  intros k Hk Hkt. specialize (Hk n Hkt). lia.
Qed.

(** ** Settled logs *)

Lemma settled_app ks ks' : settled ks -> settled ks' -> settled (ks ++ ks').
Proof.
  intros Hks Hks'. apply Forall_app. split.
  - eapply Forall_impl; [exact Hks|]. intros [|t id image| | |] Hk; try done. apply elem_of_app. by left.
  - eapply Forall_impl; [exact Hks'|]. intros [|t id image| | |] Hk; try done. apply elem_of_app. by right.
Qed.

Lemma settled_begin u : settled [BeginTx u].
Proof. by constructor. Qed.

Lemma settled_no_abort ks u : settled ks -> AbortTx u ∉ ks.
Proof. intros Hks Hin. by apply (proj1 (Forall_forall _ _) Hks) in Hin. Qed.

Lemma committed_images_settled ks :
  settled ks -> committed_images (records_of 0 ks) = omap kind_image ks.
Proof.
  intros Hks. rewrite committed_images_kinds. apply omap_ext_in. intros k Hk.
  destruct k as [|t id image| | |]; try done. rewrite bool_decide_true; [done|].
  split; [exact (proj1 (Forall_forall _ _) Hks _ Hk)|by apply settled_no_abort].
Qed.

(** Records of a transaction that had only begun. *)
Lemma committed_images_extend ks ks' t :
  begun_only t ks -> Forall (fun k => kind_tx k = Some t) ks' ->
  committed_images (records_of 0 (ks ++ ks'))
  = committed_images (records_of 0 ks)
    ++ (if decide (CommitTx t ∈ ks' /\ AbortTx t ∉ ks') then omap kind_image ks' else []).
Proof.
  unfold begun_only. rewrite !Forall_forall. intros Hks Hks'. rewrite !committed_images_kinds. unfold images_in.
  assert (Hold : forall k, k ∈ ks -> k = CommitTx t \/ k = AbortTx t -> False).
  { intros k Hk [-> | ->]; by specialize (Hks _ Hk eq_refl). }
  assert (Hnew : forall k u, k ∈ ks' -> kind_tx k = Some u -> u = t).
  { intros k u Hk Hu. specialize (Hks' _ Hk). congruence. }
  rewrite omap_app. f_equal.
  - apply omap_ext_in. intros k Hk. destruct k as [|u id image| | |]; try done.
    assert (Hut : u <> t) by (intros ->; by specialize (Hks _ Hk eq_refl)).
    rewrite (bool_decide_ext (CommitTx u ∈ ks ++ ks' /\ AbortTx u ∉ ks ++ ks')
               (CommitTx u ∈ ks /\ AbortTx u ∉ ks)); [done|].
    rewrite !elem_of_app. split; intros [H1 H2]; split.
    + destruct H1 as [H1|H1]; [done|]. by apply (Hnew _ u) in H1.
    + tauto.
    + tauto.
    + intros [H3|H3]; [done|]. by apply (Hnew _ u) in H3.
  - case_decide as Hc.
    + apply omap_ext_in. intros k Hk. destruct k as [|u id image| | |]; try done.
      assert (u = t) as -> by by apply (Hnew _ u) in Hk.
      rewrite bool_decide_true; [done|]. rewrite !elem_of_app. split; [tauto|].
      intros [H3|H3]; [|tauto]. eapply Hold; [exact H3|tauto].
    + rewrite (omap_ext_in _ (fun _ => None)); [apply omap_none|].
      intros k Hk. destruct k as [|u id image| | |]; try done.
      assert (u = t) as -> by by apply (Hnew _ u) in Hk.
      rewrite bool_decide_false; [done|]. rewrite !elem_of_app. intros [[H1|H1] H2].
      * eapply Hold; [exact H1|tauto].
      * apply Hc. split; [done|tauto].
Qed.

(** ** Writing the dirty pages *)

Definition page_image_of (i : PageId * Page) : PageId * list byte := (i.1, bytes i.2).
Definition page_writes (l : list (PageId * Page)) : list write := image_write <$> (page_image_of <$> l).

Definition storable (i : PageId * Page) : Prop := valid_page i.1 i.2 /\ addressable i.1.

Section WritePages.
Context {F : Type} `{VfsLaws F}.

Lemma write_page_run (f : F) i :
  valid_page i.1 i.2 -> write_page i.2 f = write_page_at i.1 i.2 f.
Proof.
  intros (_ & _ & h & Hh & Hid). unfold write_page, bind_st, lift. by rewrite Hh, Hid.
Qed.

Lemma write_pages_spec l : forall (f : F) r f',
  Forall storable l -> for_each write_page l.*2 f = (r, f') ->
  r <> Panic /\ (healthy f -> healthy f' /\ r = Ok tt)
  /\ (exists n k, contents f' = torn_writes (page_writes l) n k (contents f))
  /\ (r = Ok tt -> contents f' = apply_writes (page_writes l) (contents f)).
Proof.
  induction l as [|i l IH]; intros f r f' Hl; cbn [fmap list_fmap for_each].
  { intros [= <- <-]. split_and!; try done. by exists 0%nat, 0%nat. }
  apply Forall_cons in Hl as [[Hi Ha] Hl]. unfold bind_st. rewrite write_page_run by done.
  destruct (write_page_at i.1 i.2 f) as [o f1] eqn:Hw.
  apply write_page_at_spec in Hw as (Hp & Hh & Hok & (k & Hpre) & Hall); [|apply Hi].
  destruct o as [[]|e|]; [| |done].
  - destruct (Hok eq_refl) as [_ Hc]. intros Hr.
    apply (IH f1) in Hr as (Hp2 & Hh2 & (n & k2 & Hpre2) & Hok2); [|done].
    rewrite Hc in *. split_and!; [done|by auto| |by auto].
    exists (S n), k2. rewrite Hpre2. unfold torn_writes.
    change (page_writes (i :: l)) with (image_write (page_image_of i) :: page_writes l).
    cbn [lookup list_lookup]. by destruct (page_writes l !! n).
  - intros [= <- <-]. split_and!; try done.
    + intros Hf. by specialize (Hall Hf Ha Hi).
    + exists 0%nat, k. by rewrite Hpre.
Qed.
End WritePages.

(** The dirty map, as the list of its images. *)
Lemma btree_get_last_image l id :
  keys_sorted l -> last_image (page_image_of <$> l) id = btree_get id l.
Proof.
  unfold keys_sorted. induction l as [|[j p] l IH]; [done|].
  cbn [fmap list_fmap fst]. intros Hs. inversion_clear Hs as [|? ? Hs' Hf].
  change (page_image_of (j, p) :: (page_image_of <$> l))
    with ([page_image_of (j, p)] ++ (page_image_of <$> l)).
  rewrite last_image_app, IH by done. cbn [btree_get].
  unfold last_image. cbn [foldl page_image_of fst snd].
  destruct (N.eqb_spec j id) as [->|Hne]; [|rewrite decide_False by done; by destruct (btree_get id l)].
  rewrite decide_True by done. destruct (btree_get id l) as [q|] eqn:Hg; [|by destruct p].
  apply btree_get_In in Hg. rewrite Forall_forall in Hf.
  assert (Hlt : id < id) by (apply Hf; apply list_elem_of_fmap; by exists (id, q)). lia.
Qed.

(** ** The two halves of [commit] *)

Definition image_kind (t : TxId) (i : PageId * Page) : WalRecordKind := PageImage t i.1 (bytes i.2).

(** The records of the commit of a transaction. *)
Definition commit_kinds {F} (t : Transaction F) : list WalRecordKind :=
  (image_kind (tx_id t) <$> dirty_pages t) ++ [CommitTx (tx_id t)].

Lemma commit_kinds_tx {F} (t : Transaction F) :
  Forall (fun k => kind_tx k = Some (tx_id t)) (commit_kinds t).
Proof.
  apply Forall_app_2; [|by constructor]. apply Forall_fmap. by apply Forall_true.
Qed.

Lemma commit_kinds_settled {F} (t : Transaction F) : settled (commit_kinds t).
Proof.
  unfold settled, commit_kinds. apply Forall_app. split; [|by constructor]. apply Forall_fmap, Forall_forall.
  intros i _. cbn [image_kind compose]. apply elem_of_app. right. by apply list_elem_of_singleton.
Qed.

Lemma commit_kinds_images {F} (t : Transaction F) :
  omap kind_image (commit_kinds t) = page_image_of <$> dirty_pages t.
Proof.
  unfold commit_kinds. rewrite omap_app. cbn [omap list_omap kind_image]. rewrite app_nil_r.
  induction (dirty_pages t) as [|i l IH]; [done|]. cbn [fmap list_fmap omap list_omap] in *.
  by rewrite IH.
Qed.

Lemma addressable_u64 id : addressable id -> id <= U64_MAX.
Proof. unfold addressable, PAGE_SIZE, U64_MAX. lia. Qed.

Lemma commit_kinds_ok {F} (t : Transaction F) :
  tx_id t <= U64_MAX -> Forall storable (dirty_pages t) -> Forall kind_ok (commit_kinds t).
Proof.
  intros Ht Hd. apply Forall_app_2; [|by constructor]. apply Forall_fmap.
  eapply Forall_impl; [exact Hd|]. intros [id p] [Hp Ha]. cbn.
  split_and!; [done|by apply addressable_u64|apply Hp].
Qed.

Section Halves.
Context {F : Type} `{VfsLaws F}.
Implicit Types t : Transaction F.

Lemma page_image_run id i : valid_page i.1 i.2 -> page_image id i.2 = Ok (image_kind id i).
Proof.
  intros (_ & Hv & h & Hh & Hid). unfold page_image. rewrite Hv. cbn [bind_outcome]. rewrite Hh.
  cbn [bind_outcome]. by rewrite Hid.
Qed.

Lemma log_page_run t i :
  valid_page i.1 i.2 ->
  log_page i.2 t = on_wal (let! _ := append (image_kind (tx_id t) i) in ret tt) t.
Proof.
  intros Hv. unfold log_page, bind_st, gets, lift. rewrite (page_image_run _ i Hv).
  unfold on_wal, zoom. by destruct (append _ _) as [[] ?].
Qed.

Lemma log_pages_run t :
  Forall storable (dirty_pages t) ->
  for_each log_page (dirty_pages t).*2 t
  = on_wal (append_all (image_kind (tx_id t) <$> dirty_pages t)) t.
Proof.
  set (id := tx_id t). assert (Hid : tx_id t = id) by done. clearbody id.
  generalize (dirty_pages t). intros l Hl. revert t Hid.
  induction Hl as [|i l [Hi _] Hl IH]; intros t Hid.
  - cbn. unfold ret, on_wal, zoom. by destruct t as [[] ? ? ? ?].
  - cbn [fmap list_fmap for_each append_all]. unfold bind_st at 1.
    rewrite log_page_run by done. rewrite Hid. unfold on_wal at 1, zoom.
    unfold bind_st at 1, ret.
    destruct (append (image_kind id i) (wal (manager t))) as [[n|e|] w] eqn:E.
    + rewrite IH by done. unfold on_wal, zoom, append_all, bind_st, ret.
      cbn [manager wal with_manager with_wal]. rewrite E. by destruct (for_each _ _ w).
    + unfold on_wal, zoom, bind_st. by rewrite E.
    + unfold on_wal, zoom, bind_st. by rewrite E.
Qed.

Lemma write_dirty_pages_run t l :
  for_each write_dirty_page l t = on_store (CatalogStore.on_file (for_each write_page l)) t.
Proof.
  unfold write_dirty_page, on_store, CatalogStore.on_file.
  rewrite (for_each_zoom (fun t => store (manager t))
             (fun s t => with_manager (with_store s (manager t)) t)); [|by intros [[] ? ? ? ?]|done..].
  unfold zoom at 1. unfold zoom at 2.
  by rewrite (for_each_zoom page_file (fun f s => mkCatalogStore f (catalog s))); [|by intros []|done..].
Qed.
End Halves.

(** ** Every outcome of [commit] *)

Lemma torn_writes_zero ws c : torn_writes ws 0 0 c = c.
Proof. by destruct ws as [|w ws]. Qed.

Lemma torn_writes_all ws k c : torn_writes ws (length ws) k c = apply_writes ws c.
Proof. unfold torn_writes. by rewrite lookup_ge_None_2. Qed.

(** The data file after a commit that stopped somewhere. *)
Definition torn_data {F} `{VfsLaws F} (t : Transaction F) (c : list byte) : Prop :=
  exists n k, c = torn_writes (page_writes (dirty_pages t)) n k (contents (data (manager t))).

(** The two files after a commit: a part of the log records and untouched data,
    or all the log records and a part of the pages. *)
Definition commit_files {F} `{VfsLaws F} (t : Transaction F) (ks : list WalRecordKind)
    (r : DbResult unit) (m : TransactionalStore F) : Prop :=
  (contents (data m) = contents (data (manager t)) /\ r <> Ok tt
   /\ torn_log ks (commit_kinds t) (contents (wal_file (wal m))))
  \/ (wal_rep (wal m) (ks ++ commit_kinds t) /\ torn_data t (contents (data m))).

Record commit_result {F} `{VfsLaws F} (t : Transaction F) (ks : list WalRecordKind)
    (r : DbResult unit) (m : TransactionalStore F) : Prop := {
  cr_panic : r <> Panic;
  cr_idle : active_writer m = false;
  cr_next : next_tx_id m = next_tx_id (manager t);
  cr_files : commit_files t ks r m;
  cr_ok : r = Ok tt ->
    wal_rep (wal m) (ks ++ commit_kinds t)
    /\ contents (data m) = apply_writes (page_writes (dirty_pages t)) (contents (data (manager t)))
    /\ catalog (store m) = working_catalog t
    /\ (healthy (data (manager t)) -> healthy (data m));
  cr_healthy : healthy (data (manager t)) -> healthy (wal_file (wal (manager t))) ->
    r = Ok tt /\ healthy (wal_file (wal m))
}.

Section Outcomes.
Context {F : Type} `{VfsLaws F}.
Implicit Types t : Transaction F.

(** The steps of [commit] after the log is complete. *)
Definition after_log (pages : list Page) : db (Transaction F) unit :=
  let! _ := on_wal wal_sync_data in
  let! _ := for_each write_dirty_page pages in
  let! _ := on_store sync_data in
  let! c := gets working_catalog in
  let! _ := on_store (replace_catalog c) in
  let! _ := modify (with_state Committed) in
  modify (fun t => with_manager (finish_writer (manager t)) t).

Lemma append_all_snoc ks k (w : WalWriter F) :
  append_all (ks ++ [k]) w
  = match append_all ks w with
    | (Ok _, w') => let '(r, w2) := append k w' in (let? _ := r in Ok tt, w2)
    | (Err e, w') => (Err e, w')
    | (Panic, w') => (Panic, w')
    end.
Proof.
  unfold append_all. rewrite for_each_app. unfold bind_st at 1.
  destruct (for_each _ ks w) as [[[]|e|] w']; [|done|done]. cbn [for_each].
  unfold bind_st, ret. by destruct (append k w') as [[l|e|] w2].
Qed.

Lemma on_wal_bind {A B} (m : db (WalWriter F) A) (k : A -> db (Transaction F) B) t :
  (let! a := on_wal m in k a) t
  = let '(r, w) := m (wal (manager t)) in
    let t' := with_manager (with_wal w (manager t)) t in
    match r with Ok a => k a t' | Err e => (Err e, t') | Panic => (Panic, t') end.
Proof. unfold bind_st, on_wal, zoom. by destruct (m _) as [[] w]. Qed.

Lemma commit_body_run t :
  state t = Active -> Forall storable (dirty_pages t) ->
  commit_body t
  = (let! _ := on_wal (append_all (commit_kinds t)) in after_log (dirty_pages t).*2) t.
Proof.
  intros Hst Hd. unfold commit_body, ensure_active.
  unfold bind_st at 1. rewrite bool_decide_true by done. unfold bind_st at 1, gets at 1.
  unfold bind_st at 1. rewrite log_pages_run by done. rewrite on_wal_bind.
  unfold on_wal at 1, zoom at 1. unfold commit_kinds. rewrite append_all_snoc.
  destruct (append_all (image_kind (tx_id t) <$> dirty_pages t) (wal (manager t))) as [[[]|e|] w];
    [|done|done].
  unfold bind_st at 1, gets at 1. rewrite on_wal_bind.
  cbn [manager wal with_manager with_wal tx_id].
  by destruct (append (CommitTx (tx_id t)) w) as [[l|e|] w'].
Qed.

Lemma wal_rep_same (w w' : WalWriter F) ks :
  wal_rep w ks -> contents (wal_file w') = contents (wal_file w) -> allocator w' = allocator w ->
  wal_rep w' ks.
Proof. intros [Hc Hn Hk] Hc' Hn'. split; [congruence|congruence|done]. Qed.

(** Dropping a transaction that did not finish. *)
Lemma drop_active t : state t = Active -> drop_tx t = finish_writer (manager t).
Proof. intros Hst. unfold drop_tx. by rewrite bool_decide_true. Qed.

Lemma commit_outcome t ks r m :
  state t = Active -> Forall storable (dirty_pages t) -> tx_id t <= U64_MAX ->
  wal_rep (wal (manager t)) ks -> stream_len (ks ++ commit_kinds t) <= U64_MAX ->
  commit t = (r, m) -> commit_result t ks r m.
Proof.
  intros Hst Hd Hid Hw Hl. unfold commit. rewrite commit_body_run by done.
  unfold bind_st, on_wal at 1, zoom at 1.
  destruct (append_all (commit_kinds t) (wal (manager t))) as [o w] eqn:Ha.
  destruct (append_all_spec _ _ _ _ _ Hw (commit_kinds_ok t Hid Hd) Hl Ha) as (Hp & Hh & Hok & Htorn).
  assert (Ho : o = Ok tt \/ exists e, o = Err e) by (destruct o as [[]|e|]; eauto; done).
  destruct Ho as [-> |[e ->]].
  2: { rewrite drop_active by done. intros [= <- <-]. split; try done.
       - left. split; [done|]. split; [done|]. by apply Htorn.
       - intros _ Hwf. by destruct (Hh Hwf) as [_ ?]. }
  specialize (Hok eq_refl). clear Htorn.
  unfold after_log, bind_st at 1, on_wal, wal_sync_data, Wal.on_file, zoom.
  cbn [manager wal with_manager with_wal].
  destruct (file_sync_data (wal_file w)) as [o f] eqn:Hs.
  apply sync_law in Hs as (Hcs & Hps & Hhs & Hos).
  assert (Hw' : wal_rep (mkWalWriter f (allocator w)) (ks ++ commit_kinds t)) by by apply (wal_rep_same w).
  destruct o as [[]|e|]; [| |done].
  2: { rewrite drop_active by done. intros [= <- <-]. split; try done.
       - right. split; [done|]. exists 0%nat, 0%nat. by rewrite torn_writes_zero.
       - intros _ Hwf. by specialize (Hos (proj1 (Hh Hwf))). }
  unfold bind_st at 1. rewrite write_dirty_pages_run. unfold on_store at 1, CatalogStore.on_file at 1, zoom.
  cbn [manager wal with_manager with_wal store].
  destruct (for_each write_page (dirty_pages t).*2 (page_file (store (manager t)))) as [o d] eqn:Hwr.
  apply write_pages_spec in Hwr as (Hpd & Hhd & Hpre & Hokd); [|done].
  assert (Ho : o = Ok tt \/ exists e, o = Err e) by (destruct o as [[]|e|]; eauto; done).
  destruct Ho as [-> |[e ->]].
  2: { rewrite drop_active by done. intros [= <- <-]. split; try done.
       - right. split; [done|]. exact Hpre.
       - intros Hf _. by destruct (Hhd Hf) as [_ ?]. }
  specialize (Hokd eq_refl).
  unfold bind_st at 1, on_store at 1, sync_data, CatalogStore.on_file, zoom.
  cbn [manager wal with_manager with_wal store with_store page_file].
  destruct (file_sync_data d) as [o d'] eqn:Hs.
  apply sync_law in Hs as (Hcd & Hpd' & Hhd' & Hosd).
  assert (Hfull : torn_data t (contents d')).
  { exists (length (page_writes (dirty_pages t))), 0%nat. rewrite torn_writes_all. by etrans; [exact Hcd|exact Hokd]. }
  destruct o as [[]|e|]; [| |done].
  2: { rewrite drop_active by done. intros [= <- <-]. split; try done.
       - right. by split.
       - intros Hf _. destruct (Hhd Hf) as [Hf' _]. by specialize (Hosd Hf'). }
  intros [= <- <-]. split; try done.
  - right. by split.
  - intros _. split; [done|]. split; [by etrans; [exact Hcd|exact Hokd]|]. split; [done|].
    intros Hf. apply Hhd'. by apply Hhd.
  - intros _ Hwf. split; [done|]. apply Hhs, Hh, Hwf.
Qed.
End Outcomes.

(** ** What recovery makes of the two files *)

Section Crash.
Context {F : Type} `{VfsLaws F}.
Implicit Types t : Transaction F.

Lemma dirty_images_valid l :
  Forall storable l -> Forall (fun i => valid_page i.1 (mkPage i.2)) (page_image_of <$> l).
Proof.
  intros Hl. apply Forall_fmap. eapply Forall_impl; [exact Hl|]. intros [id [bs]] [Hv _]. exact Hv.
Qed.

Lemma dirty_images_image_valid l : Forall storable l -> Forall image_valid (page_image_of <$> l).
Proof.
  intros Hl. apply Forall_fmap. eapply Forall_impl; [exact Hl|]. by intros [id [bs]] [Hv Ha].
Qed.

Lemma transaction_storable t T T' ks : transaction_rep t T T' ks -> Forall storable (dirty_pages t).
Proof. intros Ht. apply (tr_dirty _ _ _ _ Ht). Qed.

(** The committed images once the commit marker is in the log, and before. *)
Lemma images_after_commit t T T' ks :
  transaction_rep t T T' ks ->
  committed_images (records_of 0 (ks ++ commit_kinds t))
  = committed_images (records_of 0 ks) ++ (page_image_of <$> dirty_pages t).
Proof.
  intros Ht. destruct (tr_fresh _ _ _ _ Ht) as [Hfresh|Hset].
  2: { rewrite !committed_images_settled by (done || by apply settled_app, commit_kinds_settled).
       by rewrite omap_app, commit_kinds_images. }
  rewrite (committed_images_extend _ _ (tx_id t) Hfresh (commit_kinds_tx t)).
  rewrite decide_True; [by rewrite commit_kinds_images|]. unfold commit_kinds.
  rewrite !elem_of_app, !list_elem_of_singleton. split; [by right|].
  intros [(i & Hi & _)%list_elem_of_fmap|Hi]; [by destruct i|done].
Qed.

Lemma images_before_commit t ks whole rest :
  begun_only (tx_id t) ks -> commit_kinds t = whole ++ rest -> rest <> [] ->
  committed_images (records_of 0 (ks ++ whole)) = committed_images (records_of 0 ks).
Proof.
  intros Hfresh Hk Hr. assert (Hall := commit_kinds_tx t). rewrite Hk in Hall.
  apply Forall_app in Hall as [Hall _].
  rewrite (committed_images_extend _ _ (tx_id t) Hfresh Hall).
  rewrite decide_False; [by rewrite app_nil_r|]. intros [Hin _].
  destruct (exists_last Hr) as (rest' & x & ->). unfold commit_kinds in Hk.
  rewrite app_assoc in Hk. apply app_inj_tail in Hk as [Hk _].
  assert (Hin2 : CommitTx (tx_id t) ∈ image_kind (tx_id t) <$> dirty_pages t).
  { rewrite Hk. apply elem_of_app. by left. }
  apply list_elem_of_fmap in Hin2 as (i & Hi & _). by destruct i.
Qed.

(** The pages after all the writes of the log and of the commit. *)
Lemma view_after_commit t T T' ks c :
  transaction_rep t T T' ks -> contents (data (manager t)) = c ->
  aligned (apply_writes (page_writes (dirty_pages t)) c)
  /\ forall i, page_store (apply_writes (page_writes (dirty_pages t)) c) i = view t i.
Proof.
  intros Ht <-. destruct (tr_dirty _ _ _ _ Ht) as [Hsort Hf].
  pose proof (sr_ready _ _ (mr_store _ _ _ (tr_manager _ _ _ _ Ht))) as [_ Ha].
  destruct (page_store_images _ _ Ha (dirty_images_valid _ Hf)) as [Ha' Hs].
  split; [done|]. intros i. unfold page_writes. by rewrite Hs, btree_get_last_image.
Qed.

Lemma view_after_recovery t T T' ks :
  transaction_rep t T T' ks ->
  forall i, page_store (apply_writes (image_writes (records_of 0 (ks ++ commit_kinds t)))
                          (contents (data (manager t)))) i = view t i.
Proof.
  intros Ht i. destruct (tr_dirty _ _ _ _ Ht) as [Hsort Hf].
  pose proof (sr_ready _ _ (mr_store _ _ _ (tr_manager _ _ _ _ Ht))) as [_ Ha].
  pose proof (mr_log _ _ _ (tr_manager _ _ _ _ Ht)) as Hl.
  unfold image_writes. rewrite (images_after_commit t T T' ks Ht).
  destruct (page_store_images (committed_images (records_of 0 ks) ++ (page_image_of <$> dirty_pages t))
              (contents (data (manager t))) Ha) as [_ ->].
  { apply Forall_app_2; [|by apply dirty_images_valid].
    eapply Forall_impl; [exact (lr_valid _ _ _ Hl)|]. by intros [] []. }
  rewrite last_image_app, btree_get_last_image by done. cbn [view tx_access_laws].
  destruct (btree_get i (dirty_pages t)); [done|].
  destruct (last_image _ i) as [p|] eqn:Hp; [|done]. by rewrite (lr_covers _ _ _ Hl i p Hp).
Qed.

Lemma view_without_commit t T T' ks rs :
  transaction_rep t T T' ks -> committed_images rs = committed_images (records_of 0 ks) ->
  forall i, page_store (apply_writes (image_writes rs) (contents (data (manager t)))) i
            = view (data (manager t)) i.
Proof.
  intros Ht Hrs i. pose proof (mr_log _ _ _ (tr_manager _ _ _ _ Ht)) as Hl.
  pose proof (sr_ready _ _ (mr_store _ _ _ (tr_manager _ _ _ _ Ht))) as [_ Ha].
  unfold image_writes. rewrite Hrs.
  destruct (page_store_images (committed_images (records_of 0 ks)) _ Ha) as [_ ->].
  { eapply Forall_impl; [exact (lr_valid _ _ _ Hl)|]. by intros [] []. }
  destruct (last_image _ i) as [p|] eqn:Hp; [|done]. by rewrite (lr_covers _ _ _ Hl i p Hp).
Qed.

Lemma len_torn_log ks ks' c : torn_log ks ks' c -> len c <= stream_len (ks ++ ks').
Proof.
  intros (whole & k & rest & n & -> & ->).
  rewrite length_app, length_take. pose proof (len_stream 0 (ks ++ whole)).
  pose proof (len_encoded (stream_len (ks ++ whole)) k).
  rewrite !stream_len_app in *. cbn [stream_len]. lia.
Qed.

(** The transaction on other open files with the same contents: whatever the
    operating system has in store for it. *)
Definition on_files (g w : F) t : Transaction F :=
  with_manager (mkTransactionalStore (mkCatalogStore g (catalog (store (manager t))))
                  (mkWalWriter w (allocator (wal (manager t)))) (next_tx_id (manager t))
                  (active_writer (manager t))) t.

(** Every outcome of a commit of a well-formed transaction, on any files. *)
Lemma commit_on_files t T T' ks g w r m :
  transaction_rep t T T' ks -> next_tx_id (manager t) <= U64_MAX ->
  stream_len (ks ++ commit_kinds t) <= U64_MAX ->
  contents g = contents (data (manager t)) ->
  contents w = contents (wal_file (wal (manager t))) ->
  commit (on_files g w t) = (r, m) ->
  commit_result (on_files g w t) ks r m /\ commit_files t ks r m.
Proof.
  intros Ht Hn Hl Hg Hw Hc. pose proof (tr_id _ _ _ _ Ht) as Hid.
  assert (Hids : tx_id t <= U64_MAX) by lia.
  assert (Hwr : wal_rep (wal (manager (on_files g w t))) ks)
    by (apply (wal_rep_same (wal (manager t))); [apply (tr_manager _ _ _ _ Ht)|done|done]).
  pose proof (commit_outcome (on_files g w t) ks r m (tr_state _ _ _ _ Ht)
    (transaction_storable _ _ _ _ Ht) Hids Hwr Hl Hc) as Hres.
  split; [done|]. destruct (cr_files _ _ _ _ Hres) as [(Hcd & Hne & Htorn)|(Hwr' & n & k & Hcd)].
  - left. split; [|done]. by etrans; [exact Hcd|].
  - right. split; [done|]. exists n, k. rewrite Hcd. by f_equal.
Qed.

(** The records that a scan finds after any end of a commit: those of the whole
    commit, or the images that were committed before. *)
Lemma commit_log_parsed t T T' ks r m rs :
  transaction_rep t T T' ks -> begun_only (tx_id t) ks -> commit_files t ks r m ->
  Forall kind_ok (commit_kinds t) -> stream_len (ks ++ commit_kinds t) <= U64_MAX ->
  parse_wal (contents (wal_file (wal m))) = Ok rs ->
  rs = records_of 0 (ks ++ commit_kinds t)
  \/ (contents (data m) = contents (data (manager t)) /\ r <> Ok tt
      /\ committed_images rs = committed_images (records_of 0 ks)).
Proof.
  intros Ht Hfr Hr Hk Hl Hp. pose proof (mr_wal _ _ _ (tr_manager _ _ _ _ Ht)) as Hw.
  destruct Hr as [(Hc & Hne & Htorn)|(Hw' & _)].
  - destruct (torn_log_parse ks _ _ rs (wal_kinds _ _ Hw) Hk Hl Htorn Hp) as (whole & rest & Hsplit & ->).
    destruct (decide (rest = [])) as [-> |Hrest]; [left; rewrite app_nil_r in Hsplit; by rewrite <- Hsplit|right].
    split; [done|]. split; [done|]. by apply (images_before_commit t ks _ rest).
  - left. rewrite (wal_contents _ _ Hw'), parse_wal_stream in Hp by (done || apply (wal_kinds _ _ Hw')). by injection Hp.
Qed.

Lemma commit_images_valid t T T' ks :
  transaction_rep t T T' ks -> Forall image_valid (committed_images (records_of 0 (ks ++ commit_kinds t))).
Proof.
  intros Ht. rewrite (images_after_commit t T T' ks Ht). apply Forall_app_2.
  - apply (lr_valid _ _ _ (mr_log _ _ _ (tr_manager _ _ _ _ Ht))).
  - apply dirty_images_image_valid, (transaction_storable t T T' ks Ht).
Qed.

(** Writing the images of the whole log after any end of the commit. *)
Lemma commit_redone_contents t T T' ks r m :
  transaction_rep t T T' ks -> commit_files t ks r m ->
  let ws := image_writes (records_of 0 (ks ++ commit_kinds t)) in
  apply_writes ws (contents (data m)) = apply_writes ws (contents (data (manager t))).
Proof.
  intros Ht [(-> & _)|(_ & n & k & ->)]; [done|]. unfold image_writes.
  rewrite (images_after_commit t T T' ks Ht), fmap_app. by rewrite apply_writes_torn_suffix.
Qed.

(** What recovery leaves of the data file, however the commit ended and however
    often recovery had to be run again: all the pages of the transaction, or the
    committed ones. *)
Lemma commit_recovered t T T' ks g w r m d' :
  transaction_rep t T T' ks -> begun_only (tx_id t) ks -> next_tx_id (manager t) <= U64_MAX ->
  stream_len (ks ++ commit_kinds t) <= U64_MAX ->
  contents g = contents (data (manager t)) -> contents w = contents (wal_file (wal (manager t))) ->
  commit (on_files g w t) = (r, m) -> recovered (contents (data m)) (contents (wal_file (wal m))) d' ->
  r <> Panic /\ aligned (contents (data_file d'))
  /\ ((forall i, view (data_file d') i = view t i)
      \/ (r <> Ok tt /\ forall i, view (data_file d') i = view (data (manager t)) i)).
Proof.
  intros Ht Hfr Hn Hl Hg Hwf Hc Hrec. pose proof (tr_id _ _ _ _ Ht) as Hid.
  pose proof (commit_kinds_ok t ltac:(lia) (transaction_storable _ _ _ _ Ht)) as Hk.
  destruct (commit_on_files t T T' ks g w r m Ht Hn Hl Hg Hwf Hc) as [Hres Hfiles].
  split; [apply Hres|]. pose proof (sr_ready _ _ (mr_store _ _ _ (tr_manager _ _ _ _ Ht))) as [_ Hal].
  pose proof (lr_valid _ _ _ (mr_log _ _ _ (tr_manager _ _ _ _ Ht))) as Hval.
  assert (Hloglen : len (contents (wal_file (wal m))) <= U64_MAX).
  { destruct Hfiles as [(_ & _ & Htorn%len_torn_log)|(Hwr & _)]; [lia|]. by rewrite (wal_contents _ _ Hwr), len_stream. }
  pose proof (fun rs => commit_log_parsed t T T' ks r m rs Ht Hfr Hfiles Hk Hl) as Hparsed.
  apply recovered_contents in Hrec as [_ Hd']; [|done|].
  2: { intros rs Hrs. destruct (Hparsed rs Hrs) as [-> |(_ & _ & ->)]; [by apply (commit_images_valid t T T' ks)|done]. }
  assert (Hnew : forall rs, Forall image_valid (committed_images rs) ->
    aligned (apply_writes (image_writes rs) (contents (data (manager t))))).
  { intros rs Hrs. apply page_store_images; [done|]. eapply Forall_impl; [exact Hrs|]. by intros [] []. }
  cbn [view file_access_laws]. destruct (parse_wal (contents (wal_file (wal m)))) as [rs|e|] eqn:Hrs.
  - destruct (Hparsed rs eq_refl) as [-> |(Hdata & Hne & Himg)]; rewrite Hd'.
    + rewrite (commit_redone_contents t T T' ks r m Ht Hfiles).
      split; [by apply Hnew, (commit_images_valid t T T' ks)|]. left. by apply (view_after_recovery t T T' ks).
    + rewrite Hdata. split; [apply Hnew; by rewrite Himg|]. right. split; [done|]. by apply (view_without_commit t T T' ks).
  - destruct Hfiles as [(Hdata & Hne & _)|(Hwr & _)].
    + rewrite Hd', Hdata. split; [done|]. by right.
    + by rewrite (wal_contents _ _ Hwr), parse_wal_stream in Hrs by (done || apply (wal_kinds _ _ Hwr)).
  - destruct Hfiles as [(Hdata & Hne & _)|(Hwr & _)].
    + rewrite Hd', Hdata. split; [done|]. by right.
    + by rewrite (wal_contents _ _ Hwr), parse_wal_stream in Hrs by (done || apply (wal_kinds _ _ Hwr)).
Qed.

End Crash.
