(* ===== verification/TxTheorems.v ===== *)
(** * TxTheorems: isolation, atomicity and durability of transactions *)

From S2P Require Import Prelude Core Bytes Page PageFacts PageOps Vfs VfsFacts PageStore Wal WalFacts WalStream WalTheorems Recovery RecoveryFacts Catalog CatalogFacts CatalogWf CatalogTheorems Heap HeapDb CatalogStore CatalogStoreFacts CatalogStoreTheorems Tx TxFacts TxCommit.

Lemma mark_catalog_dirty_view {F} `{VfsLaws F} (t t' : Transaction F) i :
  mark_catalog_dirty t = (Ok tt, t') -> i <> CATALOG_PAGE_ID -> view t' i = view t i.
Proof.
  unfold mark_catalog_dirty, bind_st, gets, lift, dirty_insert, modify.
  destruct (to_page (working_catalog t)) as [p|e|]; [|done..]. intros [= <-] Hi.
  cbn. rewrite btree_get_insert. by rewrite decide_False.
Qed.

Section Operations.
Context {F : Type} `{VfsLaws F}.
Implicit Types (m : TransactionalStore F) (t : Transaction F).

(** Operations of an active transaction on a heap table. *)
Lemma tx_on_table {A} t id r (k : list PageId -> db (Transaction F) A) :
  state t = Active -> is_table (working_catalog t) id r ->
  (let! _ := ensure_active in
   let! _ := ensure_heap_relation id in
   let! page_ids := heap_pages id in k page_ids) t
  = k (rel_heap_pages r) t.
Proof.
  intros Hst [Hid Hk]. unfold ensure_active, ensure_heap_relation, heap_pages, bind_st, gets, lift, ret.
  rewrite (bool_decide_true (state t = Active)) by done. rewrite Hid. cbn [ok_or].
  unfold is_heap_table. rewrite (bool_decide_true (rel_kind r = Table)) by done. cbn [negb].
  by rewrite Hid.
Qed.

(** Staging the catalog page ends an operation that changed the catalog. *)
Lemma stage_catalog t t1 T T' T'' ks :
  transaction_rep t T T' ks -> same_manager (manager t) (manager t1) -> ready t1 ->
  tx_id t1 = tx_id t -> state t1 = state t -> heap_db (working_catalog t1) (view t1) T'' ->
  match mark_catalog_dirty t1 with
  | (Ok _, t') => transaction_rep t' T T'' ks /\ working_catalog t' = working_catalog t1
  | (Err (User _), t') => same_manager (manager t) (manager t')
  | _ => False
  end.
Proof.
  intros Ht Hm Hr Hid Hst Hdb. pose proof (mark_catalog_dirty_run t1 T'' Hr Hdb) as Hmark.
  destruct (mark_catalog_dirty t1) as [[[]|[]|] t'] eqn:E; try done.
  - destruct Hmark as ([Hr' Hd'] & [Hm' Hid' Hc' Hst'] & Hdb' & Hsaved). split; [|done].
    assert (Hmm : same_manager (manager t) (manager t')) by by etrans.
    pose proof (sm_next _ _ Hmm) as Hn. destruct Ht as [Hmr _ _ _ Hlt Hfresh Hstate].
    split; [by apply (manager_rep_same (manager t))|done|by rewrite Hc'|by rewrite Hc'|by rewrite Hid', Hid, Hn
           |by rewrite Hid', Hid|congruence].
  - by subst t'.
Qed.

(** What inserting into the table [id] leaves of everything else: pages outside
    the table, the schema, and every relation but the table. *)
Record only_table (id : RelationId) (t t' : Transaction F) : Prop := {
  ot_view : forall i, 1 <= i < next_page_id (working_catalog t) ->
    (forall r, is_table (working_catalog t) id r -> i ∉ rel_heap_pages r) -> view t' i = view t i;
  ot_next : next_page_id (working_catalog t) <= next_page_id (working_catalog t')
            <= next_page_id (working_catalog t) + 1;
  ot_schema : schema (working_catalog t') = schema (working_catalog t);
  ot_others : forall id', id' <> id ->
    relation_by_id id' (working_catalog t') = relation_by_id id' (working_catalog t);
  ot_pages : forall r i, r ∈ relations (working_catalog t') -> rel_kind r = Table -> i ∈ rel_heap_pages r ->
    (exists r0, r0 ∈ relations (working_catalog t) /\ rel_kind r0 = Table /\ i ∈ rel_heap_pages r0)
    \/ next_page_id (working_catalog t) <= i
}.

Lemma only_table_view id t t' :
  working_catalog t' = working_catalog t ->
  (forall i r, is_table (working_catalog t) id r -> i ∉ rel_heap_pages r -> view t' i = view t i) ->
  (exists r, is_table (working_catalog t) id r) -> only_table id t t'.
Proof.
  intros Hc Hv [r Hr]. split; rewrite ?Hc; try done; [|lia|].
  - intros i _ Hi. apply (Hv i r Hr). by apply Hi.
  - intros r' i Hr' Hk Hi. left. by exists r'.
Qed.

Lemma tx_insert_new_page_spec t T T' ks id r record :
  transaction_rep t T T' ks -> is_table (working_catalog t) id r ->
  addressable (next_page_id (working_catalog t)) ->
  match insert_new_page id record t with
  | (Ok row, t') => exists a slot,
      let p := next_page_id (working_catalog t) in
      a_insert record (a_new p Page.Heap) = Some (slot, a) /\ row = mkRowId p slot
      /\ transaction_rep t' T (set_table id (T' id ++ [(p, a)]) T') ks /\ only_table id t t'
  | (Err (User _), t') => same_manager (manager t) (manager t')
  | _ => False
  end.
Proof.
  intros Ht Hit Had. set (p := next_page_id (working_catalog t)) in *.
  pose proof (tr_db _ _ _ _ Ht) as Hdb.
  pose proof (allocate_page_id_wf _ (hd_wf _ _ _ Hdb)) as Hwf.
  pose proof (allocate_page_id_fresh (working_catalog t) p) as Hfresh.
  unfold insert_new_page, bind_st at 1, on_working_catalog, zoom. unfold allocate_page_id in *.
  rewrite checked_add_ok in * by (unfold addressable, U64_MAX, PAGE_SIZE in *; lia).
  specialize (Hfresh _ (hd_wf _ _ _ Hdb) eq_refl). cbn [snd] in Hwf.
  set (c1 := with_next_page (next_page_id (working_catalog t) + 1) (working_catalog t)) in *. fold p.
  assert (Hp : p <= U64_MAX) by by apply addressable_u64.
  pose proof (insert_record_refines _ _ record (page_new_refines p Page.Heap Hp)) as Hins.
  destruct (a_insert record (a_new p Page.Heap)) as [[slot a]|] eqn:Ha.
  2: { destruct Hins as [msg ->]. unfold bind_st, lift. by split. }
  destruct Hins as (pg & -> & Hrep).
  destruct (table_rows_new_page [] p record slot a Ha ltac:(by apply not_elem_of_nil)) as (_ & _ & Hty & Hid).
  unfold bind_st at 1, lift at 1. unfold bind_st at 1, zoom. cbn [working_catalog with_catalog].
  assert (Hdb1 : heap_db c1 (view t) T') by (split; [done|apply Hdb]).
  set (t2 := fun c2 => with_dirty (btree_insert p pg (dirty_pages t)) (with_catalog c2 t)).
  assert (Hv : forall c2 i, view (t2 c2) i = store_set p pg (view t) i).
  { intros c2 i. cbn. rewrite btree_get_insert. unfold store_set. by case_decide. }
  destruct (heap_db_new_page c1 (view t) (view (t2 c1)) T' id r p a Hdb1 Hit Hfresh)
    as (c2 & Hrun & Hdb2 & Hnx).
  { intros i Hi _. rewrite Hv. unfold store_set. by rewrite decide_False. }
  { by apply (fresh_heap_page (view t) _ p pg). }
  rewrite Hrun. unfold bind_st at 1, dirty_insert, modify.
  change (with_dirty _ _) with (t2 c2). unfold bind_st, ret.
  assert (Hready : ready (t2 c2)).
  { split; [apply (tr_ready _ _ _ _ Ht)|]. apply dirty_ok_insert; [|done|apply (tr_dirty _ _ _ _ Ht)].
    rewrite <- Hid. by apply page_rep_valid. }
  assert (Hm : same_manager (manager t) (manager (t2 c2))) by by split.
  pose proof (stage_catalog t (t2 c2) T T' _ ks Ht Hm Hready eq_refl eq_refl Hdb2) as Hstage.
  destruct (mark_catalog_dirty (t2 c2)) as [[[]|[]|] t'] eqn:E; try done.
  exists a, slot. split; [done|]. split; [done|]. destruct Hstage as [Hrep' Hcat]. split; [done|].
  destruct (append_heap_page_frame c1 id r p c2 Hwf Hit Hrun) as (Hsch & Hoth & Hpg).
  change (working_catalog (t2 c2)) with c2 in Hcat. split; rewrite ?Hcat; try done.
  - intros i Hi _. rewrite (mark_catalog_dirty_view _ _ i E) by (unfold CATALOG_PAGE_ID; lia).
    rewrite Hv. unfold store_set. rewrite decide_False; [done|]. fold p in Hi. lia.
  - rewrite Hnx. unfold c1. cbn. lia.
  - intros r' i Hr' Hk' Hi. destruct (Hpg r' i Hr' Hk' Hi) as [?| ->]; [by left|right; unfold p; lia].
Qed.

(** A read before does not matter. *)
Lemma only_table_after id t t1 t' :
  working_catalog t1 = working_catalog t -> (forall i, view t1 i = view t i) -> only_table id t1 t' -> only_table id t t'.
Proof.
  intros Hc Hv [H1 H2 H3 H4 H5]. rewrite Hc in *. split; try done. intros i Hi Hr. rewrite <- Hv. by apply H1.
Qed.

(** Every outcome of [insert_row] on an existing table. *)
Lemma tx_insert_row_spec t T T' ks id r record :
  transaction_rep t T T' ks -> is_table (working_catalog t) id r ->
  addressable (next_page_id (working_catalog t)) ->
  match insert_row id record t with
  | (Ok row, t') => exists tb, transaction_rep t' T (set_table id tb T') ks
      /\ table_rows tb ≡ₚ mkHeapRow row record :: table_rows (T' id)
      /\ (forall d, mkHeapRow row d ∉ table_rows (T' id)) /\ only_table id t t'
  | (Err (User _), t') => same_manager (manager t) (manager t') /\ table_insert record (T' id) = None
  | _ => False
  end.
Proof.
  intros Ht Hit Had. pose proof (tr_db _ _ _ _ Ht) as Hdb. unfold insert_row.
  rewrite (tx_on_table _ _ _ _ (tr_state _ _ _ _ Ht) Hit). unfold bind_st.
  destruct (is_table_rep _ _ _ _ _ Hdb Hit) as (pages & Hst & Hpages & Hnd & _ & _ & Hrep).
  rewrite Hpages.
  pose proof (insert_into_pages_spec record _ _ _ (tr_ready _ _ _ _ Ht) Hnd Hrep) as Hins.
  destruct (table_insert record (T' id)) as [[row tb]|] eqn:Hti.
  - destruct Hins as (t1 & -> & Hr1 & Hrep1 & Hv & Hsame). unfold ret. exists tb.
    pose proof (st_catalog _ _ Hsame) as Hcat.
    apply table_insert_rows in Hti as (Hp & _ & Hin & Hnew); [|by rewrite (proj1 Hrep)].
    rewrite (proj1 Hrep), <- Hpages in Hin. split; [|split; [done|split; [done|]]].
    2: { apply only_table_view; [done| |by exists r]. intros i r' Hr' Hi. apply Hv. intros ->.
         assert (r' = r) as -> by (destruct Hr', Hit; congruence). done. }
    apply (transaction_rep_same t t1 T T'); [done|done|done|rewrite Hcat..].
    + apply (heap_db_update _ (view t) _ _ _ r); [done..|by rewrite Hpages|].
      intros i Hi _. apply Hv. by intros ->.
    + apply (stored_catalog_ext (view t)); [|apply Ht]. apply Hv.
      apply (table_page_positive _ _ _ _ _ _ Hdb Hit) in Hin. unfold CATALOG_PAGE_ID. lia.
  - destruct Hins as (t1 & -> & Hr1 & Hv & Hsame). pose proof (st_catalog _ _ Hsame) as Hcat.
    assert (Ht1 : transaction_rep t1 T T' ks).
    { apply (transaction_rep_same t t1 T T'); [done|done|done|rewrite Hcat..].
      - apply (heap_db_view _ (view t)); [|done]. intros i _. apply Hv.
      - apply (stored_catalog_ext (view t)); [|apply Ht]. apply Hv. }
    pose proof (tx_insert_new_page_spec t1 T T' ks id r record Ht1) as Hnew. rewrite Hcat in Hnew.
    specialize (Hnew Hit Had).
    destruct (insert_new_page id record t1) as [[row|[]|] t']; try done.
    + destruct Hnew as (a & slot & Ha & -> & Hs' & Hot).
      exists (T' id ++ [(next_page_id (working_catalog t), a)]). split; [done|].
      apply (table_rows_new_page (T' id)) in Ha as (Hp & Hn & _);
        [split; [done|]; split; [done|]; by apply (only_table_after _ t t1)|].
      rewrite (proj1 Hrep), <- Hpages. intros Hin.
      apply (table_page_positive _ _ _ _ _ _ Hdb Hit) in Hin. lia.
    + split; [|done]. etrans; [exact (st_manager _ _ Hsame)|done].
Qed.

Lemma tx_create_table_spec t T T' ks name cols :
  transaction_rep t T T' ks -> string_ok name -> Forall column_typed cols ->
  addressable (next_page_id (working_catalog t)) ->
  match create_table name cols t with
  | (Ok id, t') => exists p,
      create_table_metadata name cols (working_catalog t) = (Ok (id, p), working_catalog t')
      /\ transaction_rep t' T (set_table id [(p, a_new p Page.Heap)] T') ks
      /\ forall i, 1 <= i < next_page_id (working_catalog t) -> view t' i = view t i
  | (Err (User _), t') => same_manager (manager t) (manager t')
  | _ => False
  end.
Proof.
  intros Ht Hn Hcols Had. pose proof (tr_db _ _ _ _ Ht) as Hdb.
  unfold create_table, bind_st at 1, ensure_active. rewrite bool_decide_true by apply Ht.
  unfold bind_st at 1, on_working_catalog, zoom.
  pose proof (only_user_create_table name cols (working_catalog t)) as Hu.
  destruct (create_table_metadata name cols (working_catalog t)) as [[[id p]|e|] c'] eqn:Hm; [| |done].
  2: { by destruct e. }
  pose proof (create_table_metadata_run _ _ _ _ _ _ Hm) as (_ & _ & Hp & _).
  rewrite <- Hp in Had.
  pose proof (page_new_refines p Page.Heap (addressable_u64 _ Had)) as Hrep.
  unfold bind_st at 1, dirty_insert, modify. cbn [dirty_pages with_catalog].
  set (t2 := with_dirty (btree_insert p (page_new p Page.Heap) (dirty_pages t)) (with_catalog c' t)).
  assert (Hv : forall i, view t2 i = store_set p (page_new p Page.Heap) (view t) i).
  { intros i. cbn. rewrite btree_get_insert. unfold store_set. by case_decide. }
  assert (Hready : ready t2).
  { split; [apply (tr_ready _ _ _ _ Ht)|]. apply dirty_ok_insert; [|done|apply (tr_dirty _ _ _ _ Ht)].
    exact (page_rep_valid _ _ Hrep). }
  assert (Hdb2 : heap_db (working_catalog t2) (view t2) (set_table id [(p, a_new p Page.Heap)] T')).
  { apply (heap_db_new_table (working_catalog t) (view t) _ T' name cols id p c' _ Hdb Hn Hcols Hm).
    - intros i Hi. rewrite Hv. unfold store_set. rewrite decide_False; [done|]. lia.
    - by apply (fresh_heap_page (view t) _ p (page_new p Page.Heap)). }
  assert (Hmm : same_manager (manager t) (manager t2)) by by split.
  pose proof (stage_catalog t t2 T T' _ ks Ht Hmm Hready eq_refl eq_refl Hdb2) as Hstage.
  unfold bind_st, ret. destruct (mark_catalog_dirty t2) as [[[]|[]|] t'] eqn:E; try done.
  exists p. destruct Hstage as [Hs Hc]. split; [by rewrite Hc|]. split; [done|]. intros i Hi.
  rewrite (mark_catalog_dirty_view _ _ i E) by (unfold CATALOG_PAGE_ID; lia).
  rewrite Hv. unfold store_set. rewrite decide_False; [done|]. lia.
Qed.

(** Every outcome of [begin] on an idle store. *)
Lemma begin_spec m T ks r m' :
  manager_rep m T ks -> next_tx_id m < U64_MAX -> active_writer m = false ->
  stream_len (ks ++ [BeginTx (next_tx_id m)]) <= U64_MAX -> begin m = (r, m') ->
  r <> Panic
  /\ (forall t, r = Ok t -> manager t = m' /\ tx_id t = next_tx_id m /\ active_writer m' = true
       /\ next_tx_id m' = next_tx_id m + 1
       /\ transaction_rep t T T (ks ++ [BeginTx (next_tx_id m)]))
  /\ (forall e, r = Err e -> active_writer m' = false /\ store m' = store m)
  /\ (healthy (wal_file (wal m)) -> exists t, r = Ok t).
Proof.
  intros [Hs Hw Hl] Hn Hi Hlen. set (id := next_tx_id m).
  unfold begin, bind_st at 1, gets. rewrite Hi. unfold bind_st at 1, allocate_tx_id.
  rewrite checked_add_ok by lia. fold id. unfold bind_st, modify. cbn [wal with_active with_next_tx].
  destruct (append (BeginTx id) (wal m)) as [o w] eqn:Ha.
  rewrite stream_len_app in Hlen. cbn [stream_len] in Hlen.
  assert (Hk : kind_ok (BeginTx id)) by (cbn; unfold id; lia).
  pose proof (append_run (wal m) _ Hk ltac:(rewrite (wal_next _ _ Hw); unfold id; lia)) as Hrun.
  rewrite Ha, (wal_next _ _ Hw) in Hrun.
  destruct (append_spec (wal m) ks (BeginTx id) o w Hw Hk ltac:(unfold id; lia) Ha)
    as (Hp & _ & Hok & _ & _ & Hall).
  destruct o as [l|e|]; [| |done]; intros [= <- <-].
  2: { split_and!; try done. intros Hh. by specialize (Hall Hh). }
  assert (l = stream_len ks) as ->.
  { destruct (file_write_all_at _ _ _) as [[] ?]; try done. by injection Hrun. }
  split_and!; [done| |done|by intros _; eexists]. intros t [= <-]. split_and!; try done.
  split; cbn [manager tx_id working_catalog dirty_pages state with_wal next_tx_id].
  - split; [done|by apply Hok|]. destruct Hl as [Hids Hval Hcov].
    assert (Himg : committed_images (records_of 0 (ks ++ [BeginTx id])) = committed_images (records_of 0 ks)).
    { apply committed_images_begin. }
    split; [|by rewrite Himg|by rewrite Himg].
    destruct Hids as [Hids|Hset]; [left|right; by apply settled_app, settled_begin].
    apply Forall_app_2; [|constructor; [|done]].
    + eapply Forall_impl; [exact Hids|]. intros k Hk2 u Hu. specialize (Hk2 u Hu). cbn. lia.
    + intros u [= <-]. cbn. unfold id. lia.
  - split; [constructor|done].
  - apply (sr_db _ _ Hs).
  - apply (sr_saved _ _ Hs).
  - unfold id. cbn. lia.
  - destruct (lr_ids _ _ _ Hl) as [Hids|Hset]; [left; by apply begun_only_begin|right; by apply settled_app, settled_begin].
  - done.
Qed.

(** A new transaction sees the committed store; the log keeps working. *)
Lemma begin_snapshot m T ks t m' :
  manager_rep m T ks -> next_tx_id m < U64_MAX ->
  stream_len (ks ++ [BeginTx (next_tx_id m)]) <= U64_MAX -> begin m = (Ok t, m') ->
  working_catalog t = catalog (store m) /\ (forall i, view t i = view (data m) i)
  /\ dirty_pages t = [] /\ store (manager t) = store m
  /\ (healthy (wal_file (wal m)) -> healthy (wal_file (wal (manager t)))).
Proof.
  intros [Hs Hw Hl] Hn Hlen. set (id := next_tx_id m).
  unfold begin, bind_st at 1, gets. destruct (active_writer m); [done|].
  unfold bind_st at 1, allocate_tx_id. rewrite checked_add_ok by lia. fold id. unfold bind_st, modify.
  cbn [wal with_active with_next_tx]. destruct (append (BeginTx id) (wal m)) as [o w] eqn:Ha.
  rewrite stream_len_app in Hlen. cbn [stream_len] in Hlen.
  assert (Hk : kind_ok (BeginTx id)) by (cbn; unfold id; lia).
  destruct (append_spec (wal m) ks (BeginTx id) o w Hw Hk ltac:(unfold id; lia) Ha) as (_ & Hh & _).
  destruct o as [l|e|]; [|done..]. intros [= <- <-]. by split_and!.
Qed.
End Operations.

(** ** The end of a transaction *)

Definition keeps_state {F A} (m : db (Transaction F) A) : Prop := forall t, state (m t).2 = state t.

Section Ends.
Context {F : Type} `{VfsLaws F}.
Implicit Types (m : TransactionalStore F) (t : Transaction F).

Lemma keeps_state_bind {A B} (m : db (Transaction F) A) (k : A -> db (Transaction F) B) :
  keeps_state m -> (forall a, keeps_state (k a)) -> keeps_state (bind_st m k).
Proof.
  intros Hm Hk t. unfold bind_st. specialize (Hm t). destruct (m t) as [[a|e|] t']; [|done|done].
  by rewrite Hk.
Qed.
Lemma keeps_state_for_each {B} (f : B -> db (Transaction F) unit) xs :
  (forall x, keeps_state (f x)) -> keeps_state (for_each f xs).
Proof. intros Hf. induction xs; simpl; [done|]. by apply keeps_state_bind. Qed.
Lemma keeps_state_wal {A} (m : db (WalWriter F) A) : keeps_state (on_wal m).
Proof. intros t. unfold on_wal, zoom. by destruct (m _). Qed.
Lemma keeps_state_store {A} (m : db (CatalogStore F) A) : keeps_state (on_store m).
Proof. intros t. unfold on_store, zoom. by destruct (m _). Qed.
Lemma keeps_state_log_page p : keeps_state (log_page (F := F) p).
Proof.
  apply keeps_state_bind; [done|]. intros id. apply keeps_state_bind; [done|]. intros k.
  apply keeps_state_bind; [apply keeps_state_wal|done].
Qed.

(** The last steps of [commit] need no file. *)
Lemma bind_idle {A} (m : db (Transaction F) A) (k : A -> db (Transaction F) unit) t :
  keeps_state m -> state t = Active ->
  (forall a t', state t' = Active -> active_writer (drop_tx (k a t').2) = false) ->
  active_writer (drop_tx (bind_st m k t).2) = false.
Proof.
  intros Hm Hst Hk. unfold bind_st. specialize (Hm t). destruct (m t) as [[a|e|] t'] eqn:E; cbn [snd] in *.
  - apply Hk. congruence.
  - rewrite drop_active by congruence. done.
  - rewrite drop_active by congruence. done.
Qed.

Lemma commit_idle t : state t = Active -> active_writer (commit t).2 = false.
Proof.
  intros Hst. unfold commit. enough (He : active_writer (drop_tx (commit_body t).2) = false)
    by by destruct (commit_body t).
  unfold commit_body. apply bind_idle; [intros t'; unfold ensure_active; by case_bool_decide|done|].
  intros _ t1 H1. apply bind_idle; [done|done|]. intros pages t2 H2.
  apply bind_idle; [apply keeps_state_for_each, keeps_state_log_page|done|]. intros _ t3 H3.
  apply bind_idle; [done|done|]. intros id t4 H4.
  apply bind_idle; [apply keeps_state_wal|done|]. intros _ t5 H5.
  apply bind_idle; [apply keeps_state_wal|done|]. intros _ t6 H6.
  apply bind_idle; [apply keeps_state_for_each; intros p; apply keeps_state_store|done|]. intros _ t7 H7.
  apply bind_idle; [apply keeps_state_store|done|]. intros _ t8 H8.
  apply bind_idle; [done|done|]. intros c t9 H9.
  apply bind_idle; [apply keeps_state_store|done|]. done.
Qed.

Lemma rollback_run t :
  state t = Active ->
  rollback t
  = (let '(r, w) := (let! _ := append (AbortTx (tx_id t)) in wal_sync_data) (wal (manager t)) in
     (r, finish_writer (with_wal w (manager t)))).
Proof.
  intros Hst. unfold rollback, rollback_body, bind_st at 1, ensure_active.
  rewrite bool_decide_true by done. unfold bind_st at 1, gets. unfold on_wal, zoom.
  destruct ((let! _ := append (AbortTx (tx_id t)) in wal_sync_data) (wal (manager t))) as [[[]|e|] w];
    [done|done|]. by rewrite drop_active.
Qed.
End Ends.

(** What a commit on working files leaves. *)
Lemma commit_installs {F : Type} `{VfsLaws F} (t : Transaction F) T T' ks :
  transaction_rep t T T' ks -> next_tx_id (manager t) <= U64_MAX ->
  stream_len (ks ++ commit_kinds t) <= U64_MAX -> healthy (wal_file (wal (manager t))) ->
  exists m, commit t = (Ok tt, m) /\ manager_rep m T' (ks ++ commit_kinds t)
    /\ active_writer m = false /\ catalog (store m) = working_catalog t
    /\ (forall i, view (data m) i = view t i) /\ healthy (wal_file (wal m)) /\ next_tx_id m = next_tx_id (manager t).
Proof.
  intros Ht Hn Hl Hwf. pose proof (tr_id _ _ _ _ Ht) as Hid. pose proof (tr_manager _ _ _ _ Ht) as Hmr.
  pose proof (transaction_storable _ _ _ _ Ht) as Hst.
  destruct (commit t) as [r m] eqn:Hc.
  pose proof (commit_outcome t ks r m (tr_state _ _ _ _ Ht) Hst ltac:(lia) (mr_wal _ _ _ Hmr) Hl Hc) as Hres.
  pose proof (sr_ready _ _ (mr_store _ _ _ Hmr)) as [Hdf _].
  destruct (cr_healthy _ _ _ _ Hres Hdf Hwf) as [-> Hh]. exists m. split; [done|].
  destruct (cr_ok _ _ _ _ Hres eq_refl) as (Hw & Hcd & Hcat & Hdh).
  destruct (view_after_commit t T T' ks _ Ht eq_refl) as [Hal Hv].
  assert (Hview : forall i, view (data m) i = view t i).
  { intros i. rewrite <- Hv. cbn [view file_access_laws]. by rewrite Hcd. }
  split_and!; [|apply Hres|done|done|done|apply Hres]. split; [|done|].
  - split.
    + split; [by apply Hdh|]. unfold data in Hcd. by rewrite Hcd.
    + rewrite Hcat. apply (heap_db_view _ (view t)); [|apply Ht]. intros i _. apply Hview.
    + rewrite Hcat. apply (stored_catalog_ext (view t)); [|apply Ht]. apply Hview.
  - pose proof (mr_log _ _ _ Hmr) as [Hids Hval Hcov]. rewrite (cr_next _ _ _ _ Hres).
    split.
    + destruct Hids as [Hids|Hset]; [left|right; by apply settled_app, commit_kinds_settled].
      apply Forall_app_2; [done|]. eapply Forall_impl; [exact (commit_kinds_tx t)|].
      intros k Hk u Hu. assert (u = tx_id t) as -> by congruence. done.
    + rewrite (images_after_commit t T T' ks Ht). apply Forall_app_2; [done|].
      by apply dirty_images_image_valid.
    + intros i p. rewrite (images_after_commit t T T' ks Ht), last_image_app.
      rewrite btree_get_last_image by apply (tr_dirty _ _ _ _ Ht). rewrite Hview.
      cbn [view tx_access_laws]. destruct (btree_get i (dirty_pages t)); [done|]. apply Hcov.
Qed.

(** ** Operations that stage touch no committed state *)

Section Staging.
Context {F : Type} `{VfsLaws F}.

Lemma isolated_create_table name cols : isolated (create_table (F := F) name cols).
Proof.
  unfold create_table. repeat (apply isolated_bind; [auto with isolated|]; intros []); auto 10 with isolated.
Qed.
Lemma isolated_insert_row id record : isolated (insert_row (F := F) id record).
Proof.
  unfold insert_row, insert_new_page. do 4 (apply isolated_bind; [auto with isolated|]; intros ?).
  destruct a2 as [row|]; [auto with isolated|]. apply isolated_bind; [auto with isolated|]. intros p.
  destruct (insert_record record _) as [slot page]. auto 20 with isolated.
Qed.
Lemma isolated_register_extension name abi kind : isolated (register_extension (F := F) name abi kind).
Proof. unfold register_extension. auto 20 with isolated. Qed.
Lemma isolated_full_scan id : isolated (full_scan (F := F) id).
Proof. unfold full_scan. auto 20 with isolated. Qed.
End Staging.

#[export] Hint Resolve isolated_create_table isolated_insert_row isolated_register_extension
  isolated_full_scan : isolated.

(** ** Concrete transactions for the witnesses *)

(** A store with the table [users] and an empty log. *)
Definition users_manager : TransactionalStore SimFile :=
  tx_store_new users_store (mkWalWriter (mkSimFile [] []) 0).

Lemma users_manager_rep : manager_rep users_manager users_tables [].
Proof.
  split; [apply users_store_rep|by split|]. split; [left; constructor|constructor|].
  intros id p Hp. change (None = Some p) in Hp. discriminate Hp.
Qed.

(** Transaction 1 of that store, after it created the table [orders]. *)
Definition users_tx : Transaction SimFile :=
  match begin users_manager with
  | (Ok t, _) => t
  | (_, m) => mkTransaction m 0 empty [] RolledBack
  end.
Definition orders_tx : Transaction SimFile := snd (create_table "orders" users_columns users_tx).
Definition orders_tables : RelationId -> table := set_table 2 [(2, a_new 2 Page.Heap)] users_tables.

Lemma users_tx_rep : transaction_rep users_tx users_tables users_tables [BeginTx 1].
Proof.
  destruct (begin users_manager) as [r m'] eqn:E.
  pose proof (begin_spec users_manager users_tables [] r m' users_manager_rep eq_refl eq_refl
    ltac:(vm_compute; discriminate) E) as (_ & Hok & _ & Hh).
  destruct (Hh (healthy_script [])) as [t ->]. destruct (Hok t eq_refl) as (Hm & Hid & _ & _ & Ht).
  unfold users_tx. rewrite E. exact Ht.
Qed.

Lemma orders_tx_rep : transaction_rep orders_tx users_tables orders_tables [BeginTx 1].
Proof.
  pose proof (tx_create_table_spec users_tx _ _ _ "orders" users_columns users_tx_rep eq_refl
    users_columns_typed ltac:(vm_compute; discriminate)) as Hs. unfold orders_tx.
  assert (Ho : (create_table "orders" users_columns users_tx).1 = Ok 2) by (vm_compute; reflexivity).
  destruct (create_table "orders" users_columns users_tx) as [o t'] eqn:E. cbn [fst] in Ho. subst o.
  destruct Hs as (p & Hm & Hs & _). apply create_table_metadata_run in Hm as (_ & _ & Hp & _).
  replace (next_page_id (working_catalog users_tx)) with 2 in Hp by (vm_compute; reflexivity). by subst p.
Qed.

Lemma orders_log_fits : stream_len ([BeginTx 1] ++ commit_kinds orders_tx) <= U64_MAX.
Proof. vm_compute. discriminate. Qed.

(** ** Claims *)

(** C2. Commit is atomic under crashes.  The files may fail at any operation of
    a commit, tearing the record or the page being written; recovery then runs on
    what the two files hold, any number of times, until a pass succeeds or reports,
    on files that work, that the log does not scan.  Every page of the data file,
    page 0 with the catalog and the index pages included, is then as the transaction
    saw it, or, unless the commit had returned, every page is as it was committed
    before.  The id of the transaction must not be in the log from an earlier
    opening: ids start again at 1 (see [reused_tx_id_replays_uncommitted]). *)
Theorem commit_crash_atomic {F : Type} `{VfsLaws F} (t : Transaction F) T T' ks g w r m d' :
  transaction_rep t T T' ks -> begun_only (tx_id t) ks -> next_tx_id (manager t) <= U64_MAX ->
  stream_len (ks ++ commit_kinds t) <= U64_MAX ->
  contents g = contents (data (manager t)) ->
  contents w = contents (wal_file (wal (manager t))) ->
  commit (on_files g w t) = (r, m) ->
  recovered (contents (data m)) (contents (wal_file (wal m))) d' ->
  let v := view (data_file d') in
  r <> Panic
  /\ (((forall i, v i = view t i)
       /\ stored_catalog v (working_catalog t) /\ heap_db (working_catalog t) v T')
      \/ (r <> Ok tt /\ (forall i, v i = view (data (manager t)) i)
          /\ stored_catalog v (catalog (store (manager t))) /\ heap_db (catalog (store (manager t))) v T)).
Proof.
  intros Ht Hfr Hn Hl Hg Hwf Hc Hrec v.
  destruct (commit_recovered t T T' ks g w r m d' Ht Hfr Hn Hl Hg Hwf Hc Hrec) as (Hp & _ & Hcases). split; [done|].
  destruct Hcases as [Hv|[Hne Hv]]; [left|right; split; [done|]]; (split; [done|]).
  - split; [apply (stored_catalog_ext (view t)); [apply Hv|apply Ht]|].
    apply (heap_db_view _ (view t)); [intros i _; apply Hv|apply Ht].
  - pose proof (mr_store _ _ _ (tr_manager _ _ _ _ Ht)) as [_ Hdb Hsaved].
    split; [apply (stored_catalog_ext (view (data (manager t)))); [apply Hv|done]|].
    apply (heap_db_view _ (view (data (manager t)))); [intros i _; apply Hv|done].
Qed.

(** The data file takes one page and a part of the next one, and then fails. *)
Definition failing_data : SimFile :=
  mkSimFile (contents (data (manager orders_tx))) [Transfer 4096; Transfer 100; Failure].

Lemma contents_sim c script : contents (mkSimFile c script) = c.
Proof. reflexivity. Qed.

(** The same contents on files that work. *)
Definition reboot_store (m : TransactionalStore SimFile) : DbFiles SimFile :=
  mkDbFiles (mkSimFile (contents (data m)) []) (mkSimFile (contents (wal_file (wal m))) []).

Lemma recovered_rebooted (m : TransactionalStore SimFile) :
  recovered (contents (data m)) (contents (wal_file (wal m))) (recover_page_file (reboot_store m)).2.
Proof.
  assert (Hh : files_healthy (reboot_store m)) by (split; apply healthy_script).
  pose proof (recovered_healthy (reboot_store m) Hh) as Hr. unfold reboot_store at 1 2 in Hr.
  cbn [data_file log_file] in Hr. by rewrite !contents_sim in Hr.
Qed.

Lemma commit_crash_atomic_witness :
  exists m, commit (on_files failing_data (wal_file (wal (manager orders_tx))) orders_tx) = (Err (Io OtherIo), m)
    /\ let v := view (data_file (recover_page_file (reboot_store m)).2) in
       (forall i, v i = view orders_tx i) \/ (forall i, v i = view (data (manager orders_tx)) i).
Proof.
  destruct (commit (on_files failing_data (wal_file (wal (manager orders_tx))) orders_tx))
    as [r m] eqn:Hc.
  assert (Hr : r = Err (Io OtherIo)) by (apply (f_equal fst) in Hc; vm_compute in Hc; congruence).
  exists m. split; [rewrite Hr; reflexivity|].
  destruct (commit_crash_atomic orders_tx users_tables orders_tables [BeginTx 1]
    failing_data (wal_file (wal (manager orders_tx))) r m (recover_page_file (reboot_store m)).2) as (_ & [[Hv _]|(_ & Hv & _)]).
  - exact orders_tx_rep.
  - repeat constructor.
  - vm_compute. discriminate.
  - exact orders_log_fits.
  - apply contents_sim.
  - reflexivity.
  - exact Hc.
  - apply recovered_rebooted.
  - left. exact Hv.
  - right. exact Hv.
Defined.

(** C23. A commit on working files returns [Ok].  The store has then committed
    what the transaction saw and its log has the images and the commit marker,
    so that the next transaction starts from a store of the same kind. *)
Theorem commit_installs_transaction {F : Type} `{VfsLaws F} (t : Transaction F) T T' ks :
  transaction_rep t T T' ks -> next_tx_id (manager t) <= U64_MAX ->
  stream_len (ks ++ commit_kinds t) <= U64_MAX -> healthy (wal_file (wal (manager t))) ->
  exists m, commit t = (Ok tt, m) /\ manager_rep m T' (ks ++ commit_kinds t)
    /\ active_writer m = false /\ catalog (store m) = working_catalog t
    /\ forall i, view (data m) i = view t i.
Proof.
  intros Ht Hn Hl Hh. destruct (commit_installs t T T' ks Ht Hn Hl Hh) as (m & Hc & Hm & Ha & Hcat & Hv & _).
  by exists m.
Qed.

Lemma commit_installs_transaction_witness :
  exists m, commit orders_tx = (Ok tt, m)
    /\ manager_rep m orders_tables ([BeginTx 1] ++ commit_kinds orders_tx).
Proof.
  destruct (commit_installs_transaction orders_tx users_tables orders_tables [BeginTx 1]) as (m & Hc & Hm & _).
  - exact orders_tx_rep.
  - vm_compute. discriminate.
  - exact orders_log_fits.
  - vm_compute. constructor.
  - exists m. split; [exact Hc|exact Hm].
Defined.

(** C24. Log before data.  Whatever a commit does to the data file, it does after
    the log has the images of all its pages and the commit marker. *)
Theorem commit_writes_log_before_data {F : Type} `{VfsLaws F} (t : Transaction F) T T' ks g w r m :
  transaction_rep t T T' ks -> next_tx_id (manager t) <= U64_MAX ->
  stream_len (ks ++ commit_kinds t) <= U64_MAX ->
  contents g = contents (data (manager t)) -> contents w = contents (wal_file (wal (manager t))) ->
  commit (on_files g w t) = (r, m) -> contents (data m) <> contents g ->
  contents (wal_file (wal m)) = stream 0 (ks ++ commit_kinds t)
  /\ forall id p, btree_get id (dirty_pages t) = Some p -> PageImage (tx_id t) id (bytes p) ∈ commit_kinds t.
Proof.
  intros Ht Hn Hl Hg Hw Hc Hne. split.
  - destruct (commit_on_files t T T' ks g w r m Ht Hn Hl Hg Hw Hc) as [_ [(Hcd & _)|(Hwr & _)]].
    + congruence.
    + apply (wal_contents _ _ Hwr).
  - intros id p Hp. apply btree_get_In in Hp. apply elem_of_app. left.
    apply list_elem_of_fmap. by exists (id, p).
Qed.

Lemma commit_writes_log_before_data_witness :
  exists r m, commit (on_files failing_data (wal_file (wal (manager orders_tx))) orders_tx) = (r, m)
    /\ contents (wal_file (wal m)) = stream 0 ([BeginTx 1] ++ commit_kinds orders_tx).
Proof.
  destruct (commit (on_files failing_data (wal_file (wal (manager orders_tx))) orders_tx))
    as [r m] eqn:Hc. exists r, m. split; [reflexivity|].
  apply (commit_writes_log_before_data orders_tx users_tables orders_tables [BeginTx 1]
    failing_data (wal_file (wal (manager orders_tx))) r m).
  - exact orders_tx_rep.
  - vm_compute. discriminate.
  - exact orders_log_fits.
  - apply contents_sim.
  - reflexivity.
  - exact Hc.
  - assert (Hb : bool_decide (len (contents (data (snd (commit (on_files failing_data
      (wal_file (wal (manager orders_tx))) orders_tx))))) = len (contents failing_data)) = false)
      by (vm_compute; reflexivity).
    rewrite Hc in Hb. cbn [snd] in Hb. apply bool_decide_eq_false in Hb. intros He.
    apply Hb. rewrite He. reflexivity.
Defined.

(** Staged work stays in memory: no operation of a transaction, whatever its
    outcome, changes the data file, the log, the committed catalog or the
    writer slot. *)
Theorem staged_work_stays_in_memory {F : Type} `{VfsLaws F} (t : Transaction F) :
  (forall name cols, same_manager (manager t) (manager (create_table name cols t).2))
  /\ (forall id record, same_manager (manager t) (manager (insert_row id record t).2))
  /\ (forall name abi kind, same_manager (manager t) (manager (register_extension name abi kind t).2))
  /\ (forall id, same_manager (manager t) (manager (full_scan id t).2)).
Proof.
  split_and!; intros.
  - apply isolated_create_table.
  - apply isolated_insert_row.
  - apply isolated_register_extension.
  - apply isolated_full_scan.
Qed.

(** Inserting in a transaction.  The transaction sees exactly one row more,
    under a new row id, and the other tables as before; the store still shows
    what was committed.  The only failures are user errors. *)
Theorem transaction_insert_row_correct {F : Type} `{VfsLaws F} (t : Transaction F) T T' ks id r record :
  transaction_rep t T T' ks -> is_table (working_catalog t) id r ->
  addressable (next_page_id (working_catalog t)) ->
  match insert_row id record t with
  | (Ok row, t') => exists tb, transaction_rep t' T (set_table id tb T') ks
      /\ table_rows tb ≡ₚ mkHeapRow row record :: table_rows (T' id)
      /\ (forall d, mkHeapRow row d ∉ table_rows (T' id))
  | (Err (User _), t') => same_manager (manager t) (manager t') /\ table_insert record (T' id) = None
  | _ => False
  end.
Proof.
  intros Ht Hit Had. pose proof (tx_insert_row_spec t T T' ks id r record Ht Hit Had) as Hs.
  destruct (insert_row id record t) as [[row|[]|] t']; try exact Hs.
  destruct Hs as (tb & Hrep & Hrows & Hnew & _). by exists tb.
Qed.

Definition orders_relation : RelationInfo := mkRelationInfo 2 "orders" Table (Heap [2]) users_columns.

Lemma transaction_insert_row_correct_witness :
  exists t' tb, insert_row 2 [x61; x62] orders_tx = (Ok (mkRowId 2 0), t')
    /\ transaction_rep t' users_tables (set_table 2 tb orders_tables) [BeginTx 1]
    /\ table_rows tb ≡ₚ [mkHeapRow (mkRowId 2 0) [x61; x62]].
Proof.
  pose proof (transaction_insert_row_correct orders_tx users_tables orders_tables [BeginTx 1] 2
    orders_relation [x61; x62] orders_tx_rep
    ltac:(split; vm_compute; reflexivity) ltac:(vm_compute; discriminate)) as Hs.
  assert (Ho : (insert_row 2 [x61; x62] orders_tx).1 = Ok (mkRowId 2 0)) by (vm_compute; reflexivity).
  destruct (insert_row 2 [x61; x62] orders_tx) as [o t'] eqn:E. cbn [fst] in Ho. subst o.
  destruct Hs as (tb & Hs & Hp & _). exists t', tb. split; [reflexivity|]. split; [exact Hs|exact Hp].
Defined.

(** Rollback discards the transaction.  The data file and the committed
    catalog stay as they are and the writer slot is free, also when the abort
    record cannot be written; once it is written, the log makes the store one
    that committed nothing of the transaction, unless the log has its id from an
    earlier opening. *)
Theorem rollback_discards_transaction {F : Type} `{VfsLaws F} (t : Transaction F) T T' ks r m :
  transaction_rep t T T' ks -> fresh_ids (next_tx_id (manager t)) ks -> begun_only (tx_id t) ks -> next_tx_id (manager t) <= U64_MAX ->
  stream_len (ks ++ [AbortTx (tx_id t)]) <= U64_MAX -> rollback t = (r, m) ->
  r <> Panic /\ store m = store (manager t) /\ active_writer m = false
  /\ (r = Ok tt -> manager_rep m T (ks ++ [AbortTx (tx_id t)]))
  /\ (healthy (wal_file (wal (manager t))) -> r = Ok tt).
Proof.
  intros Ht Hids Hfr Hn Hl. pose proof (tr_id _ _ _ _ Ht) as Hid. pose proof (tr_manager _ _ _ _ Ht) as Hmr.
  rewrite stream_len_app in Hl. cbn [stream_len] in Hl.
  assert (Hk : kind_ok (AbortTx (tx_id t))) by (cbn; lia).
  rewrite rollback_run by apply Ht. unfold bind_st.
  destruct (append (AbortTx (tx_id t)) (wal (manager t))) as [o w] eqn:Ha.
  pose proof (append_run (wal (manager t)) _ Hk ltac:(rewrite (wal_next _ _ (mr_wal _ _ _ Hmr)); lia)) as Hrun.
  rewrite Ha, (wal_next _ _ (mr_wal _ _ _ Hmr)) in Hrun.
  destruct (append_spec _ ks _ o w (mr_wal _ _ _ Hmr) Hk ltac:(lia) Ha) as (Hp & Hhw & Hok & _ & _ & Hall).
  destruct o as [l|e|]; [| |done].
  2: { intros [= <- <-]. split_and!; try done. intros Hh. by specialize (Hall Hh). }
  assert (l = stream_len ks) as -> by (destruct (file_write_all_at _ _ _) as [[] ?]; try done; by injection Hrun).
  unfold wal_sync_data, Wal.on_file, zoom.
  destruct (file_sync_data (wal_file w)) as [o f] eqn:Hs. apply sync_law in Hs as (Hc & Hps & _ & Hos).
  intros [= <- <-]. split_and!; try done.
  - intros ->. split; [apply Hmr|by apply (wal_rep_same w); [apply Hok|..]|].
    destruct (mr_log _ _ _ Hmr) as [_ Hval Hcov].
    assert (Himg : committed_images (records_of 0 (ks ++ [AbortTx (tx_id t)]))
                   = committed_images (records_of 0 ks)).
    { rewrite (committed_images_extend _ _ (tx_id t) Hfr) by by constructor.
      rewrite decide_False; [by rewrite app_nil_r|]. by intros [?%list_elem_of_singleton _]. }
    split; [|by rewrite Himg|by rewrite Himg].
    left. apply Forall_app_2; [done|]. constructor; [|done]. by intros u [= <-].
  - intros Hh. apply Hos, Hhw, Hh.
Qed.

Lemma rollback_discards_transaction_witness :
  exists m, rollback orders_tx = (Ok tt, m) /\ store m = store (manager orders_tx)
    /\ manager_rep m users_tables ([BeginTx 1] ++ [AbortTx (tx_id orders_tx)]).
Proof.
  destruct (rollback orders_tx) as [r m] eqn:Hc.
  destruct (rollback_discards_transaction orders_tx users_tables orders_tables [BeginTx 1] r m)
    as (_ & Hst & _ & Hok & Hh).
  - exact orders_tx_rep.
  - repeat constructor. intros u Hu. injection Hu as <-. reflexivity.
  - repeat constructor.
  - vm_compute. discriminate.
  - vm_compute. discriminate.
  - exact Hc.
  - assert (Hr : r = Ok tt) by (apply Hh; vm_compute; constructor). subst r.
    exists m. split; [reflexivity|]. split; [exact Hst|]. exact (Hok eq_refl).
Defined.

(** C26. One writer at a time.  While a transaction is open, [begin] is a
    retryable error that changes nothing; commit, rollback and dropping the
    transaction free the slot again on every path, errors included; and [begin]
    on an idle store with a working log succeeds with the committed tables as
    its snapshot. *)
Theorem one_writer_at_a_time {F : Type} `{VfsLaws F} (m : TransactionalStore F) (t : Transaction F) T ks :
  state t = Active ->
  manager_rep m T ks -> next_tx_id m < U64_MAX -> stream_len (ks ++ [BeginTx (next_tx_id m)]) <= U64_MAX ->
  (forall m0, active_writer m0 = true -> exists e, begin (F := F) m0 = (Err (Retryable e), m0))
  /\ active_writer (commit t).2 = false /\ active_writer (rollback t).2 = false
  /\ active_writer (drop_tx t) = false
  /\ (active_writer m = false -> healthy (wal_file (wal m)) ->
      exists t0, begin m = (Ok t0, manager t0) /\ active_writer (manager t0) = true
        /\ transaction_rep t0 T T (ks ++ [BeginTx (next_tx_id m)])).
Proof.
  intros Hst Hm Hn Hl. split_and!.
  - intros m0 Hb. unfold begin, bind_st, gets. rewrite Hb. by eexists.
  - by apply commit_idle.
  - rewrite rollback_run by done. by destruct (bind_st _ _ _).
  - by rewrite drop_active.
  - intros Hi Hh. destruct (begin m) as [r m'] eqn:E.
    destruct (begin_spec m T ks r m' Hm Hn Hi Hl E) as (_ & Hok & _ & Hex).
    destruct (Hex Hh) as [t0 ->]. destruct (Hok t0 eq_refl) as (<- & _ & Ha & _ & Ht). by exists t0.
Qed.

Lemma one_writer_at_a_time_witness :
  active_writer (commit orders_tx).2 = false
  /\ exists t0, begin users_manager = (Ok t0, manager t0) /\ transaction_rep t0 users_tables users_tables [BeginTx 1].
Proof.
  destruct (one_writer_at_a_time users_manager orders_tx users_tables []) as (_ & Hc & _ & _ & Hb).
  - exact (tr_state _ _ _ _ orders_tx_rep).
  - exact users_manager_rep.
  - reflexivity.
  - vm_compute. discriminate.
  - split; [exact Hc|]. destruct Hb as (t0 & Hb & _ & Ht).
    + reflexivity.
    + apply healthy_script.
    + exists t0. split; [exact Hb|exact Ht].
Defined.

(** ** Transaction ids that are taken again

    A store that is opened on the log of an earlier session starts again at id 1. *)

(** The first transaction of a store opened on the log [ks]. *)
Lemma reopened_begin {F : Type} `{VfsLaws F} (f w : F) ks m0 t m1 :
  contents w = stream 0 ks -> Forall kind_ok ks -> stream_len (ks ++ [BeginTx FIRST_TX_ID]) <= U64_MAX ->
  open_transactional_store f w = Ok m0 -> begin m0 = (Ok t, m1) ->
  manager t = m1 /\ tx_id t = FIRST_TX_ID /\ state t = Active /\ dirty_pages t = []
  /\ wal_rep (wal (manager t)) (ks ++ [BeginTx FIRST_TX_ID]).
Proof.
  intros Hw Hks Hl Ho Hb. unfold open_transactional_store in Ho. steps_in Ho.
  assert (Hwr : wal_rep a0 ks).
  { unfold wal_writer_new in Hm0. destruct (file_len w) as [[n|e|] w1] eqn:Hlen; [|done|done].
    injection Hm0 as <-. apply len_law in Hlen as (Hc & _ & _ & Hn & _).
    split; [cbn [wal_file]; congruence| |done]. cbn [allocator]. rewrite (Hn n eq_refl), Hw. apply len_stream. }
  revert Hb. unfold begin, bind_st, gets, modify. cbn [active_writer tx_store_new].
  unfold allocate_tx_id. cbn [next_tx_id tx_store_new]. rewrite checked_add_ok by done.
  cbn [wal with_active with_next_tx tx_store_new].
  destruct (append (BeginTx FIRST_TX_ID) a0) as [o w2] eqn:Ha. rewrite stream_len_app in Hl. cbn [stream_len] in Hl.
  destruct (append_spec a0 ks (BeginTx FIRST_TX_ID) o w2 Hwr ltac:(done) ltac:(lia) Ha) as (_ & _ & Hok & _).
  pose proof (append_run a0 (BeginTx FIRST_TX_ID) ltac:(done) ltac:(rewrite (wal_next _ _ Hwr); lia)) as Hrun.
  rewrite Ha, (wal_next _ _ Hwr) in Hrun. destruct o as [l|e|]; [|done|done]. intros [= <- <-].
  assert (l = stream_len ks) as -> by (destruct (file_write_all_at _ _ _) as [[] ?]; try done; by injection Hrun).
  split_and!; try done. by apply Hok.
Qed.

(** The transaction [t0] with pages staged in it. *)
Record staged {F} `{VfsLaws F} (t0 t : Transaction F) : Prop := {
  sg_manager : same_manager (manager t0) (manager t);
  sg_id : tx_id t = tx_id t0;
  sg_state : state t = Active;
  sg_dirty : dirty_ok (dirty_pages t)
}.

(** Records of [u] do not change what the other transactions count for. *)
Lemma images_in_other u all all' ks :
  (forall v, v <> u -> (CommitTx v ∈ all <-> CommitTx v ∈ all') /\ (AbortTx v ∈ all <-> AbortTx v ∈ all')) ->
  Forall (fun k => kind_tx k <> Some u) ks -> images_in all ks = images_in all' ks.
Proof.
  intros Hsame Hks. apply omap_ext_in. intros k Hk. rewrite Forall_forall in Hks. specialize (Hks k Hk).
  destruct k as [|v id image| | |]; try done. destruct (Hsame v) as [Hc Ha]; [cbn in Hks; congruence|].
  by rewrite (bool_decide_ext _ (CommitTx v ∈ all' /\ AbortTx v ∉ all')) by tauto.
Qed.

(** The log without the records of [u]. *)
Definition without (u : TxId) (ks : list WalRecordKind) : list WalRecordKind :=
  filter (fun k => kind_tx k <> Some u) ks.

Lemma images_in_without u all ks : AbortTx u ∈ all -> images_in all ks = images_in all (without u ks).
Proof.
  intros Ha. unfold without, images_in. induction ks as [|k ks IH]; [done|]. rewrite filter_cons. cbn [omap list_omap].
  destruct (decide (kind_tx k <> Some u)) as [Hk|Hk]; [cbn [omap list_omap]; by rewrite IH|].
  destruct k as [|v id image| | |]; try done. apply dec_stable in Hk. injection Hk as ->.
  by rewrite bool_decide_false by tauto.
Qed.

(** An abort record of [u] anywhere in the log makes recovery read the log as if it
    had no record of [u]. *)
Lemma committed_images_without u ks :
  AbortTx u ∈ ks -> committed_images (records_of 0 ks) = committed_images (records_of 0 (without u ks)).
Proof.
  intros Ha. rewrite !committed_images_kinds. etransitivity; [by apply (images_in_without u)|]. apply (images_in_other u).
  - intros v Hv. unfold without. rewrite !list_elem_of_filter. cbn [kind_tx]. split; split; try tauto; intros H'; (split; [congruence|done]).
  - unfold without. apply Forall_forall. intros k Hk. by apply list_elem_of_filter in Hk as [? _].
Qed.

Lemma stream_len_without u ks : stream_len (without u ks) <= stream_len ks.
Proof.
  induction ks as [|k ks IH]; [done|]. unfold without in *. rewrite filter_cons.
  destruct (decide (kind_tx k <> Some u)); cbn [stream_len]; lia.
Qed.

Lemma kinds_ok_without u ks : Forall kind_ok ks -> Forall kind_ok (without u ks).
Proof. rewrite !Forall_forall. intros Hks k [_ Hk]%list_elem_of_filter. by apply Hks. Qed.

(** What a successful pass makes of a log and a data file. *)
Lemma recover_stream {F : Type} `{VfsLaws F} (e e' : DbFiles F) ks report :
  Forall kind_ok ks -> stream_len ks <= U64_MAX -> contents (log_file e) = stream 0 ks ->
  recover_page_file e = (Ok report, e') ->
  contents (data_file e') = apply_writes (image_writes (records_of 0 ks)) (contents (data_file e))
  /\ Forall (fun i => valid_page i.1 (mkPage i.2)) (committed_images (records_of 0 ks)).
Proof.
  intros Hks Hl Hlog Hrec. apply recover_spec in Hrec as (_ & _ & _ & _ & Hok & _); [|by rewrite Hlog, len_stream].
  destruct (Hok report eq_refl) as (rs & Hrs & Hd & Hv & _). rewrite Hlog, parse_wal_stream in Hrs by done.
  by injection Hrs as <-.
Qed.

(** C38. A rollback erases every transaction that has its id.  After a rollback,
    recovery does with the log what it does with the log without any record of that
    id, whatever the data file holds.  That is what a rollback is for; but ids start
    again at 1 when a store is opened, and then the erased records can be those of a
    transaction that an earlier session committed, whose pages recovery no longer
    restores, so that older images of them win. *)
Theorem rollback_erases_transaction_id {F : Type} `{VfsLaws F} (t : Transaction F) ks m e e' d d' report report' :
  state t = Active -> tx_id t <= U64_MAX -> wal_rep (wal (manager t)) ks ->
  stream_len (ks ++ [AbortTx (tx_id t)]) <= U64_MAX -> rollback t = (Ok tt, m) ->
  contents (log_file e) = contents (wal_file (wal m)) -> contents (log_file d) = stream 0 (without (tx_id t) ks) ->
  contents (data_file e) = contents (data_file d) ->
  recover_page_file e = (Ok report, e') -> recover_page_file d = (Ok report', d') ->
  contents (data_file e') = contents (data_file d').
Proof.
  intros Hst Hid Hw Hl Hrun Hle Hld Hcd Hre Hrd. rewrite rollback_run in Hrun by done.
  unfold bind_st in Hrun. destruct (append (AbortTx (tx_id t)) (wal (manager t))) as [o w] eqn:Ha.
  rewrite stream_len_app in Hl. cbn [stream_len] in Hl.
  destruct (append_spec (wal (manager t)) ks (AbortTx (tx_id t)) o w Hw ltac:(done) ltac:(lia) Ha) as (_ & _ & Hok & _).
  pose proof (append_run (wal (manager t)) (AbortTx (tx_id t)) ltac:(done) ltac:(rewrite (wal_next _ _ Hw); lia)) as Hr.
  rewrite Ha, (wal_next _ _ Hw) in Hr. destruct o as [l|err|]; [|done|done].
  assert (l = stream_len ks) as -> by (destruct (file_write_all_at _ _ _) as [[] ?]; try done; by injection Hr).
  specialize (Hok eq_refl). unfold wal_sync_data, Wal.on_file, zoom in Hrun.
  destruct (file_sync_data (wal_file w)) as [o f] eqn:Hs. apply sync_law in Hs as (Hc & _). injection Hrun as _ <-.
  cbn [wal finish_writer with_active with_wal wal_file] in Hle. rewrite Hc, (wal_contents _ _ Hok) in Hle.
  destruct (recover_stream e e' _ report (wal_kinds _ _ Hok) ltac:(rewrite stream_len_app; cbn [stream_len]; lia) Hle Hre) as [-> _].
  pose proof (stream_len_without (tx_id t) ks) as Hlen.
  destruct (recover_stream d d' _ report' (kinds_ok_without (tx_id t) ks (wal_kinds _ _ Hw)) ltac:(lia) Hld Hrd) as [-> _].
  unfold image_writes. rewrite Hcd, (committed_images_without (tx_id t) (ks ++ [AbortTx (tx_id t)])) by (apply elem_of_app; right; by left).
  unfold without. rewrite filter_app. do 3 f_equal. rewrite <- (app_nil_r (filter _ ks)) at 2. do 2 f_equal.
  rewrite filter_cons, decide_False by (by intros H'; apply H'). done.
Qed.

(** The first transaction of a store opened on the log of a session that committed
    page 2 as its transaction 1. *)
Definition table_page : Page := page_new 2 Page.Heap.
Definition used_log : list WalRecordKind := [BeginTx 1; PageImage 1 2 (bytes table_page); CommitTx 1].
Definition first_of_log (ks : list WalRecordKind) : DbResult (Transaction SimFile) :=
  let? m := open_transactional_store (mkSimFile [] []) (mkSimFile (stream 0 ks) []) in (begin m).1.

Lemma first_of_log_run ks :
  Forall kind_ok ks -> stream_len (ks ++ [BeginTx FIRST_TX_ID]) <= U64_MAX ->
  match first_of_log ks with Ok _ => true | _ => false end = true ->
  exists m t, open_transactional_store (mkSimFile [] []) (mkSimFile (stream 0 ks) []) = Ok m
    /\ begin m = (Ok t, manager t) /\ first_of_log ks = Ok t
    /\ tx_id t = FIRST_TX_ID /\ state t = Active /\ dirty_pages t = [] /\ wal_rep (wal (manager t)) (ks ++ [BeginTx FIRST_TX_ID]).
Proof.
  intros Hks Hl. unfold first_of_log. destruct (open_transactional_store _ _) as [m|e|] eqn:Ho; [|done|done].
  cbn [bind_outcome]. destruct (begin m) as [[t|e|] m1] eqn:Hb; [|done|done]. intros _.
  destruct (reopened_begin _ _ ks m t m1 (contents_sim _ []) Hks Hl Ho Hb) as (<- & H1 & H2 & H3 & H4).
  exists m, t. split; [reflexivity|]. split; [exact Hb|]. split; [reflexivity|]. exact (conj H1 (conj H2 (conj H3 H4))).
Qed.

Lemma used_log_ok : Forall kind_ok used_log.
Proof. repeat constructor; vm_compute; discriminate. Qed.

(** The rolled-back transaction staged nothing; the committed page is lost all the
    same: recovery leaves an empty data file empty. *)
Lemma rollback_erases_transaction_id_witness :
  exists t m e' report, first_of_log used_log = Ok t /\ rollback t = (Ok tt, m)
    /\ recover_page_file (mkDbFiles (mkSimFile [] []) (wal_file (wal m))) = (Ok report, e')
    /\ contents (data_file e') = [].
Proof.
  destruct (first_of_log_run used_log used_log_ok) as (m0 & t & Ho & Hb & Ht & Hid & Hst & _ & Hw);
    [vm_compute; discriminate|vm_compute; reflexivity|].
  assert (Hr : match (let? t := first_of_log used_log in (rollback t).1) with Ok _ => true | _ => false end = true)
    by (vm_compute; reflexivity).
  assert (Hrec : match (let? t := first_of_log used_log in
      (recover_page_file (mkDbFiles (mkSimFile [] []) (wal_file (wal (rollback t).2)))).1) with Ok _ => true | _ => false end = true)
    by (vm_compute; reflexivity).
  rewrite Ht in Hr, Hrec. cbn [bind_outcome] in Hr, Hrec. destruct (rollback t) as [[[]|e|] m] eqn:Hrun; [|discriminate Hr|discriminate Hr].
  cbn [snd] in Hrec. destruct (recover_page_file (mkDbFiles (mkSimFile [] []) (wal_file (wal m)))) as [[report|e|] e'] eqn:He;
    [|discriminate Hrec|discriminate Hrec].
  exists t, m, e', report. split; [exact Ht|]. split; [exact Hrun|]. split; [exact He|].
  assert (Hd : exists report', recover_page_file (mkDbFiles (mkSimFile [] []) (mkSimFile [] []))
               = (Ok report', mkDbFiles (mkSimFile [] []) (mkSimFile [] []))) by (eexists; vm_compute; reflexivity).
  destruct Hd as [report' Hd]. change ([] : list byte) with (contents (mkSimFile [] [])) at 1.
  apply (rollback_erases_transaction_id t (used_log ++ [BeginTx 1]) m
    (mkDbFiles (mkSimFile [] []) (wal_file (wal m))) e' (mkDbFiles (mkSimFile [] []) (mkSimFile [] []))
    (mkDbFiles (mkSimFile [] []) (mkSimFile [] [])) report report').
  - exact Hst.
  - rewrite Hid. vm_compute. discriminate.
  - exact Hw.
  - rewrite Hid. vm_compute. discriminate.
  - exact Hrun.
  - reflexivity.
  - rewrite Hid. vm_compute. reflexivity.
  - reflexivity.
  - exact He.
  - exact Hd.
Defined.

(** C39. An acknowledged commit that recovery ignores.  When a store is opened on
    a log with an abort record of transaction 1, its first transaction has that id
    again.  It can commit, and its images and its commit marker are in the log when
    [commit] returns; but recovery leaves of any data file, byte for byte, what it
    leaves with the log from before that transaction. *)
Theorem reused_tx_id_is_not_recovered {F : Type} `{VfsLaws F} (f w : F) ks m0 t0 m1 t m e e' d d' report report' :
  contents w = stream 0 ks -> Forall kind_ok ks -> AbortTx FIRST_TX_ID ∈ ks ->
  open_transactional_store f w = Ok m0 -> begin m0 = (Ok t0, m1) -> staged t0 t ->
  stream_len (ks ++ BeginTx FIRST_TX_ID :: commit_kinds t) <= U64_MAX ->
  commit t = (Ok tt, m) ->
  contents (log_file e) = contents (wal_file (wal m)) -> contents (log_file d) = contents w ->
  contents (data_file e) = contents (data_file d) ->
  recover_page_file e = (Ok report, e') -> recover_page_file d = (Ok report', d') ->
  contents (wal_file (wal m)) = contents w ++ stream (stream_len ks) (BeginTx FIRST_TX_ID :: commit_kinds t)
  /\ contents (data_file e') = contents (data_file d').
Proof.
  intros Hw Hks Hab Ho Hb [Hsm Hid Hst Hdirty] Hl Hc Hle Hld Hcd Hre Hrd.
  assert (Hl' : stream_len ((ks ++ [BeginTx FIRST_TX_ID]) ++ commit_kinds t) <= U64_MAX) by by rewrite <- app_assoc.
  destruct (reopened_begin f w ks m0 t0 m1 Hw Hks) as (_ & Hid0 & _ & _ & Hw0); [rewrite !stream_len_app in *; lia|done|done|].
  rewrite <- (sm_wal _ _ Hsm) in Hw0. assert (Htx : tx_id t = FIRST_TX_ID) by congruence.
  pose proof (commit_outcome t _ _ m Hst (proj2 Hdirty) ltac:(by rewrite Htx) Hw0 Hl' Hc) as Hres.
  destruct (cr_ok _ _ _ _ Hres eq_refl) as (Hwm & _). pose proof (wal_contents _ _ Hwm) as Hlog. rewrite <- app_assoc in Hlog.
  split; [rewrite Hlog, Hw; apply (stream_app 0 ks)|].
  destruct (recover_stream e e' _ report (wal_kinds _ _ Hwm) Hl' ltac:(by rewrite Hle, (wal_contents _ _ Hwm)) Hre) as [-> _].
  destruct (recover_stream d d' ks report' Hks ltac:(rewrite !stream_len_app in *; lia) ltac:(by rewrite Hld) Hrd) as [-> _].
  rewrite Hcd. unfold image_writes. do 2 f_equal.
  rewrite (committed_images_without FIRST_TX_ID), (committed_images_without FIRST_TX_ID ks) by (rewrite ?elem_of_app; auto).
  unfold without. rewrite !filter_app. do 2 f_equal. rewrite <- (app_nil_r (filter _ ks)) at 2. rewrite <- app_assoc. f_equal.
  assert (Hnone : Forall (fun k => ~ kind_tx k <> Some FIRST_TX_ID) ([BeginTx FIRST_TX_ID] ++ commit_kinds t)).
  { constructor; [by intros H'; apply H'|]. eapply Forall_impl; [exact (commit_kinds_tx t)|]. intros k Hk H'. by rewrite Hk, Htx in H'. }
  rewrite <- filter_app. clear - Hnone. induction Hnone as [|k l Hk _ IH]; [done|]. by rewrite filter_cons, decide_False.
Qed.

(** The first transaction of a store opened on a log with an abort record stages a
    page. *)
Definition aborted_log : list WalRecordKind := [BeginTx 1; AbortTx 1].
Lemma aborted_log_ok : Forall kind_ok aborted_log.
Proof. repeat constructor; vm_compute; discriminate. Qed.

Definition stage_page (t : Transaction SimFile) : Transaction SimFile := with_dirty [(2, table_page)] t.

Lemma stage_page_staged t : state t = Active -> staged t (stage_page t).
Proof.
  intros Hst. split; [reflexivity|done|done|]. split; [repeat constructor|]. constructor; [|constructor]. split.
  - exact (page_rep_valid _ _ (page_new_refines 2 Page.Heap ltac:(vm_compute; discriminate))).
  - vm_compute. discriminate.
Qed.

Lemma reused_tx_id_is_not_recovered_witness :
  exists t m e' report, first_of_log aborted_log = Ok t /\ commit (stage_page t) = (Ok tt, m)
    /\ recover_page_file (mkDbFiles (mkSimFile [] []) (wal_file (wal m))) = (Ok report, e')
    /\ contents (data_file e') = [].
Proof.
  destruct (first_of_log_run aborted_log aborted_log_ok) as (m0 & t & Ho & Hb & Ht & Hid & Hst & _);
    [vm_compute; discriminate|vm_compute; reflexivity|].
  assert (Hr : match (let? t := first_of_log aborted_log in (commit (stage_page t)).1) with Ok _ => true | _ => false end = true)
    by (vm_compute; reflexivity).
  assert (Hrec : match (let? t := first_of_log aborted_log in
      (recover_page_file (mkDbFiles (mkSimFile [] []) (wal_file (wal (commit (stage_page t)).2)))).1) with Ok _ => true | _ => false end = true)
    by (vm_compute; reflexivity).
  rewrite Ht in Hr, Hrec. cbn [bind_outcome] in Hr, Hrec.
  destruct (commit (stage_page t)) as [[[]|e|] m] eqn:Hrun; [|discriminate Hr|discriminate Hr].
  cbn [snd] in Hrec. destruct (recover_page_file (mkDbFiles (mkSimFile [] []) (wal_file (wal m)))) as [[report|e|] e'] eqn:He;
    [|discriminate Hrec|discriminate Hrec].
  exists t, m, e', report. split; [exact Ht|]. split; [exact Hrun|]. split; [exact He|].
  assert (Hd : exists report' d', recover_page_file (mkDbFiles (mkSimFile [] []) (mkSimFile (stream 0 aborted_log) []))
               = (Ok report', d') /\ contents (data_file d') = []) by (eexists _, _; split; vm_compute; reflexivity).
  destruct Hd as (report' & d' & Hd & Hc). rewrite <- Hc.
  apply (reused_tx_id_is_not_recovered (mkSimFile [] []) (mkSimFile (stream 0 aborted_log) []) aborted_log m0 t (manager t) (stage_page t) m
    (mkDbFiles (mkSimFile [] []) (wal_file (wal m))) e' (mkDbFiles (mkSimFile [] []) (mkSimFile (stream 0 aborted_log) [])) d' report report').
  - reflexivity.
  - exact aborted_log_ok.
  - right. left.
  - exact Ho.
  - exact Hb.
  - exact (stage_page_staged t Hst).
  - unfold commit_kinds. cbn [stage_page with_dirty tx_id]. rewrite Hid. vm_compute. discriminate.
  - exact Hrun.
  - reflexivity.
  - reflexivity.
  - reflexivity.
  - exact He.
  - exact Hd.
Defined.

Lemma keys_sorted_take {V} n (l : list (N * V)) : keys_sorted l -> keys_sorted (take n l).
Proof.
  unfold keys_sorted. revert n. induction l as [|[i v] l IH]; intros [|n]; cbn [take fmap list_fmap fst]; intros Hs; try constructor.
  - inversion_clear Hs. by apply IH.
  - inversion_clear Hs as [|? ? _ Hf]. rewrite <- (take_drop n l), fmap_app in Hf. by apply Forall_app in Hf as [? _].
Qed.

(** The images of a transaction whose id counts as committed. *)
Lemma images_in_committed u all l :
  CommitTx u ∈ all -> AbortTx u ∉ all -> images_in all (image_kind u <$> l) = page_image_of <$> l.
Proof.
  intros Hc Ha. unfold images_in. induction l as [|i l IH]; [done|]. cbn [fmap list_fmap omap list_omap image_kind].
  rewrite bool_decide_true by done. by rewrite IH.
Qed.

(** Images of a transaction that has the id of a committed one. *)
Lemma committed_images_reused u ks l :
  CommitTx u ∈ ks -> AbortTx u ∉ ks ->
  committed_images (records_of 0 (ks ++ BeginTx u :: (image_kind u <$> l)))
  = committed_images (records_of 0 ks) ++ (page_image_of <$> l).
Proof.
  intros Hc Ha. rewrite !committed_images_kinds. set (new := BeginTx u :: _).
  assert (Hnew : forall k, k ∈ new -> (forall v, k <> CommitTx v) /\ (forall v, k <> AbortTx v)).
  { intros k Hk. unfold new in Hk. rewrite elem_of_cons in Hk. by destruct Hk as [-> |(i & -> & _)%list_elem_of_fmap]. }
  assert (Hsame : forall v, (CommitTx v ∈ ks ++ new <-> CommitTx v ∈ ks) /\ (AbortTx v ∈ ks ++ new <-> AbortTx v ∈ ks)).
  { intros v. rewrite !elem_of_app. split; (split; [intros [?|H']|]; [done| |by left]).
    - by destruct (proj1 (Hnew _ H') v).
    - by destruct (proj2 (Hnew _ H') v). }
  unfold images_in at 1. rewrite omap_app. f_equal.
  - apply omap_ext_in. intros k Hk. destruct k as [|v id image| | |]; try done. destruct (Hsame v) as [H1 H2].
    by rewrite (bool_decide_ext _ (CommitTx v ∈ ks /\ AbortTx v ∉ ks)) by tauto.
  - unfold new at 2. cbn [omap list_omap]. destruct (Hsame u) as [H1 H2]. apply (images_in_committed u (ks ++ new) l); tauto.
Qed.

(** C40. A transaction that never committed and is recovered.  When a store is
    opened on the log of a session that committed its transaction 1, its own first
    transaction has that id again.  Let its commit stop after [n] images, before
    the commit marker; recovery writes those pages all the same, and no others of
    the transaction need be there. *)
Theorem reused_tx_id_replays_uncommitted {F : Type} `{VfsLaws F} (f w : F) ks m0 t0 m1 t g w' r m n e e' report :
  contents w = stream 0 ks -> Forall kind_ok ks -> CommitTx FIRST_TX_ID ∈ ks -> AbortTx FIRST_TX_ID ∉ ks ->
  open_transactional_store f w = Ok m0 -> begin m0 = (Ok t0, m1) -> staged t0 t ->
  stream_len (ks ++ BeginTx FIRST_TX_ID :: commit_kinds t) <= U64_MAX ->
  contents w' = contents (wal_file (wal (manager t))) -> commit (on_files g w' t) = (r, m) ->
  contents (wal_file (wal m)) = stream 0 (ks ++ BeginTx FIRST_TX_ID :: (image_kind FIRST_TX_ID <$> take n (dirty_pages t))) ->
  contents (log_file e) = contents (wal_file (wal m)) -> aligned (contents (data_file e)) ->
  recover_page_file e = (Ok report, e') ->
  r <> Ok tt
  /\ forall id p, btree_get id (take n (dirty_pages t)) = Some p -> view (data_file e') id = Some p.
Proof.
  intros Hw Hks Hci Hab Ho Hb [Hsm Hid Hst [Hsort Hdirty]] Hl Hcw Hc Hlog Hle Hal Hre.
  assert (Hl' : stream_len ((ks ++ [BeginTx FIRST_TX_ID]) ++ commit_kinds t) <= U64_MAX) by by rewrite <- app_assoc.
  destruct (reopened_begin f w ks m0 t0 m1 Hw Hks) as (_ & Hid0 & _ & _ & Hw0); [rewrite !stream_len_app in *; lia|done|done|].
  rewrite <- (sm_wal _ _ Hsm) in Hw0. assert (Htx : tx_id t = FIRST_TX_ID) by congruence.
  assert (Hw1 : wal_rep (wal (manager (on_files g w' t))) (ks ++ [BeginTx FIRST_TX_ID])) by by apply (wal_rep_same (wal (manager t))).
  pose proof (commit_outcome (on_files g w' t) _ r m Hst Hdirty ltac:(unfold on_files; cbn; by rewrite Htx) Hw1 Hl' Hc) as Hres.
  assert (Hlen : stream_len (image_kind FIRST_TX_ID <$> take n (dirty_pages t)) < stream_len (commit_kinds t)).
  { unfold commit_kinds. rewrite Htx. assert (Hone : 0 < stream_len [CommitTx FIRST_TX_ID]) by (vm_compute; reflexivity).
    rewrite <- (take_drop n (dirty_pages t)) at 2. rewrite fmap_app, !stream_len_app. lia. }
  split.
  { intros ->. destruct (cr_ok _ _ _ _ Hres eq_refl) as (Hwm & _). apply wal_contents in Hwm. rewrite Hlog in Hwm.
    apply (f_equal (fun l => len l)) in Hwm. rewrite !len_stream in Hwm. change (commit_kinds (on_files g w' t)) with (commit_kinds t) in Hwm.
    rewrite <- app_assoc, !stream_len_app in Hwm. cbn [app stream_len] in Hwm. lia. }
  assert (Hkok : Forall kind_ok (ks ++ BeginTx FIRST_TX_ID :: (image_kind FIRST_TX_ID <$> take n (dirty_pages t)))).
  { apply Forall_app_2; [done|]. constructor; [done|]. pose proof (commit_kinds_ok t ltac:(by rewrite Htx) Hdirty) as Hk.
    unfold commit_kinds in Hk. rewrite Htx, <- (take_drop n (dirty_pages t)), fmap_app in Hk. by apply Forall_app in Hk as [[? _]%Forall_app _]. }
  destruct (recover_stream e e' _ report Hkok ltac:(rewrite !stream_len_app in *; cbn [app stream_len] in *; lia) ltac:(by rewrite Hle) Hre) as [Hd Hv].
  intros id p Hp. cbn [view file_access_laws]. rewrite Hd. unfold image_writes.
  destruct (page_store_images _ _ Hal Hv) as [_ ->]. rewrite committed_images_reused, last_image_app by done.
  by rewrite btree_get_last_image, Hp by by apply keys_sorted_take.
Qed.

(** The log takes the image of page 2 and fails at the commit marker. *)
Definition cut_log (t : Transaction SimFile) : SimFile :=
  mkSimFile (contents (wal_file (wal (manager t)))) [Transfer 5000; Failure].
Definition cut_commit (t : Transaction SimFile) : DbResult unit * TransactionalStore SimFile :=
  commit (on_files (mkSimFile [] []) (cut_log t) (stage_page t)).
Definition cut_check (t : Transaction SimFile) : bool :=
  let w := wal_file (wal (cut_commit t).2) in
  bool_decide (contents w = stream 0 (used_log ++ [BeginTx 1; PageImage 1 2 (bytes table_page)]))
  && match (recover_page_file (mkDbFiles (mkSimFile [] []) w)).1 with Ok _ => true | _ => false end.

Lemma reused_tx_id_replays_uncommitted_witness :
  exists t r m e' report, first_of_log used_log = Ok t /\ cut_commit t = (r, m) /\ r <> Ok tt
    /\ recover_page_file (mkDbFiles (mkSimFile [] []) (wal_file (wal m))) = (Ok report, e')
    /\ view (data_file e') 2 = Some table_page.
Proof.
  destruct (first_of_log_run used_log used_log_ok) as (m0 & t & Ho & Hb & Ht & Hid & Hst & _ & Hw);
    [vm_compute; discriminate|vm_compute; reflexivity|].
  assert (Hc : match first_of_log used_log with Ok t => cut_check t | _ => false end = true) by (vm_compute; reflexivity).
  rewrite Ht in Hc. unfold cut_check in Hc. destruct (cut_commit t) as [r m] eqn:Hrun. cbv zeta in Hc. cbn [snd] in Hc.
  apply andb_true_iff in Hc as [Hlog%bool_decide_eq_true Hrec].
  destruct (recover_page_file (mkDbFiles (mkSimFile [] []) (wal_file (wal m)))) as [[report|e|] e'] eqn:He;
    [|discriminate Hrec|discriminate Hrec].
  exists t, r, m, e', report. split; [exact Ht|]. split; [exact Hrun|].
  destruct (reused_tx_id_replays_uncommitted (mkSimFile [] []) (mkSimFile (stream 0 used_log) []) used_log m0 t (manager t) (stage_page t)
    (mkSimFile [] []) (cut_log t) r m 1 (mkDbFiles (mkSimFile [] []) (wal_file (wal m))) e' report) as [Hne Hv].
  - reflexivity.
  - exact used_log_ok.
  - right. right. left.
  - intros [H|[H|[H|[]%not_elem_of_nil]%elem_of_cons]%elem_of_cons]%elem_of_cons; discriminate H.
  - exact Ho.
  - exact Hb.
  - exact (stage_page_staged t Hst).
  - unfold commit_kinds. cbn [stage_page with_dirty tx_id]. rewrite Hid. vm_compute. discriminate.
  - reflexivity.
  - exact Hrun.
  - exact Hlog.
  - reflexivity.
  - reflexivity.
  - exact He.
  - split; [exact Hne|]. split; [exact He|]. apply Hv. reflexivity.
Defined.
