(* ===== verification/TxAuto.v ===== *)
(** * TxAuto: an operation in a transaction of its own

    [autocommit op] on an idle store with a working log: what [op] staged is
    committed, or the committed state is as before. *)

From S2P Require Import Prelude Core Bytes Page PageFacts PageOps Vfs VfsFacts PageStore Wal WalFacts WalStream WalTheorems Recovery RecoveryFacts Catalog CatalogFacts CatalogWf CatalogTheorems Heap HeapDb CatalogStore CatalogStoreFacts CatalogStoreTheorems Tx TxFacts TxCommit TxTheorems.

#[export] Instance extension_info_dec : EqDecision ExtensionInfo.
Proof. solve_decision. Defined.

(** The extensions with one that may be there already. *)
Definition add_extension (e : ExtensionInfo) (es : list ExtensionInfo) : list ExtensionInfo :=
  if bool_decide (e ∈ es) then es else es ++ [e].

Section Auto.
Context {F : Type} `{VfsLaws F}.
Implicit Types (m : TransactionalStore F) (t : Transaction F).

Lemma register_extension_metadata_run name abi kind c :
  match register_extension_metadata name abi kind c with
  | (Ok b, c') => relations c' = relations c /\ next_page_id c' = next_page_id c /\ (b = false -> c' = c)
      /\ extensions c' = add_extension (mkExtensionInfo name abi kind) (extensions c)
  | (Err (User _), _) => True
  | _ => False
  end.
Proof.
  unfold register_extension_metadata, bind_st, lift, gets, modify, ret, throw.
  pose proof (validate_name_ok_or_user "extension" name) as Hu1.
  destruct (validate_name "extension" name) as [[]|[]|]; try done.
  pose proof (validate_name_ok_or_user "extension kind" kind) as Hu2.
  destruct (validate_name "extension kind" kind) as [[]|[]|]; try done.
  unfold extension_by_name. destruct (find_first _ _) as [[i [n a k]]|] eqn:Hf; cbn [fmap option_fmap option_map snd].
  - apply find_first_Some in Hf as [Hin%list_elem_of_lookup_2 Hn%bool_decide_eq_true]. cbn [ext_name abi_version ext_kind] in *. subst n.
    destruct (a =? abi) eqn:Ha; [|done]. apply N.eqb_eq in Ha as ->. case_bool_decide as Hk; [|done]. subst k. cbn [andb].
    split_and!; try done. unfold add_extension. by rewrite bool_decide_true.
  - split_and!; try done. cbn [extensions with_extensions]. unfold add_extension. rewrite bool_decide_false; [done|].
    intros Hin. apply (find_first_None _ _ _ Hf) in Hin. cbn [ext_name] in Hin. by rewrite bool_decide_true in Hin.
Qed.

(** Registering an extension changes the list of extensions only. *)
Lemma tx_register_extension_spec t T T' ks name abi kind :
  transaction_rep t T T' ks -> string_ok name -> string_ok kind -> abi <= U32_MAX ->
  match register_extension name abi kind t with
  | (Ok _, t') => transaction_rep t' T T' ks
      /\ relations (working_catalog t') = relations (working_catalog t)
      /\ extensions (working_catalog t') = add_extension (mkExtensionInfo name abi kind) (extensions (working_catalog t))
      /\ next_page_id (working_catalog t') = next_page_id (working_catalog t)
      /\ (forall i, 1 <= i -> view t' i = view t i)
  | (Err (User _), t') => True
  | _ => False
  end.
Proof.
  intros Ht Hn Hk Ha. pose proof (tr_db _ _ _ _ Ht) as Hdb.
  pose proof (register_extension_wf name abi kind Hn Hk Ha _ (hd_wf _ _ _ Hdb)) as Hwf.
  pose proof (register_extension_metadata_run name abi kind (working_catalog t)) as Hrun.
  unfold register_extension, bind_st at 1, ensure_active. rewrite bool_decide_true by apply Ht.
  unfold bind_st at 1, on_working_catalog, zoom.
  destruct (register_extension_metadata name abi kind (working_catalog t)) as [[b|[]|] c']; try done.
  destruct Hrun as (Hrel & Hnp & Hc & Hext). cbn [snd] in Hwf. destruct b; cycle 1.
  { rewrite (Hc eq_refl) in *. replace (with_catalog (working_catalog t) t) with t by by destruct t. done. }
  assert (Hm : same_manager (manager t) (manager (with_catalog c' t))) by by split.
  assert (Hdb' : heap_db (working_catalog (with_catalog c' t)) (view (with_catalog c' t)) T').
  { split; [done|]. cbn [working_catalog with_catalog]. rewrite Hrel. apply Hdb. }
  pose proof (stage_catalog t (with_catalog c' t) T T' T' ks Ht Hm (tr_ready _ _ _ _ Ht) eq_refl eq_refl Hdb') as Hs.
  unfold bind_st. destruct (mark_catalog_dirty (with_catalog c' t)) as [[[]|[]|] t'] eqn:E; try done.
  destruct Hs as [Hs Hcat]. unfold ret. rewrite Hcat. split_and!; try done.
  intros i Hi. rewrite (mark_catalog_dirty_view _ _ i E) by (unfold CATALOG_PAGE_ID; lia). done.
Qed.

(** The idle store [m] with committed [T] and log [ks], on files that work.  All
    its transactions were committed or dropped before they wrote an image. *)
Record idle_store (m : TransactionalStore F) (T : RelationId -> table) (ks : list WalRecordKind) : Prop := {
  id_rep : manager_rep m T ks;
  id_idle : active_writer m = false;
  id_log : healthy (wal_file (wal m));
  id_settled : settled ks
}.

(** There is room in the log and among the transaction ids for [op]. *)
Definition log_fits {A} (op : db (Transaction F) A) (m : TransactionalStore F) : Prop :=
  next_tx_id m < U64_MAX
  /\ allocator (wal m) + stream_len [BeginTx (next_tx_id m)] <= U64_MAX
  /\ match (begin m).1 with
     | Ok t => match op t with
               | (Ok _, t') => allocator (wal m) + stream_len (BeginTx (next_tx_id m) :: commit_kinds t') <= U64_MAX
               | _ => True
               end
     | _ => True
     end.

(** The committed state of [m] as far as it can be seen. *)
Definition same_committed (m m' : TransactionalStore F) : Prop :=
  catalog (store m') = catalog (store m) /\ forall i, view (data m') i = view (data m) i.

Lemma autocommit_spec {A} (op : db (Transaction F) A) m T ks
    (Q : A -> Transaction F -> (RelationId -> table) -> Prop) :
  idle_store m T ks -> log_fits op m -> isolated op ->
  (forall t ks', transaction_rep t T T ks' -> working_catalog t = catalog (store m) ->
     (forall i, view t i = view (data m) i) ->
     match op t with
     | (Ok a, t') => exists T', transaction_rep t' T T' ks' /\ Q a t' T'
     | (Err (User _), _) => True
     | _ => False
     end) ->
  match autocommit op m with
  | (Ok a, m') => exists t' T' ks', idle_store m' T' ks' /\ Q a t' T'
      /\ catalog (store m') = working_catalog t' /\ forall i, view (data m') i = view t' i
  | (Err e, m') => is_user e = true /\ same_committed m m' /\ exists ks', idle_store m' T ks'
  | (Panic, _) => False
  end.
Proof.
  intros [Hm Hi Hh Hset] (Hn & Hl & Hcl) Hiso Hop. unfold autocommit. rewrite (wal_next _ _ (mr_wal _ _ _ Hm)) in Hl, Hcl.
  rewrite <- stream_len_app in Hl. destruct (begin m) as [o m1] eqn:Hb. pose proof (begin_spec m T ks o m1 Hm Hn Hi Hl Hb) as (_ & Hok & _ & Hex).
  destruct (Hex Hh) as [t ->]. destruct (Hok t eq_refl) as (<- & _ & Hact & Hnx & Ht).
  destruct (begin_snapshot m T ks t _ Hm Hn Hl Hb) as (Hcat & Hv & _ & Hst & Hhw). specialize (Hhw Hh).
  specialize (Hop t _ Ht Hcat Hv). pose proof (Hiso t) as Hsame.
  destruct (op t) as [[a|e|] t'] eqn:Hrun; [| |done].
  - destruct Hop as (T' & Ht' & HQ). cbn [fst snd] in *. destruct Hsame as [[Hc1 Hc2 Hw1 Hn1 Ha1 _] _].
    destruct (commit_installs t' T T' _ Ht') as (m' & -> & Hm' & Hi' & Hcat' & Hv' & Hh' & _).
    + rewrite Hn1, Hnx. lia.
    + cbn [fst] in Hcl. rewrite Hrun in Hcl. rewrite <- app_assoc, stream_len_app. exact Hcl.
    + by rewrite Hw1.
    + cbn [bind_outcome]. exists t', T'. eexists. split; [split; try done; apply settled_app; [by apply settled_app, settled_begin|apply commit_kinds_settled]|]. by split.
  - destruct e; try done. destruct Hsame as (Hsm & Hstate & _). cbn [snd] in Hsm, Hstate.
    rewrite drop_active by (rewrite Hstate; apply Ht). cbn [is_user]. split; [done|].
    assert (Hm' : manager_rep (manager t') T (ks ++ [BeginTx (next_tx_id m)])).
    { apply (manager_rep_same (manager t)); [apply Ht|done|]. destruct (sr_ready _ _ (mr_store _ _ _ (tr_manager _ _ _ _ Ht))) as [H1 H2].
      split; [by apply (sm_healthy _ _ Hsm)|]. fold (data (manager t)) in H2. by rewrite (sm_data _ _ Hsm). }
    split.
    + split.
      * change (catalog (store (finish_writer (manager t')))) with (catalog (store (manager t'))).
        by rewrite (sm_catalog _ _ Hsm), Hst.
      * intros i. change (data (finish_writer (manager t'))) with (data (manager t')).
        rewrite (view_contents _ _ i (sm_data _ _ Hsm)). unfold data. by rewrite Hst.
    + eexists. split; [|done| |by apply settled_app, settled_begin].
      * destruct Hm' as [H1 H2 H3]. split; [exact H1|exact H2|exact H3].
      * change (wal (finish_writer (manager t'))) with (wal (manager t')). by rewrite (sm_wal _ _ Hsm).
Qed.
End Auto.
