(* ===== verification/Index.v ===== *)
(** * Index: the persistent B+tree of crate [rdbms_index]

    Nodes are records in slot 0 of index pages.  The algorithms work on a page
    store, the trait [BPlusTreePageStore].  Descending and walking along the
    leaves are loops without a bound in the code; here they take fuel, and
    running out of it is the outcome [Panic].  [IndexTree] shows that on a tree
    the height and the number of leaves are fuel enough.

    [partition_point] and [binary_search_by] of the standard library are specified
    on slices that are partitioned or sorted, where they agree with the searches
    below; the invariant of [IndexTree] keeps every searched slice sorted. *)

From S2P Require Import Prelude Core Bytes Page.

(** Maximum separator keys per B+Tree node. *)
Definition MAX_KEYS : N := 4.

Definition INDEX_NODE_MAGIC : list byte := [x52; x44; x42; x49].
Definition INDEX_NODE_VERSION : N := 1.
Definition NODE_LEAF : N := 1.
Definition NODE_INTERNAL : N := 2.
Definition KEY_INTEGER : N := 1.
Definition KEY_TEXT : N := 2.

(** ** Keys and entries *)

Inductive IndexKey : Type :=
| KInteger (value : Z)
| KText (value : string).

Record IndexEntry : Type := mkIndexEntry { key : IndexKey; entry_row : RowId }.

(** The derived [Ord] of [IndexKey] and [RowId]. *)
Definition key_cmp (a b : IndexKey) : comparison :=
  match a, b with
  | KInteger x, KInteger y => Z.compare x y
  | KInteger _, KText _ => Lt
  | KText _, KInteger _ => Gt
  | KText x, KText y => String.compare x y
  end.

(** [Ordering::then]. *)
Definition then_cmp (a b : comparison) : comparison :=
  match a with Eq => b | _ => a end.

Definition row_id_cmp (a b : RowId) : comparison :=
  then_cmp (page_id a ?= page_id b) (slot_id a ?= slot_id b).

Definition compare_entry (l r : IndexEntry) : comparison :=
  then_cmp (key_cmp (key l) (key r)) (row_id_cmp (entry_row l) (entry_row r)).

(** ** Nodes *)

Inductive BTreeNode : Type :=
| Leaf (next_leaf : option PageId) (entries : list IndexEntry)
| Internal (keys : list IndexKey) (children : list PageId).

Record SplitResult : Type := mkSplitResult { separator : IndexKey; right_page_id : PageId }.

Class BPlusTreePageStore (S : Type) : Type := {
  bt_load_page : PageId -> db S Page;
  bt_store_page : Page -> db S unit;
  bt_allocate_page : db S PageId
}.

Definition validate_internal_shape (keys : list IndexKey) (children : list PageId) : DbResult unit :=
  if negb (len children =? len keys + 1)
  then Err (Corruption ("invalid B+Tree internal node shape: keys=" +:+ pretty (len keys)
                        +:+ ", children=" +:+ pretty (len children)))
  else Ok tt.

(** ** The node record *)

Definition encode_key (k : IndexKey) : db (list byte) unit :=
  match k with
  | KInteger value =>
      let! _ := push_uint 1 KEY_INTEGER in
      push_uint 8 (i64_to_bits value)
  | KText value =>
      let! _ := push_uint 1 KEY_TEXT in
      let! _ := write_u16_len (string_len value) "index text key length" in
      extend_from_slice (bytes_of_string value)
  end.

Definition encode_entry (e : IndexEntry) : db (list byte) unit :=
  let! _ := encode_key (key e) in
  let! _ := push_uint 8 (page_id (entry_row e)) in
  push_uint 2 (slot_id (entry_row e)).

Definition encode_next (next_leaf : option PageId) : db (list byte) unit :=
  match next_leaf with
  | Some id => let! _ := push_uint 1 1 in push_uint 8 id
  | None => let! _ := push_uint 1 0 in push_uint 8 0
  end.

Definition encode_node_to (node : BTreeNode) : db (list byte) unit :=
  let! _ := extend_from_slice INDEX_NODE_MAGIC in
  let! _ := push_uint 2 INDEX_NODE_VERSION in
  match node with
  | Leaf next_leaf entries =>
      let! _ := push_uint 1 NODE_LEAF in
      let! _ := encode_next next_leaf in
      let! _ := write_u16_len (len entries) "leaf entry count" in
      for_each encode_entry entries
  | Internal keys children =>
      let! _ := lift (validate_internal_shape keys children) in
      let! _ := push_uint 1 NODE_INTERNAL in
      let! _ := write_u16_len (len keys) "internal key count" in
      let! _ := for_each encode_key keys in
      let! _ := write_u16_len (len children) "internal child count" in
      for_each (push_uint 8) children
  end.

Definition encode_node (node : BTreeNode) : DbResult (list byte) :=
  let '(r, bs) := encode_node_to node [] in let? _ := r in Ok bs.

Definition index_texts : cursor_texts :=
  mkCursorTexts "index node offset overflow" "index node is truncated"
    "index node has trailing bytes".

Definition decode_key : db DecodeCursor IndexKey :=
  let! tag := cursor_u8 index_texts in
  if tag =? KEY_INTEGER then
    let! value := cursor_i64 index_texts in ret (KInteger value)
  else if tag =? KEY_TEXT then
    let! n := cursor_u16 index_texts in
    let! bs := read_bytes index_texts n in
    let! value := lift (from_utf8 "index text key is not valid UTF-8" bs) in
    ret (KText value)
  else throw (Corruption ("unknown index key tag: " +:+ pretty tag)).

Definition decode_entry : db DecodeCursor IndexEntry :=
  let! k := decode_key in
  let! page := cursor_u64 index_texts in
  let! slot := cursor_u16 index_texts in
  ret (mkIndexEntry k (mkRowId page slot)).

Definition decode_next : db DecodeCursor (option PageId) :=
  let! has_next := cursor_u8 index_texts in
  let! next_page := cursor_u64 index_texts in
  if has_next =? 0 then ret None
  else if has_next =? 1 then ret (Some next_page)
  else throw (Corruption ("invalid leaf next flag: " +:+ pretty has_next)).

Definition decode_node_fields : db DecodeCursor BTreeNode :=
  let! magic := read_bytes index_texts 4 in
  if negb (bool_decide (magic = INDEX_NODE_MAGIC)) then throw (Corruption "invalid index node magic") else
  let! version := cursor_u16 index_texts in
  if negb (version =? INDEX_NODE_VERSION)
  then throw (Corruption ("unsupported index node version: " +:+ pretty version)) else
  let! node_kind := cursor_u8 index_texts in
  if node_kind =? NODE_LEAF then
    let! next_leaf := decode_next in
    let! entry_count := cursor_u16 index_texts in
    let! entries := repeat_st (N.to_nat entry_count) decode_entry in
    ret (Leaf next_leaf entries)
  else if node_kind =? NODE_INTERNAL then
    let! key_count := cursor_u16 index_texts in
    let! keys := repeat_st (N.to_nat key_count) decode_key in
    let! child_count := cursor_u16 index_texts in
    let! children := repeat_st (N.to_nat child_count) (cursor_u64 index_texts) in
    let! _ := lift (validate_internal_shape keys children) in
    ret (Internal keys children)
  else throw (Corruption ("unknown index node kind: " +:+ pretty node_kind)).

Definition decode_node (bs : list byte) : DbResult BTreeNode :=
  fst ((let! node := decode_node_fields in
        let! _ := finish index_texts in
        ret node) (cursor_new bs)).

Definition node_to_page (id : PageId) (node : BTreeNode) : DbResult Page :=
  let? bs := encode_node node in
  let '(r, page) := insert_record bs (page_new id Page.Index) in
  let? _ := r in
  Ok page.

Definition node_from_page (page : Page) : DbResult BTreeNode :=
  let? h := header page in
  if negb (bool_decide (h_page_type h = Page.Index))
  then Err (Corruption ("page " +:+ pretty (h_page_id h) +:+ " is not an index page")) else
  let? r := read_record page 0 in
  let? bs := ok_or r (Corruption "index node record is missing") in
  decode_node bs.

(** ** Vectors *)

(** [Vec::insert] and [Vec::split_off] panic out of range. *)
Definition vec_insert {A : Type} (i : N) (x : A) (l : list A) : DbResult (list A) :=
  if i <=? len l then Ok (take (N.to_nat i) l ++ x :: drop (N.to_nat i) l) else Panic.
Definition split_off {A : Type} (i : N) (l : list A) : DbResult (list A * list A) :=
  if i <=? len l then Ok (take (N.to_nat i) l, drop (N.to_nat i) l) else Panic.

(** [partition_point]: the number of leading elements that satisfy [p]. *)
Fixpoint partition_point {A : Type} (p : A -> bool) (l : list A) : N :=
  match l with
  | [] => 0
  | x :: rest => if p x then partition_point p rest + 1 else 0
  end.

Definition is_lt (c : comparison) : bool := match c with Lt => true | _ => false end.
Definition is_gt (c : comparison) : bool := match c with Gt => true | _ => false end.

(** [binary_search_by(..).unwrap_or_else(|position| position)], then [insert].
    An equal entry is identical, so its position does not matter. *)
Definition insert_leaf_entry (entries : list IndexEntry) (k : IndexKey) (r : RowId)
  : DbResult (list IndexEntry) :=
  let entry := mkIndexEntry k r in
  vec_insert (partition_point (fun candidate => is_lt (compare_entry candidate entry)) entries)
    entry entries.

(** The first child whose separator is not below the key. *)
Definition child_index_for_key (keys : list IndexKey) (k : IndexKey) : N :=
  partition_point (fun sep => is_gt (key_cmp k sep)) keys.

(** ** The algorithms *)

Section Tree.
Context {S : Type} `{BPlusTreePageStore S}.

Definition load_node (id : PageId) : db S BTreeNode :=
  let! page := bt_load_page id in lift (node_from_page page).
Definition store_node (id : PageId) (node : BTreeNode) : db S unit :=
  let! page := lift (node_to_page id node) in bt_store_page page.

Definition initialize_root (root : PageId) : db S unit := store_node root (Leaf None []).

(** The leaf case of [insert_recursive]. *)
Definition insert_in_leaf (id : PageId) (next_leaf : option PageId) (entries : list IndexEntry)
    (k : IndexKey) (r : RowId) : db S (option SplitResult) :=
  let! entries := lift (insert_leaf_entry entries k r) in
  if len entries <=? MAX_KEYS then
    let! _ := store_node id (Leaf next_leaf entries) in ret None
  else
  let! right_page := bt_allocate_page in
  let! (entries, right_entries) := lift (split_off (len entries / 2) entries) in
  let! first := lift (or_panic (right_entries !! 0%nat)) in
  let! _ := store_node id (Leaf (Some right_page) entries) in
  let! _ := store_node right_page (Leaf next_leaf right_entries) in
  ret (Some (mkSplitResult (key first) right_page)).

(** The internal case, after the child at [child_index] was split. *)
Definition insert_separator (id : PageId) (keys : list IndexKey) (children : list PageId)
    (child_index : N) (split : SplitResult) : db S (option SplitResult) :=
  let! keys := lift (vec_insert child_index (separator split) keys) in
  let! children := lift (vec_insert (child_index + 1) (right_page_id split) children) in
  if len keys <=? MAX_KEYS then
    let! _ := store_node id (Internal keys children) in ret None
  else
  let promoted_index := len keys / 2 in
  let! sep := lift (or_panic (keys !! N.to_nat promoted_index)) in
  let! (keys, right_keys) := lift (split_off (promoted_index + 1) keys) in
  let keys := removelast keys in
  let! (children, right_children) := lift (split_off (promoted_index + 1) children) in
  let! right_page := bt_allocate_page in
  let! _ := store_node id (Internal keys children) in
  let! _ := store_node right_page (Internal right_keys right_children) in
  ret (Some (mkSplitResult sep right_page)).

Fixpoint insert_recursive (fuel : nat) (id : PageId) (k : IndexKey) (r : RowId)
  : db S (option SplitResult) :=
  match fuel with
  | O => lift Panic
  | Datatypes.S fuel' =>
      let! node := load_node id in
      match node with
      | Leaf next_leaf entries => insert_in_leaf id next_leaf entries k r
      | Internal keys children =>
          let! _ := lift (validate_internal_shape keys children) in
          let child_index := child_index_for_key keys k in
          let! child := lift (or_panic (children !! N.to_nat child_index)) in
          let! result := insert_recursive fuel' child k r in
          match result with
          | Some split => insert_separator id keys children child_index split
          | None => ret None
          end
      end
  end.

Definition insert (fuel : nat) (root : PageId) (k : IndexKey) (r : RowId) : db S PageId :=
  let! result := insert_recursive fuel root k r in
  match result with
  | Some split =>
      let! new_root := bt_allocate_page in
      let! _ := store_node new_root (Internal [separator split] [root; right_page_id split]) in
      ret new_root
  | None => ret root
  end.

Fixpoint find_leaf (fuel : nat) (id : PageId) (k : IndexKey) : db S PageId :=
  match fuel with
  | O => lift Panic
  | Datatypes.S fuel' =>
      let! node := load_node id in
      match node with
      | Leaf _ _ => ret id
      | Internal keys children =>
          let! _ := lift (validate_internal_shape keys children) in
          let! child := lift (or_panic (children !! N.to_nat (child_index_for_key keys k))) in
          find_leaf fuel' child k
      end
  end.

(** The [for] loop over the entries of a leaf: the ids found, and whether a
    greater key ended the search. *)
Fixpoint scan_entries (k : IndexKey) (entries : list IndexEntry) (row_ids : list RowId)
  : list RowId * bool :=
  match entries with
  | [] => (row_ids, false)
  | e :: rest =>
      match key_cmp (key e) k with
      | Lt => scan_entries k rest row_ids
      | Eq => scan_entries k rest (row_ids ++ [entry_row e])
      | Gt => (row_ids, true)
      end
  end.

Fixpoint lookup_leaves (fuel : nat) (id : PageId) (k : IndexKey) (row_ids : list RowId)
  : db S (list RowId) :=
  match fuel with
  | O => lift Panic
  | Datatypes.S fuel' =>
      let! node := load_node id in
      match node with
      | Internal _ _ => throw (Corruption "B+Tree lookup reached a non-leaf page")
      | Leaf next_leaf entries =>
          let '(row_ids, stop) := scan_entries k entries row_ids in
          if stop then ret row_ids else
          match next_leaf with
          | Some next => lookup_leaves fuel' next k row_ids
          | None => ret row_ids
          end
      end
  end.

Definition lookup (fuel : nat) (root : PageId) (k : IndexKey) : db S (list RowId) :=
  let! leaf := find_leaf fuel root k in
  lookup_leaves fuel leaf k [].
End Tree.
