(* ===== verification/IndexFacts.v ===== *)
(** * IndexFacts: the order of keys and the node record *)

From Stdlib Require Import Structures.OrdersEx Sorting.Sorted.
From S2P Require Import Prelude Core Bytes Page PageFacts PageOps Vfs VfsFacts PageStore Catalog CatalogFacts CatalogWf CatalogTheorems Heap HeapDb CatalogStore CatalogStoreFacts Index.

(** ** Comparison functions *)

(** What the searches need of a comparison: it decides a total order. *)
Class CmpOrder {A : Type} (cmp : A -> A -> comparison) : Prop := {
  cmp_eq a b : cmp a b = Eq <-> a = b;
  cmp_opp a b : cmp b a = CompOpp (cmp a b);
  cmp_lt_trans a b c : cmp a b = Lt -> cmp b c = Lt -> cmp a c = Lt
}.

Definition cmp_le {A} (cmp : A -> A -> comparison) (a b : A) : Prop := cmp a b <> Gt.

Section CmpOrder.
Context {A : Type} (cmp : A -> A -> comparison) `{!CmpOrder cmp}.

Lemma cmp_refl a : cmp a a = Eq.
Proof. by apply (cmp_eq (cmp := cmp)). Qed.

Lemma cmp_le_refl a : cmp_le cmp a a.
Proof. unfold cmp_le. by rewrite cmp_refl. Qed.

Lemma cmp_gt_lt a b : cmp a b = Gt <-> cmp b a = Lt.
Proof. rewrite (cmp_opp (cmp := cmp) a b). by destruct (cmp a b). Qed.

Lemma cmp_le_lt_eq a b : cmp_le cmp a b <-> cmp a b = Lt \/ a = b.
Proof.
  unfold cmp_le. rewrite <- (cmp_eq (cmp := cmp) a b). destruct (cmp a b); split; intuition congruence.
Qed.

Lemma cmp_lt_le a b : cmp a b = Lt -> cmp_le cmp a b.
Proof. unfold cmp_le. by intros ->. Qed.

Lemma cmp_le_lt_trans a b c : cmp_le cmp a b -> cmp b c = Lt -> cmp a c = Lt.
Proof. intros [Hl| ->]%cmp_le_lt_eq; [by apply cmp_lt_trans|done]. Qed.

Lemma cmp_lt_le_trans a b c : cmp a b = Lt -> cmp_le cmp b c -> cmp a c = Lt.
Proof. intros Hab [Hl| <-]%cmp_le_lt_eq; [by eapply cmp_lt_trans|done]. Qed.

#[export] Instance cmp_le_preorder : PreOrder (cmp_le cmp).
Proof.
  split; [exact cmp_le_refl|]. intros a b c Hab [Hl| <-]%cmp_le_lt_eq; [|done].
  apply cmp_lt_le. by eapply cmp_le_lt_trans.
Qed.

(** Sorted insertion, as [insert_leaf_entry] does it. *)
Definition sorted_insert (x : A) (l : list A) : list A :=
  let i := N.to_nat (partition_point (fun y => is_lt (cmp y x)) l) in take i l ++ x :: drop i l.

Lemma partition_point_le (p : A -> bool) l : partition_point p l <= len l.
Proof. induction l as [|x l IH]; cbn [partition_point length]; [lia|]. case_test; lia. Qed.

Lemma sorted_insert_perm x l : sorted_insert x l ≡ₚ x :: l.
Proof.
  unfold sorted_insert. rewrite <- Permutation_middle. by rewrite take_drop.
Qed.

Lemma sorted_insert_sorted x l :
  StronglySorted (cmp_le cmp) l -> StronglySorted (cmp_le cmp) (sorted_insert x l).
Proof.
  unfold sorted_insert. induction 1 as [|y l Hl IH Hf]; cbn [partition_point]; [repeat constructor|].
  destruct (cmp y x) eqn:Hc; cbn [is_lt N.to_nat take drop app].
  - repeat constructor; [done|done|by apply (cmp_eq (cmp := cmp)) in Hc as -> ; apply cmp_le_refl|].
    apply (cmp_eq (cmp := cmp)) in Hc as ->. done.
  - replace (N.to_nat (partition_point _ l + 1))
      with (S (N.to_nat (partition_point (fun y => is_lt (cmp y x)) l))) by lia.
    cbn [take drop app]. constructor; [done|]. change (take _ l ++ _) with (sorted_insert x l).
    rewrite sorted_insert_perm. constructor; [|done]. by apply cmp_lt_le.
  - apply cmp_gt_lt in Hc. repeat constructor; [done|done|by apply cmp_lt_le|].
    eapply Forall_impl; [exact Hf|]. intros z Hz. etrans; [by apply cmp_lt_le|done].
Qed.
End CmpOrder.

(** ** The orders of the index *)

#[export] Instance Z_compare_order : CmpOrder Z.compare.
Proof.
  split; [exact Z.compare_eq_iff|intros; apply Z.compare_antisym|].
  intros a b c. rewrite !Z.compare_lt_iff. lia.
Qed.

#[export] Instance N_compare_order : CmpOrder N.compare.
Proof.
  split; [exact N.compare_eq_iff|intros; apply N.compare_antisym|].
  intros a b c. rewrite !N.compare_lt_iff. lia.
Qed.

#[export] Instance string_compare_order : CmpOrder String.compare.
Proof.
  split; [|intros; apply String.compare_antisym|].
  { intros a b. split; [apply String.compare_eq_iff|intros ->]. induction b as [|c b IH]; [done|]. simpl. unfold Ascii.compare. by rewrite N.compare_refl. }
  intros a b c Hab Hbc. exact (StrictOrder_Transitive (StrictOrder := String_as_OT.lt_strorder) a b c Hab Hbc).
Qed.

#[export] Instance key_cmp_order : CmpOrder key_cmp.
Proof.
  split.
  - intros [x|x] [y|y]; cbn [key_cmp]; [| by split | by split |]; rewrite cmp_eq; split; congruence.
  - intros [x|x] [y|y]; cbn [key_cmp]; try done; apply cmp_opp.
  - intros [x|x] [y|y] [z|z]; cbn [key_cmp]; try done; apply cmp_lt_trans.
Qed.

(** Lexicographic combination. *)
Lemma then_cmp_order {A B C} (f : C -> A) (g : C -> B) cmpA cmpB
    `{!CmpOrder cmpA, !CmpOrder cmpB} :
  (forall x y, f x = f y -> g x = g y -> x = y) ->
  CmpOrder (fun x y => then_cmp (cmpA (f x) (f y)) (cmpB (g x) (g y))).
Proof.
  intros Hinj. split.
  - intros a b. split.
    + destruct (cmpA (f a) (f b)) eqn:Ha; try done. cbn. intros Hb.
      apply (cmp_eq (cmp := cmpA)) in Ha. apply (cmp_eq (cmp := cmpB)) in Hb. by apply Hinj.
    + intros ->. by rewrite (cmp_refl cmpA), (cmp_refl cmpB).
  - intros a b. rewrite (cmp_opp (cmp := cmpA) (f a) (f b)), (cmp_opp (cmp := cmpB) (g a) (g b)). by destruct (cmpA (f a) (f b)).
  - intros a b c. destruct (cmpA (f a) (f b)) eqn:Hab; try done; cbn [then_cmp].
    + apply (cmp_eq (cmp := cmpA)) in Hab. rewrite Hab. destruct (cmpA (f b) (f c)); cbn [then_cmp]; try done. apply (cmp_lt_trans (cmp := cmpB)).
    + destruct (cmpA (f b) (f c)) eqn:Hbc; try done; intros _ _.
      * apply (cmp_eq (cmp := cmpA)) in Hbc. by rewrite <- Hbc, Hab.
      * by rewrite (cmp_lt_trans (cmp := cmpA) _ _ _ Hab Hbc).
Qed.

#[export] Instance row_id_cmp_order : CmpOrder row_id_cmp.
Proof. refine (then_cmp_order page_id slot_id N.compare N.compare _). intros [] []; simpl; congruence. Qed.

#[export] Instance compare_entry_order : CmpOrder compare_entry.
Proof. refine (then_cmp_order key entry_row key_cmp row_id_cmp _). intros [] []; simpl; congruence. Qed.

Abbreviation key_le := (cmp_le key_cmp).

Lemma entry_le_key a b : cmp_le compare_entry a b -> key_le (key a) (key b).
Proof. unfold cmp_le, compare_entry. by destruct (key_cmp (key a) (key b)). Qed.

Lemma insert_leaf_entry_run entries k r :
  insert_leaf_entry entries k r = Ok (sorted_insert compare_entry (mkIndexEntry k r) entries).
Proof.
  unfold insert_leaf_entry, vec_insert, sorted_insert.
  by rewrite (proj2 (N.leb_le _ _) (partition_point_le _ _)).
Qed.

(** ** The node record *)

Definition key_typed (k : IndexKey) : Prop :=
  match k with KInteger z => (I64_MIN <= z <= I64_MAX)%Z | KText s => string_ok s end.
Definition row_typed (r : RowId) : Prop := page_id r <= U64_MAX /\ slot_id r <= U16_MAX.
Definition entry_typed (e : IndexEntry) : Prop := key_typed (key e) /\ row_typed (entry_row e).
Definition node_typed (n : BTreeNode) : Prop :=
  match n with
  | Leaf next entries => (forall id, next = Some id -> id <= U64_MAX) /\ Forall entry_typed entries
  | Internal keys children =>
      Forall key_typed keys /\ Forall (fun c => c <= U64_MAX) children /\ len children = len keys + 1
  end.

Lemma codec_ok_key k : key_typed k -> codec_ok (encode_key k) decode_key k.
Proof.
  destruct k as [z|s]; cbn [key_typed encode_key]; intros Hk; unfold decode_key.
  - apply codec_ok_bind with KEY_INTEGER; [by apply codec_ok_uint|].
    replace (KEY_INTEGER =? KEY_INTEGER) with true by done.
    apply (codec_ok_map _ _ KInteger). by apply codec_ok_total, codec_i64.
  - apply codec_ok_bind with KEY_TEXT; [by apply codec_ok_uint|].
    replace (KEY_TEXT =? KEY_INTEGER) with false by done.
    replace (KEY_TEXT =? KEY_TEXT) with true by done.
    apply codec_ok_bind with (string_len s); [by apply codec_ok_len|].
    intros v v' [= <-]. exists (bytes_of_string s). split; [done|].
    rewrite <- (app_nil_r (bytes_of_string s)).
    eapply reads_bind; [apply reads_bytes|].
    eapply reads_bind_pure; [apply reads_lift; by apply from_utf8_string|apply reads_ret].
Qed.

Lemma codec_ok_entry e : entry_typed e -> codec_ok (encode_entry e) decode_entry e.
Proof.
  destruct e as [k [p s]]. intros [Hk [Hp Hs]]. cbn in Hk, Hp, Hs.
  unfold encode_entry, decode_entry. cbn [key entry_row page_id slot_id].
  apply codec_ok_bind with k; [by apply codec_ok_key|].
  apply codec_ok_bind with p; [by apply codec_ok_u64|].
  apply (codec_ok_map _ _ (fun slot => mkIndexEntry k (mkRowId p slot))).
  apply codec_ok_uint; [done|]. unfold U16_MAX in Hs. simpl. lia.
Qed.

Lemma codec_ok_next next : (forall id, next = Some id -> id <= U64_MAX) -> codec_ok (encode_next next) decode_next next.
Proof.
  intros Hn. unfold decode_next. destruct next as [id|]; cbn [encode_next].
  - apply codec_ok_bind with 1; [by apply codec_ok_uint|].
    apply (codec_ok_map _ _ (fun i => Some i)). by apply codec_ok_u64, Hn.
  - apply codec_ok_bind with 0; [by apply codec_ok_uint|].
    apply (codec_ok_map _ _ (fun _ => None)) with (a := 0). by apply codec_ok_u64.
Qed.

Lemma validate_internal_shape_ok keys children :
  len children = len keys + 1 -> validate_internal_shape keys children = Ok tt.
Proof. intros Hl. unfold validate_internal_shape. by rewrite (proj2 (N.eqb_eq _ _) Hl). Qed.

Lemma writes_lift_ok {S A B} (o : DbResult A) a (w : db S B) : o = Ok a -> (let! _ := lift o in w) = w.
Proof. by intros ->. Qed.

Lemma codec_ok_node n : node_typed n -> codec_ok (encode_node_to n) decode_node_fields n.
Proof.
  intros Hn. unfold encode_node_to, decode_node_fields.
  apply codec_ok_bind with INDEX_NODE_MAGIC.
  { apply codec_ok_total. exact (codec_bytes index_texts INDEX_NODE_MAGIC). }
  rewrite bool_decide_true by done. cbn [negb].
  apply codec_ok_bind with INDEX_NODE_VERSION; [by apply codec_ok_uint|].
  replace (INDEX_NODE_VERSION =? INDEX_NODE_VERSION) with true by done. cbn [negb].
  destruct n as [next entries|keys children]; cbn [node_typed] in Hn.
  - destruct Hn as [Hnext Hes]. apply codec_ok_bind with NODE_LEAF; [by apply codec_ok_uint|].
    replace (NODE_LEAF =? NODE_LEAF) with true by done.
    apply codec_ok_bind with next; [by apply codec_ok_next|].
    apply codec_ok_bind with (len entries); [by apply codec_ok_len|].
    apply (codec_ok_map _ _ (Leaf next)). rewrite Nat2N.id. apply codec_ok_list.
    eapply Forall_impl; [exact Hes|]. apply codec_ok_entry.
  - destruct Hn as (Hk & Hc & Hl).
    rewrite (writes_lift_ok _ tt) by by apply validate_internal_shape_ok.
    apply codec_ok_bind with NODE_INTERNAL; [by apply codec_ok_uint|].
    replace (NODE_INTERNAL =? NODE_LEAF) with false by done.
    replace (NODE_INTERNAL =? NODE_INTERNAL) with true by done.
    apply codec_ok_bind with (len keys); [by apply codec_ok_len|].
    apply codec_ok_bind with keys.
    { rewrite Nat2N.id. apply codec_ok_list. eapply Forall_impl; [exact Hk|]. apply codec_ok_key. }
    apply codec_ok_bind with (len children); [by apply codec_ok_len|].
    intros v v' Hw.
    assert (Hlist : codec_ok (for_each (push_uint 8) children)
                      (repeat_st (N.to_nat (len children)) (cursor_u64 index_texts)) children).
    { rewrite Nat2N.id. apply codec_ok_list. eapply Forall_impl; [exact Hc|].
      intros. by apply codec_ok_u64. }
    destruct (Hlist _ _ Hw) as (bs & -> & Hr). exists bs. split; [done|].
    rewrite <- (app_nil_r bs). eapply reads_bind; [exact Hr|].
    eapply reads_bind_pure; [apply reads_lift; by apply validate_internal_shape_ok|apply reads_ret].
Qed.

Lemma decode_encoded_node n bs :
  node_typed n -> encode_node n = Ok bs -> len bs <= USIZE_MAX -> decode_node bs = Ok n.
Proof.
  unfold encode_node. intros Hn He Hl. destruct (encode_node_to n []) as [[[]|e|] bs'] eqn:Hw; [|done|done].
  cbn [bind_outcome] in He. injection He as ->.
  destruct (codec_ok_node n Hn [] bs Hw) as (bs2 & Hb & Hr). cbn [app] in Hb. subst bs2.
  unfold decode_node. by rewrite (run_codec index_texts _ bs n Hr Hl).
Qed.

(** ** Nodes on pages *)

Lemma only_user_key k : only_user (encode_key k).
Proof. destruct k; cbn [encode_key]; auto 10 with user. Qed.
#[export] Hint Resolve only_user_key : user.

Lemma only_user_entry e : only_user (encode_entry e).
Proof. unfold encode_entry. auto 10 with user. Qed.
#[export] Hint Resolve only_user_entry : user.

Lemma only_user_next next : only_user (encode_next next).
Proof. destruct next; cbn [encode_next]; auto 10 with user. Qed.
#[export] Hint Resolve only_user_next : user.

Lemma encode_node_ok_or_user n : node_typed n -> ok_or_user (encode_node n).
Proof.
  intros Hn. unfold encode_node. assert (Hu : only_user (encode_node_to n)).
  { unfold encode_node_to. destruct n as [next entries|keys children].
    - auto 20 with user.
    - destruct Hn as (_ & _ & Hl). rewrite (writes_lift_ok _ tt) by by apply validate_internal_shape_ok.
      auto 20 with user. }
  specialize (Hu []). by destruct (encode_node_to n []) as [[[]|e|] bs].
Qed.

(** A node fits its page, and reads back, or is too long: a user error. *)
Lemma node_to_page_spec id n :
  id <= U64_MAX -> node_typed n ->
  match node_to_page id n with
  | Ok p => valid_page id p /\ node_from_page p = Ok n
  | Err (User _) => True
  | _ => False
  end.
Proof.
  intros Hid Hn. unfold node_to_page. pose proof (encode_node_ok_or_user n Hn) as Hu.
  destruct (encode_node n) as [bs|[]|] eqn:He; cbn [bind_outcome]; try done.
  pose proof (page_new_refines id Page.Index Hid) as Hnew.
  pose proof (insert_record_refines _ _ bs Hnew) as Hi.
  destruct (a_insert bs (a_new id Page.Index)) as [[i a]|] eqn:Ha.
  2: { destruct Hi as [m ->]. done. }
  destruct Hi as (p & -> & Hrep). cbn [bind_outcome].
  unfold a_insert in Ha. destruct (_ || _) eqn:Ho; [done|]. reflect_bool. injection Ha as <- <-.
  split; [exact (page_rep_valid _ _ Hrep)|].
  unfold node_from_page. rewrite (rep_header_run p _ Hrep).
  cbn [bind_outcome header_of h_page_type a_type]. rewrite bool_decide_true by done. cbn [negb].
  rewrite (read_record_refines p _ 0 Hrep). unfold a_read.
  cbn [a_cells a_new app lookup list_lookup N.to_nat bind_outcome ok_or].
  apply decode_encoded_node; [done|done|]. unfold USIZE_MAX, U64_MAX, U16_MAX in *. lia.
Qed.
