(* ===== verification/IndexTree.v ===== *)
(** * IndexTree: B+trees of pages and their invariant

    [tree_at h v id lo hi L P]: in the pages [v] the page [id] is the root of a
    tree of height [h] with keys between [lo] and [hi], the leaves [L] in order
    and the pages [P].  [linked] says that the leaves form the chain that lookup
    walks along. *)

From stdpp Require Import sorting.
From S2P Require Import Prelude Core Bytes Page PageFacts PageOps Vfs VfsFacts PageStore Catalog CatalogFacts CatalogWf CatalogTheorems Heap HeapDb CatalogStore CatalogStoreFacts Index IndexFacts.

(** ** What the algorithms expect of a page store *)

Class IndexReadLaws (S : Type) `{BPlusTreePageStore S} : Type := {
  bt_view : S -> PageId -> option Page;
  bt_ready : S -> Prop;
  bt_stable : S -> S -> Prop;
  bt_stable_preorder :: PreOrder bt_stable;
  bt_load_law s id p :
    bt_ready s -> addressable id -> bt_view s id = Some p ->
    exists s', bt_load_page id s = (Ok p, s') /\ bt_ready s' /\ (forall i, bt_view s' i = bt_view s i)
               /\ bt_stable s s'
}.

(** [bt_next]: the next page id that is handed out. *)
Class IndexStoreLaws (S : Type) `{IndexReadLaws S} : Type := {
  bt_next : S -> N;
  bt_load_next s id : bt_next (bt_load_page id s).2 = bt_next s;
  bt_store_law s id p :
    bt_ready s -> addressable id -> valid_page id p ->
    exists s', bt_store_page p s = (Ok tt, s') /\ bt_ready s'
               /\ (forall i, bt_view s' i = store_set id p (bt_view s) i)
               /\ bt_stable s s' /\ bt_next s' = bt_next s;
  bt_allocate_law s :
    bt_ready s ->
    match bt_allocate_page s with
    | (Ok id, s') => id = bt_next s /\ bt_next s' = bt_next s + 1 /\ bt_ready s'
        /\ (forall i, bt_view s' i = bt_view s i) /\ bt_stable s s'
    | (Err (User _), _) => True
    | _ => False
    end
}.

(** ** Trees *)

Definition nodes (v : PageId -> option Page) (id : PageId) : option BTreeNode :=
  match v id with
  | Some p => match node_from_page p with Ok n => Some n | _ => None end
  | None => None
  end.

Definition within (lo hi : option IndexKey) (k : IndexKey) : Prop :=
  (forall l, lo = Some l -> key_le l k) /\ (forall u, hi = Some u -> key_le k u).

Record tleaf : Type := mkTleaf { tl_id : PageId; tl_next : option PageId; tl_entries : list IndexEntry }.

Definition ents (L : list tleaf) : list IndexEntry := L ≫= tl_entries.

(** The children [cs] with the separators [ks] between them. *)
Inductive forest (R : PageId -> option IndexKey -> option IndexKey -> list tleaf -> list PageId -> Prop)
  : option IndexKey -> option IndexKey -> list IndexKey -> list PageId -> list tleaf -> list PageId -> Prop :=
| forest_one lo hi c L P : R c lo hi L P -> forest R lo hi [] [c] L P
| forest_cons lo hi k ks c cs L1 L2 P1 P2 :
    within lo hi k -> key_typed k ->
    R c lo (Some k) L1 P1 -> forest R (Some k) hi ks cs L2 P2 ->
    forest R lo hi (k :: ks) (c :: cs) (L1 ++ L2) (P1 ++ P2).

Fixpoint tree_at (h : nat) (v : PageId -> option Page) (id : PageId) (lo hi : option IndexKey)
    (L : list tleaf) (P : list PageId) : Prop :=
  addressable id /\
  match h with
  | O => exists next es, nodes v id = Some (Leaf next es) /\ L = [mkTleaf id next es] /\ P = [id]
      /\ StronglySorted (cmp_le compare_entry) es /\ Forall (fun e => within lo hi (key e)) es
      /\ Forall entry_typed es /\ len es <= MAX_KEYS /\ (forall i, next = Some i -> i <= U64_MAX)
  | S h' => exists ks cs P', nodes v id = Some (Internal ks cs) /\ P = id :: P'
      /\ forest (tree_at h' v) lo hi ks cs L P' /\ 1 <= len ks <= MAX_KEYS
  end.

(** Every leaf points to the next one, the last one to [nxt]. *)
Fixpoint linked (L : list tleaf) (nxt : option PageId) : Prop :=
  match L with
  | [] => True
  | l :: rest =>
      tl_next l = match rest with [] => nxt | l' :: _ => Some (tl_id l') end /\ linked rest nxt
  end.

Definition first_id (L : list tleaf) (nxt : option PageId) : option PageId :=
  match L with [] => nxt | l :: _ => Some (tl_id l) end.

(** A B+tree with root [id] that holds the entries [es]. *)
Definition btree (h : nat) (v : PageId -> option Page) (id : PageId) (L : list tleaf) (P : list PageId) : Prop :=
  tree_at h v id None None L P /\ linked L None /\ NoDup P.

(** ** Bounds *)

Lemma within_none k : within None None k.
Proof. by split. Qed.

Lemma within_left lo hi sep k :
  within lo hi k -> key_le k sep -> within lo (Some sep) k.
Proof. intros [H1 _] Hk. split; [done|]. by intros u [= <-]. Qed.

Lemma within_right lo hi sep k :
  within lo hi k -> key_le sep k -> within (Some sep) hi k.
Proof. intros [_ H2] Hk. split; [|done]. by intros l [= <-]. Qed.

Lemma within_weaken_hi lo hi sep k : within lo (Some sep) k -> within lo hi sep -> within lo hi k.
Proof.
  intros [H1 H2] [_ H4]. split; [done|]. intros u Hu. etrans; [by apply H2|by apply H4].
Qed.

Lemma within_weaken_lo lo hi sep k : within (Some sep) hi k -> within lo hi sep -> within lo hi k.
Proof.
  intros [H1 H2] [H3 _]. split; [|done]. intros l Hl. etrans; [by apply H3|by apply H1].
Qed.

(** ** Leaf chains *)

Lemma linked_app A B nxt : linked (A ++ B) nxt <-> linked A (first_id B nxt) /\ linked B nxt.
Proof.
  induction A as [|l A IH]; cbn [app linked]; [tauto|]. rewrite IH.
  destruct A as [|l' A]; cbn [app]; [|tauto]. unfold first_id. destruct B; tauto.
Qed.

Lemma first_id_app A B nxt : first_id (A ++ B) nxt = first_id A (first_id B nxt).
Proof. by destruct A. Qed.

Lemma ents_app A B : ents (A ++ B) = ents A ++ ents B.
Proof. apply bind_app. Qed.

Lemma ents_cons l L : ents (l :: L) = tl_entries l ++ ents L.
Proof. done. Qed.

(** ** Forests *)

Section Forests.
Context (R R' : PageId -> option IndexKey -> option IndexKey -> list tleaf -> list PageId -> Prop).

Lemma forest_mono lo hi ks cs L P :
  (forall c lo hi L P', (forall i, i ∈ P' -> i ∈ P) -> R c lo hi L P' -> R' c lo hi L P') ->
  forest R lo hi ks cs L P -> forest R' lo hi ks cs L P.
Proof.
  intros Hm Hf. induction Hf as [lo hi c L P Hc|lo hi k ks c cs L1 L2 P1 P2 Hw Ht Hc Hf IH].
  - constructor. by apply Hm.
  - constructor; [done|done| |].
    + apply Hm; [|done]. intros i Hi. apply elem_of_app. by left.
    + apply IH. intros c' lo' hi' L' P' Hs. apply Hm. intros i Hi. apply elem_of_app. right. by apply Hs.
Qed.

Lemma forest_length lo hi ks cs L P : forest R lo hi ks cs L P -> length cs = S (length ks).
Proof. induction 1; simpl; congruence. Qed.

Lemma forest_keys_typed lo hi ks cs L P : forest R lo hi ks cs L P -> Forall key_typed ks.
Proof. induction 1; by constructor. Qed.

(** Splitting a forest at a separator. *)
Lemma forest_app lo hi ka k kb ca cb L P :
  forest R lo hi (ka ++ k :: kb) (ca ++ cb) L P -> length ca = S (length ka) ->
  exists La Lb Pa Pb, L = La ++ Lb /\ P = Pa ++ Pb /\ within lo hi k /\ key_typed k
    /\ forest R lo (Some k) ka ca La Pa /\ forest R (Some k) hi kb cb Lb Pb.
Proof.
  revert lo ca L P; induction ka as [|k1 ka IH]; intros lo ca L P Hf Hl; cbn [app] in Hf.
  - destruct ca as [|c [|]]; try done. cbn [app] in Hf.
    inversion Hf as [|? ? ? ? ? ? L1 L2 P1 P2 Hw Ht Hc Hf2]; subst.
    exists L1, L2, P1, P2. do 4 (split; [done|]). split; [by constructor|done].
  - destruct ca as [|c ca]; [done|]. cbn [app] in Hf.
    inversion Hf as [|? ? ? ? ? ? L1 L2 P1 P2 Hw Ht Hc Hf2]; subst.
    destruct (IH (Some k1) ca L2 P2 Hf2 ltac:(simpl in Hl; lia))
      as (La & Lb & Pa & Pb & -> & -> & Hwk & Htk & Ha & Hb).
    exists (L1 ++ La), Lb, (P1 ++ Pa), Pb. rewrite !app_assoc.
    split; [done|]. split; [done|].
    split; [exact (within_weaken_lo lo hi k1 k Hwk Hw)|]. split; [done|]. split; [|done].
    constructor; [|done|done|done]. apply (within_left lo hi); [done|]. by apply (proj1 Hwk).
Qed.
End Forests.

(** What descending into the child for key [k] meets: the child [c] at the
    position of [k], the rest of the forest around it, and that the child can be
    replaced, or replaced by two. *)
Record picked (R : PageId -> option IndexKey -> option IndexKey -> list tleaf -> list PageId -> Prop)
    (lo hi : option IndexKey) (ks : list IndexKey) (cs : list PageId) (k : IndexKey)
    (c : PageId) (lo' hi' : option IndexKey) (La Lc Lb : list tleaf) (Pa Pc Pb : list PageId) : Prop := mkPicked {
  pk_child : cs !! N.to_nat (child_index_for_key ks k) = Some c;
  pk_tree : R c lo' hi' Lc Pc;
  pk_within : within lo' hi' k;
  pk_before : Forall (fun e => key_cmp (key e) k = Lt) (ents La);
  pk_replace (R' : PageId -> option IndexKey -> option IndexKey -> list tleaf -> list PageId -> Prop) L' P' :
    (forall c lo hi L P, (forall i, i ∈ P -> i ∈ Pa ++ Pb) -> R c lo hi L P -> R' c lo hi L P) ->
    R' c lo' hi' L' P' -> forest R' lo hi ks cs (La ++ L' ++ Lb) (Pa ++ P' ++ Pb);
  pk_split (R' : PageId -> option IndexKey -> option IndexKey -> list tleaf -> list PageId -> Prop)
      sep c2 L1 L2 P1 P2 :
    (forall c lo hi L P, (forall i, i ∈ P -> i ∈ Pa ++ Pb) -> R c lo hi L P -> R' c lo hi L P) ->
    within lo' hi' sep -> key_typed sep -> R' c lo' (Some sep) L1 P1 -> R' c2 (Some sep) hi' L2 P2 ->
    let i := N.to_nat (child_index_for_key ks k) in
    forest R' lo hi (take i ks ++ sep :: drop i ks) (take (S i) cs ++ c2 :: drop (S i) cs)
      (La ++ (L1 ++ L2) ++ Lb) (Pa ++ (P1 ++ P2) ++ Pb)
}.

Definition bounded (R : PageId -> option IndexKey -> option IndexKey -> list tleaf -> list PageId -> Prop) : Prop :=
  forall c lo hi L P, R c lo hi L P -> Forall (fun e => within lo hi (key e)) (ents L).

Lemma child_index_cons sep ks k :
  child_index_for_key (sep :: ks) k
  = if is_gt (key_cmp k sep) then child_index_for_key ks k + 1 else 0.
Proof. done. Qed.

Lemma forest_bounded R lo hi ks cs L P :
  bounded R -> forest R lo hi ks cs L P -> Forall (fun e => within lo hi (key e)) (ents L).
Proof.
  intros HR. induction 1 as [lo hi c L P Hc|lo hi k1 ks c cs L1 L2 P1 P2 Hw Ht Hc Hf IH]; [by eapply HR|].
  rewrite ents_app. apply Forall_app. split.
  - eapply Forall_impl; [exact (HR _ _ _ _ _ Hc)|]. intros e He. by apply (within_weaken_hi lo hi k1).
  - eapply Forall_impl; [exact IH|]. intros e He. by apply (within_weaken_lo lo hi k1).
Qed.

(** The child before the first separator, when the key is not above it. *)
Lemma picked_here R lo hi k1 ks c cs L1 L2 P1 P2 k :
  within lo hi k1 -> key_typed k1 -> R c lo (Some k1) L1 P1 -> forest R (Some k1) hi ks cs L2 P2 ->
  within lo hi k -> is_gt (key_cmp k k1) = false ->
  picked R lo hi (k1 :: ks) (c :: cs) k c lo (Some k1) [] L1 L2 [] P1 P2.
Proof.
  intros Hw Ht Hc Hf Hk Hgt.
  assert (Hi : N.to_nat (child_index_for_key (k1 :: ks) k) = 0%nat)
    by (rewrite child_index_cons, Hgt; lia).
  split; [by rewrite Hi|done| |constructor| |].
  - apply (within_left lo hi); [done|]. unfold cmp_le. intros Hg. by rewrite Hg in Hgt.
  - intros R' L' P' Hm HR'. cbn [app]. constructor; [done|done|done|].
    eapply forest_mono; [|exact Hf]. intros c' lo' hi' L0 P0 Hs. apply Hm. done.
  - intros R' sep c2 L1' L2' P1' P2' Hm Hws Hts H1 H2 i. subst i. rewrite Hi. cbn [take drop app].
    rewrite <- !app_assoc. constructor; [by apply (within_weaken_hi lo hi k1)|done|done|].
    constructor; [|done|done|].
    + apply (within_right lo hi); [done|]. by apply (proj2 Hws).
    + eapply forest_mono; [|exact Hf]. intros c' lo' hi' L0 P0 Hs. apply Hm. done.
Qed.

(** A child after the first separator, when the key is above it. *)
Lemma picked_later R lo hi k1 ks c cs L1 P1 k c' lo' hi' La Lc Lb Pa Pc Pb :
  bounded R -> within lo hi k1 -> key_typed k1 -> R c lo (Some k1) L1 P1 -> key_cmp k1 k = Lt ->
  picked R (Some k1) hi ks cs k c' lo' hi' La Lc Lb Pa Pc Pb ->
  picked R lo hi (k1 :: ks) (c :: cs) k c' lo' hi' (L1 ++ La) Lc Lb (P1 ++ Pa) Pc Pb.
Proof.
  intros HR Hw Ht Hc Hlt Hpk.
  assert (Hi : N.to_nat (child_index_for_key (k1 :: ks) k) = S (N.to_nat (child_index_for_key ks k))).
  { rewrite child_index_cons, (proj2 (cmp_gt_lt key_cmp k k1) Hlt). cbn [is_gt]. lia. }
  split.
  - rewrite Hi. apply (pk_child _ _ _ _ _ _ _ _ _ _ _ _ _ _ _ Hpk).
  - apply Hpk.
  - apply Hpk.
  - rewrite ents_app. apply Forall_app. split; [|apply Hpk].
    eapply Forall_impl; [exact (HR _ _ _ _ _ Hc)|]. intros e [_ He].
    eapply (cmp_le_lt_trans key_cmp); [by apply He|done].
  - intros R' L' P' Hm HR'. rewrite <- !app_assoc. constructor; [done|done| |].
    + apply Hm; [|done]. intros j Hj. rewrite !elem_of_app. auto.
    + apply (pk_replace _ _ _ _ _ _ _ _ _ _ _ _ _ _ _ Hpk); [|done].
      intros ? ? ? ? P0 Hs. apply Hm. intros j Hj. apply Hs in Hj. rewrite !elem_of_app in *. tauto.
  - intros R' sep c2 L1' L2' P1' P2' Hm Hws Hts H1 H2 i. subst i. rewrite Hi. cbn [take drop app].
    rewrite <- (app_assoc L1), <- (app_assoc P1). constructor; [done|done| |].
    + apply Hm; [|done]. intros j Hj. rewrite !elem_of_app. auto.
    + apply (pk_split _ _ _ _ _ _ _ _ _ _ _ _ _ _ _ Hpk); [|done..].
      intros ? ? ? ? P0 Hs. apply Hm. intros j Hj. apply Hs in Hj. rewrite !elem_of_app in *. tauto.
Qed.

Lemma forest_pick R lo hi ks cs L P k :
  bounded R -> forest R lo hi ks cs L P -> within lo hi k ->
  exists c lo' hi' La Lc Lb Pa Pc Pb,
    L = La ++ Lc ++ Lb /\ P = Pa ++ Pc ++ Pb /\ picked R lo hi ks cs k c lo' hi' La Lc Lb Pa Pc Pb.
Proof.
  intros HR Hf. induction Hf as [lo hi c L P Hc|lo hi k1 ks c cs L1 L2 P1 P2 Hw Ht Hc Hf IH]; intros Hk.
  - exists c, lo, hi, [], L, [], [], P, []. rewrite !app_nil_r. split; [done|]. split; [done|].
    split; [done|done|done|constructor| |].
    + intros R' L' P' _ HR'. rewrite !app_nil_r. by constructor.
    + intros R' sep c2 L1' L2' P1' P2' _ Hws Hts H1 H2 i. subst i. cbn. rewrite !app_nil_r.
      constructor; [done|done|done|]. by constructor.
  - destruct (is_gt (key_cmp k k1)) eqn:Hgt.
    + assert (Hlt : key_cmp k1 k = Lt) by (apply (cmp_gt_lt key_cmp); by destruct (key_cmp k k1)).
      destruct IH as (c' & lo' & hi' & La & Lc & Lb & Pa & Pc & Pb & -> & -> & Hpk).
      { apply (within_right lo hi); [done|]. by apply (cmp_lt_le key_cmp). }
      exists c', lo', hi', (L1 ++ La), Lc, Lb, (P1 ++ Pa), Pc, Pb. rewrite <- !app_assoc.
      split; [done|]. split; [done|]. by apply picked_later.
    + exists c, lo, (Some k1), [], L1, L2, [], P1, P2.
      split; [done|]. split; [done|]. by apply picked_here.
Qed.

(** ** Trees *)

Lemma tree_bounded h v : bounded (tree_at h v).
Proof.
  induction h as [|h IH]; intros id lo hi L P [_ Ht].
  - destruct Ht as (next & es & _ & -> & _ & _ & Hw & _). unfold ents. simpl. by rewrite app_nil_r.
  - destruct Ht as (ks & cs & P' & _ & _ & Hf & _). by apply (forest_bounded _ _ _ _ _ _ _ IH Hf).
Qed.

Lemma tree_addressable h v id lo hi L P : tree_at h v id lo hi L P -> addressable id.
Proof. by destruct h; intros [? _]. Qed.

Lemma tree_ext h v v' id lo hi L P :
  (forall i, i ∈ P -> v' i = v i) -> tree_at h v id lo hi L P -> tree_at h v' id lo hi L P.
Proof.
  revert id lo hi L P. induction h as [|h IH]; intros id lo hi L P Hv [Ha Ht]; (split; [done|]).
  - destruct Ht as (next & es & Hn & HL & HP & Ht). exists next, es. split; [|done].
    subst P. unfold nodes in *. by rewrite Hv by constructor.
  - destruct Ht as (ks & cs & P' & Hn & -> & Hf & Hl). exists ks, cs, P'.
    split; [|split; [done|split; [|done]]].
    + unfold nodes in *. by rewrite Hv by constructor.
    + eapply forest_mono; [|exact Hf]. intros c lo' hi' L' P0 Hs. apply IH. intros j Hj. apply Hv. right. by apply Hs.
Qed.

Lemma forest_key_sorted R lo hi ks cs L P :
  bounded R -> (forall c lo hi L P, R c lo hi L P -> StronglySorted key_le (key <$> ents L)) ->
  forest R lo hi ks cs L P -> StronglySorted key_le (key <$> ents L).
Proof.
  intros HR HS. induction 1 as [lo hi c L P Hc|lo hi k1 ks c cs L1 L2 P1 P2 Hw Ht Hc Hf IH]; [by eapply HS|].
  rewrite ents_app, fmap_app. apply StronglySorted_app_2; [|by eapply HS|done].
  intros a b (e1 & -> & H1)%list_elem_of_fmap (e2 & -> & H2)%list_elem_of_fmap.
  pose proof (HR _ _ _ _ _ Hc) as B1. pose proof (forest_bounded _ _ _ _ _ _ _ HR Hf) as B2.
  rewrite Forall_forall in B1, B2.
  etrans; [by apply (proj2 (B1 _ H1))|by apply (proj1 (B2 _ H2))].
Qed.

(** The keys of the entries of a tree are sorted. *)
Lemma tree_sorted h v id lo hi L P :
  tree_at h v id lo hi L P -> StronglySorted key_le (key <$> ents L).
Proof.
  revert id lo hi L P. induction h as [|h IH]; intros id lo hi L P [_ Ht].
  - destruct Ht as (next & es & _ & -> & _ & Hs & _). unfold ents. simpl. rewrite app_nil_r.
    clear -Hs. induction Hs as [|e es Hs IH Hf]; simpl; constructor; [done|].
    apply Forall_fmap. eapply Forall_impl; [exact Hf|]. intros e' He. by apply entry_le_key.
  - destruct Ht as (ks & cs & P' & _ & _ & Hf & _).
    by apply (forest_key_sorted _ _ _ _ _ _ _ (tree_bounded h v) IH Hf).
Qed.
