(* ===== verification/IndexReads.v ===== *)
(** * IndexReads: descending, walking along the leaves, lookup *)

From stdpp Require Import sorting.
From S2P Require Import Prelude Core Bytes Page PageFacts PageOps Vfs VfsFacts PageStore Catalog CatalogFacts CatalogWf CatalogTheorems Heap HeapDb CatalogStore CatalogStoreFacts Index IndexFacts IndexTree.

#[export] Instance IndexKey_eq_dec : EqDecision IndexKey.
Proof. solve_decision. Defined.

(** The rows that a list of entries gives for a key. *)
Definition matches (k : IndexKey) (es : list IndexEntry) : list RowId :=
  entry_row <$> filter (fun e => key e = k) es.

Lemma matches_app k xs ys : matches k (xs ++ ys) = matches k xs ++ matches k ys.
Proof. unfold matches. by rewrite filter_app, fmap_app. Qed.

Lemma matches_perm k xs ys : xs ≡ₚ ys -> matches k xs ≡ₚ matches k ys.
Proof. unfold matches. by intros ->. Qed.

Lemma matches_cons k e es :
  matches k (e :: es) = if decide (key e = k) then entry_row e :: matches k es else matches k es.
Proof. unfold matches. rewrite filter_cons. by case_decide. Qed.

Lemma matches_none k es : Forall (fun e => key_cmp (key e) k <> Eq) es -> matches k es = [].
Proof.
  induction 1 as [|e es He _ IH]; [done|]. rewrite matches_cons, decide_False; [done|].
  intros Hk. apply He. by apply (cmp_eq (cmp := key_cmp)).
Qed.

(** ** Scanning a leaf *)

Definition key_above (k : IndexKey) (e : IndexEntry) : bool := is_gt (key_cmp (key e) k).

Lemma sorted_above k e es :
  Forall (key_le (key e)) (key <$> es) -> key_cmp (key e) k = Gt ->
  Forall (fun e => key_cmp (key e) k = Gt) es.
Proof.
  intros Hf Hg. rewrite Forall_fmap in Hf. eapply Forall_impl; [exact Hf|]. intros e' He.
  apply (cmp_gt_lt key_cmp). apply (cmp_gt_lt key_cmp) in Hg. by eapply (cmp_lt_le_trans key_cmp).
Qed.

Lemma above_no_match k es : Forall (fun e => key_cmp (key e) k = Gt) es -> matches k es = [].
Proof. intros Hf. apply matches_none. eapply Forall_impl; [exact Hf|]. intros e He. cbn in He. by rewrite He. Qed.

Lemma scan_entries_spec k es acc :
  StronglySorted key_le (key <$> es) ->
  scan_entries k es acc = (acc ++ matches k es, existsb (key_above k) es).
Proof.
  revert acc. induction es as [|e es IH]; intros acc Hs; cbn [scan_entries existsb]; [by rewrite app_nil_r|].
  cbn [fmap list_fmap] in Hs. apply StronglySorted_inv in Hs as [Hs Hf]. rewrite matches_cons. unfold key_above at 1.
  destruct (key_cmp (key e) k) eqn:Hc; cbn [is_gt orb].
  - apply (cmp_eq (cmp := key_cmp)) in Hc. rewrite IH, decide_True by done. by rewrite <- app_assoc.
  - rewrite IH by done. rewrite decide_False; [done|].
    intros Hk. apply (cmp_eq (cmp := key_cmp)) in Hk. congruence.
  - rewrite decide_False by (intros Hk; apply (cmp_eq (cmp := key_cmp)) in Hk; congruence).
    rewrite above_no_match by (by eapply sorted_above). by rewrite app_nil_r.
Qed.

(** Behind a leaf with a key above [k] nothing matches. *)
Lemma stop_no_match k es es' :
  StronglySorted key_le (key <$> (es ++ es')) -> existsb (key_above k) es = true -> matches k es' = [].
Proof.
  rewrite fmap_app, StronglySorted_app, existsb_exists. intros (Hle & _ & _) (e & He & Hg).
  apply above_no_match. apply (sorted_above k e); [|by unfold key_above in Hg; destruct (key_cmp (key e) k)].
  apply Forall_fmap, Forall_forall. intros e' He'. apply Hle; apply list_elem_of_fmap_2; [by apply list_elem_of_In|done].
Qed.

(** ** Shape of trees *)

Definition leaf_at (v : PageId -> option Page) (l : tleaf) : Prop :=
  addressable (tl_id l) /\ nodes v (tl_id l) = Some (Leaf (tl_next l) (tl_entries l)).

Lemma leaf_at_ext v v' l : (forall i, v' i = v i) -> leaf_at v l -> leaf_at v' l.
Proof. intros Hv [Ha Hn]. split; [done|]. unfold nodes in *. by rewrite Hv. Qed.

Lemma forest_leaves R v lo hi ks cs L P :
  (forall c lo hi L P, R c lo hi L P -> Forall (leaf_at v) L) ->
  forest R lo hi ks cs L P -> Forall (leaf_at v) L.
Proof. intros HR. induction 1; [by eapply HR|]. apply Forall_app; eauto. Qed.

Lemma tree_leaves h v id lo hi L P : tree_at h v id lo hi L P -> Forall (leaf_at v) L.
Proof.
  revert id lo hi L P. induction h as [|h IH]; intros id lo hi L P [Ha Ht].
  - destruct Ht as (next & es & Hn & -> & _). by constructor.
  - destruct Ht as (ks & cs & P' & _ & _ & Hf & _). by apply (forest_leaves _ _ _ _ _ _ _ _ IH Hf).
Qed.

(** A tree of height [h] has more than [h] pages, and at least as many as leaves. *)
Lemma forest_pages R lo hi ks cs L P n :
  (forall c lo hi L P, R c lo hi L P -> (n < length P)%nat /\ (length L <= length P)%nat) ->
  forest R lo hi ks cs L P -> (n < length P)%nat /\ (length L <= length P)%nat.
Proof.
  intros HR. induction 1 as [|? ? ? ? ? ? ? ? ? ? ? ? Hc Hf IH]; [by eapply HR|].
  pose proof (HR _ _ _ _ _ Hc). rewrite !length_app. lia.
Qed.

Lemma tree_pages h v id lo hi L P :
  tree_at h v id lo hi L P -> (h < length P)%nat /\ (length L <= length P)%nat.
Proof.
  revert id lo hi L P. induction h as [|h IH]; intros id lo hi L P [Ha Ht].
  - destruct Ht as (next & es & _ & -> & -> & _). simpl. lia.
  - destruct Ht as (ks & cs & P' & _ & -> & Hf & _).
    pose proof (forest_pages _ _ _ _ _ _ _ h IH Hf). simpl. lia.
Qed.

(** Every internal node has at least two children, so the leaves double per level. *)
Lemma forest_leaf_count R lo hi ks cs L P n :
  (forall c lo hi L P, R c lo hi L P -> (n <= length L)%nat) ->
  forest R lo hi ks cs L P -> (n * Datatypes.S (length ks) <= length L)%nat.
Proof.
  intros HR. induction 1 as [? ? ? ? ? Hc|? ? ? ? ? ? ? ? ? ? ? ? Hc Hf IH].
  - specialize (HR _ _ _ _ _ Hc). simpl. lia.
  - specialize (HR _ _ _ _ _ Hc). rewrite length_app. cbn [length]. lia.
Qed.

Lemma tree_leaf_count h v id lo hi L P : tree_at h v id lo hi L P -> (2 ^ h <= length L)%nat.
Proof.
  revert id lo hi L P. induction h as [|h IH]; intros id lo hi L P [Ha Ht].
  - destruct Ht as (next & es & _ & -> & _). simpl. lia.
  - destruct Ht as (ks & cs & P' & _ & -> & Hf & Hl).
    pose proof (forest_leaf_count _ _ _ _ _ _ _ (2 ^ h)%nat IH Hf) as Hn.
    rewrite Nat.pow_succ_r'. nia.
Qed.

(** ** Reading *)

Section Reads.
Context {S : Type} `{IndexReadLaws S}.

(** What an operation that only reads leaves behind. *)
Definition read_only (s s' : S) : Prop :=
  bt_ready s' /\ (forall i, bt_view s' i = bt_view s i) /\ bt_stable s s'.

Lemma read_only_trans s s1 s2 : read_only s s1 -> read_only s1 s2 -> read_only s s2.
Proof.
  intros (_ & Hv1 & Hs1) (Hr & Hv2 & Hs2). split; [done|]. split; [|by etrans].
  intros i. by rewrite Hv2.
Qed.

Lemma load_node_run s id n :
  bt_ready s -> addressable id -> nodes (bt_view s) id = Some n ->
  exists s', load_node id s = (Ok n, s') /\ read_only s s'.
Proof.
  intros Hr Ha Hn. unfold nodes in Hn. destruct (bt_view s id) as [p|] eqn:Hp; [|done].
  destruct (bt_load_law s id p Hr Ha Hp) as (s' & Hl & Hr' & Hv & Hs). exists s'. split; [|done].
  unfold load_node. rewrite (bind_st_run _ _ _ _ _ Hl). unfold lift.
  destruct (node_from_page p); by simplify_eq.
Qed.

Lemma tree_read_only h s s' id lo hi L P :
  read_only s s' -> tree_at h (bt_view s) id lo hi L P -> tree_at h (bt_view s') id lo hi L P.
Proof. intros (_ & Hv & _). apply tree_ext. auto. Qed.

Lemma forest_internal_shape {R lo hi ks cs L P} :
  forest R lo hi ks cs L P -> validate_internal_shape ks cs = Ok tt.
Proof. intros Hf. apply validate_internal_shape_ok. rewrite (forest_length _ _ _ _ _ _ _ Hf). lia. Qed.

(** Descending ends in a leaf with no smaller entry of the key before it. *)
Lemma find_leaf_spec h s fuel id lo hi L P k :
  tree_at h (bt_view s) id lo hi L P -> within lo hi k -> bt_ready s -> (h < fuel)%nat ->
  exists l La Lb s', find_leaf fuel id k s = (Ok (tl_id l), s') /\ read_only s s'
    /\ L = La ++ l :: Lb /\ Forall (fun e => key_cmp (key e) k = Lt) (ents La).
Proof.
  revert s fuel id lo hi L P. induction h as [|h IH]; intros s fuel id lo hi L P [Ha Ht] Hw Hr Hf;
    (destruct fuel as [|fuel]; [lia|]); cbn [find_leaf].
  - destruct Ht as (next & es & Hn & -> & _).
    destruct (load_node_run s id _ Hr Ha Hn) as (s' & Hl & Hro). rewrite (bind_st_run _ _ _ _ _ Hl).
    exists (mkTleaf id next es), [], [], s'. done.
  - destruct Ht as (ks & cs & P' & Hn & -> & Hfo & _).
    destruct (load_node_run s id _ Hr Ha Hn) as (s1 & Hl & Hro). rewrite (bind_st_run _ _ _ _ _ Hl).
    rewrite (forest_internal_shape Hfo). unfold lift at 1. cbn [bind_st].
    destruct (forest_pick _ _ _ _ _ _ _ k (tree_bounded h _) Hfo Hw)
      as (c & lo' & hi' & La & Lc & Lb & Pa & Pc & Pb & -> & -> & Hpk).
    erewrite bind_st_run by (rewrite (pk_child _ _ _ _ _ _ _ _ _ _ _ _ _ _ _ Hpk); done).
    destruct (IH s1 fuel c lo' hi' Lc Pc) as (l & La' & Lb' & s2 & Hrun & Hro2 & -> & Hlt).
    { apply (tree_read_only h s s1); [done|]. apply Hpk. }
    { apply Hpk. } { apply Hro. } { lia. }
    exists l, (La ++ La'), (Lb' ++ Lb), s2. split; [exact Hrun|].
    split; [by eapply read_only_trans|]. split; [by rewrite <- !app_assoc|].
    rewrite ents_app. apply Forall_app. split; [apply Hpk|done].
Qed.

(** Walking along the leaves collects the matches, in order. *)
Lemma lookup_leaves_spec s fuel l L k acc :
  Forall (leaf_at (bt_view s)) (l :: L) -> linked (l :: L) None ->
  StronglySorted key_le (key <$> ents (l :: L)) -> bt_ready s -> (length L < fuel)%nat ->
  exists s', lookup_leaves fuel (tl_id l) k acc s = (Ok (acc ++ matches k (ents (l :: L))), s')
    /\ read_only s s'.
Proof.
  revert s fuel l acc. induction L as [|l' L IH]; intros s fuel l acc Hls Hlk Hso Hr Hf;
    (destruct fuel as [|fuel]; [lia|]); cbn [lookup_leaves]; apply Forall_cons in Hls as [[Ha Hn] Hls];
    destruct (load_node_run s (tl_id l) _ Hr Ha Hn) as (s1 & Hl & Hro); rewrite (bind_st_run _ _ _ _ _ Hl);
    destruct Hlk as [Hnx Hlk]; rewrite ents_cons, fmap_app in Hso;
    destruct (proj1 (StronglySorted_app _ _ _) Hso) as (_ & Hs1 & Hs2); rewrite <- fmap_app in Hso;
    rewrite scan_entries_spec by exact Hs1; rewrite Hnx, ents_cons, matches_app, app_assoc.
  - rewrite app_nil_r. destruct (existsb _ _); by exists s1.
  - destruct (existsb _ _) eqn:Hst.
    + rewrite (stop_no_match k _ _ Hso Hst), app_nil_r. by exists s1.
    + destruct (IH s1 fuel l' (acc ++ matches k (tl_entries l))) as (s2 & Hrun & Hro2); [|done|done|apply Hro|simpl in Hf; lia|].
      { eapply Forall_impl; [exact Hls|]. intros x. apply leaf_at_ext, Hro. }
      exists s2. split; [exact Hrun|]. by eapply read_only_trans.
Qed.

Lemma lookup_spec h s fuel root L P k :
  btree h (bt_view s) root L P -> bt_ready s -> (length P <= fuel)%nat ->
  exists s', lookup fuel root k s = (Ok (matches k (ents L)), s') /\ read_only s s'.
Proof.
  intros (Ht & Hlk & _) Hr Hf. pose proof (tree_pages _ _ _ _ _ _ _ Ht) as [Hh HL].
  destruct (find_leaf_spec h s fuel root _ _ L P k Ht (within_none k) Hr ltac:(lia))
    as (l & La & Lb & s1 & Hrun & Hro & -> & Hlt).
  unfold lookup. rewrite (bind_st_run _ _ _ _ _ Hrun). rewrite ents_app, matches_app.
  rewrite (matches_none k (ents La)) by (eapply Forall_impl; [exact Hlt|]; intros e He; cbn in He; by rewrite He).
  pose proof (tree_sorted _ _ _ _ _ _ _ Ht) as Hso. rewrite ents_app, fmap_app, StronglySorted_app in Hso.
  destruct (lookup_leaves_spec s1 fuel l Lb k []) as (s2 & Hrun2 & Hro2).
  { apply tree_leaves, Forall_app in Ht as [_ Hls]. eapply Forall_impl; [exact Hls|]. intros x. apply leaf_at_ext, Hro. }
  { by apply linked_app in Hlk as [_ ?]. } { apply Hso. } { apply Hro. }
  { rewrite length_app in HL. simpl in HL. lia. }
  exists s2. split; [exact Hrun2|]. by eapply read_only_trans.
Qed.
End Reads.
