(* ===== verification/IndexInsert.v ===== *)
(** * IndexInsert: insertion keeps the tree and adds the entry *)

From stdpp Require Import sorting.
From S2P Require Import Prelude Core Bytes Page PageFacts PageOps Vfs VfsFacts PageStore Catalog CatalogFacts CatalogWf CatalogTheorems Heap HeapDb CatalogStore CatalogStoreFacts Index IndexFacts IndexTree IndexReads.

(** ** Runs that succeed or report a user error *)

Definition ok_or_user_st {S A : Type} (r : DbResult A * S) (Q : A -> S -> Prop) : Prop :=
  match r with
  | (Ok a, s) => Q a s
  | (Err (User _), _) => True
  | _ => False
  end.

Section Runs.
Context {S : Type}.

Lemma ok_bind {A B} (m : db S A) (k : A -> db S B) s Q R :
  ok_or_user_st (m s) Q -> (forall a s', Q a s' -> ok_or_user_st (k a s') R) ->
  ok_or_user_st (bind_st m k s) R.
Proof. unfold ok_or_user_st, bind_st. destruct (m s) as [[a|[]|] s']; try done. intros HQ Hk. by apply Hk. Qed.

Lemma ok_lift {A B} (o : DbResult A) a (k : A -> db S B) s R :
  o = Ok a -> ok_or_user_st (k a s) R -> ok_or_user_st (bind_st (lift o) k s) R.
Proof. by intros ->. Qed.

Lemma ok_run {A B} (m : db S A) (k : A -> db S B) s a s' R :
  m s = (Ok a, s') -> ok_or_user_st (k a s') R -> ok_or_user_st (bind_st m k s) R.
Proof. intros Hm. by rewrite (bind_st_run _ _ _ _ _ Hm). Qed.

Lemma ok_mono {A} (r : DbResult A * S) Q R :
  ok_or_user_st r Q -> (forall a s, Q a s -> R a s) -> ok_or_user_st r R.
Proof. destruct r as [[a|[]|] s]; simpl; auto. Qed.
End Runs.

Section Inserts.
Context {S : Type} `{IndexStoreLaws S}.

(** ** What a run does to the pages *)

(** The pages [P] became [P'], with at most [n] new ones; no other page changed. *)
Record touched (n : N) (s s' : S) (P P' : list PageId) : Prop := mkTouched {
  t_ready : bt_ready s';
  t_stable : bt_stable s s';
  t_frame : forall i, i ∉ P' -> bt_view s' i = bt_view s i;
  t_fresh : exists F, P' ≡ₚ F ++ P /\ NoDup F /\ Forall (fun i => bt_next s <= i < bt_next s') F;
  t_next : bt_next s <= bt_next s' <= bt_next s + n
}.

Lemma touched_trans n m s s1 s2 P P1 P2 :
  touched n s s1 P P1 -> touched m s1 s2 P1 P2 -> touched (n + m) s s2 P P2.
Proof.
  intros [_ Hs1 Hf1 (F1 & HP1 & Hn1 & HF1) Hb1] [Hr Hs2 Hf2 (F2 & HP2 & Hn2 & HF2) Hb2].
  split; [done|by etrans| | |lia].
  - intros i Hi. rewrite Hf2 by done. apply Hf1. intros Hin. apply Hi. rewrite HP2. apply elem_of_app. by right.
  - exists (F2 ++ F1). split; [by rewrite HP2, HP1, app_assoc|]. rewrite Forall_forall in HF1, HF2. split.
    + apply NoDup_app. split; [done|]. split; [|done]. intros i Hi2 Hi1. specialize (HF1 i Hi1). specialize (HF2 i Hi2). simpl in *. lia.
    + apply Forall_app. split; apply Forall_forall; intros i Hi; [specialize (HF2 i Hi)|specialize (HF1 i Hi)]; simpl in *; lia.
Qed.

Lemma touched_weaken n m s s' P P' : touched n s s' P P' -> n <= m -> touched m s s' P P'.
Proof. intros [] ?. split; [done..|lia]. Qed.

Lemma touched_perm n s s' P P1 Q Q1 :
  touched n s s' P P1 -> P ≡ₚ Q -> P1 ≡ₚ Q1 -> touched n s s' Q Q1.
Proof.
  intros [Hr Hs Hf (F & HP & HF) Hn] HQ HQ1. split; [done|done| | |done].
  - intros i. rewrite <- HQ1. apply Hf.
  - exists F. by rewrite <- HQ1, <- HQ.
Qed.

Lemma touched_ctx n s s' A B P P' :
  touched n s s' P P' -> touched n s s' (A ++ P ++ B) (A ++ P' ++ B).
Proof.
  intros [Hr Hs Hf (F & HP & HF) Hn]. split; [done|done| | |done].
  - intros i Hi. apply Hf. intros Hin. apply Hi. rewrite !elem_of_app. auto.
  - exists F. split; [|done]. rewrite HP, <- app_assoc. apply Permutation_app_swap_app.
Qed.

Lemma touched_read s s' P : read_only s s' -> bt_next s' = bt_next s -> touched 0 s s' P P.
Proof. intros (Hr & Hv & Hs) Hn. split; [done|done|by intros|by exists []; repeat constructor|lia]. Qed.

Lemma touched_store s s' id P :
  bt_ready s' -> bt_stable s s' -> (forall i, i <> id -> bt_view s' i = bt_view s i) ->
  bt_next s' = bt_next s -> id ∈ P -> touched 0 s s' P P.
Proof.
  intros Hr Hs Hv Hn Hi. split; [done|done| |by exists []; repeat constructor|lia].
  intros i Hni. apply Hv. by intros ->.
Qed.

Lemma touched_allocate s s' P :
  read_only s s' -> bt_next s' = bt_next s + 1 -> touched 1 s s' P (bt_next s :: P).
Proof.
  intros (Hr & Hv & Hs) Hn. split; [done|done|by intros| |lia].
  exists [bt_next s]. split; [done|]. split; [apply NoDup_singleton|]. constructor; [lia|done].
Qed.

(** Distinct pages below the next id stay so. *)
Definition allotted (s : S) (P : list PageId) : Prop := NoDup P /\ Forall (fun i => i < bt_next s) P.

Lemma touched_allotted n s s' P P' : touched n s s' P P' -> allotted s P -> allotted s' P'.
Proof.
  intros [_ _ _ (F & HP & HnF & HF) Hn] [Hnd Hlt]. rewrite Forall_forall in HF, Hlt. split.
  - rewrite HP. apply NoDup_app. split; [done|]. split; [|done]. intros i Hi Hi2.
    specialize (HF i Hi). specialize (Hlt i Hi2). simpl in *. lia.
  - rewrite HP. apply Forall_app. split; apply Forall_forall; intros i Hi;
      [specialize (HF i Hi)|specialize (Hlt i Hi)]; simpl in *; lia.
Qed.

(** ** Loading and storing nodes *)

Lemma load_node_next s id n s' : load_node id s = (Ok n, s') -> bt_next s' = bt_next s.
Proof.
  unfold load_node, bind_st, lift. pose proof (bt_load_next s id) as Hn.
  destruct (bt_load_page id s) as [[p|e|] s1]; intros; by simplify_eq.
Qed.

Definition stored (id : PageId) (n : BTreeNode) (s s' : S) : Prop :=
  nodes (bt_view s') id = Some n /\ (forall i, i <> id -> bt_view s' i = bt_view s i)
  /\ bt_ready s' /\ bt_stable s s' /\ bt_next s' = bt_next s.

Lemma store_node_ok s id n :
  bt_ready s -> addressable id -> node_typed n ->
  ok_or_user_st (store_node id n s) (fun _ s' => stored id n s s').
Proof.
  intros Hr Ha Hn. unfold store_node, bind_st, lift.
  assert (Hid : id <= U64_MAX) by (unfold addressable, U64_MAX, PAGE_SIZE in *; lia).
  pose proof (node_to_page_spec id n Hid Hn) as Hp.
  destruct (node_to_page id n) as [p|[]|]; [|done..]. destruct Hp as [Hv Hd].
  destruct (bt_store_law s id p Hr Ha Hv) as (s' & -> & Hr' & Hview & Hs & Hnx). unfold stored. simpl.
  split; [|split; [|done]].
  - unfold nodes. rewrite Hview. unfold store_set. by rewrite decide_True, Hd.
  - intros i Hi. rewrite Hview. unfold store_set. by rewrite decide_False.
Qed.

Lemma stored_touched id n s s' P : stored id n s s' -> id ∈ P -> touched 0 s s' P P.
Proof. intros (_ & Hv & Hr & Hs & Hn). by apply touched_store. Qed.

Lemma stored_other id n s s' i : stored id n s s' -> i <> id -> nodes (bt_view s') i = nodes (bt_view s) i.
Proof. intros (_ & Hv & _) Hi. unfold nodes. by rewrite Hv. Qed.

Lemma allocate_ok s :
  bt_ready s ->
  ok_or_user_st (bt_allocate_page s) (fun id s' =>
    id = bt_next s /\ bt_next s' = bt_next s + 1 /\ read_only s s').
Proof.
  intros Hr. pose proof (bt_allocate_law s Hr) as Ha. unfold ok_or_user_st, read_only.
  destruct (bt_allocate_page s) as [[id|[]|] s']; intuition.
Qed.

(** ** The result of an insertion *)

(** The tree at [id], or after a split that tree and a right neighbour. *)
Definition tree_or_split (h : nat) (v : PageId -> option Page) (id : PageId) (lo hi : option IndexKey)
    (L : list tleaf) (P : list PageId) (r : option SplitResult) : Prop :=
  match r with
  | None => tree_at h v id lo hi L P
  | Some (mkSplitResult sep rid) =>
      within lo hi sep /\ key_typed sep /\
      exists La Lb Pa Pb, L = La ++ Lb /\ P = Pa ++ Pb
        /\ tree_at h v id lo (Some sep) La Pa /\ tree_at h v rid (Some sep) hi Lb Pb
  end.

(** The leaves [L] became [L']: same place in the chain, one entry more. *)
Record extended (new : IndexEntry) (L L' : list tleaf) : Prop := mkExtended {
  x_ents : ents L' ≡ₚ new :: ents L;
  x_linked : forall nxt, linked L nxt -> linked L' nxt;
  x_first : forall nxt, first_id L' nxt = first_id L nxt
}.

Lemma extended_ctx new La Lb L L' :
  extended new L L' -> extended new (La ++ L ++ Lb) (La ++ L' ++ Lb).
Proof.
  intros [He Hl Hf]. split.
  - rewrite !ents_app, He. cbn [app]. symmetry. apply Permutation_middle.
  - intros nxt. rewrite !linked_app, !first_id_app, Hf. intros (Ha & Hb & Hc). auto.
  - intros nxt. by rewrite !first_id_app, Hf.
Qed.

Definition inserted (new : IndexEntry) (h : nat) (id : PageId) (lo hi : option IndexKey)
    (L : list tleaf) (P : list PageId) (s : S) (r : option SplitResult) (s' : S) : Prop :=
  exists L' P', tree_or_split h (bt_view s') id lo hi L' P' r /\ extended new L L'
    /\ touched (N.of_nat h + 1) s s' P P'.

(** ** The leaf *)

Lemma sorted_split n es e :
  StronglySorted (cmp_le compare_entry) es -> es !! n = Some e ->
  Forall (fun x => key_le (key x) (key e)) (take n es) /\ Forall (fun x => key_le (key e) (key x)) (drop n es).
Proof.
  intros Hs He. rewrite <- (take_drop n es), StronglySorted_app in Hs. destruct Hs as (Hc & _ & Hd).
  rewrite (drop_S _ _ _ He) in *. split.
  - apply Forall_forall. intros x Hx. apply entry_le_key, Hc; [done|by left].
  - apply StronglySorted_inv in Hd as [_ Hd]. constructor; [apply (cmp_le_refl key_cmp)|].
    eapply Forall_impl; [exact Hd|]. intros x. apply entry_le_key.
Qed.

Lemma sorted_parts n (es : list IndexEntry) :
  StronglySorted (cmp_le compare_entry) es ->
  StronglySorted (cmp_le compare_entry) (take n es) /\ StronglySorted (cmp_le compare_entry) (drop n es).
Proof. intros Hs. rewrite <- (take_drop n es), StronglySorted_app in Hs. tauto. Qed.

Lemma leaf_tree v id lo hi next es :
  addressable id -> nodes v id = Some (Leaf next es) -> StronglySorted (cmp_le compare_entry) es ->
  Forall (fun e => within lo hi (key e)) es -> Forall entry_typed es -> len es <= MAX_KEYS ->
  (forall i, next = Some i -> i <= U64_MAX) -> tree_at 0 v id lo hi [mkTleaf id next es] [id].
Proof. intros Ha ? ? ? ? ? ?. split; [done|]. exists next, es. done. Qed.

Lemma addressable_le i j : addressable j -> i <= j -> addressable i.
Proof. unfold addressable. unfold PAGE_SIZE. lia. Qed.

Section Leaf.
Context (s : S) (id : PageId) (lo hi : option IndexKey) (next : option PageId) (es : list IndexEntry)
  (new : IndexEntry).
Context (Hready : bt_ready s) (Hroom : addressable (bt_next s)) (Hid : addressable id)
  (Hfresh : id < bt_next s) (Hs : StronglySorted (cmp_le compare_entry) es)
  (Hw : Forall (fun e => within lo hi (key e)) es) (Hty : Forall entry_typed es)
  (Hlen : len es <= MAX_KEYS) (Hnext : forall i, next = Some i -> i <= U64_MAX)
  (Hkw : within lo hi (key new)) (Hkt : entry_typed new).

Let es' := sorted_insert compare_entry new es.

#[local] Lemma leaf_perm : es' ≡ₚ new :: es.
Proof. apply sorted_insert_perm. Qed.

#[local] Lemma leaf_sorted : StronglySorted (cmp_le compare_entry) es'.
Proof. apply (sorted_insert_sorted compare_entry), Hs. Qed.

#[local] Lemma leaf_length : len es' = len es + 1.
Proof. rewrite (Permutation_length leaf_perm). simpl. lia. Qed.

#[local] Lemma leaf_forall (P : IndexEntry -> Prop) : P new -> Forall P es -> Forall P es'.
Proof. intros. rewrite leaf_perm. by constructor. Qed.

#[local] Lemma leaf_tree_of s' next' part l u :
  nodes (bt_view s') id = Some (Leaf next' part) -> StronglySorted (cmp_le compare_entry) part ->
  Forall (fun e => within l u (key e)) part -> Forall entry_typed part -> len part <= MAX_KEYS ->
  (forall i, next' = Some i -> i <= U64_MAX) ->
  tree_at 0 (bt_view s') id l u [mkTleaf id next' part] [id].
Proof. by apply leaf_tree. Qed.

#[local] Lemma leaf_extended L' :
  ents L' = es' -> (forall nxt, next = nxt -> linked L' nxt) -> (forall nxt, first_id L' nxt = Some id) ->
  extended new [mkTleaf id next es] L'.
Proof.
  intros He Hl Hf. split.
  - rewrite He, leaf_perm. unfold ents. simpl. by rewrite app_nil_r.
  - intros nxt [Hn _]. by apply Hl.
  - intros nxt. apply Hf.
Qed.

Lemma leaf_fits :
  len es' <= MAX_KEYS ->
  ok_or_user_st ((let! _ := store_node id (Leaf next es') in ret None) s)
    (inserted new 0 id lo hi [mkTleaf id next es] [id] s).
Proof.
  intros Hl. eapply ok_bind.
  { apply store_node_ok; [done|done|]. split; [done|by apply leaf_forall]. }
  intros [] s' Hst. exists [mkTleaf id next es'], [id]. split; [|split].
  - apply leaf_tree_of; [apply Hst|apply leaf_sorted|by apply leaf_forall|by apply leaf_forall|done|done].
  - apply leaf_extended; [unfold ents; simpl; by rewrite app_nil_r|done|done].
  - eapply touched_weaken; [apply (stored_touched _ _ _ _ _ Hst); by left|lia].
Qed.

(** The entries divide at the middle; the key of the first right entry separates. *)
Lemma leaf_splits s1 n first :
  read_only s s1 -> bt_next s1 = bt_next s + 1 -> es' !! n = Some first -> n = 2%nat ->
  ok_or_user_st ((let! _ := store_node id (Leaf (Some (bt_next s)) (take n es')) in
                  let! _ := store_node (bt_next s) (Leaf next (drop n es')) in
                  ret (Some (mkSplitResult (key first) (bt_next s)))) s1)
    (inserted new 0 id lo hi [mkTleaf id next es] [id] s).
Proof.
  intros Hro Hnx Hf Hn. pose proof leaf_length as Hlen'.
  destruct (sorted_parts n es' leaf_sorted) as [Hs1 Hs2].
  destruct (sorted_split n es' first leaf_sorted Hf) as [Hk1 Hk2].
  pose proof (leaf_forall _ Hkt Hty) as Ht. pose proof (leaf_forall _ Hkw Hw) as Hwi.
  rewrite <- (take_drop n es'), Forall_app in Ht, Hwi. destruct Ht as [Ht1 Ht2], Hwi as [Hw1 Hw2].
  assert (Hfi : first ∈ drop n es') by (rewrite (drop_S _ _ _ Hf); by left).
  assert (Hfb : within lo hi (key first)) by (by apply (proj1 (Forall_forall _ _) Hw2)).
  assert (Hft : entry_typed first) by (by apply (proj1 (Forall_forall _ _) Ht2)).
  assert (Hl1 : len (take n es') <= MAX_KEYS) by (rewrite length_take; unfold MAX_KEYS in *; lia).
  assert (Hl2 : len (drop n es') <= MAX_KEYS) by (rewrite length_drop; unfold MAX_KEYS in *; lia).
  assert (Hnid : forall i, Some (bt_next s) = Some i -> i <= U64_MAX).
  { intros i [= <-]. unfold addressable, U64_MAX, PAGE_SIZE in *. lia. }
  eapply ok_bind; [apply store_node_ok; [apply Hro|done|by split]|]. intros [] s2 Hst1.
  eapply ok_bind; [apply store_node_ok; [apply Hst1|done|by split]|]. intros [] s3 Hst2.
  exists [mkTleaf id (Some (bt_next s)) (take n es'); mkTleaf (bt_next s) next (drop n es')], [id; bt_next s].
  split; [|split].
  - split; [done|]. split; [apply Hft|].
    eexists [_], [_], [id], [bt_next s]. split; [done|]. split; [done|]. split; apply leaf_tree; try done.
    + rewrite (stored_other _ _ _ _ _ Hst2) by lia. apply Hst1.
    + apply Forall_forall. intros e He. rewrite Forall_forall in Hw1, Hk1.
      apply (within_left lo hi); [by apply Hw1|by apply Hk1].
    + apply Hst2.
    + apply Forall_forall. intros e He. rewrite Forall_forall in Hw2, Hk2.
      apply (within_right lo hi); [by apply Hw2|by apply Hk2].
  - apply leaf_extended; [|by intros nxt ->|done].
    unfold ents. simpl. by rewrite app_nil_r, take_drop.
  - eapply touched_weaken with (n := 1 + 0 + 0); [|lia].
    eapply touched_perm; [|done|apply perm_swap].
    eapply touched_trans; [eapply touched_trans|].
    + by apply touched_allocate.
    + eapply stored_touched; [exact Hst1|]. right. by left.
    + eapply stored_touched; [exact Hst2|]. by left.
Qed.

Lemma insert_in_leaf_ok :
  ok_or_user_st (insert_in_leaf id next es (key new) (entry_row new) s)
    (inserted new 0 id lo hi [mkTleaf id next es] [id] s).
Proof.
  unfold insert_in_leaf. eapply ok_lift; [apply insert_leaf_entry_run|].
  replace (mkIndexEntry (key new) (entry_row new)) with new by (by destruct new). fold es'.
  pose proof leaf_length as Hl. case_test; [by apply leaf_fits|].
  eapply ok_bind; [by apply allocate_ok|]. intros rid s1 (-> & Hnx & Hro).
  assert (Hhalf : len es' / 2 = 2) by (replace (len es') with 5 by (unfold MAX_KEYS in *; lia); done).
  eapply ok_lift.
  { unfold split_off. rewrite Hhalf. rewrite (proj2 (N.leb_le _ _)) by (unfold MAX_KEYS in *; lia). done. }
  destruct (lookup_lt_is_Some_2 es' 2) as [first Hf]; [unfold MAX_KEYS in *; lia|].
  change (N.to_nat 2) with 2%nat. eapply ok_lift; [by rewrite lookup_drop, Nat.add_0_r, Hf|].
  by apply leaf_splits.
Qed.
End Leaf.

(** ** Internal nodes *)

Lemma internal_tree h v id lo hi ks cs L P :
  addressable id -> nodes v id = Some (Internal ks cs) -> forest (tree_at h v) lo hi ks cs L P ->
  1 <= len ks <= MAX_KEYS -> tree_at (Datatypes.S h) v id lo hi L (id :: P).
Proof. intros Ha ? ? ?. split; [done|]. by exists ks, cs, P. Qed.

Lemma forest_tree_ext h v v' lo hi ks cs L P :
  (forall i, i ∈ P -> v' i = v i) -> forest (tree_at h v) lo hi ks cs L P -> forest (tree_at h v') lo hi ks cs L P.
Proof. intros Hv. apply forest_mono. intros c lo' hi' L' P' Hs. apply tree_ext. auto. Qed.

Lemma internal_typed h v lo hi ks cs L P :
  forest (tree_at h v) lo hi ks cs L P -> node_typed (Internal ks cs).
Proof.
  intros Hf. split; [by eapply forest_keys_typed|]. split.
  - clear -Hf. assert (Hb : forall c lo hi L P, tree_at h v c lo hi L P -> c <= U64_MAX).
    { intros c lo' hi' L' P' Ht. apply tree_addressable in Ht. unfold addressable, U64_MAX, PAGE_SIZE in *. lia. }
    induction Hf; constructor; eauto.
  - rewrite (forest_length _ _ _ _ _ _ _ Hf). lia.
Qed.

Lemma vec_insert_run {A} i (x : A) l :
  i <= len l -> vec_insert i x l = Ok (take (N.to_nat i) l ++ x :: drop (N.to_nat i) l).
Proof. intros Hi. unfold vec_insert. by rewrite (proj2 (N.leb_le _ _) Hi). Qed.

Section Internal.
Context (s : S) (id : PageId) (h : nat) (lo hi : option IndexKey) (L : list tleaf) (P : list PageId).
Context (Hready : bt_ready s) (Hroom : addressable (bt_next s)) (Hid : addressable id)
  (Hal : allotted s (id :: P)).

(** The outcome for an internal node whose leaves are already right. *)
Definition joined (r : option SplitResult) (s' : S) : Prop :=
  exists P', tree_or_split (Datatypes.S h) (bt_view s') id lo hi L P' r /\ touched 1 s s' (id :: P) P'.

#[local] Lemma below_fresh i : i ∈ id :: P -> i < bt_next s.
Proof. intros Hi. destruct Hal as [_ Hlt]. by apply (proj1 (Forall_forall _ _) Hlt). Qed.

#[local] Lemma not_root i : i ∈ P -> i <> id.
Proof. intros Hi ->. destruct Hal as [Hnd _]. by apply NoDup_cons in Hnd as [? _]. Qed.

Lemma internal_fits ks cs :
  forest (tree_at h (bt_view s)) lo hi ks cs L P -> 1 <= len ks <= MAX_KEYS ->
  ok_or_user_st ((let! _ := store_node id (Internal ks cs) in ret None) s) joined.
Proof.
  intros Hf Hl. eapply ok_bind; [apply store_node_ok; [done|done|by eapply internal_typed]|].
  intros [] s' Hst. exists (id :: P). split.
  - apply (internal_tree _ _ _ _ _ ks cs); [done|apply Hst| |done]. eapply forest_tree_ext; [|exact Hf].
    intros i Hi. apply Hst. by apply not_root.
  - eapply touched_weaken; [apply (stored_touched _ _ _ _ _ Hst); by left|lia].
Qed.

(** The middle key moves up; what is left and right of it are two nodes. *)
Lemma internal_splits ka k kb ca cb :
  forest (tree_at h (bt_view s)) lo hi (ka ++ k :: kb) (ca ++ cb) L P -> length ca = Datatypes.S (length ka) ->
  1 <= len ka <= MAX_KEYS -> 1 <= len kb <= MAX_KEYS ->
  ok_or_user_st ((let! right_page := bt_allocate_page in
                  let! _ := store_node id (Internal ka ca) in
                  let! _ := store_node right_page (Internal kb cb) in
                  ret (Some (mkSplitResult k right_page))) s) joined.
Proof.
  intros Hf Hlc Hka Hkb.
  destruct (forest_app _ _ _ _ _ _ _ _ _ _ Hf Hlc) as (La & Lb & Pa & Pb & HL & HP & Hw & Ht & Hfa & Hfb).
  eapply ok_bind; [by apply allocate_ok|]. intros rid s1 (-> & Hnx & Hro).
  eapply ok_bind; [apply store_node_ok; [apply Hro|done|by eapply internal_typed]|]. intros [] s2 Hst1.
  eapply ok_bind; [apply store_node_ok; [apply Hst1|done|by eapply internal_typed]|]. intros [] s3 Hst2.
  assert (Hidf : id < bt_next s) by (apply below_fresh; by left).
  assert (Hv : forall i, i ∈ P -> bt_view s3 i = bt_view s i).
  { intros i Hi. pose proof (below_fresh i (list_elem_of_further _ _ _ Hi)).
    destruct Hst2 as (_ & -> & _); [|lia]. destruct Hst1 as (_ & -> & _); [|by apply not_root]. apply Hro. }
  exists ((id :: Pa) ++ (bt_next s :: Pb)). split.
  - split; [done|]. split; [done|]. exists La, Lb, (id :: Pa), (bt_next s :: Pb).
    split; [done|]. split; [done|]. subst P. split.
    + apply (internal_tree _ _ _ _ _ ka ca); [done| | |done].
      * rewrite (stored_other _ _ _ _ _ Hst2) by lia. apply Hst1.
      * eapply forest_tree_ext; [|exact Hfa]. intros i Hi. apply Hv, elem_of_app. by left.
    + apply (internal_tree _ _ _ _ _ kb cb); [done|apply Hst2| |done].
      eapply forest_tree_ext; [|exact Hfb]. intros i Hi. apply Hv, elem_of_app. by right.
  - eapply touched_weaken with (n := 1 + 0 + 0); [|lia].
    eapply touched_perm; [eapply touched_trans; [eapply touched_trans|]|done|].
    + by apply touched_allocate.
    + eapply stored_touched; [exact Hst1|]. right. by left.
    + eapply stored_touched; [exact Hst2|]. by left.
    + subst P. apply (Permutation_middle (id :: Pa) Pb).
Qed.

Lemma insert_separator_ok ks cs i sep rid :
  len ks <= MAX_KEYS -> len cs = len ks + 1 -> i <= len ks ->
  forest (tree_at h (bt_view s)) lo hi (take (N.to_nat i) ks ++ sep :: drop (N.to_nat i) ks)
    (take (Datatypes.S (N.to_nat i)) cs ++ rid :: drop (Datatypes.S (N.to_nat i)) cs) L P ->
  ok_or_user_st (insert_separator id ks cs i (mkSplitResult sep rid) s) joined.
Proof.
  intros Hl Hlc Hi. unfold insert_separator. cbn [separator right_page_id].
  replace (Datatypes.S (N.to_nat i)) with (N.to_nat (i + 1)) by lia. intros Hf.
  eapply ok_lift; [by apply vec_insert_run|]. eapply ok_lift; [apply vec_insert_run; lia|].
  set (ks' := take (N.to_nat i) ks ++ _) in *. set (cs' := take (N.to_nat (i + 1)) cs ++ _) in *.
  assert (Hks : len ks' = len ks + 1)
    by (subst ks'; rewrite length_app, length_take; cbn [length]; rewrite length_drop; lia).
  pose proof (forest_length _ _ _ _ _ _ _ Hf) as Hcs. clearbody ks' cs'.
  case_test; [apply internal_fits; [done|lia]|]. unfold MAX_KEYS in *.
  destruct ks' as [|k0 [|k1 [|k2 [|k3 [|k4 [|k5 ks']]]]]]; cbn [length] in *; try lia.
  destruct cs' as [|c0 [|c1 [|c2 [|c3 [|c4 [|c5 [|c6 cs']]]]]]]; cbn [length] in *; try lia.
  apply (internal_splits [k0; k1] k2 [k3; k4] [c0; c1; c2] [c3; c4; c5] Hf); [done|by vm_compute..].
Qed.
End Internal.

(** ** Descending *)

Lemma child_index_bound ks k : child_index_for_key ks k <= len ks.
Proof. apply partition_point_le. Qed.

Lemma inserted_after_read new h id lo hi L P s s1 r s' :
  read_only s s1 -> bt_next s1 = bt_next s -> inserted new h id lo hi L P s1 r s' ->
  inserted new h id lo hi L P s r s'.
Proof.
  intros Hro Hn (L' & P' & Ht & Hx & Htc). exists L', P'. split; [done|]. split; [done|].
  eapply touched_weaken; [eapply touched_trans; [by apply touched_read|exact Htc]|lia].
Qed.

(** An operation on one child leaves its parent and its siblings alone. *)
Lemma child_context n s s' id Pa Pb P P' :
  touched n s s' P P' -> allotted s (id :: Pa ++ P ++ Pb) ->
  touched n s s' (id :: Pa ++ P ++ Pb) (id :: Pa ++ P' ++ Pb) /\ allotted s' (id :: Pa ++ P' ++ Pb)
  /\ (forall i, i ∈ id :: Pa ++ Pb -> bt_view s' i = bt_view s i).
Proof.
  intros Ht Hal. pose proof (touched_ctx n s s' (id :: Pa) Pb P P' Ht) as Htc. cbn [app] in Htc.
  pose proof (touched_allotted _ _ _ _ _ Htc Hal) as Hal'. split; [done|]. split; [done|].
  intros i Hi. apply (t_frame _ _ _ _ _ Ht). intros Hin. destruct Hal' as [Hnd _].
  change (id :: Pa ++ P' ++ Pb) with ((id :: Pa) ++ P' ++ Pb) in Hnd.
  rewrite Permutation_app_swap_app, NoDup_app in Hnd. by apply (proj1 (proj2 Hnd) i Hin).
Qed.

Lemma allotted_part s A P B : allotted s (A ++ P ++ B) -> allotted s P.
Proof.
  intros [Hnd Hlt]. rewrite Permutation_app_swap_app in Hnd, Hlt.
  split; [by apply NoDup_app in Hnd as [? _]|by apply Forall_app in Hlt as [? _]].
Qed.

(** Once the child has the entry, the parent takes in the child's split, if any. *)
Lemma after_child h s s2 id lo hi ks cs new c lo' hi' La Lc Lb Pa Pc Pb r :
  addressable id -> nodes (bt_view s) id = Some (Internal ks cs) -> 1 <= len ks <= MAX_KEYS -> len cs = len ks + 1 ->
  allotted s (id :: Pa ++ Pc ++ Pb) -> addressable (bt_next s + N.of_nat (Datatypes.S h)) ->
  picked (tree_at h (bt_view s)) lo hi ks cs (key new) c lo' hi' La Lc Lb Pa Pc Pb ->
  inserted new h c lo' hi' Lc Pc s r s2 ->
  ok_or_user_st
    ((match r with
      | Some split => insert_separator id ks cs (child_index_for_key ks (key new)) split
      | None => ret None
      end) s2)
    (inserted new (Datatypes.S h) id lo hi (La ++ Lc ++ Lb) (id :: Pa ++ Pc ++ Pb) s).
Proof.
  intros Ha Hn Hl Hlc Hal Hroom Hpk (L' & P' & Hts & Hx & Htc).
  destruct (child_context _ _ _ id Pa Pb _ _ Htc Hal) as (Htc2 & Hal2 & Hsame).
  assert (Hm : forall c lo hi L P, (forall i, i ∈ P -> i ∈ Pa ++ Pb) -> tree_at h (bt_view s) c lo hi L P ->
               tree_at h (bt_view s2) c lo hi L P).
  { intros c' l' u' L0 P0 Hs. apply tree_ext. intros i Hi. apply Hsame. right. by apply Hs. }
  destruct r as [[sep rid]|].
  - destruct Hts as (Hws & Hkt & L1 & L2 & P1 & P2 & -> & -> & Ht1 & Ht2).
    eapply ok_mono; [eapply (insert_separator_ok s2 id h lo hi); try done|].
    + apply Htc.
    + eapply addressable_le; [exact Hroom|]. pose proof (t_next _ _ _ _ _ Htc). lia.
    + lia.
    + apply child_index_bound.
    + by apply (pk_split _ _ _ _ _ _ _ _ _ _ _ _ _ _ _ Hpk).
    + intros r s3 (P3 & Hts3 & Ht3). exists (La ++ (L1 ++ L2) ++ Lb), P3. split; [exact Hts3|].
      split; [by apply extended_ctx|].
      eapply touched_weaken; [by eapply touched_trans|lia].
  - exists (La ++ L' ++ Lb), (id :: Pa ++ P' ++ Pb). split; [|split].
    + apply (internal_tree _ _ _ _ _ ks cs); [done| | |done].
      * unfold nodes in *. rewrite Hsame by by left. done.
      * by apply (pk_replace _ _ _ _ _ _ _ _ _ _ _ _ _ _ _ Hpk).
    + by apply extended_ctx.
    + eapply touched_weaken; [exact Htc2|lia].
Qed.

Lemma insert_recursive_ok h s fuel id lo hi L P new :
  tree_at h (bt_view s) id lo hi L P -> within lo hi (key new) -> entry_typed new ->
  bt_ready s -> allotted s P -> addressable (bt_next s + N.of_nat h) -> (h < fuel)%nat ->
  ok_or_user_st (insert_recursive fuel id (key new) (entry_row new) s) (inserted new h id lo hi L P s).
Proof.
  revert s fuel id lo hi L P. induction h as [|h IH]; intros s fuel id lo hi L P [Ha Ht] Hw Hty Hr Hal Hroom Hf;
    (destruct fuel as [|fuel]; [lia|]); cbn [insert_recursive].
  - destruct Ht as (next & es & Hn & -> & -> & Hso & Hwi & Ht & Hl & Hnx).
    destruct (load_node_run s id _ Hr Ha Hn) as (s1 & Hld & Hro). eapply ok_run; [exact Hld|].
    pose proof (load_node_next _ _ _ _ Hld) as Hnext.
    eapply ok_mono; [|intros; by eapply inserted_after_read].
    apply insert_in_leaf_ok; try done; [apply Hro| |].
    + rewrite Hnext. eapply addressable_le; [exact Hroom|lia].
    + rewrite Hnext. destruct Hal as [_ Hlt]. by inversion Hlt.
  - destruct Ht as (ks & cs & P' & Hn & -> & Hfo & Hl).
    destruct (load_node_run s id _ Hr Ha Hn) as (s1 & Hld & Hro). eapply ok_run; [exact Hld|].
    pose proof (load_node_next _ _ _ _ Hld) as Hnext.
    assert (Hn1 : nodes (bt_view s1) id = Some (Internal ks cs)) by (unfold nodes in *; by rewrite (proj1 (proj2 Hro))).
    assert (Hal1 : allotted s1 (id :: P')) by (unfold allotted; by rewrite Hnext).
    rewrite <- Hnext in Hroom.
    assert (Hfo1 : forest (tree_at h (bt_view s1)) lo hi ks cs L P') by (eapply forest_tree_ext; [|exact Hfo]; intros; apply Hro).
    eapply ok_mono; [|intros; by eapply inserted_after_read].
    destruct Hro as (Hr1 & _ & _). clear Hld Hnext Hal Hfo Hn Hr s. rename s1 into s.
    eapply ok_lift; [by eapply forest_internal_shape|].
    destruct (forest_pick _ _ _ _ _ _ _ (key new) (tree_bounded h _) Hfo1 Hw)
      as (c & lo' & hi' & La & Lc & Lb & Pa & Pc & Pb & -> & -> & Hpk).
    eapply ok_lift; [by rewrite (pk_child _ _ _ _ _ _ _ _ _ _ _ _ _ _ _ Hpk)|].
    eapply ok_bind; [|intros r s2 Hins; eapply after_child; try done].
    + apply (IH s fuel c lo' hi' Lc Pc); [apply Hpk|apply Hpk|done|done| | |lia].
      * by apply (allotted_part s (id :: Pa) Pc Pb).
      * eapply addressable_le; [exact Hroom|lia].
    + rewrite (forest_length _ _ _ _ _ _ _ Hfo1). lia.
Qed.

(** Insertion keeps the B+tree, adds exactly the new entry, and touches only the
    pages of the tree and new ones. *)
Lemma insert_ok h s fuel root L P new :
  btree h (bt_view s) root L P -> bt_ready s -> allotted s P -> entry_typed new ->
  addressable (bt_next s + N.of_nat h + 1) -> (length P <= fuel)%nat ->
  ok_or_user_st (insert fuel root (key new) (entry_row new) s) (fun root' s' =>
    exists h' L' P', btree h' (bt_view s') root' L' P' /\ ents L' ≡ₚ new :: ents L
      /\ touched (N.of_nat h + 2) s s' P P' /\ (root' = root \/ bt_next s <= root')).
Proof.
  intros (Ht & Hlk & Hnd) Hr Hal Hty Hroom Hf. pose proof (tree_pages _ _ _ _ _ _ _ Ht) as [Hh _].
  unfold insert. eapply ok_bind.
  { apply (insert_recursive_ok h s fuel root None None L P new Ht (within_none _) Hty Hr Hal); [|lia].
    eapply addressable_le; [exact Hroom|lia]. }
  intros r s1 (L' & P' & Hts & [Hx Hxl _] & Htc). pose proof (touched_allotted _ _ _ _ _ Htc Hal) as Hal1.
  destruct r as [[sep rid]|]; cbn [separator right_page_id].
  2: { exists h, L', P'. split; [by split; [|split; [apply Hxl|apply Hal1]]|]. split; [done|].
       split; [eapply touched_weaken; [exact Htc|lia]|by left]. }
  destruct Hts as (_ & Hkt & La & Lb & Pa & Pb & -> & -> & Ht1 & Ht2).
  eapply ok_bind; [apply allocate_ok, Htc|]. intros top s2 (-> & Hnx & Hro).
  assert (Hfo : forest (tree_at h (bt_view s1)) None None [sep] [root; rid] (La ++ Lb) (Pa ++ Pb))
    by (constructor; [apply within_none|done|done|by constructor]).
  assert (Hat : addressable (bt_next s1))
    by (eapply addressable_le; [exact Hroom|]; pose proof (t_next _ _ _ _ _ Htc); lia).
  eapply ok_bind; [apply store_node_ok; [apply Hro|done|by eapply internal_typed]|]. intros [] s3 Hst.
  assert (Htc3 : touched (N.of_nat h + 2) s s3 P (bt_next s1 :: Pa ++ Pb)).
  { eapply touched_weaken; [eapply touched_trans; [eapply touched_trans; [exact Htc|by apply touched_allocate]|]|].
    - eapply stored_touched; [exact Hst|]. by left.
    - lia. }
  exists (Datatypes.S h), (La ++ Lb), (bt_next s1 :: Pa ++ Pb).
  split; [|split; [done|split; [done|right; apply (t_next _ _ _ _ _ Htc)]]].
  split; [|split; [by apply Hxl|apply (touched_allotted _ _ _ _ _ Htc3 Hal)]].
  apply (internal_tree _ _ _ _ _ [sep] [root; rid]); [done|apply Hst| |done].
  eapply forest_tree_ext; [|exact Hfo]. intros i Hi.
  destruct Hst as (_ & Hv & _). rewrite Hv; [by apply Hro|]. intros ->.
  destruct Hal1 as [_ Hlt]. pose proof (proj1 (Forall_forall _ _) Hlt _ Hi). simpl in *. lia.
Qed.

(** A new index is an empty leaf. *)
Lemma initialize_root_ok s root :
  bt_ready s -> addressable root ->
  ok_or_user_st (initialize_root root s) (fun _ s' =>
    btree 0 (bt_view s') root [mkTleaf root None []] [root] /\ stored root (Leaf None []) s s').
Proof.
  intros Hr Ha. eapply ok_mono; [apply store_node_ok; [done|done|by split]|].
  intros [] s' Hst. split; [|exact Hst]. split; [|split; [by split|apply NoDup_singleton]].
  apply leaf_tree; [done|apply Hst|constructor..| |]; done.
Qed.
End Inserts.
