(* ===== verification/TxIndex.v ===== *)
(** * TxIndex: index relations of a transaction and of the committed store

    [create_index], [insert_index_entry] and [lookup_index] of crate [rdbms_tx],
    with the two page stores the B+tree works on.  The fuel of the B+tree
    algorithms is the number of page ids handed out so far, which is at least the
    number of pages of any tree. *)

From S2P Require Import Prelude Core Bytes Page Vfs Wal Catalog Heap CatalogStore Tx Index.

Section TxIndex.
Context {F : Type} `{VfsFile F}.

(** [TransactionIndexPageStore]. *)
#[export] Instance tx_index_pages : BPlusTreePageStore (Transaction F) := {
  bt_load_page := tx_load_page;
  bt_store_page page :=
    let! h := lift (header page) in
    dirty_insert (h_page_id h) page;
  bt_allocate_page := on_working_catalog allocate_page_id
}.

(** [CommittedIndexPageStore]. *)
#[export] Instance committed_index_pages : BPlusTreePageStore (CatalogStore F) := {
  bt_load_page id := CatalogStore.on_file (read_page id);
  bt_store_page _ := throw (InternalInvariant "read-only index page store cannot write pages");
  bt_allocate_page := throw (InternalInvariant "read-only index page store cannot allocate pages")
}.

Definition unknown_index (index_relation_id : RelationId) : DbError :=
  User ("unknown index relation id: " +:+ pretty index_relation_id).

(** The root page of an index relation. *)
Definition index_root (index_relation_id : RelationId) (c : Catalog) : DbResult PageId :=
  let? s := ok_or (r ← relation_by_id index_relation_id c; index_storage r)
              (unknown_index index_relation_id) in
  Ok (root_page_id s).

Definition tree_fuel (c : Catalog) : nat := N.to_nat (next_page_id c).

Definition create_index (name : string) (table : RelationId) (column : string)
  : db (Transaction F) (RelationId * PageId) :=
  let! _ := ensure_active in
  let! (index_relation_id, root) := on_working_catalog (create_index_metadata name table column) in
  let! _ := initialize_root root in
  let! _ := mark_catalog_dirty in
  ret (index_relation_id, root).

Definition insert_index_entry (index_relation_id : RelationId) (k : IndexKey) (r : RowId)
  : db (Transaction F) unit :=
  let! _ := ensure_active in
  let! c := gets working_catalog in
  let! root := lift (index_root index_relation_id c) in
  let! new_root := Index.insert (tree_fuel c) root k r in
  let! _ := (if negb (new_root =? root)
             then on_working_catalog (set_index_root_page index_relation_id new_root)
             else ret tt) in
  mark_catalog_dirty.

Definition lookup_index (index_relation_id : RelationId) (k : IndexKey)
  : db (TransactionalStore F) (list RowId) :=
  let! c := gets (fun m => catalog (store m)) in
  let! root := lift (index_root index_relation_id c) in
  zoom store with_store (lookup (tree_fuel c) root k).
End TxIndex.
