(* ===== verification/TxIndexFacts.v ===== *)
(** * TxIndexFacts: the two index page stores, and indexes next to the tables *)

From stdpp Require Import sorting.
From S2P Require Import Prelude Core Bytes Page PageFacts PageOps Vfs VfsFacts PageStore Wal WalFacts WalStream WalTheorems Recovery RecoveryFacts Catalog CatalogFacts CatalogWf CatalogTheorems Heap HeapDb CatalogStore CatalogStoreFacts CatalogStoreTheorems Tx TxFacts TxCommit TxTheorems Index IndexFacts IndexTree IndexReads IndexInsert TxIndex.

(** ** The page stores keep the laws *)

(** What index operations leave of a transaction: only page ids are taken. *)
Record index_stable {F} `{VfsLaws F} (t t' : Transaction F) : Prop := {
  is_manager : same_manager (manager t) (manager t');
  is_id : tx_id t' = tx_id t;
  is_state : state t' = state t;
  is_catalog : exists n, working_catalog t' = with_next_page n (working_catalog t)
}.

#[export] Instance index_stable_preorder {F} `{VfsLaws F} : PreOrder (index_stable (F := F)).
Proof.
  split.
  - intros t. split; [done..|]. exists (next_page_id (working_catalog t)). by destruct (working_catalog t).
  - intros t1 t2 t3 [Hm1 Hi1 Hs1 (n1 & Hc1)] [Hm2 Hi2 Hs2 (n2 & Hc2)].
    split; [by etrans|congruence|congruence|]. exists n2. by rewrite Hc2, Hc1.
Qed.

#[export] Instance tx_index_read_laws {F} `{VfsLaws F} : IndexReadLaws (Transaction F).
Proof.
  refine {| bt_view := view (S := Transaction F); bt_ready := ready (S := Transaction F);
            bt_stable := index_stable |}.
  intros t id p Hr Ha Hp. destruct (load_law t id p Hr Ha Hp) as (t' & Hl & Hr' & Hv & [Hm Hi Hc Hs]).
  exists t'. split; [exact Hl|]. split; [done|]. split; [done|]. split; [done..|].
  exists (next_page_id (working_catalog t)). rewrite Hc. by destruct (working_catalog t).
Defined.

#[export] Instance tx_index_store_laws {F} `{VfsLaws F} : IndexStoreLaws (Transaction F).
Proof.
  refine {| bt_next := fun t => next_page_id (working_catalog t) |}.
  - intros t id. cbn [bt_load_page tx_index_pages]. unfold tx_load_page, bind_st, gets.
    destruct (btree_get id (dirty_pages t)); [done|].
    unfold on_store, zoom. by destruct (CatalogStore.on_file _ _).
  - intros t id p Hr Ha Hv. pose proof Hv as (_ & _ & h & Hh & Hid).
    destruct (put_law t id p Hr Ha Hv) as (t' & Hp & Hr' & Hv' & [Hm Hi Hc Hs]).
    exists t'. cbn [bt_store_page tx_index_pages]. unfold bind_st, lift. rewrite Hh, Hid.
    split; [exact Hp|]. split; [done|]. split; [done|]. split; [|by cbn; rewrite Hc].
    split; [done..|]. exists (next_page_id (working_catalog t)). rewrite Hc. by destruct (working_catalog t).
  - intros t Hr. cbn [bt_allocate_page tx_index_pages]. unfold on_working_catalog, zoom, allocate_page_id.
    destruct (checked_add U64_MAX (next_page_id (working_catalog t)) 1) as [n|] eqn:Hn; [|done].
    apply checked_add_Some in Hn as [-> _]. split; [done|]. split; [done|]. split; [exact Hr|].
    split; [done|]. split; [done..|]. by eexists.
Defined.

#[export] Instance committed_index_read_laws {F} `{VfsLaws F} : IndexReadLaws (CatalogStore F).
Proof.
  refine {| bt_view s := view (page_file s); bt_ready s := ready (page_file s);
            bt_stable s s' := catalog s' = catalog s /\ contents (page_file s') = contents (page_file s) |}.
  - split; [done|]. intros s1 s2 s3 [] []. split; congruence.
  - intros s id p Hr Ha Hp. cbn [bt_load_page committed_index_pages].
    destruct (load_law (page_file s) id p Hr Ha Hp) as (f' & Hl & Hr' & Hv & _).
    cbn [load_page file_access] in Hl. unfold CatalogStore.on_file, zoom. rewrite Hl.
    apply read_page_spec in Hl as (Hc & _).
    exists (mkCatalogStore f' (catalog s)). split; [done|]. split; [done|]. done.
Defined.

(** ** Index relations *)

(** The index relation [idx] is the B+tree with pages [P] that holds [es]; its
    pages are allocated and belong to no table. *)
Record index_rep (c : Catalog) (v : PageId -> option Page) (idx : RelationId) (P : list PageId)
    (es : list IndexEntry) : Prop := {
  ir_tree : exists r s h L, relation_by_id idx c = Some r /\ storage r = BPlusTree s
    /\ btree h v (root_page_id s) L P /\ es = ents L;
  ir_range : Forall (fun i => 1 <= i < next_page_id c) P;
  ir_tables : forall r i, r ∈ relations c -> rel_kind r = Table -> i ∈ P -> i ∉ rel_heap_pages r
}.

Lemma index_rep_nodup c v idx P es : index_rep c v idx P es -> NoDup P.
Proof. intros [(r & s & h & L & _ & _ & (_ & _ & Hnd) & _) _ _]. done. Qed.

Lemma pages_below (P : list PageId) n : NoDup P -> Forall (fun i => 1 <= i < n) P -> (length P <= N.to_nat n)%nat.
Proof.
  intros Hnd Hf. rewrite <- (range_length n). apply submseteq_length. apply NoDup_submseteq; [done|].
  intros i Hi. apply elem_of_range. rewrite Forall_forall in Hf. specialize (Hf i Hi). lia.
Qed.

Lemma btree_ext h v v' root L P : (forall i, i ∈ P -> v' i = v i) -> btree h v root L P -> btree h v' root L P.
Proof. intros Hv (Ht & Hl & Hn). split; [by apply (tree_ext h v)|done]. Qed.

Lemma index_rep_ext c v v' idx P es :
  (forall i, i ∈ P -> v' i = v i) -> index_rep c v idx P es -> index_rep c v' idx P es.
Proof.
  intros Hv [(r & s & h & L & Hr & Hs & Hb & He) Hrng Ht]. split; [|done..].
  exists r, s, h, L. split; [done|]. split; [done|]. split; [by apply (btree_ext h v)|done].
Qed.

Lemma index_root_run c v idx P es :
  index_rep c v idx P es ->
  exists root h L, index_root idx c = Ok root /\ btree h v root L P /\ es = ents L.
Proof.
  intros [(r & s & h & L & Hr & Hs & Hb & He) _ _]. exists (root_page_id s), h, L. split; [|done].
  unfold index_root. rewrite Hr. cbn. unfold index_storage. by rewrite Hs.
Qed.

(** ** Lookup *)

Section Lookup.
Context {F : Type} `{VfsLaws F}.

Lemma lookup_index_run (m : TransactionalStore F) idx P es k :
  ready (data m) -> index_rep (catalog (store m)) (view (data m)) idx P es ->
  exists m', lookup_index idx k m = (Ok (matches k es), m') /\ same_manager m m' /\ ready (data m').
Proof.
  intros Hr Hi. destruct (index_root_run _ _ _ _ _ Hi) as (root & h & L & Hroot & Hb & ->).
  unfold lookup_index, bind_st, gets, lift. rewrite Hroot. unfold zoom.
  pose proof (pages_below P _ (index_rep_nodup _ _ _ _ _ Hi) (ir_range _ _ _ _ _ Hi)) as Hl.
  destruct (lookup_spec (H0 := committed_index_read_laws) h (store m) (tree_fuel (catalog (store m))) root L P k Hb Hr Hl)
    as (s' & Hrun & Hr' & _ & Hcat & Hcont).
  rewrite Hrun. exists (with_store s' m). split; [done|]. split; [split; try done; intros _; apply Hr'|done].
Qed.

(** An absent index is a user error, whatever the pages hold. *)
Lemma lookup_index_unknown (m : TransactionalStore F) idx k :
  (forall r, relation_by_id idx (catalog (store m)) = Some r -> index_storage r = None) ->
  lookup_index idx k m = (Err (unknown_index idx), m).
Proof.
  intros Hn. unfold lookup_index, bind_st, gets, lift, index_root.
  destruct (relation_by_id idx (catalog (store m))) as [r|]; [|done]. cbn. by rewrite (Hn r).
Qed.
End Lookup.

(** ** Moving the root *)

Lemma set_index_root_run c idx root r s :
  catalog_wf c -> relation_by_id idx c = Some r -> storage r = BPlusTree s ->
  exists c', set_index_root_page idx root c = (Ok tt, c')
    /\ relation_by_id idx c'
       = Some (with_storage (BPlusTree (mkIndexStorage (table_id s) (column_name s) root)) r)
    /\ next_page_id c' = next_page_id c
    /\ (forall r', r' ∈ relations c' -> rel_kind r' = Table -> r' ∈ relations c)
    /\ (forall idx', idx' <> idx -> relation_by_id idx' c' = relation_by_id idx' c)
    /\ schema c' = schema c.
Proof.
  intros Hc Hr Hs. pose proof (relation_by_id_Some _ _ _ Hr) as [Hin Hid].
  pose proof (wf_shape _ Hc) as Hsh. rewrite Forall_forall in Hsh. specialize (Hsh r Hin).
  unfold relation_shape in Hsh. rewrite Hs in Hsh. destruct (rel_kind r) eqn:Hk; try done.
  unfold relation_by_id in Hr. unfold set_index_root_page, bind_st, gets.
  destruct (find_relation idx c) as [[i x]|] eqn:Hf; [|done]. injection Hr as ->.
  rewrite (bool_decide_true (rel_kind r = Index)) by done. cbn [negb]. rewrite Hs. eexists. split; [done|].
  unfold relation_by_id, find_relation in *. cbn [with_relations relations].
  pose proof (find_first_Some _ _ _ _ Hf) as [Hi _].
  split; [|split; [done|split]].
  - erewrite find_first_insert_same; [done|exact Hf|]. by apply N.eqb_eq.
  - intros r' Hr' Hk'. apply list_elem_of_lookup in Hr' as [j Hj].
    apply list_lookup_insert_Some in Hj as [(_ & <- & _)|[_ Hj]]; [by cbn in Hk'; rewrite Hk in Hk'|].
    by eapply list_elem_of_lookup_2.
  - split; [intros idx' Hne; apply find_first_insert_other with r; [done|apply N.eqb_neq..]; cbn; congruence|].
    apply (schema_replace c i r); [done|]. unfold rel_schema, index_storage. cbn. by rewrite Hs.
Qed.

(** ** Tables and indexes side by side *)

Lemma with_next_page_wf c n :
  catalog_wf c -> next_page_id c <= n -> n <= U64_MAX -> catalog_wf (with_next_page n c).
Proof.
  intros [[? ? ? ?] ? ? ? ? ? Hr ? ? ?] Hle Hmax.
  split; try done; cbn [with_next_page next_page_id]; [lia|].
  intros Ho. eapply Forall_impl; [exact (Hr Ho)|]. simpl. intros. lia.
Qed.

(** Page writes away from the tables, more page ids, and another root for an
    index leave the tables as they are. *)
Lemma heap_db_index c c' v v' T :
  heap_db c v T -> catalog_wf c' ->
  (forall r, r ∈ relations c' -> rel_kind r = Table -> r ∈ relations c) ->
  (forall r i, r ∈ relations c -> rel_kind r = Table -> i ∈ rel_heap_pages r -> v' i = v i) ->
  heap_db c' v' T.
Proof.
  intros [_ Ht] Hwf Hrel Hv. split; [done|]. intros r Hr Hk. pose proof (Hrel r Hr Hk) as Hr0.
  apply (table_rep_ext v); [|by apply Ht]. intros i. by apply Hv.
Qed.

Lemma tree_root_in h v id lo hi L P : tree_at h v id lo hi L P -> id ∈ P.
Proof.
  destruct h; intros [_ Ht].
  - destruct Ht as (? & ? & _ & _ & -> & _). by left.
  - destruct Ht as (? & ? & P' & _ & -> & _). by left.
Qed.

(** ** Index operations of a transaction touch no committed state *)

Section Isolation.
Context {F : Type} `{VfsLaws F}.

Lemma isolated_load_node id : isolated (load_node (S := Transaction F) id).
Proof. unfold load_node. cbn [bt_load_page tx_index_pages]. auto with isolated. Qed.
Lemma isolated_store_node id n : isolated (store_node (S := Transaction F) id n).
Proof. unfold store_node. cbn [bt_store_page tx_index_pages]. auto with isolated. Qed.
Lemma isolated_allocate : isolated (bt_allocate_page (S := Transaction F)).
Proof. cbn [bt_allocate_page tx_index_pages]. auto with isolated. Qed.
End Isolation.

#[export] Hint Resolve isolated_load_node isolated_store_node isolated_allocate : isolated.

Section IsolatedIndex.
Context {F : Type} `{VfsLaws F}.

Lemma isolated_in_leaf id next es k r : isolated (insert_in_leaf (S := Transaction F) id next es k r).
Proof.
  unfold insert_in_leaf. apply isolated_bind; [auto with isolated|]. intros es'.
  apply isolated_if; [auto with isolated|]. apply isolated_bind; [auto with isolated|]. intros rid.
  apply isolated_bind; [auto with isolated|]. intros [l1 l2]. auto 10 with isolated.
Qed.

Lemma isolated_separator id ks cs i sp : isolated (insert_separator (S := Transaction F) id ks cs i sp).
Proof.
  unfold insert_separator. apply isolated_bind; [auto with isolated|]. intros ks'.
  apply isolated_bind; [auto with isolated|]. intros cs'. apply isolated_if; [auto with isolated|].
  apply isolated_bind; [auto with isolated|]. intros sep.
  apply isolated_bind; [auto with isolated|]. intros [k1 k2].
  apply isolated_bind; [auto with isolated|]. intros [c1 c2]. auto 10 with isolated.
Qed.

Lemma isolated_recursive fuel : forall id k r, isolated (insert_recursive (S := Transaction F) fuel id k r).
Proof.
  induction fuel as [|fuel IH]; intros id k r; cbn [insert_recursive]; [auto with isolated|].
  apply isolated_bind; [auto with isolated|]. intros [next es|ks cs]; [apply isolated_in_leaf|].
  apply isolated_bind; [auto with isolated|]. intros _. apply isolated_bind; [auto with isolated|]. intros c.
  apply isolated_bind; [apply IH|]. intros [sp|]; [apply isolated_separator|auto with isolated].
Qed.

Lemma isolated_index_insert fuel root k r : isolated (Index.insert (S := Transaction F) fuel root k r).
Proof.
  unfold Index.insert. apply isolated_bind; [apply isolated_recursive|]. intros [sp|]; auto 10 with isolated.
Qed.

Lemma isolated_insert_index_entry idx k r : isolated (insert_index_entry (F := F) idx k r).
Proof.
  unfold insert_index_entry. apply isolated_bind; [auto with isolated|]. intros _.
  apply isolated_bind; [auto with isolated|]. intros c. apply isolated_bind; [auto with isolated|]. intros root.
  apply isolated_bind; [apply isolated_index_insert|]. intros root'. auto 10 with isolated.
Qed.

Lemma isolated_create_index name table column : isolated (create_index (F := F) name table column).
Proof.
  unfold create_index. apply isolated_bind; [auto with isolated|]. intros _.
  apply isolated_bind; [auto with isolated|]. intros [idx root]. unfold initialize_root. auto 10 with isolated.
Qed.
End IsolatedIndex.

#[export] Hint Resolve isolated_insert_index_entry isolated_create_index : isolated.

(** ** Inserting an entry *)

Lemma index_rep_other c c' v v' idx P es :
  index_rep c v idx P es -> relation_by_id idx c' = relation_by_id idx c ->
  next_page_id c <= next_page_id c' ->
  (forall r, r ∈ relations c' -> rel_kind r = Table -> r ∈ relations c) ->
  (forall i, i ∈ P -> v' i = v i) -> index_rep c' v' idx P es.
Proof.
  intros Hi Hr Hn Hrel Hv. destruct (index_rep_ext _ _ _ _ _ _ Hv Hi) as [Ht Hrng Htab].
  split; [by rewrite Hr| |].
  - eapply Forall_impl; [exact Hrng|]. simpl. lia.
  - intros r i Hr' Hk. apply Htab; auto.
Qed.

(** What an index operation leaves: the same tables, the index [idx] on the
    pages [P'] with the entries [es'], every other index as it was. *)
Record index_changed {F} `{VfsLaws F} (t t' : Transaction F) (T T' : RelationId -> table)
    (ks : list WalRecordKind) (idx : RelationId) (P P' : list PageId) (es' : list IndexEntry) : Prop := {
  ic_rep : transaction_rep t' T T' ks;
  ic_index : index_rep (working_catalog t') (view t') idx P' es';
  ic_others : forall idx' Q fs,
    index_rep (working_catalog t) (view t) idx' Q fs -> idx' <> idx ->
    (forall i, i ∈ Q -> i ∉ P) ->
    index_rep (working_catalog t') (view t') idx' Q fs /\ forall i, i ∈ Q -> i ∉ P'
}.

Section InsertEntry.
Context {F : Type} `{VfsLaws F}.
Implicit Types (t : Transaction F).

(** The grown tree lies on allocated pages of no table. *)
Lemma grown_pages t t1 T T' ks n P P' :
  transaction_rep t T T' ks -> touched n t t1 P P' ->
  Forall (fun i => 1 <= i < next_page_id (working_catalog t)) P ->
  (forall r i, r ∈ relations (working_catalog t) -> rel_kind r = Table -> i ∈ P -> i ∉ rel_heap_pages r) ->
  Forall (fun i => 1 <= i < next_page_id (working_catalog t1)) P'
  /\ (forall r i, r ∈ relations (working_catalog t) -> rel_kind r = Table -> i ∈ rel_heap_pages r -> i ∉ P').
Proof.
  intros Ht [_ _ _ (Fr & HP & _ & HF) Hn] Hrng Htab. pose proof (hd_wf _ _ _ (tr_db _ _ _ _ Ht)) as Hwf.
  cbn [bt_next tx_index_store_laws] in *. split.
  - rewrite HP. pose proof (wf_next_page _ Hwf) as H1. apply Forall_app. split.
    + eapply Forall_impl; [exact HF|]. simpl. lia.
    + eapply Forall_impl; [exact Hrng|]. simpl. lia.
  - intros r i Hin Hk Hip Hi. rewrite HP in Hi. apply elem_of_app in Hi as [Hi|Hi]; [|by apply (Htab r i)].
    rewrite Forall_forall in HF. specialize (HF i Hi).
    destruct (table_pages _ r Hwf Hin Hk) as (ps & _ & Hh & Hrp). rewrite Hh, <- Hrp in Hip.
    pose proof (table_page_range _ r i Hwf Hin Hip). cbn beta in HF. lia.
Qed.

Lemma ensure_active_run t : state t = Active -> ensure_active t = (Ok tt, t).
Proof. intros Ha. unfold ensure_active. by rewrite bool_decide_true. Qed.

(** The catalog after the tree has grown to [P'] with root [root']. *)
Lemma move_root_run t t1 T T' ks idx P P' es root root' h' L' n :
  transaction_rep t T T' ks -> index_rep (working_catalog t) (view t) idx P es ->
  index_root idx (working_catalog t) = Ok root ->
  touched n t t1 P P' -> btree h' (view t1) root' L' P' ->
  root' = root \/ next_page_id (working_catalog t) <= root' ->
  next_page_id (working_catalog t) + n <= U64_MAX ->
  exists c, (if negb (root' =? root) then on_working_catalog (set_index_root_page idx root') else ret tt) t1
            = (Ok tt, with_catalog c t1)
    /\ heap_db c (view t1) T' /\ index_rep c (view t1) idx P' (ents L')
    /\ next_page_id (working_catalog t) <= next_page_id c <= next_page_id (working_catalog t) + n
    /\ (forall r, r ∈ relations c -> rel_kind r = Table -> r ∈ relations (working_catalog t))
    /\ (forall idx', idx' <> idx -> relation_by_id idx' c = relation_by_id idx' (working_catalog t))
    /\ schema c = schema (working_catalog t).
Proof.
  intros Ht Hi Hroot Htc Hb Hr' Hmax. pose proof (tr_db _ _ _ _ Ht) as Hdb.
  destruct Hi as [(r & s & h & L & Hr & Hs & Hb0 & He) Hrng Htab].
  assert (root = root_page_id s) as ->.
  { unfold index_root, index_storage in Hroot. rewrite Hr in Hroot. cbn in Hroot. rewrite Hs in Hroot. by injection Hroot. }
  destruct (grown_pages _ _ _ _ _ _ _ _ Ht Htc Hrng Htab) as [Hrange Hrel1].
  destruct Htc as [Hrd [Hm Hid Hst (m & Hc1)] Hfr _ Hn].
  cbn [bt_next tx_index_store_laws] in *. set (c0 := working_catalog t) in *.
  assert (Hm2 : next_page_id (working_catalog t1) = m) by (by rewrite Hc1). rewrite Hm2 in *.
  pose proof (with_next_page_wf c0 m (hd_wf _ _ _ Hdb) ltac:(lia) ltac:(lia)) as Hwf1. rewrite <- Hc1 in Hwf1.
  assert (Hdb' : forall c, catalog_wf c ->
            (forall r, r ∈ relations c -> rel_kind r = Table -> r ∈ relations c0) -> heap_db c (view t1) T').
  { intros c Hw Hrel. apply (heap_db_index c0 c (view t)); [done|done|done|].
    intros r0 i Hin Hk Hip. apply Hfr. by eapply Hrel1. }
  assert (Hrel0 : relations (working_catalog t1) = relations c0) by by rewrite Hc1.
  destruct (root' =? root_page_id s) eqn:Heq; reflect_bool; cbn [negb].
  - exists (working_catalog t1). subst root'. split; [by destruct t1|].
    split; [apply Hdb'; [done|by rewrite Hrel0]|]. split; [|split; [lia|split; [by rewrite Hrel0|split; [|unfold schema; by rewrite Hrel0]]]].
    + split; [|by rewrite Hm2|rewrite Hrel0; intros r0 i Hin Hk Hip Hh; by eapply Hrel1].
      exists r, s, h', L'. split; [|by split]. unfold relation_by_id, find_relation in *. by rewrite Hrel0.
    + intros idx' _. unfold relation_by_id, find_relation. by rewrite Hrel0.
  - destruct Hr' as [?|Hge]; [done|].
    assert (Hr1 : relation_by_id idx (working_catalog t1) = Some r)
      by (unfold relation_by_id, find_relation in *; by rewrite Hrel0).
    assert (Hfp : fresh_page root' (working_catalog t1)).
    { rewrite Forall_forall in Hrange. pose proof (Hrange root' (tree_root_in _ _ _ _ _ _ _ (proj1 Hb))) as Hrr.
      split; [by rewrite Hm2|]. unfold catalog_pages. rewrite Hrel0. intros Hin.
      pose proof (wf_page_range _ (hd_wf _ _ _ Hdb)) as Hpr. rewrite Forall_forall in Hpr.
      apply Hpr in Hin. fold c0 in Hin. lia. }
    destruct (set_index_root_run _ idx root' r s Hwf1 Hr1 Hs) as (c & Hrun & Hrc & Hnc & Hrelc & Hoth & Hsc).
    pose proof (set_index_root_page_wf idx root' _ Hwf1 (fresh_attachable _ _ Hwf1 Hfp)) as Hwf2. rewrite Hrun in Hwf2. cbn [snd] in Hwf2.
    rewrite Hm2 in Hnc. rewrite Hrel0 in Hrelc.
    exists c. split; [unfold on_working_catalog, zoom; by rewrite Hrun|]. split; [by apply Hdb'|].
    split; [|split; [lia|split; [done|split; [|rewrite Hsc; unfold schema; by rewrite Hrel0]]]].
    + split; [|by rewrite Hnc|intros r0 i Hin Hk Hip Hh; eapply Hrel1; [by apply Hrelc|done|done|done]].
      eexists _, _, h', L'. split; [exact Hrc|]. split; [done|]. by split.
    + intros idx' Hne. rewrite Hoth by done. unfold relation_by_id, find_relation. by rewrite Hrel0.
Qed.

(** The room that is needed is a page per level and one more. *)
Lemma insert_index_entry_tree t T T' ks idx P root h L k r :
  transaction_rep t T T' ks -> index_rep (working_catalog t) (view t) idx P (ents L) ->
  index_root idx (working_catalog t) = Ok root -> btree h (view t) root L P ->
  entry_typed (mkIndexEntry k r) -> addressable (next_page_id (working_catalog t) + N.of_nat h + 1) ->
  ok_or_user_st (insert_index_entry idx k r t) (fun _ t' =>
    exists P' es', index_changed t t' T T' ks idx P P' es' /\ es' ≡ₚ mkIndexEntry k r :: ents L
      /\ schema (working_catalog t') = schema (working_catalog t)
      /\ next_page_id (working_catalog t) <= next_page_id (working_catalog t')
         <= next_page_id (working_catalog t) + (N.of_nat h + 2)).
Proof.
  intros Ht Hi Hroot Hb Hty Hroom.
  pose proof (index_rep_nodup _ _ _ _ _ Hi) as Hnd. pose proof (ir_range _ _ _ _ _ Hi) as Hrng.
  pose proof (tree_pages _ _ _ _ _ _ _ (proj1 Hb)) as [Hh _].
  assert (Hal : allotted t P) by (split; [done|eapply Forall_impl; [exact Hrng|]; simpl; lia]).
  unfold insert_index_entry. eapply ok_run; [by apply ensure_active_run, Ht|].
  eapply ok_run; [done|]. eapply ok_lift; [exact Hroot|]. eapply ok_bind.
  { apply (insert_ok (H1 := tx_index_store_laws) h t _ root L P (mkIndexEntry k r) Hb (tr_ready _ _ _ _ Ht) Hal Hty);
      [exact Hroom|exact (pages_below _ _ Hnd Hrng)]. }
  intros root' t1 (h' & L' & P' & Hb' & He & Htc & Hr').
  destruct (move_root_run t t1 T T' ks idx P P' _ root root' h' L' _ Ht Hi Hroot Htc Hb' Hr')
    as (c & Hrun & Hdb2 & Hidx & Hnc & Hrel & Hoth & Hsc).
  { cbn [bt_next] in *. unfold addressable, U64_MAX, PAGE_SIZE in *. lia. }
  eapply ok_run; [exact Hrun|]. destruct Htc as [Hrd [Hm Hid Hst Hc1] Hfr (Fr & HP & _ & HF) _].
  pose proof (stage_catalog t (with_catalog c t1) T T' T' ks Ht Hm Hrd Hid Hst Hdb2) as Hstage.
  destruct (mark_catalog_dirty (with_catalog c t1)) as [[[]|[]|] t'] eqn:Hmark; try done.
  destruct Hstage as [Hrep Hcat]. exists P', (ents L'). cbn [working_catalog with_catalog] in Hcat.
  split; [|rewrite Hcat; split; [exact He|split; [exact Hsc|lia]]].
  assert (Hv : forall i, 1 <= i -> view t' i = view t1 i).
  { intros i Hi1. apply (mark_catalog_dirty_view _ _ _ Hmark). unfold CATALOG_PAGE_ID. lia. }
  split; [done| |].
  - rewrite Hcat. apply (index_rep_ext _ (view t1)); [|done]. intros i Hi'. apply Hv.
    pose proof (ir_range _ _ _ _ _ Hidx) as Hr2. rewrite Forall_forall in Hr2. specialize (Hr2 i Hi'). cbn in Hr2. lia.
  - intros idx' Q fs Hq Hne Hdis. pose proof (ir_range _ _ _ _ _ Hq) as Hqr. rewrite Forall_forall in Hqr.
    assert (Hdis' : forall i, i ∈ Q -> i ∉ P').
    { intros i Hiq Hip. rewrite HP in Hip. apply elem_of_app in Hip as [Hip|Hip]; [|by apply (Hdis i)].
      rewrite Forall_forall in HF. specialize (HF i Hip). specialize (Hqr i Hiq). cbn in HF, Hqr. lia. }
    split; [|done]. rewrite Hcat. eapply index_rep_other; [exact Hq|by apply Hoth|lia|done|].
    intros i Hiq. specialize (Hqr i Hiq). rewrite Hv by (cbn in Hqr; lia). apply Hfr. by apply Hdis'.
Qed.

Lemma insert_index_entry_ok t T T' ks idx P es k r :
  transaction_rep t T T' ks -> index_rep (working_catalog t) (view t) idx P es ->
  entry_typed (mkIndexEntry k r) -> addressable (next_page_id (working_catalog t) + len P) ->
  ok_or_user_st (insert_index_entry idx k r t) (fun _ t' =>
    exists P' es', index_changed t t' T T' ks idx P P' es' /\ es' ≡ₚ mkIndexEntry k r :: es).
Proof.
  intros Ht Hi Hty Hroom. destruct (index_root_run _ _ _ _ _ Hi) as (root & h & L & Hroot & Hb & ->).
  pose proof (tree_pages _ _ _ _ _ _ _ (proj1 Hb)) as [Hh _].
  eapply ok_mono; [apply (insert_index_entry_tree t T T' ks idx P root h L k r Ht Hi Hroot Hb Hty)|].
  - eapply addressable_le; [exact Hroom|]. lia.
  - intros ? t' (P' & es' & Hc & He & _). by exists P', es'.
Qed.

(** A tree on addressable pages has a height below 64. *)
Lemma index_height c v idx P es root h L :
  index_rep c v idx P es -> btree h v root L P -> addressable (next_page_id c) -> (h <= 52)%nat.
Proof.
  intros Hi Hb Ha. pose proof (pages_below _ _ (index_rep_nodup _ _ _ _ _ Hi) (ir_range _ _ _ _ _ Hi)) as Hp.
  pose proof (tree_pages _ _ _ _ _ _ _ (proj1 Hb)) as [_ HL].
  pose proof (tree_leaf_count _ _ _ _ _ _ _ (proj1 Hb)) as Hc.
  destruct (Nat.le_gt_cases h 52) as [?|Hgt]; [done|exfalso].
  assert (Hpow : (2 ^ 53 <= 2 ^ h)%nat) by (apply Nat.pow_le_mono_r; lia).
  assert (Hbig : 2 ^ 53 <= next_page_id c).
  { apply (N.le_trans _ (N.of_nat (2 ^ h))); [|lia]. rewrite Nat2N.inj_pow. apply N.pow_le_mono_r; lia. }
  unfold addressable, U64_MAX, PAGE_SIZE in Ha. lia.
Qed.

Lemma insert_index_entry_room t T T' ks idx P es k r :
  transaction_rep t T T' ks -> index_rep (working_catalog t) (view t) idx P es ->
  entry_typed (mkIndexEntry k r) -> addressable (next_page_id (working_catalog t) + 64) ->
  ok_or_user_st (insert_index_entry idx k r t) (fun _ t' =>
    exists P' es', index_changed t t' T T' ks idx P P' es' /\ es' ≡ₚ mkIndexEntry k r :: es
      /\ schema (working_catalog t') = schema (working_catalog t)
      /\ next_page_id (working_catalog t) <= next_page_id (working_catalog t')
         <= next_page_id (working_catalog t) + 64).
Proof.
  intros Ht Hi Hty Hroom. destruct (index_root_run _ _ _ _ _ Hi) as (root & h & L & Hroot & Hb & ->).
  assert (Hh : (h <= 52)%nat).
  { eapply index_height; [exact Hi|exact Hb|]. eapply addressable_le; [exact Hroom|lia]. }
  eapply ok_mono; [apply (insert_index_entry_tree t T T' ks idx P root h L k r Ht Hi Hroot Hb Hty)|].
  - eapply addressable_le; [exact Hroom|]. lia.
  - intros ? t' (P' & es' & Hc & He & Hs & Hn). exists P', es'. split; [done|split; [done|split; [done|lia]]].
Qed.

Lemma ok_or_user_isolated {A} (m : db (Transaction F) A) t Q :
  isolated m -> ok_or_user_st (m t) Q ->
  match m t with
  | (Ok a, t') => Q a t'
  | (Err (User _), t') => same_manager (manager t) (manager t')
  | _ => False
  end.
Proof. intros Hm. destruct (Hm t) as [Hs _]. by destruct (m t) as [[a|[]|] t']. Qed.
End InsertEntry.

(** ** Creating an index *)

Lemma only_user_create_index name table column : only_user (create_index_metadata name table column).
Proof.
  unfold create_index_metadata. apply only_user_bind; [apply only_user_lift, validate_name_ok_or_user|]. intros _.
  apply only_user_bind; [apply only_user_lift, validate_name_ok_or_user|]. intros _.
  apply only_user_bind; [apply only_user_gets|]. intros [old|]; [apply only_user_throw|].
  apply only_user_bind; [apply only_user_gets|]. intros found.
  apply only_user_bind; [apply only_user_lift; by destruct found|]. intros r.
  repeat (apply only_user_if; [apply only_user_throw|]).
  apply only_user_bind; [apply only_user_gets|]. intros indexes. apply only_user_if; [apply only_user_throw|].
  apply only_user_bind; [apply only_user_allocate_relation|]. intros id.
  apply only_user_bind; [apply only_user_allocate_page|]. intros p.
  apply only_user_bind; [apply only_user_modify|]. intros _. apply only_user_ret.
Qed.

Lemma create_index_metadata_run c name table column id p c' :
  create_index_metadata name table column c = (Ok (id, p), c') ->
  id = next_relation_id c /\ p = next_page_id c /\ next_page_id c' = next_page_id c + 1
  /\ relations c' = relations c ++ [mkRelationInfo id name Index
       (BPlusTree (mkIndexStorage table column p)) [mkColumnDef column "INDEX_KEY"]]
  /\ exists r, is_table c table r.
Proof.
  unfold create_index_metadata. intros H.
  apply bind_st_inv in H as ([] & c1 & H1 & H). apply bind_st_inv in H as ([] & c2 & H2 & H).
  injection H1 as _ <-. injection H2 as _ <-. unfold bind_st at 1, gets at 1 in H.
  destruct (relation_by_name name c) as [old|]; [done|].
  apply bind_st_inv in H as (found & c3 & H3 & H). injection H3 as <- <-.
  apply bind_st_inv in H as (r & c4 & H4 & H). unfold lift in H4. injection H4 as H4 <-.
  destruct (negb (is_heap_table r)) eqn:Hheap; [done|]. reflect_bool.
  assert (Hit : is_table c table r).
  { split; [by destruct (relation_by_id table c); simplify_eq/=|]. unfold is_heap_table in Hheap.
    by apply bool_decide_eq_true in Hheap. }
  destruct (forallb _ (columns r)); [done|].
  unfold bind_st at 1, gets at 1 in H. destruct (existsb _ _); [done|]. revert H.
  unfold bind_st, allocate_relation_id, allocate_page_id.
  destruct (checked_add _ (next_relation_id c) 1) as [n|] eqn:E1; [|done].
  cbn [with_next_relation next_page_id].
  destruct (checked_add _ (next_page_id c) 1) as [m|] eqn:E2; [|done].
  intros [= <- <- <-]. apply checked_add_Some in E2 as [-> _]. split_and!; try done. by exists r.
Qed.

(** A relation of a fresh id at the end is the one found for its id. *)
Lemma relation_by_id_push c c' r id :
  catalog_wf c -> relations c' = relations c ++ [r] -> rel_id r = next_relation_id c ->
  relation_by_id id c' = if decide (id = rel_id r) then Some r else relation_by_id id c.
Proof.
  intros Hwf Hrel Hid. unfold relation_by_id, find_relation. rewrite Hrel.
  pose proof (wf_id_range _ Hwf) as Hr. clear Hrel Hwf.
  induction Hr as [|x l Hx Hr IH]; cbn [app find_first].
  - destruct (rel_id r =? id) eqn:He; reflect_bool; case_decide; by try congruence.
  - destruct (rel_id x =? id) eqn:He; reflect_bool; [rewrite decide_False by lia; done|].
    revert IH. destruct (find_first _ (l ++ [r])) as [[i y]|], (find_first _ l) as [[j z]|]; cbn; done.
Qed.

Section CreateIndex.
Context {F : Type} `{VfsLaws F}.
Implicit Types (t : Transaction F).

Lemma create_index_ok t T T' ks name table column :
  transaction_rep t T T' ks -> string_ok name -> string_ok column -> table <= U64_MAX ->
  addressable (next_page_id (working_catalog t)) ->
  ok_or_user_st (create_index name table column t) (fun res t' =>
    let '(idx, root) := res in
    idx = next_relation_id (working_catalog t) /\ index_changed t t' T T' ks idx [] [root] []
    /\ schema (working_catalog t') = schema (working_catalog t)
         ++ [(idx, name, Index, [mkColumnDef column "INDEX_KEY"], Some (table, column))]
    /\ next_page_id (working_catalog t') = next_page_id (working_catalog t) + 1
    /\ (forall id, id <> idx -> relation_by_id id (working_catalog t') = relation_by_id id (working_catalog t))
    /\ exists r, is_table (working_catalog t) table r).
Proof.
  intros Ht Hn Hcol Htab Hroom. pose proof (tr_db _ _ _ _ Ht) as Hdb. pose proof (hd_wf _ _ _ Hdb) as Hwf.
  unfold create_index. eapply ok_run; [by apply ensure_active_run, Ht|].
  pose proof (only_user_create_index name table column (working_catalog t)) as Hu.
  pose proof (create_index_wf name table column Hn Hcol Htab _ Hwf) as Hwf'.
  unfold bind_st at 1, on_working_catalog, zoom.
  destruct (create_index_metadata name table column (working_catalog t)) as [[[idx root]|e|] c] eqn:Hrun;
    [|by destruct e|destruct Hu].
  apply create_index_metadata_run in Hrun as (Hidx & Hroot & Hnp & Hrel & Hit). cbn [snd] in Hwf'.
  eapply ok_bind.
  { apply (initialize_root_ok (H1 := tx_index_store_laws) (with_catalog c t));
      [exact (tr_ready _ _ _ _ Ht)|by rewrite Hroot]. }
  intros [] t1 (Hb & Hst). pose proof Hst as (_ & Hv & Hrd & [Hm Hid Hs (m & Hc1)] & Hnx).
  assert (Hc : working_catalog t1 = c).
  { cbn [bt_next tx_index_store_laws working_catalog with_catalog] in Hnx, Hc1.
    rewrite Hc1 in Hnx |- *. cbn in Hnx. subst m. by destruct c. }
  set (r := mkRelationInfo idx name Index (BPlusTree (mkIndexStorage table column root)) [mkColumnDef column "INDEX_KEY"]) in *.
  assert (Hrel' : forall r', r' ∈ relations c -> rel_kind r' = Table -> r' ∈ relations (working_catalog t)).
  { rewrite Hrel. intros r' [Hr'|Hr'%list_elem_of_singleton]%elem_of_app; [done|]. by subst r'. }
  assert (Hlow : forall i, 1 <= i < next_page_id (working_catalog t) -> view t1 i = view t i).
  { intros i Hi. cbn [bt_view tx_index_read_laws] in Hv. rewrite Hv by lia. done. }
  assert (Hdb1 : heap_db (working_catalog t1) (view t1) T').
  { rewrite Hc. apply (heap_db_index (working_catalog t) c (view t)); [done|done|done|].
    intros r0 i Hin Hk Hip. apply Hlow.
    destruct (table_pages _ r0 Hwf Hin Hk) as (ps & _ & Hh & Hrp). rewrite Hh, <- Hrp in Hip.
    by apply (table_page_range _ r0). }
  pose proof (stage_catalog t t1 T T' T' ks Ht Hm Hrd Hid Hs Hdb1) as Hstage. unfold bind_st.
  destruct (mark_catalog_dirty t1) as [[[]|[]|] t'] eqn:Hmark; try done.
  destruct Hstage as [Hrep Hcat]. rewrite Hc in Hcat. split; [done|].
  assert (Hv' : forall i, 1 <= i -> view t' i = view t1 i).
  { intros i Hi. apply (mark_catalog_dirty_view _ _ _ Hmark). unfold CATALOG_PAGE_ID. lia. }
  pose proof (wf_next_page _ Hwf) as H1.
  assert (Hby : forall id, relation_by_id id c = if decide (id = idx) then Some r else relation_by_id id (working_catalog t))
    by (intros id; by rewrite (relation_by_id_push _ c r id Hwf Hrel Hidx)).
  split; [|split; [unfold schema; by rewrite Hcat, Hrel, fmap_app|split; [by rewrite Hcat|split; [|exact Hit]]]].
  2: { intros id Hne. rewrite Hcat, Hby. by rewrite decide_False. }
  split; [done| |].
  - rewrite Hcat. apply (index_rep_ext _ (view t1)).
    { intros i ->%list_elem_of_singleton. apply Hv'. lia. }
    split; [|constructor; [lia|done]|].
    + exists r, (mkIndexStorage table column root), 0%nat, [mkTleaf root None []].
      split; [rewrite Hby; by rewrite decide_True|]. split; [done|]. by split.
    + intros r0 i Hin Hk ->%list_elem_of_singleton Hip. specialize (Hrel' r0 Hin Hk).
      destruct (table_pages _ r0 Hwf Hrel' Hk) as (ps & _ & Hh & Hrp). rewrite Hh, <- Hrp in Hip.
      pose proof (table_page_range _ r0 _ Hwf Hrel' Hip). lia.
  - intros idx' Q fs Hq Hne _. pose proof (ir_range _ _ _ _ _ Hq) as Hqr. rewrite Forall_forall in Hqr.
    split.
    + rewrite Hcat. eapply index_rep_other; [exact Hq|rewrite Hby; by rewrite decide_False|lia|done|].
      intros i Hi. specialize (Hqr i Hi). cbn in Hqr. rewrite Hv' by lia. by apply Hlow.
    + intros i Hi Hin%list_elem_of_singleton. specialize (Hqr i Hi). cbn in Hqr. lia.
Qed.
End CreateIndex.
