(* ===== verification/TxRobust.v ===== *)
(** * TxRobust: a transaction on files that can fail

    The specifications of the operations of a transaction run it on a healthy
    data file.  An operation is [robust] when on any other file with the same
    contents it either fails, or gives the same result and stages the same
    pages.  With it a theorem about a healthy file also bounds what happens when
    the operating system fails. *)

From S2P Require Import Prelude Core Bytes Page PageFacts PageOps Vfs VfsFacts PageStore Wal WalFacts WalStream WalTheorems Recovery RecoveryFacts Catalog CatalogFacts CatalogWf CatalogTheorems Heap HeapDb CatalogStore CatalogStoreFacts Tx TxFacts TxCommit TxTheorems TxAuto Index TxIndex TxIndexFacts.

(** The files of [u] work, and [g] holds what its data file holds. *)
Record stands_for {F} `{VfsLaws F} (g : F) (u : Transaction F) : Prop := {
  sf_contents : contents g = contents (data (manager u));
  sf_healthy : healthy (data (manager u));
  sf_bounded : len (contents (data (manager u))) <= U64_MAX
}.

Definition robust {F A} `{VfsLaws F} (op : db (Transaction F) A) : Prop := forall g w u,
  stands_for g u ->
  match op (on_files g w u) with
  | (Ok a, t') => exists g' u', op u = (Ok a, u') /\ t' = on_files g' w u' /\ stands_for g' u'
  | (Err _, _) => True
  | (Panic, _) => (op u).1 = Panic
  end.

Create HintDb robust discriminated.

Section Robust.
Context {F : Type} `{VfsLaws F}.

Lemma robust_bind {A B} (m : db (Transaction F) A) (k : A -> db (Transaction F) B) :
  robust m -> (forall a, robust (k a)) -> robust (bind_st m k).
Proof.
  intros Hm Hk g w u Hu. unfold bind_st. specialize (Hm g w u Hu). destruct (m (on_files g w u)) as [[a|e|] t'].
  - destruct Hm as (g' & u' & -> & -> & Hu'). apply (Hk a g' w u' Hu').
  - done.
  - destruct (m u) as [[a|e|] u']; by cbn [fst] in *.
Qed.

(** Operations that do not look at the files. *)
Lemma robust_pure {A} (op : db (Transaction F) A) :
  (forall g w u, op (on_files g w u) = (let '(r, u') := op u in (r, on_files g w u')) /\ manager (op u).2 = manager u) ->
  robust op.
Proof.
  intros Hop g w u [Hc Hh Hl]. destruct (Hop g w u) as [-> Hm]. destruct (op u) as [[a|e|] u'] eqn:E; cbn [fst snd] in *; try done.
  exists g, u'. split; [done|]. split; [done|]. by split; rewrite Hm.
Qed.

Lemma robust_if {A} (b : bool) (m1 m2 : db (Transaction F) A) : robust m1 -> robust m2 -> robust (if b then m1 else m2).
Proof. by destruct b. Qed.
Lemma robust_ret {A} (a : A) : robust (ret (S := Transaction F) a).
Proof. by apply robust_pure. Qed.
Lemma robust_throw {A} e : robust (throw (S := Transaction F) (A := A) e).
Proof. by apply robust_pure. Qed.
Lemma robust_lift {A} (r : DbResult A) : robust (lift (S := Transaction F) r).
Proof. by apply robust_pure. Qed.
Lemma robust_gets_catalog : robust (gets (working_catalog (F := F))).
Proof. by apply robust_pure. Qed.
Lemma robust_gets_dirty : robust (gets (dirty_pages (F := F))).
Proof. by apply robust_pure. Qed.
Lemma robust_dirty id p : robust (dirty_insert (F := F) id p).
Proof. by apply robust_pure. Qed.
Lemma robust_catalog {A} (m : db Catalog A) : robust (on_working_catalog (F := F) m).
Proof.
  apply robust_pure. intros g w u. unfold on_working_catalog, zoom. cbn [working_catalog on_files with_manager].
  by destruct (m (working_catalog u)).
Qed.
Lemma robust_active : robust (ensure_active (F := F)).
Proof. apply robust_pure. intros g w u. unfold ensure_active. cbn [state on_files with_manager]. by case_bool_decide. Qed.

(** A page that is read is the page of the contents, whatever file it came from. *)
Lemma robust_load id : robust (tx_load_page (F := F) id).
Proof.
  unfold tx_load_page. apply robust_bind; [apply robust_gets_dirty|]. intros d.
  destruct (btree_get id d); [apply robust_ret|]. intros g w u [Hc Hh Hl].
  unfold on_store, CatalogStore.on_file, zoom. cbn [store manager on_files with_manager CatalogStore.page_file catalog].
  fold (data (manager u)). destruct (read_page id g) as [r f] eqn:Hg. apply read_page_spec in Hg as (Hcf & Hp & _ & Hok & _).
  destruct r as [p|e|]; [|done|done]. specialize (Hok p eq_refl).
  assert (Ha : addressable id).
  { unfold stored_page in Hok. rewrite Hc in Hok. unfold addressable. destruct (_ <? _) eqn:Hlt; [done|]. apply N.ltb_ge in Hlt. lia. }
  destruct (read_page id (data (manager u))) as [r f'] eqn:Hu. apply read_page_spec in Hu as (Hcu & _ & Hhu & _ & Hr).
  rewrite (Hr Hh Ha), <- Hc, Hok. eexists f, _. split; [done|]. split; [done|].
  split; cbn [manager with_manager with_store store data CatalogStore.page_file]; unfold data; cbn [store with_store manager with_manager CatalogStore.page_file].
  - by rewrite Hcu, <- Hc.
  - by apply Hhu.
  - by rewrite Hcu.
Qed.
End Robust.

#[export] Hint Resolve robust_bind robust_if robust_ret robust_throw robust_lift robust_gets_catalog
  robust_gets_dirty robust_dirty robust_catalog robust_active robust_load : robust.

(** ** The operations *)

Section Operations.
Context {F : Type} `{VfsLaws F}.

Lemma robust_mark_dirty : robust (mark_catalog_dirty (F := F)).
Proof. unfold mark_catalog_dirty. auto with robust. Qed.
Lemma robust_ensure id : robust (ensure_heap_relation (F := F) id).
Proof. unfold ensure_heap_relation. auto 10 with robust. Qed.
Lemma robust_pages id : robust (heap_pages (F := F) id).
Proof. unfold heap_pages. auto 10 with robust. Qed.
Lemma robust_scan ids : forall rows, robust (scan_pages (S := Transaction F) ids rows).
Proof. induction ids; intros rows; simpl; auto 10 with robust. Qed.
Lemma robust_insert ids record : robust (insert_into_pages (S := Transaction F) ids record).
Proof.
  induction ids as [|id ids IH]; simpl; [apply robust_ret|].
  apply robust_bind; [apply robust_load|]. intros p.
  destruct (insert_record record p) as [[slot|[]|] q]; auto 10 with robust.
Qed.
Lemma robust_for_each {B} (f : B -> db (Transaction F) unit) xs : (forall x, robust (f x)) -> robust (for_each f xs).
Proof. intros Hf. induction xs as [|x xs IH]; cbn [for_each]; auto with robust. Qed.

Lemma robust_load_node id : robust (load_node (S := Transaction F) id).
Proof. unfold load_node. cbn [bt_load_page tx_index_pages]. auto with robust. Qed.
Lemma robust_store_node id n : robust (store_node (S := Transaction F) id n).
Proof. unfold store_node. cbn [bt_store_page tx_index_pages]. auto with robust. Qed.
Lemma robust_allocate : robust (bt_allocate_page (S := Transaction F)).
Proof. cbn [bt_allocate_page tx_index_pages]. auto with robust. Qed.
End Operations.

#[export] Hint Resolve robust_mark_dirty robust_ensure robust_pages robust_scan robust_insert robust_for_each
  robust_load_node robust_store_node robust_allocate : robust.

Section Statements.
Context {F : Type} `{VfsLaws F}.

Lemma robust_create_table name cols : robust (create_table (F := F) name cols).
Proof.
  unfold create_table. repeat (apply robust_bind; [auto with robust|]; intros []); auto 10 with robust.
Qed.
Lemma robust_insert_row id record : robust (insert_row (F := F) id record).
Proof.
  unfold insert_row, insert_new_page. do 4 (apply robust_bind; [auto with robust|]; intros ?).
  destruct a2 as [row|]; [auto with robust|]. apply robust_bind; [auto with robust|]. intros p.
  destruct (insert_record record _) as [slot page]. auto 20 with robust.
Qed.
Lemma robust_register_extension name abi kind : robust (register_extension (F := F) name abi kind).
Proof. unfold register_extension. auto 20 with robust. Qed.
Lemma robust_full_scan id : robust (full_scan (F := F) id).
Proof. unfold full_scan. auto 20 with robust. Qed.

Lemma robust_in_leaf id next es k r : robust (insert_in_leaf (S := Transaction F) id next es k r).
Proof.
  unfold insert_in_leaf. apply robust_bind; [auto with robust|]. intros es'.
  apply robust_if; [auto with robust|]. apply robust_bind; [auto with robust|]. intros rid.
  apply robust_bind; [auto with robust|]. intros [l1 l2]. auto 10 with robust.
Qed.
Lemma robust_separator id ks cs i sp : robust (insert_separator (S := Transaction F) id ks cs i sp).
Proof.
  unfold insert_separator. apply robust_bind; [auto with robust|]. intros ks'.
  apply robust_bind; [auto with robust|]. intros cs'. apply robust_if; [auto with robust|].
  apply robust_bind; [auto with robust|]. intros sep.
  apply robust_bind; [auto with robust|]. intros [k1 k2].
  apply robust_bind; [auto with robust|]. intros [c1 c2]. auto 10 with robust.
Qed.
Lemma robust_recursive fuel : forall id k r, robust (insert_recursive (S := Transaction F) fuel id k r).
Proof.
  induction fuel as [|fuel IH]; intros id k r; cbn [insert_recursive]; [auto with robust|].
  apply robust_bind; [auto with robust|]. intros [next es|ks cs]; [apply robust_in_leaf|].
  apply robust_bind; [auto with robust|]. intros _. apply robust_bind; [auto with robust|]. intros c.
  apply robust_bind; [apply IH|]. intros [sp|]; [apply robust_separator|auto with robust].
Qed.
Lemma robust_index_insert fuel root k r : robust (Index.insert (S := Transaction F) fuel root k r).
Proof.
  unfold Index.insert. apply robust_bind; [apply robust_recursive|]. intros [sp|]; auto 10 with robust.
Qed.
Lemma robust_insert_index_entry idx k r : robust (insert_index_entry (F := F) idx k r).
Proof.
  unfold insert_index_entry. apply robust_bind; [auto with robust|]. intros _.
  apply robust_bind; [auto with robust|]. intros c. apply robust_bind; [auto with robust|]. intros root.
  apply robust_bind; [apply robust_index_insert|]. intros root'. auto 10 with robust.
Qed.
Lemma robust_create_index name table column : robust (create_index (F := F) name table column).
Proof.
  unfold create_index. apply robust_bind; [auto with robust|]. intros _.
  apply robust_bind; [auto with robust|]. intros [idx root]. unfold initialize_root. auto 10 with robust.
Qed.
End Statements.

#[export] Hint Resolve robust_create_table robust_insert_row robust_register_extension robust_full_scan
  robust_insert_index_entry robust_create_index : robust.
