(* ===== verification/IndexTheorems.v ===== *)
(** * IndexTheorems: what index relations promise *)

From stdpp Require Import sorting.
From S2P Require Import Prelude Core Bytes Page PageFacts PageOps Vfs VfsFacts PageStore Wal WalFacts WalStream WalTheorems Recovery RecoveryFacts Catalog CatalogFacts CatalogWf CatalogTheorems Heap HeapDb CatalogStore CatalogStoreFacts CatalogStoreTheorems Tx TxFacts TxCommit TxTheorems Index IndexFacts IndexTree IndexReads IndexInsert TxIndex TxIndexFacts.

(** ** Concrete index for the witnesses *)

(** The transaction [users_tx] after it created an index on [users(id)]. *)
Definition index_tx : Transaction SimFile := snd (create_index "users_id" 1 "id" users_tx).

Lemma index_tx_rep : index_changed users_tx index_tx users_tables users_tables [BeginTx 1] 2 [] [2] [].
Proof.
  pose proof (create_index_ok users_tx _ _ _ "users_id" 1 "id" users_tx_rep eq_refl eq_refl
    ltac:(vm_compute; discriminate) ltac:(vm_compute; discriminate)) as Hs. unfold index_tx.
  assert (Ho : (create_index "users_id" 1 "id" users_tx).1 = Ok (2, 2)) by (vm_compute; reflexivity).
  destruct (create_index "users_id" 1 "id" users_tx) as [o t'] eqn:E. cbn [fst] in Ho. subst o.
  apply Hs.
Qed.

(** One row of [users] with key 7. *)
Definition seven : IndexEntry := mkIndexEntry (KInteger 7) (mkRowId 1 0).
Definition seven_tx : Transaction SimFile := snd (insert_index_entry 2 (KInteger 7) (mkRowId 1 0) index_tx).

Lemma seven_typed : entry_typed seven.
Proof. split; split; vm_compute; discriminate. Qed.

Lemma seven_run : (insert_index_entry 2 (KInteger 7) (mkRowId 1 0) index_tx).1 = Ok tt.
Proof. vm_compute. reflexivity. Qed.

Lemma index_tx_room : addressable (next_page_id (working_catalog index_tx) + len [2]).
Proof. vm_compute. discriminate. Qed.

Lemma seven_tx_rep :
  exists P es, index_changed index_tx seven_tx users_tables users_tables [BeginTx 1] 2 [2] P es /\ es ≡ₚ [seven].
Proof.
  pose proof (insert_index_entry_ok index_tx _ _ _ 2 [2] [] (KInteger 7) (mkRowId 1 0)
    (ic_rep _ _ _ _ _ _ _ _ _ index_tx_rep) (ic_index _ _ _ _ _ _ _ _ _ index_tx_rep) seven_typed index_tx_room) as Hs.
  pose proof seven_run as Ho. unfold seven_tx.
  destruct (insert_index_entry 2 (KInteger 7) (mkRowId 1 0) index_tx) as [o t'] eqn:E. cbn [fst] in Ho. subst o.
  exact Hs.
Qed.

Lemma seven_log_fits : stream_len ([BeginTx 1] ++ commit_kinds seven_tx) <= U64_MAX.
Proof. vm_compute. discriminate. Qed.

(** ** Claims *)

(** C10. Inserting an index entry in a transaction adds exactly that entry to
    the B+tree, whatever splits it takes: the index of the transaction then
    holds the old entries and the new one, every table and every other index of
    the transaction is as before, and the committed state is untouched.  The
    only failures are user errors (a node that does not fit its page, a page id
    overflow); the run never panics and the fuel is enough. *)
Theorem insert_index_entry_correct {F : Type} `{VfsLaws F} (t : Transaction F) T T' ks idx P es k r :
  transaction_rep t T T' ks -> index_rep (working_catalog t) (view t) idx P es ->
  entry_typed (mkIndexEntry k r) -> addressable (next_page_id (working_catalog t) + len P) ->
  match insert_index_entry idx k r t with
  | (Ok _, t') => exists P' es', index_changed t t' T T' ks idx P P' es' /\ es' ≡ₚ mkIndexEntry k r :: es
  | (Err (User _), t') => same_manager (manager t) (manager t')
  | _ => False
  end.
Proof.
  intros Ht Hi Hty Hroom.
  exact (ok_or_user_isolated _ t _ (isolated_insert_index_entry idx k r)
           (insert_index_entry_ok t T T' ks idx P es k r Ht Hi Hty Hroom)).
Qed.

Lemma insert_index_entry_correct_witness :
  exists t' P' es', insert_index_entry 2 (KInteger 7) (mkRowId 1 0) index_tx = (Ok tt, t')
    /\ index_changed index_tx t' users_tables users_tables [BeginTx 1] 2 [2] P' es' /\ es' ≡ₚ [seven].
Proof.
  pose proof (insert_index_entry_correct index_tx users_tables users_tables [BeginTx 1] 2 [2] []
    (KInteger 7) (mkRowId 1 0) (ic_rep _ _ _ _ _ _ _ _ _ index_tx_rep)
    (ic_index _ _ _ _ _ _ _ _ _ index_tx_rep) seven_typed index_tx_room) as Hs.
  pose proof seven_run as Ho.
  destruct (insert_index_entry 2 (KInteger 7) (mkRowId 1 0) index_tx) as [o t'] eqn:E. cbn [fst] in Ho. subst o.
  destruct Hs as (P' & es' & Hc & He). exists t', P', es'. split; [reflexivity|]. split; [exact Hc|exact He].
Defined.

(** C11. What a transaction put into an index is found after its commit.  When
    the insertion succeeded and the transaction commits on working files, a
    lookup of the key through the committed index returns the new row and the
    rows the key had before, and nothing else. *)
Theorem committed_entry_is_found {F : Type} `{VfsLaws F} (t t' : Transaction F) T T' ks idx P es k r :
  transaction_rep t T T' ks -> index_rep (working_catalog t) (view t) idx P es ->
  entry_typed (mkIndexEntry k r) -> addressable (next_page_id (working_catalog t) + len P) ->
  insert_index_entry idx k r t = (Ok tt, t') ->
  next_tx_id (manager t') <= U64_MAX -> stream_len (ks ++ commit_kinds t') <= U64_MAX ->
  healthy (wal_file (wal (manager t'))) ->
  exists m rows m', commit t' = (Ok tt, m) /\ lookup_index idx k m = (Ok rows, m')
    /\ rows ≡ₚ r :: matches k es.
Proof.
  intros Ht Hi Hty Hroom Hrun Hn Hl Hh.
  pose proof (insert_index_entry_ok t T T' ks idx P es k r Ht Hi Hty Hroom) as Hins. rewrite Hrun in Hins.
  destruct Hins as (P' & es' & [Hrep Hidx _] & He).
  destruct (commit_installs t' T T' ks Hrep Hn Hl Hh) as (m & Hc & Hm & _ & Hcat & Hv & _).
  destruct (lookup_index_run m idx P' es' k) as (m' & Hlk & _).
  { apply (mr_store _ _ _ Hm). }
  { rewrite Hcat. by apply (index_rep_ext _ (view t')). }
  exists m, (matches k es'), m'. split; [done|]. split; [done|].
  rewrite (matches_perm k _ _ He), matches_cons. by rewrite decide_True.
Qed.

Lemma committed_entry_is_found_witness :
  exists m rows m', commit seven_tx = (Ok tt, m) /\ lookup_index 2 (KInteger 7) m = (Ok rows, m')
    /\ rows ≡ₚ [mkRowId 1 0].
Proof.
  pose proof seven_run as Ho.
  assert (E : insert_index_entry 2 (KInteger 7) (mkRowId 1 0) index_tx = (Ok tt, seven_tx)).
  { unfold seven_tx. destruct (insert_index_entry 2 (KInteger 7) (mkRowId 1 0) index_tx) as [o t'].
    cbn [fst] in Ho. subst o. reflexivity. }
  apply (committed_entry_is_found index_tx seven_tx users_tables users_tables [BeginTx 1] 2 [2] []
    (KInteger 7) (mkRowId 1 0)).
  - exact (ic_rep _ _ _ _ _ _ _ _ _ index_tx_rep).
  - exact (ic_index _ _ _ _ _ _ _ _ _ index_tx_rep).
  - exact seven_typed.
  - exact index_tx_room.
  - exact E.
  - vm_compute. discriminate.
  - exact seven_log_fits.
  - vm_compute. constructor.
Defined.

(** The store that committed [seven_tx]. *)
Lemma seven_committed :
  exists m P es, manager_rep m users_tables ([BeginTx 1] ++ commit_kinds seven_tx)
    /\ index_rep (catalog (store m)) (view (data m)) 2 P es /\ es ≡ₚ [seven].
Proof.
  destruct seven_tx_rep as (P & es & [Hrep Hidx _] & He).
  destruct (commit_installs seven_tx users_tables users_tables [BeginTx 1] Hrep) as (m & _ & Hm & _ & Hcat & Hv & _).
  - vm_compute. discriminate.
  - exact seven_log_fits.
  - vm_compute. constructor.
  - exists m, P, es. split; [exact Hm|]. split; [|exact He].
    rewrite Hcat. exact (index_rep_ext _ _ _ _ _ _ (fun i _ => Hv i) Hidx).
Qed.

(** C12. A lookup in a committed index returns exactly the rows of the entries
    with the key, in the order of the leaves, reads only, and ends: the fuel is
    enough for the descent and for the walk along the leaves.  A relation that
    is not an index is refused. *)
Theorem lookup_index_correct {F : Type} `{VfsLaws F} (m : TransactionalStore F) T ks idx k :
  manager_rep m T ks ->
  (forall P es, index_rep (catalog (store m)) (view (data m)) idx P es ->
     exists m', lookup_index idx k m = (Ok (matches k es), m') /\ manager_rep m' T ks)
  /\ ((forall r, relation_by_id idx (catalog (store m)) = Some r -> index_storage r = None) ->
      lookup_index idx k m = (Err (unknown_index idx), m)).
Proof.
  intros Hm. split; [|apply lookup_index_unknown]. intros P es Hi.
  destruct (lookup_index_run m idx P es k (sr_ready _ _ (mr_store _ _ _ Hm)) Hi) as (m' & Hrun & Hsame & Hr).
  exists m'. split; [exact Hrun|]. by apply (manager_rep_same m).
Qed.

Lemma lookup_index_correct_witness :
  exists m m', lookup_index 2 (KInteger 7) m = (Ok [mkRowId 1 0], m')
    /\ lookup_index 1 (KInteger 7) users_manager = (Err (unknown_index 1), users_manager).
Proof.
  destruct seven_committed as (m & P & es & Hm & Hi & He).
  apply Permutation_singleton_r in He. subst es.
  destruct (proj1 (lookup_index_correct m _ _ 2 (KInteger 7) Hm) P _ Hi) as (m' & Hrun & _).
  exists m, m'. split; [exact Hrun|].
  apply (lookup_index_correct users_manager users_tables [] 1 (KInteger 7) users_manager_rep).
  intros r Hr. vm_compute in Hr. injection Hr as <-. reflexivity.
Defined.

(** [create_index] adds an empty index under a fresh relation id: its root
    is one new page, tables and other indexes are as before, and a failure is a
    user error that leaves the committed state alone. *)
Theorem create_index_correct {F : Type} `{VfsLaws F} (t : Transaction F) T T' ks name table column :
  transaction_rep t T T' ks -> string_ok name -> string_ok column -> table <= U64_MAX ->
  addressable (next_page_id (working_catalog t)) ->
  match create_index name table column t with
  | (Ok (idx, root), t') => idx = next_relation_id (working_catalog t)
      /\ index_changed t t' T T' ks idx [] [root] []
  | (Err (User _), t') => same_manager (manager t) (manager t')
  | _ => False
  end.
Proof.
  intros Ht Hn Hc Htab Hroom.
  pose proof (ok_or_user_isolated _ t _ (isolated_create_index name table column)
                (create_index_ok t T T' ks name table column Ht Hn Hc Htab Hroom)) as Hs.
  destruct (create_index name table column t) as [[[idx root]|[]|] t']; try exact Hs.
  split; apply Hs.
Qed.

Lemma create_index_correct_witness :
  exists t', create_index "users_id" 1 "id" users_tx = (Ok (2, 2), t')
    /\ index_changed users_tx t' users_tables users_tables [BeginTx 1] 2 [] [2] [].
Proof.
  pose proof (create_index_correct users_tx users_tables users_tables [BeginTx 1] "users_id" 1 "id"
    users_tx_rep eq_refl eq_refl ltac:(vm_compute; discriminate) ltac:(vm_compute; discriminate)) as Hs.
  assert (Ho : (create_index "users_id" 1 "id" users_tx).1 = Ok (2, 2)) by (vm_compute; reflexivity).
  destruct (create_index "users_id" 1 "id" users_tx) as [o t'] eqn:E. cbn [fst] in Ho. subst o.
  destruct Hs as [_ Hs]. exists t'. split; [reflexivity|exact Hs].
Defined.

(** C27. Descending is logarithmic.  In a B+tree with fewer than [2 ^ fuel]
    leaves at most [fuel] nodes are read on the way from the root to the leaf
    where a key belongs, whatever page store holds the tree; no leaf before it
    has an entry of the key, and nothing is written. *)
Theorem descent_is_logarithmic {S : Type} `{IndexReadLaws S} h (s : S) fuel root L P k :
  btree h (bt_view s) root L P -> bt_ready s -> (length L < 2 ^ fuel)%nat ->
  exists l La Lb s', find_leaf fuel root k s = (Ok (tl_id l), s') /\ read_only s s'
    /\ L = La ++ l :: Lb /\ Forall (fun e => key_cmp (key e) k = Lt) (ents La).
Proof.
  intros (Ht & _ & _) Hr Hl. apply (find_leaf_spec h s fuel root None None L P k Ht (within_none k) Hr).
  apply tree_leaf_count in Ht. apply Nat.nle_gt. intros Hle.
  pose proof (Nat.pow_le_mono_r 2 fuel h ltac:(done) Hle). lia.
Qed.

Lemma descent_is_logarithmic_witness :
  exists root l La Lb s', find_leaf 1 root (KInteger 7) index_tx = (Ok (tl_id l), s')
    /\ ents (La ++ l :: Lb) = [].
Proof.
  pose proof (ic_index _ _ _ _ _ _ _ _ _ index_tx_rep) as Hi.
  destruct (index_root_run _ _ _ _ _ Hi) as (root & h & L & _ & Hb & He).
  destruct (descent_is_logarithmic (S := Transaction SimFile) h index_tx 1 root L [2] (KInteger 7)) as (l & La & Lb & s' & Hrun & _ & HL & _).
  - exact Hb.
  - exact (tr_ready _ _ _ _ (ic_rep _ _ _ _ _ _ _ _ _ index_tx_rep)).
  - pose proof (tree_pages _ _ _ _ _ _ _ (proj1 Hb)) as [_ Hp]. cbn in Hp |- *. lia.
  - exists root, l, La, Lb, s'. split; [exact Hrun|]. rewrite <- HL. symmetry. exact He.
Defined.

(** An index node survives its page.  A node of machine-width values is
    written to a valid page of the requested id that reads back as the node, or
    it is too long, which is a user error. *)
Theorem node_page_roundtrip id n :
  id <= U64_MAX -> node_typed n ->
  (exists p, node_to_page id n = Ok p /\ valid_page id p /\ node_from_page p = Ok n)
  \/ (exists msg, node_to_page id n = Err (User msg)).
Proof.
  intros Hid Hn. pose proof (node_to_page_spec id n Hid Hn) as Hs.
  destruct (node_to_page id n) as [p|[]|]; try done; [left|right]; by eexists.
Qed.

Lemma node_page_roundtrip_witness :
  exists p, node_to_page 5 (Leaf (Some 9) [seven]) = Ok p
    /\ node_from_page p = Ok (Leaf (Some 9) [seven]).
Proof.
  destruct (node_page_roundtrip 5 (Leaf (Some 9) [seven])) as [(p & Hp & _ & Hr)|(msg & Hm)].
  - vm_compute. discriminate.
  - split; [|constructor; [exact seven_typed|constructor]].
    intros i Hi. injection Hi as <-. vm_compute. discriminate.
  - exists p. split; [exact Hp|exact Hr].
  - vm_compute in Hm. discriminate Hm.
Defined.

(** ** A tree that splits *)

Definition entries_upto (n : nat) : list (IndexKey * RowId) :=
  (fun i => (KInteger (Z.of_nat (i * 7 mod 11)), mkRowId 1 (N.of_nat i))) <$> seq 0 n.
Definition filled_tx (n : nat) : DbResult unit * Transaction SimFile :=
  for_each (fun '(k, r) => insert_index_entry 2 k r) (entries_upto n) index_tx.

(** Eleven entries make a tree of height one whose root was moved; one key gives
    one row.  The code walks the same steps. *)
Example eleven_entries :
  let '(r, t) := filled_tx 11 in
  r = Ok tt /\ index_root 2 (working_catalog t) <> Ok 2
  /\ fst (lookup (tree_fuel (working_catalog t)) (match index_root 2 (working_catalog t) with Ok i => i | _ => 0 end) (KInteger 3) t)
     = Ok [mkRowId 1 2].
Proof. vm_compute. split; [reflexivity|split; [discriminate|reflexivity]]. Qed.

(** ** A corrupt chain of leaves

    A leaf that names itself as the next leaf: the walk along the leaves runs
    out of any fuel, so the loop of the code does not end on such a file. *)
Definition loop_page : Page :=
  match node_to_page 5 (Leaf (Some 5) [seven]) with Ok p => p | _ => page_new 5 Page.Index end.
Definition loop_pages : BPlusTreePageStore unit := {|
  bt_load_page _ := ret loop_page;
  bt_store_page _ := ret tt;
  bt_allocate_page := ret 0
|}.

Lemma loop_page_node : node_from_page loop_page = Ok (Leaf (Some 5) [seven]).
Proof. vm_compute. reflexivity. Qed.

Lemma cyclic_chain_exhausts_fuel fuel rows :
  (lookup_leaves (H := loop_pages) fuel 5 (KInteger 9) rows tt).1 = Panic.
Proof.
  revert rows. induction fuel as [|fuel IH]; intros rows; [reflexivity|].
  cbn [lookup_leaves]. unfold load_node, bind_st, lift. cbn [bt_load_page loop_pages].
  unfold ret at 1. rewrite loop_page_node. apply IH.
Qed.
