(* ===== verification/Double.v ===== *)
(** * Double: IEEE-754 binary64 values by their bit patterns

    A Rust [f64] that the program stores is its 64-bit pattern.  The operations
    the code uses on doubles are given here on patterns, through the exact
    arithmetic of the Standard Library's [SpecFloat]: conversion from [i64]
    ([as f64], round to nearest even), [==], [abs] and the correctly rounded
    value of a decimal literal ([str::parse::<f64>]). *)

From Stdlib Require Import Floats.SpecFloat.
From S2P Require Import Prelude Core Bytes.

Definition DOUBLE_PREC : Z := 53.
Definition DOUBLE_EMAX : Z := 1024.
Definition MANTISSA : N := 4503599627370496.
Definition SIGN_BIT : N := 9223372036854775808.
Definition INFINITY_BITS : N := 2047 * MANTISSA.
Definition NAN_BITS : N := INFINITY_BITS + 2251799813685248.

(** The value of a pattern. *)
Definition double_of_bits (bits : N) : spec_float :=
  let s := SIGN_BIT <=? bits in
  let e := (bits / MANTISSA) mod 2048 in
  let m := bits mod MANTISSA in
  if e =? 2047 then (if m =? 0 then S754_infinity s else S754_nan)
  else if e =? 0 then
    match m with
    | 0 => S754_zero s
    | N.pos p => S754_finite s p (-1074)
    end
  else S754_finite s (N.succ_pos (m + MANTISSA - 1)) (Z.of_N e - 1075).

Definition with_sign (s : bool) (n : N) : N := if s then SIGN_BIT + n else n.

(** The pattern of a value in canonical form. *)
Definition bits_of_double (x : spec_float) : N :=
  match x with
  | S754_zero s => with_sign s 0
  | S754_infinity s => with_sign s INFINITY_BITS
  | S754_nan => NAN_BITS
  | S754_finite s m e =>
      with_sign s (if N.pos m <? MANTISSA then N.pos m
                   else Z.to_N (e + 1075) * MANTISSA + (N.pos m - MANTISSA))
  end.

(** [value as f64] for an [i64]. *)
Definition double_of_i64 (z : Z) : N :=
  bits_of_double (binary_normalize DOUBLE_PREC DOUBLE_EMAX z 0 false).

(** [left == right]. *)
Definition double_eq (a b : N) : bool := SFeqb (double_of_bits a) (double_of_bits b).

(** [f64::abs] clears the sign bit. *)
Definition double_abs (bits : N) : N := N.clearbit bits 63.

(** The double nearest to [digits / 10 ^ scale]. *)
Definition double_of_decimal (negative : bool) (digits : N) (scale : nat) : N :=
  match digits with
  | 0 => with_sign negative 0
  | N.pos p =>
      let '(m, e, l) := SFdiv_core_binary DOUBLE_PREC DOUBLE_EMAX (Zpos p) 0 (10 ^ Z.of_nat scale) 0 in
      bits_of_double (binary_round_aux DOUBLE_PREC DOUBLE_EMAX negative m e l)
  end.

Example double_one_and_a_half : double_of_decimal false 15 1 = 4609434218613702656.
Proof. vm_compute. reflexivity. Qed.
Example double_tenth : double_of_decimal false 1 1 = 4591870180066957722.
Proof. vm_compute. reflexivity. Qed.
Example double_seven : double_of_i64 7 = 4619567317775286272.
Proof. vm_compute. reflexivity. Qed.
