(* ===== verification/DoubleFacts.v ===== *)
(** * DoubleFacts: rounding gives patterns of 64 bits, and the exact decimal of a
    double is read back as the double *)

From Stdlib Require Import Floats.SpecFloat.
From S2P Require Import Prelude Core Bytes Double.

Open Scope Z_scope.

Lemma digits2_pos_bound p : Zpos p < 2 ^ Zpos (digits2_pos p).
Proof.
  induction p as [p IH|p IH|]; cbn [digits2_pos]; [| |done];
    rewrite Pos2Z.inj_succ, Z.pow_succ_r by lia; lia.
Qed.

Lemma digits2_bound m : 0 <= m -> m < 2 ^ Zdigits2 m.
Proof. destruct m as [|p|p]; [done| |done]. intros _. apply digits2_pos_bound. Qed.

(** A shift to the right halves the mantissa. *)
Lemma shr_1_half mrs : 0 <= shr_m mrs -> shr_m (shr_1 mrs) = shr_m mrs / 2.
Proof.
  destruct mrs as [[|[p|p|]|p] r s]; cbn [shr_m shr_1]; intros Hm; [done| | |done|lia].
  - apply Z.div_unique with 1; lia.
  - apply Z.div_unique with 0; lia.
Qed.

Lemma iter_shr_div p : forall mrs,
  0 <= shr_m mrs -> shr_m (SpecFloat.iter_pos shr_1 p mrs) = shr_m mrs / 2 ^ Zpos p.
Proof.
  induction p as [p IH|p IH|]; intros mrs Hm; cbn [SpecFloat.iter_pos].
  - pose proof (shr_1_half mrs Hm) as H1.
    assert (0 <= shr_m (shr_1 mrs)) by (rewrite H1; apply Z.div_pos; lia).
    assert (0 <= shr_m (SpecFloat.iter_pos shr_1 p (shr_1 mrs))) by (rewrite IH by done; apply Z.div_pos; lia).
    rewrite !IH, H1, !Z.div_div by (done || lia). f_equal.
    replace (Zpos p~1) with (1 + (Zpos p + Zpos p)) by lia. rewrite !Z.pow_add_r by lia. lia.
  - assert (0 <= shr_m (SpecFloat.iter_pos shr_1 p mrs)) by (rewrite IH by done; apply Z.div_pos; lia).
    rewrite !IH, !Z.div_div by (done || lia). f_equal.
    replace (Zpos p~0) with (Zpos p + Zpos p) by lia. by rewrite Z.pow_add_r by lia.
  - by apply shr_1_half.
Qed.

(** Rounding to the exponent of the format leaves at most [DOUBLE_PREC] digits. *)
Lemma shr_fexp_bound m e l mrs e' :
  0 <= m -> shr_fexp DOUBLE_PREC DOUBLE_EMAX m e l = (mrs, e') -> 0 <= shr_m mrs < 2 ^ DOUBLE_PREC.
Proof.
  intros Hm. pose proof (digits2_bound m Hm) as Hd. unfold shr_fexp, shr.
  assert (H0 : shr_m (shr_record_of_loc m l) = m) by by destruct l as [|[]].
  set (d := Zdigits2 m) in *. set (n := fexp _ _ _ - e).
  assert (Hn : d - DOUBLE_PREC <= n) by (unfold n, fexp; lia).
  assert (Hd0 : 0 <= d) by by destruct m.
  assert (Hsmall : n <= 0 -> m < 2 ^ DOUBLE_PREC).
  { intros. apply Z.lt_le_trans with (2 ^ d); [done|]. apply Z.pow_le_mono_r; lia. }
  destruct n as [|p|p]; intros [= <- <-].
  - rewrite H0. split; [done|apply Hsmall; lia].
  - rewrite iter_shr_div, H0 by lia. split; [apply Z.div_pos; lia|]. apply Z.div_lt_upper_bound; [lia|].
    apply Z.lt_le_trans with (2 ^ d); [done|]. rewrite <- Z.pow_add_r by (unfold DOUBLE_PREC; lia).
    apply Z.pow_le_mono_r; unfold DOUBLE_PREC in *; lia.
  - rewrite H0. split; [done|apply Hsmall; lia].
Qed.

Close Scope Z_scope.

(** A rounded double is zero, an infinity, or has a mantissa and an exponent of
    the format. *)
Definition in_format (x : spec_float) : Prop :=
  match x with
  | S754_finite _ m e => (Zpos m < 2 ^ DOUBLE_PREC /\ e <= DOUBLE_EMAX - DOUBLE_PREC)%Z
  | S754_nan => False
  | _ => True
  end.

Lemma round_in_format s m e l :
  (0 <= m)%Z -> in_format (binary_round_aux DOUBLE_PREC DOUBLE_EMAX s m e l).
Proof.
  intros Hm. unfold binary_round_aux.
  destruct (shr_fexp DOUBLE_PREC DOUBLE_EMAX m e l) as [mrs e'] eqn:H1. apply shr_fexp_bound in H1; [|done].
  set (m2 := round_nearest_even _ _).
  assert (Hm2 : (0 <= m2)%Z).
  { unfold m2, round_nearest_even. destruct (loc_of_shr_record mrs) as [|[]]; try case_match; lia. }
  destruct (shr_fexp DOUBLE_PREC DOUBLE_EMAX m2 e' loc_Exact) as [mrs2 e2] eqn:H2. apply shr_fexp_bound in H2; [|done].
  destruct (shr_m mrs2) as [|p|p]; [done| |lia]. destruct (e2 <=? DOUBLE_EMAX - DOUBLE_PREC)%Z eqn:He; [|done].
  cbn. lia.
Qed.

Lemma bits_of_double_bound x : in_format x -> bits_of_double x <= U64_MAX.
Proof.
  assert (Hs : forall s n, n < SIGN_BIT -> with_sign s n <= U64_MAX).
  { intros [] n Hn; unfold with_sign, SIGN_BIT, U64_MAX in *; lia. }
  destruct x as [s|s| |s m e]; cbn [bits_of_double in_format].
  - intros _. by apply Hs.
  - intros _. by apply Hs.
  - done.
  - intros [Hm He]. apply Hs. change (2 ^ DOUBLE_PREC)%Z with 9007199254740992%Z in Hm.
    unfold DOUBLE_EMAX, DOUBLE_PREC, MANTISSA, SIGN_BIT in *. destruct (N.pos m <? 4503599627370496) eqn:H; reflect_bool; lia.
Qed.

(** [as f64] gives a double. *)
Lemma double_of_i64_bound z : double_of_i64 z <= U64_MAX.
Proof.
  apply bits_of_double_bound. destruct z as [|p|p]; cbn [binary_normalize]; [done| |];
    unfold binary_round; destruct (shl_align _ _ _); by apply round_in_format.
Qed.

(** So does reading a decimal literal. *)
Lemma quotient_in_format s p k :
  let '(m, e, l) := SFdiv_core_binary DOUBLE_PREC DOUBLE_EMAX (Zpos p) 0 (10 ^ Z.of_nat k) 0 in
  in_format (binary_round_aux DOUBLE_PREC DOUBLE_EMAX s m e l).
Proof.
  unfold SFdiv_core_binary. set (m' := match _ with Z0 => _ | Zpos _ => _ | Zneg _ => _ end).
  assert (Hm' : (0 <= m')%Z).
  { unfold m'. case_match; [lia| |done]. apply Z.shiftl_nonneg. lia. }
  pose proof (Z.div_pos m' (10 ^ Z.of_nat k) Hm' ltac:(lia)) as Hq. unfold Z.div in Hq.
  destruct (Z.div_eucl m' (10 ^ Z.of_nat k)) as [q r]. by apply round_in_format.
Qed.

Lemma double_of_decimal_bound s n k : double_of_decimal s n k <= U64_MAX.
Proof.
  unfold double_of_decimal. destruct n as [|p]; [by destruct s|]. pose proof (quotient_in_format s p k) as Hq.
  destruct (SFdiv_core_binary _ _ _ _ _ _) as [[m e] l]. by apply bits_of_double_bound.
Qed.

(** ** Reading the exact decimal of a double

    A double that is not a NaN is [m * 2 ^ e] for a mantissa and an exponent of
    the format.  Dividing the digits of its exact decimal by the power of ten is
    exact, and rounding an exact quotient to the format changes nothing. *)

Open Scope Z_scope.

Lemma digits2_pos_lower p : 2 ^ (Zpos (digits2_pos p) - 1) <= Zpos p.
Proof.
  induction p as [p IH|p IH|]; cbn [digits2_pos]; [| |done];
    rewrite Pos2Z.inj_succ; replace (Z.succ (Zpos (digits2_pos p)) - 1) with (Z.succ (Zpos (digits2_pos p) - 1)) by lia;
    rewrite Z.pow_succ_r by lia; lia.
Qed.

Lemma pow2_le_inv a b : 0 <= b -> 2 ^ a < 2 ^ b -> a < b.
Proof. intros Hb H. destruct (Z.lt_ge_cases a b) as [?|Hge]; [done|]. apply (Z.pow_le_mono_r 2) in Hge; lia. Qed.

(** The number of binary digits, by the powers of two around. *)
Lemma digits2_unique m d : 0 < d -> 2 ^ (d - 1) <= m -> m < 2 ^ d -> Zdigits2 m = d.
Proof.
  intros Hd Hl Hu. assert (0 < 2 ^ (d - 1)) by (apply Z.pow_pos_nonneg; lia).
  destruct m as [|p|p]; [lia| |lia]. cbn [Zdigits2].
  pose proof (digits2_pos_bound p). pose proof (digits2_pos_lower p).
  assert (d - 1 < Zpos (digits2_pos p)) by (apply pow2_le_inv; lia).
  assert (Zpos (digits2_pos p) - 1 < d) by (apply pow2_le_inv; lia). lia.
Qed.

Lemma digits2_lower m : 0 < m -> 0 < Zdigits2 m /\ 2 ^ (Zdigits2 m - 1) <= m.
Proof. destruct m as [|p|p]; [lia| |lia]. intros _. split; [done|]. apply digits2_pos_lower. Qed.

Lemma digits2_shift m n : 0 < m -> 0 <= n -> Zdigits2 (m * 2 ^ n) = Zdigits2 m + n.
Proof.
  intros Hm Hn. destruct (digits2_lower m Hm) as [Hd Hl]. pose proof (digits2_bound m ltac:(lia)) as Hu.
  assert (0 < 2 ^ n) by (apply Z.pow_pos_nonneg; lia). apply digits2_unique; [lia| |].
  - replace (Zdigits2 m + n - 1) with ((Zdigits2 m - 1) + n) by lia. rewrite Z.pow_add_r by lia. nia.
  - rewrite Z.pow_add_r by lia. nia.
Qed.

(** Shifting zeros out loses nothing. *)
Lemma shr_1_exact m : 0 < m -> shr_1 (Build_shr_record (m * 2) false false) = Build_shr_record m false false.
Proof. destruct m as [|p|p]; [lia| |lia]. intros _. by rewrite Z.mul_comm. Qed.

Lemma iter_shr_exact p : forall m, 0 < m ->
  SpecFloat.iter_pos shr_1 p (Build_shr_record (m * 2 ^ Zpos p) false false) = Build_shr_record m false false.
Proof.
  induction p as [p IH|p IH|]; intros m Hm; cbn [SpecFloat.iter_pos].
  - assert (0 < 2 ^ Zpos p) by (apply Z.pow_pos_nonneg; lia).
    replace (2 ^ Zpos p~1) with (2 ^ Zpos p * 2 ^ Zpos p * 2)
      by (replace (Zpos p~1) with (Zpos p + Zpos p + 1) by lia; rewrite !Z.pow_add_r by lia; lia).
    rewrite !Z.mul_assoc, shr_1_exact by nia. rewrite !IH by nia. done.
  - assert (0 < 2 ^ Zpos p) by (apply Z.pow_pos_nonneg; lia).
    replace (2 ^ Zpos p~0) with (2 ^ Zpos p * 2 ^ Zpos p) by (rewrite <- Z.pow_add_r by lia; f_equal; lia).
    rewrite !Z.mul_assoc, !IH by nia. done.
  - by apply shr_1_exact.
Qed.

(** Mantissas and exponents of the format. *)
Record canonical (m e : Z) : Prop := {
  can_pos : 0 < m;
  can_fexp : fexp DOUBLE_PREC DOUBLE_EMAX (Zdigits2 m + e) = e;
  can_emax : e <= DOUBLE_EMAX - DOUBLE_PREC
}.

Lemma shr_fexp_exact m e n : canonical m e -> 0 <= n ->
  shr_fexp DOUBLE_PREC DOUBLE_EMAX (m * 2 ^ n) (e - n) loc_Exact = (Build_shr_record m false false, e).
Proof.
  intros [Hm Hf _] Hn. unfold shr_fexp. cbn [shr_record_of_loc].
  rewrite digits2_shift by done. replace (Zdigits2 m + n + (e - n)) with (Zdigits2 m + e) by lia. rewrite Hf.
  unfold shr. replace (e - (e - n)) with n by lia. destruct n as [|p|p]; [|by rewrite iter_shr_exact, Z.sub_add|lia].
  f_equal; [|lia]. f_equal. lia.
Qed.

Lemma round_exact s m e n : canonical (Zpos m) e -> 0 <= n ->
  binary_round_aux DOUBLE_PREC DOUBLE_EMAX s (Zpos m * 2 ^ n) (e - n) loc_Exact = S754_finite s m e.
Proof.
  intros Hc Hn. unfold binary_round_aux. rewrite shr_fexp_exact by done.
  cbn [shr_m loc_of_shr_record round_nearest_even].
  pose proof (shr_fexp_exact (Zpos m) e 0 Hc ltac:(lia)) as H0. rewrite Z.mul_1_r, Z.sub_0_r in H0. rewrite H0.
  cbn [shr_m]. by rewrite (proj2 (Z.leb_le _ _) (can_emax _ _ Hc)).
Qed.

(** The exponent that the division starts from is at most that of the value. *)
Lemma div_exponent m e p t : canonical m e -> 0 < t -> e < 0 -> 0 < p -> p * 2 ^ (- e) = m * t ->
  fexp DOUBLE_PREC DOUBLE_EMAX (Zdigits2 p - Zdigits2 t) <= e.
Proof.
  intros [Hm Hf _] Ht He Hp Heq. unfold fexp in *. unfold DOUBLE_PREC, DOUBLE_EMAX, emin in *.
  destruct (digits2_lower p Hp) as [Hdp Hpl]. pose proof (digits2_bound t ltac:(lia)) as Htu.
  pose proof (digits2_bound m ltac:(lia)) as Hmu. destruct (digits2_lower m Hm) as [Hdm _].
  destruct (digits2_lower t Ht) as [Hdt _].
  assert (Hlt : 2 ^ (Zdigits2 p - 1 + - e) < 2 ^ (Zdigits2 m + Zdigits2 t)).
  { rewrite !Z.pow_add_r by lia. apply Z.le_lt_trans with (p * 2 ^ (- e)).
    - apply Z.mul_le_mono_nonneg_r; [apply Z.pow_nonneg; lia|done].
    - rewrite Heq. apply Z.mul_lt_mono_nonneg; lia. }
  apply pow2_le_inv in Hlt; lia.
Qed.

Lemma new_location_exact t : new_location t 0 = loc_Exact.
Proof. unfold new_location. by destruct (Z.even t). Qed.

(** [digits / 10 ^ scale] is [m * 2 ^ e]. *)
Definition decimal_of (digits : Z) (scale : nat) (m e : Z) : Prop :=
  if e <? 0 then digits * 2 ^ (- e) = m * 10 ^ Z.of_nat scale else digits = m * 2 ^ e * 10 ^ Z.of_nat scale.

Lemma double_of_decimal_exact s d scale m e :
  canonical (Zpos m) e -> decimal_of (Zpos d) scale (Zpos m) e ->
  double_of_decimal s (N.pos d) scale = bits_of_double (S754_finite s m e).
Proof.
  intros Hc Hd. cbn [double_of_decimal]. set (t := 10 ^ Z.of_nat scale) in *.
  assert (Ht : 0 < t) by (apply Z.pow_pos_nonneg; lia). unfold SFdiv_core_binary.
  set (e' := Z.min _ _). assert (He' : e' <= e /\ e' <= 0).
  { unfold decimal_of in Hd. split; [|unfold e'; lia]. unfold e'. destruct (e <? 0) eqn:Hneg.
    - apply Z.ltb_lt in Hneg. rewrite !Z.add_0_r. pose proof (div_exponent _ e (Zpos d) t Hc Ht Hneg ltac:(lia) Hd). lia.
    - apply Z.ltb_ge in Hneg. lia. }
  destruct He' as [Hle H0]. clearbody e'.
  set (m' := match _ with Z0 => _ | Zpos _ => _ | Zneg _ => _ end).
  assert (Hm' : m' = Zpos m * 2 ^ (e - e') * t).
  { assert (m' = Zpos d * 2 ^ (- e')) as ->.
    { unfold m'. replace (0 - 0 - e') with (- e') by lia. destruct (- e') as [|q|q] eqn:Hq; [lia|by rewrite Z.shiftl_mul_pow2|lia]. }
    unfold decimal_of in Hd. fold t in Hd. destruct (e <? 0) eqn:Hneg.
    - apply Z.ltb_lt in Hneg. replace (- e') with (- e + (e - e')) by lia. rewrite Z.pow_add_r by lia.
      rewrite Z.mul_assoc, Hd. lia.
    - apply Z.ltb_ge in Hneg. rewrite Hd. replace (e - e') with (e + - e') by lia. rewrite Z.pow_add_r by lia. lia. }
  assert (Hdiv : Z.div_eucl m' t = (Zpos m * 2 ^ (e - e'), 0)).
  { pose proof (Z.div_mul (Zpos m * 2 ^ (e - e')) t ltac:(lia)) as H1.
    pose proof (Z.mod_mul (Zpos m * 2 ^ (e - e')) t ltac:(lia)) as H2. unfold Z.div, Z.modulo in H1, H2.
    rewrite Hm'. destruct (Z.div_eucl _ t) as [q r]. congruence. }
  rewrite Hdiv, new_location_exact.
  pose proof (round_exact s m e (e - e') Hc ltac:(lia)) as Hr. replace (e - (e - e')) with e' in Hr by lia.
  by rewrite Hr.
Qed.

Close Scope Z_scope.

(** ** Patterns and values *)

Lemma sign_split bits : bits <= U64_MAX ->
  bits = with_sign (SIGN_BIT <=? bits) (bits mod SIGN_BIT) /\ bits mod SIGN_BIT < SIGN_BIT.
Proof.
  intros Hb. split; [|by apply N.mod_lt]. destruct (SIGN_BIT <=? bits) eqn:Hs; reflect_bool; cbn [with_sign].
  - assert (bits / SIGN_BIT = 1) as Hq by (symmetry; apply (N.div_unique _ _ _ (bits - SIGN_BIT)); unfold U64_MAX, SIGN_BIT in *; lia).
    pose proof (N.div_mod bits SIGN_BIT ltac:(done)). rewrite Hq in *. lia.
  - by rewrite N.mod_small.
Qed.

(** Exponent and fraction fields of a pattern. *)
Lemma pattern_split bits : bits <= U64_MAX ->
  bits = with_sign (SIGN_BIT <=? bits) ((bits / MANTISSA) mod 2048 * MANTISSA + bits mod MANTISSA)
  /\ (bits / MANTISSA) mod 2048 < 2048 /\ bits mod MANTISSA < MANTISSA.
Proof.
  intros Hb. destruct (sign_split bits Hb) as [Hs Hr].
  assert (Hm : bits mod SIGN_BIT = (bits / MANTISSA) mod 2048 * MANTISSA + bits mod MANTISSA).
  { change SIGN_BIT with (MANTISSA * 2048). rewrite N.Div0.mod_mul_r. lia. }
  rewrite <- Hm. split; [done|]. split; by apply N.mod_lt.
Qed.

(** A pattern that is not a NaN is the pattern of its value, and its value is in the format. *)
Lemma double_of_bits_canonical bits : bits <= U64_MAX ->
  match double_of_bits bits with
  | S754_nan => True
  | S754_finite s m e => canonical (Zpos m) e /\ bits_of_double (S754_finite s m e) = bits
  | x => bits_of_double x = bits
  end.
Proof.
  intros Hb. destruct (pattern_split bits Hb) as (Heq & He & Hm). unfold double_of_bits.
  set (s := SIGN_BIT <=? bits) in *. set (e := (bits / MANTISSA) mod 2048) in *. set (m := bits mod MANTISSA) in *.
  clearbody s e m. subst bits. clear Hb. destruct (e =? 2047) eqn:E1; reflect_bool.
  { destruct (m =? 0) eqn:E2; reflect_bool; [|done]. subst. cbn [bits_of_double]. by rewrite N.add_0_r. }
  destruct (e =? 0) eqn:E2; reflect_bool.
  - subst e. destruct m as [|p]; [done|]. cbn [bits_of_double].
    rewrite (proj2 (N.ltb_lt _ _) Hm). split; [|done]. split; [done| |done].
    unfold fexp, DOUBLE_PREC, DOUBLE_EMAX, emin. cbn [Zdigits2].
    assert (Zpos (digits2_pos p) - 1 < 52)%Z; [|lia]. apply pow2_le_inv; [done|].
    pose proof (digits2_pos_lower p). unfold MANTISSA in Hm. change (2 ^ 52)%Z with 4503599627370496%Z. lia.
  - set (q := N.succ_pos (m + MANTISSA - 1)). assert (Hq : N.pos q = m + MANTISSA).
    { unfold q. rewrite N.succ_pos_spec. unfold MANTISSA. lia. }
    cbn [bits_of_double]. rewrite Hq, (proj2 (N.ltb_ge _ _)) by lia.
    split; [split; [done| |unfold DOUBLE_EMAX, DOUBLE_PREC; lia]|].
    + assert (Hz : Zpos q = Z.of_N (m + MANTISSA)) by by rewrite <- Hq.
      rewrite (digits2_unique (Zpos q) 53).
      * unfold fexp, DOUBLE_PREC, DOUBLE_EMAX, emin. lia.
      * done.
      * rewrite Hz. change (2 ^ (53 - 1))%Z with 4503599627370496%Z. unfold MANTISSA. lia.
      * rewrite Hz. change (2 ^ 53)%Z with 9007199254740992%Z. unfold MANTISSA in *. lia.
    + f_equal. replace (Z.to_N (Z.of_N e - 1075 + 1075)) with e by lia. lia.
Qed.

Lemma double_of_bits_sign bits :
  match double_of_bits bits with
  | S754_nan => True
  | S754_zero s | S754_infinity s | S754_finite s _ _ => s = (SIGN_BIT <=? bits)
  end.
Proof. unfold double_of_bits. by repeat case_match; simplify_eq. Qed.

(** The exact decimal of a double: its digits, and how many of them are behind
    the point.  A decimal beyond the largest double stands for infinity. *)
Definition exact_decimal (x : spec_float) : N * nat :=
  match x with
  | S754_finite _ m e =>
      if (e <? 0)%Z then (N.pos m * 5 ^ Z.to_N (- e), Z.to_nat (- e)) else (N.pos m * 2 ^ Z.to_N e * 10, 1%nat)
  | S754_infinity _ => (10 ^ 401, 1%nat)
  | _ => (0, 1%nat)
  end.

Lemma exact_decimal_of s m e :
  exists d, (exact_decimal (S754_finite s m e)).1 = N.pos d
    /\ decimal_of (Zpos d) (exact_decimal (S754_finite s m e)).2 (Zpos m) e.
Proof.
  unfold exact_decimal, decimal_of. destruct (e <? 0)%Z eqn:He; cbn [fst snd].
  - apply Z.ltb_lt in He. assert (H5 : 0 < 5 ^ Z.to_N (- e)) by (by apply N.neq_0_lt_0, N.pow_nonzero).
    destruct (N.pos m * 5 ^ Z.to_N (- e)) as [|d] eqn:Hd; [lia|]. exists d. split; [done|].
    assert (Zpos d = Zpos m * 5 ^ (- e))%Z as ->.
    { change (Zpos d) with (Z.of_N (N.pos d)). rewrite <- Hd, N2Z.inj_mul, N2Z.inj_pow, Z2N.id by lia. done. }
    rewrite Z2Nat.id by lia. change 10%Z with (5 * 2)%Z. rewrite Z.pow_mul_l. lia.
  - apply Z.ltb_ge in He. assert (H2 : 0 < 2 ^ Z.to_N e) by (by apply N.neq_0_lt_0, N.pow_nonzero).
    destruct (N.pos m * 2 ^ Z.to_N e * 10) as [|d] eqn:Hd; [lia|]. exists d. split; [done|].
    change (Zpos d) with (Z.of_N (N.pos d)). rewrite <- Hd, !N2Z.inj_mul, N2Z.inj_pow, Z2N.id by lia. done.
Qed.

Lemma infinity_decimal s : double_of_decimal s (10 ^ 401) 1 = with_sign s INFINITY_BITS.
Proof. destruct s; vm_compute; reflexivity. Qed.

(** Reading the exact decimal of a double gives its pattern back. *)
Lemma double_of_exact_decimal bits :
  bits <= U64_MAX -> double_of_bits bits <> S754_nan ->
  double_of_decimal (SIGN_BIT <=? bits) (exact_decimal (double_of_bits bits)).1
    (exact_decimal (double_of_bits bits)).2 = bits.
Proof.
  intros Hb Hn. pose proof (double_of_bits_canonical bits Hb) as Hc. pose proof (double_of_bits_sign bits) as Hs.
  destruct (double_of_bits bits) as [s|s| |s m e]; [| |done|]; rewrite <- Hs.
  - exact Hc.
  - cbn [exact_decimal fst snd]. rewrite infinity_decimal. exact Hc.
  - destruct Hc as [Hc <-]. destruct (exact_decimal_of s m e) as (d & -> & Hd). by apply double_of_decimal_exact.
Qed.

(** A decimal literal never reads as a NaN. *)
Lemma with_sign_not_nan s n : n <= INFINITY_BITS -> double_of_bits (with_sign s n) <> S754_nan.
Proof.
  intros Hn. unfold double_of_bits. destruct ((with_sign s n / MANTISSA) mod 2048 =? 2047) eqn:He.
  - replace (with_sign s n mod MANTISSA =? 0) with true; [done|]. symmetry. reflect_bool.
    destruct (N.eq_dec n INFINITY_BITS) as [->|Hne]; [by destruct s|]. exfalso.
    assert (n / MANTISSA < 2047) by (apply N.Div0.div_lt_upper_bound; unfold INFINITY_BITS in *; lia).
    assert ((with_sign s n / MANTISSA) mod 2048 = n / MANTISSA); [|lia].
    destruct s; cbn [with_sign]; [|rewrite N.mod_small; lia].
    change SIGN_BIT with (2048 * MANTISSA). rewrite N.div_add_l by done.
    rewrite <- (N.Div0.add_mod_idemp_l 2048). cbn [N.add]. change (2048 mod 2048) with 0. rewrite N.add_0_l, N.mod_small; lia.
  - destruct (_ =? 0); [|done]. by destruct (with_sign s n mod MANTISSA).
Qed.

Lemma bits_not_nan x : in_format x -> double_of_bits (bits_of_double x) <> S754_nan.
Proof.
  destruct x as [s|s| |s m e]; intros Hx; [| |done|]; cbn [bits_of_double]; apply with_sign_not_nan; [done|done|].
  cbn [in_format] in Hx. unfold DOUBLE_PREC, DOUBLE_EMAX in Hx. change (2 ^ 53)%Z with 9007199254740992%Z in Hx.
  unfold INFINITY_BITS, MANTISSA in *. case_match; reflect_bool; lia.
Qed.

Lemma double_of_decimal_not_nan s n k : double_of_bits (double_of_decimal s n k) <> S754_nan.
Proof.
  unfold double_of_decimal. destruct n as [|p]; [by destruct s|]. pose proof (quotient_in_format s p k) as Hq.
  destruct (SFdiv_core_binary _ _ _ _ _ _) as [[m e] l]. by apply bits_not_nan.
Qed.
