(* ===== verification/Extension.v ===== *)
(** * Extension: the static extension registry of crate [rdbms_extension]

    Names are compared after ASCII lowercasing.  The two [BTreeMap]s of the
    registry are only searched and inserted into, so they are finite maps. *)

From stdpp Require Import gmap strings.
From S2P Require Import Prelude Core Bytes Double.

(** [rdbms_ext_abi]. *)
Definition RDBMS_EXT_ABI_VERSION : N := 1.
Definition abi_version_supported (version : N) : bool := version =? RDBMS_EXT_ABI_VERSION.

(** ** ASCII case *)

Definition ascii_lower (b : byte) : byte :=
  if byte_in 65 90 b then byte_of (Byte.to_N b + 32) else b.
Definition ascii_upper (b : byte) : byte :=
  if byte_in 97 122 b then byte_of (Byte.to_N b - 32) else b.
Definition map_bytes (f : byte -> byte) (s : string) : string :=
  string_of_bytes (f <$> bytes_of_string s).
Definition to_ascii_lowercase : string -> string := map_bytes ascii_lower.
Definition to_ascii_uppercase : string -> string := map_bytes ascii_upper.

Definition normalize_name (name : string) : string := to_ascii_lowercase name.

(** ** Descriptors *)

Inductive ExtensionKind : Type := Static.
Definition kind_as_str (k : ExtensionKind) : string := match k with Static => "static" end.

Inductive ScalarArity : Type := Exact (expected : N).
Definition accepts (a : ScalarArity) (n : N) : bool :=
  match a with Exact expected => expected =? n end.
Definition describe (a : ScalarArity) : string := match a with Exact expected => pretty expected end.

Record ScalarFunction : Type := mkScalarFunction {
  fn_name : string;
  arity : ScalarArity;
  return_type : string;
  eval : list Value -> DbResult Value
}.

Record ExtensionDescriptor : Type := mkExtensionDescriptor {
  desc_name : string;
  desc_abi_version : N;
  desc_kind : ExtensionKind;
  desc_functions : list ScalarFunction
}.

Record ExtensionRegistry : Type := mkExtensionRegistry {
  reg_extensions : gmap string ExtensionDescriptor;
  reg_functions : gmap string ScalarFunction
}.

(** ** The built-in functions

    Indexing [args[0]] panics on an empty slice. *)

Definition arg0 (args : list Value) : DbResult Value := or_panic (args !! 0%nat).

(** [value.chars().count()]: one character per byte that is no continuation. *)
Definition char_count (s : string) : N :=
  len (filter (fun b => is_continuation b = false) (bytes_of_string s)).

Definition length_fn (args : list Value) : DbResult Value :=
  let? v := arg0 args in
  match v with
  | Null => Ok Null
  | Text value =>
      if (Z.of_N (char_count value) <=? I64_MAX)%Z then Ok (Integer (Z.of_N (char_count value)))
      else Err (User "text length does not fit into INT")
  | _ => Err (User "length() expects TEXT")
  end.

Definition lower (args : list Value) : DbResult Value :=
  let? v := arg0 args in
  match v with
  | Null => Ok Null
  | Text value => Ok (Text (to_ascii_lowercase value))
  | _ => Err (User "lower() expects TEXT")
  end.

Definition upper (args : list Value) : DbResult Value :=
  let? v := arg0 args in
  match v with
  | Null => Ok Null
  | Text value => Ok (Text (to_ascii_uppercase value))
  | _ => Err (User "upper() expects TEXT")
  end.

Definition abs_value (args : list Value) : DbResult Value :=
  let? v := arg0 args in
  match v with
  | Null => Ok Null
  | Integer value =>
      if (value =? I64_MIN)%Z then Err (User "abs(INT) overflow") else Ok (Integer (Z.abs value))
  | Double value => Ok (Double (double_abs value))
  | _ => Err (User "abs() expects INT or DOUBLE")
  end.

Definition typeof_value (args : list Value) : DbResult Value :=
  let? v := arg0 args in
  Ok (Text (match v with
            | Null => "NULL"
            | Integer _ => "INT"
            | Text _ => "TEXT"
            | Double _ => "DOUBLE"
            end)).

Definition rdbms_version (args : list Value) : DbResult Value :=
  match args with
  | [] => Ok (Text "rdbms-stage9-extension-v0")
  | _ => Err (InternalInvariant "arity check did not run")
  end.

Definition STDLIB_FUNCTIONS : list ScalarFunction := [
  mkScalarFunction "length" (Exact 1) "INT" length_fn;
  mkScalarFunction "lower" (Exact 1) "TEXT" lower;
  mkScalarFunction "upper" (Exact 1) "TEXT" upper;
  mkScalarFunction "abs" (Exact 1) "DYNAMIC" abs_value;
  mkScalarFunction "typeof" (Exact 1) "TEXT" typeof_value;
  mkScalarFunction "rdbms_version" (Exact 0) "TEXT" rdbms_version
].

Definition STDLIB_EXTENSION : ExtensionDescriptor :=
  mkExtensionDescriptor "stdlib" RDBMS_EXT_ABI_VERSION Static STDLIB_FUNCTIONS.

Definition builtin_extension_descriptor (name : string) : DbResult ExtensionDescriptor :=
  if bool_decide (normalize_name name = "stdlib") then Ok STDLIB_EXTENSION
  else Err (Extension ("unknown static extension: " +:+ normalize_name name)).

Definition builtin_extension_names : list string := ["stdlib"].

(** ** The registry *)

Definition registry_new : ExtensionRegistry := mkExtensionRegistry ∅ ∅.

Definition is_loaded (name : string) (r : ExtensionRegistry) : bool :=
  bool_decide (is_Some (reg_extensions r !! normalize_name name)).

Definition scalar_function (name : string) (r : ExtensionRegistry) : option ScalarFunction :=
  reg_functions r !! normalize_name name.

(** The first loop of [load]: no function may be registered already. *)
Definition check_function (f : ScalarFunction) : db ExtensionRegistry unit := fun r =>
  match reg_functions r !! normalize_name (fn_name f) with
  | Some _ => (Err (Extension ("scalar function already registered: " +:+ fn_name f)), r)
  | None => (Ok tt, r)
  end.

(** The second loop of [load]. *)
Definition insert_function (f : ScalarFunction) : db ExtensionRegistry unit :=
  modify (fun r => mkExtensionRegistry (reg_extensions r)
                     (<[normalize_name (fn_name f) := f]> (reg_functions r))).

Definition load (d : ExtensionDescriptor) : db ExtensionRegistry unit :=
  if negb (abi_version_supported (desc_abi_version d))
  then throw (Extension ("extension '" +:+ desc_name d +:+ "' requires unsupported ABI version "
                         +:+ pretty (desc_abi_version d))) else
  let normalized := normalize_name (desc_name d) in
  let! loaded := gets (fun r => reg_extensions r !! normalized) in
  match loaded with
  | Some _ => ret tt
  | None =>
      let! _ := for_each check_function (desc_functions d) in
      let! _ := for_each insert_function (desc_functions d) in
      modify (fun r => mkExtensionRegistry (<[normalized := d]> (reg_extensions r)) (reg_functions r))
  end.

Definition load_static (name : string) : db ExtensionRegistry ExtensionDescriptor :=
  let! d := lift (builtin_extension_descriptor name) in
  let! _ := load d in
  ret d.

Definition call_scalar (name : string) (args : list Value) (r : ExtensionRegistry) : DbResult Value :=
  let? f := ok_or (scalar_function name r) (User ("unknown scalar function: " +:+ name)) in
  if negb (accepts (arity f) (len args))
  then Err (User ("scalar function '" +:+ fn_name f +:+ "' expects " +:+ describe (arity f)
                  +:+ " argument(s), got " +:+ pretty (len args)))
  else eval f args.

(** The loop of [registry_from_installed_extensions]. *)
Definition install (e : string * N * string) : db ExtensionRegistry unit :=
  let '(name, abi, kind) := e in
  if negb (bool_decide (kind = kind_as_str Static))
  then throw (Extension ("unsupported extension kind for '" +:+ name +:+ "': " +:+ kind)) else
  let! d := lift (builtin_extension_descriptor name) in
  if negb (desc_abi_version d =? abi)
  then throw (Extension ("installed extension '" +:+ name +:+ "' ABI mismatch: catalog="
                         +:+ pretty abi +:+ ", runtime=" +:+ pretty (desc_abi_version d)))
  else load d.

Definition registry_from_installed_extensions (installed : list (string * N * string))
  : DbResult ExtensionRegistry :=
  let '(r, registry) := for_each install installed registry_new in
  let? _ := r in Ok registry.
