(* ===== verification/ExtensionTheorems.v ===== *)
(** * ExtensionTheorems: what the extension registry promises *)

From stdpp Require Import gmap strings.
From S2P Require Import Prelude Core Bytes Double Extension.

(** ** Values as machine values *)

Definition value_typed (v : Value) : Prop :=
  match v with
  | Null => True
  | Text s => string_ok s
  | Integer z => (I64_MIN <= z <= I64_MAX)%Z
  | Double bits => bits <= U64_MAX
  end.

(** ** ASCII case mapping keeps UTF-8 *)

Definition keeps_utf8 (f : byte -> byte) : Prop :=
  forall b, if byte_in 0 127 b then byte_in 0 127 (f b) = true else f b = b.

Lemma keeps_utf8_lower : keeps_utf8 ascii_lower.
Proof. intros []; reflexivity. Qed.
Lemma keeps_utf8_upper : keeps_utf8 ascii_upper.
Proof. intros []; reflexivity. Qed.

Lemma keeps_high f b lo hi :
  keeps_utf8 f -> 128 <= lo -> byte_in lo hi b = true -> f b = b.
Proof.
  intros Hf Hlo Hb. specialize (Hf b). unfold byte_in in *. reflect_bool.
  destruct (_ && (_ <=? 127)) eqn:H1; [|done]. reflect_bool. lia.
Qed.

Lemma keeps_second f lead b (p : byte -> byte -> bool) :
  keeps_utf8 f -> (p = second_of_three \/ p = second_of_four) -> p lead b = true -> f b = b.
Proof.
  intros Hf Hp Hb. assert (H128 : byte_in 128 191 b = true).
  { destruct Hp as [-> | ->]; unfold second_of_three, second_of_four, is_continuation in Hb;
      repeat match type of Hb with context [if ?c then _ else _] => destruct c end; unfold byte_in in *; reflect_bool;
      rewrite (proj2 (N.leb_le _ _)) by lia; rewrite (proj2 (N.leb_le _ _)) by lia; done. }
  by apply (keeps_high f b 128 191).
Qed.

Lemma utf8_valid_map f bs : keeps_utf8 f -> utf8_valid bs = true -> utf8_valid (f <$> bs) = true.
Proof.
  intros Hf. induction bs as [bs IH] using (induction_ltof1 _ (@length byte)).
  assert (Hcont : forall b, is_continuation b = true -> f b = b) by (intros b; by apply keeps_high).
  destruct bs as [|b0 r0]; [done|]. cbn [utf8_valid fmap list_fmap].
  pose proof (Hf b0) as H0. destruct (byte_in 0 127 b0) eqn:E0.
  { rewrite H0. apply IH. unfold ltof. simpl. lia. }
  rewrite H0, E0. destruct r0 as [|b1 r1]; [done|]. cbn [fmap list_fmap].
  destruct (byte_in 194 223 b0).
  { intros [Hc Hr]%andb_true_iff. rewrite (Hcont b1 Hc), Hc. apply IH; [unfold ltof; simpl; lia|done]. }
  destruct r1 as [|b2 r2]; [done|]. cbn [fmap list_fmap]. destruct (byte_in 224 239 b0).
  { intros [[Hs Hc]%andb_true_iff Hr]%andb_true_iff.
    rewrite (keeps_second f b0 b1 _ Hf (or_introl eq_refl) Hs), Hs, (Hcont b2 Hc), Hc.
    apply IH; [unfold ltof; simpl; lia|done]. }
  destruct r2 as [|b3 r3]; [done|]. cbn [fmap list_fmap].
  intros [[[[He Hs]%andb_true_iff Hc]%andb_true_iff Hc3]%andb_true_iff Hr]%andb_true_iff.
  rewrite He, (keeps_second f b0 b1 _ Hf (or_intror eq_refl) Hs), Hs, (Hcont b2 Hc), Hc, (Hcont b3 Hc3), Hc3.
  apply IH; [unfold ltof; simpl; lia|done].
Qed.

Lemma map_bytes_ok f s : keeps_utf8 f -> string_ok s -> string_ok (map_bytes f s).
Proof. intros Hf Hs. unfold string_ok, map_bytes. rewrite bytes_of_string_of_bytes. by apply utf8_valid_map. Qed.

Lemma map_bytes_idemp f s : (forall b, f (f b) = f b) -> map_bytes f (map_bytes f s) = map_bytes f s.
Proof.
  intros Hf. unfold map_bytes. rewrite bytes_of_string_of_bytes. f_equal.
  rewrite <- list_fmap_compose. apply list_fmap_ext. intros _ b _. apply Hf.
Qed.

Lemma normalize_name_idemp s : normalize_name (normalize_name s) = normalize_name s.
Proof. apply map_bytes_idemp. intros []; reflexivity. Qed.

(** ** The built-in functions *)

Lemma double_abs_typed bits : bits <= U64_MAX -> double_abs bits <= U64_MAX.
Proof. intros Hb. unfold double_abs. etrans; [|exact Hb]. rewrite N.clearbit_spec'. apply N.ldiff_le_l. Qed.

(** A call that the arity check let through: a value of the right kind or a user error. *)
Definition call_ok (r : DbResult Value) : Prop :=
  match r with Ok v => value_typed v | Err (User _) => True | _ => False end.

Lemma one_argument (args : list Value) : accepts (Exact 1) (len args) = true -> exists v, args = [v].
Proof. cbn [accepts]. intros Ha%N.eqb_eq. destruct args as [|v [|]]; simpl in Ha; try lia. by exists v. Qed.

Lemma stdlib_eval_ok f args :
  f ∈ STDLIB_FUNCTIONS -> accepts (arity f) (len args) = true -> Forall value_typed args ->
  call_ok (eval f args).
Proof.
  unfold STDLIB_FUNCTIONS. rewrite !elem_of_cons, elem_of_nil.
  intros Hf Ha Hty. destruct_or! Hf; try done; subst f; cbn [arity eval] in *;
    try (apply one_argument in Ha as [v ->]; apply Forall_cons in Hty as [Hv _];
         destruct v; cbn in Hv |- *; try done).
  - destruct (Z.of_N (char_count value) <=? I64_MAX)%Z eqn:Hl; [|done]. apply Z.leb_le in Hl.
    cbn. unfold I64_MIN. lia.
  - by apply map_bytes_ok, Hv; apply keeps_utf8_lower.
  - by apply map_bytes_ok, Hv; apply keeps_utf8_upper.
  - destruct (value =? I64_MIN)%Z eqn:He; [done|]. apply Z.eqb_neq in He. cbn. unfold I64_MIN, I64_MAX in *. lia.
  - by apply double_abs_typed.
  - cbn [accepts] in Ha. apply N.eqb_eq in Ha. destruct args; [|simpl in Ha; lia]. done.
Qed.

(** ** Loading *)

Lemma check_functions_run fs r :
  for_each check_function fs r
  = match find (fun f => bool_decide (is_Some (reg_functions r !! normalize_name (fn_name f)))) fs with
    | Some f => (Err (Extension ("scalar function already registered: " +:+ fn_name f)), r)
    | None => (Ok tt, r)
    end.
Proof.
  induction fs as [|f fs IH]; [done|]. cbn [for_each find]. unfold bind_st, check_function at 1.
  destruct (reg_functions r !! normalize_name (fn_name f)) as [g|] eqn:Hg.
  - by rewrite bool_decide_true by done.
  - rewrite bool_decide_false by (by intros []). exact IH.
Qed.

Definition add_functions (fs : list ScalarFunction) (m : gmap string ScalarFunction) : gmap string ScalarFunction :=
  foldl (fun m f => <[normalize_name (fn_name f) := f]> m) m fs.

Lemma insert_functions_run fs r :
  for_each insert_function fs r
  = (Ok tt, mkExtensionRegistry (reg_extensions r) (add_functions fs (reg_functions r))).
Proof.
  revert r. induction fs as [|f fs IH]; intros r; [by destruct r|].
  cbn [for_each]. unfold bind_st, insert_function at 1, modify. by rewrite IH.
Qed.

Lemma add_functions_cons f fs m :
  add_functions (f :: fs) m = add_functions fs (<[normalize_name (fn_name f) := f]> m).
Proof. done. Qed.

Lemma add_functions_other fs m n :
  n ∉ (normalize_name ∘ fn_name <$> fs) -> add_functions fs m !! n = m !! n.
Proof.
  revert m. induction fs as [|f fs IH]; intros m; [done|].
  cbn [fmap list_fmap compose]. intros [Hn Hr]%not_elem_of_cons. rewrite add_functions_cons, IH by done.
  by rewrite lookup_insert_ne.
Qed.

Lemma add_functions_in fs m f :
  NoDup (normalize_name ∘ fn_name <$> fs) -> f ∈ fs ->
  add_functions fs m !! normalize_name (fn_name f) = Some f.
Proof.
  revert m. induction fs as [|g fs IH]; intros m; [by intros _ ?%not_elem_of_nil|].
  cbn [fmap list_fmap compose]. intros [Hg Hnd]%NoDup_cons [->|Hf]%elem_of_cons; rewrite add_functions_cons; [|by apply IH].
  rewrite add_functions_other by done. apply lookup_insert_eq.
Qed.

Lemma add_functions_source fs m n f :
  add_functions fs m !! n = Some f -> f ∈ fs \/ m !! n = Some f.
Proof.
  revert m. induction fs as [|g fs IH]; intros m; [by right|].
  rewrite add_functions_cons. intros [Hf|Hf]%IH; [left; by right|].
  apply lookup_insert_Some in Hf as [[_ <-]|[_ Hf]]; [left; by left|by right].
Qed.

(** Loading an extension is all or nothing.  A failed [load] leaves the
    registry as it was; loading a loaded extension again changes nothing; else
    the extension is loaded, exactly its functions are callable under their
    names in any case, and every other name means what it meant before. *)
Theorem load_all_or_nothing d r :
  NoDup (normalize_name ∘ fn_name <$> desc_functions d) ->
  match load d r with
  | (Ok _, r') =>
      is_loaded (desc_name d) r' = true
      /\ (is_loaded (desc_name d) r = true -> r' = r)
      /\ (is_loaded (desc_name d) r = false ->
          (forall f, f ∈ desc_functions d -> scalar_function (fn_name f) r = None /\ scalar_function (fn_name f) r' = Some f)
          /\ forall name, normalize_name name ∉ (normalize_name ∘ fn_name <$> desc_functions d) ->
               scalar_function name r' = scalar_function name r)
  | (Err (Extension _), r') => r' = r
  | _ => False
  end.
Proof.
  intros Hnd. unfold load. destruct (negb _); [done|]. unfold bind_st, gets, is_loaded.
  destruct (reg_extensions r !! normalize_name (desc_name d)) as [d'|] eqn:Hl.
  { cbn. rewrite Hl. done. }
  rewrite check_functions_run. destruct (find _ _) as [g|] eqn:Hg; [done|].
  rewrite insert_functions_run. cbn. rewrite lookup_insert_eq. split; [done|]. split; [done|]. intros _. split.
  - intros f Hf. unfold scalar_function. cbn. split; [|by apply add_functions_in].
    pose proof (find_none _ _ Hg f (proj1 (list_elem_of_In _ _) Hf)) as Hn. cbn in Hn.
    apply bool_decide_eq_false in Hn. by apply eq_None_not_Some.
  - intros name Hn. unfold scalar_function. cbn. by apply add_functions_other.
Qed.

Lemma stdlib_names : NoDup (normalize_name ∘ fn_name <$> STDLIB_FUNCTIONS).
Proof. apply (bool_decide_unpack _). vm_compute. exact I. Qed.

Lemma load_all_or_nothing_witness :
  scalar_function "UPPER" (load STDLIB_EXTENSION registry_new).2
  = Some (mkScalarFunction "upper" (Exact 1) "TEXT" upper).
Proof.
  pose proof (load_all_or_nothing STDLIB_EXTENSION registry_new stdlib_names) as Hl.
  assert (Ho : (load STDLIB_EXTENSION registry_new).1 = Ok tt) by (vm_compute; reflexivity).
  destruct (load STDLIB_EXTENSION registry_new) as [o r']. cbn [fst] in Ho. subst o.
  destruct Hl as (_ & _ & Hnew). apply (proj1 (Hnew eq_refl) (mkScalarFunction "upper" (Exact 1) "TEXT" upper)).
  do 2 right. left.
Defined.

(** ** Registries built from the catalog *)

Definition builtin_registry (r : ExtensionRegistry) : Prop :=
  forall n f, reg_functions r !! n = Some f -> f ∈ STDLIB_FUNCTIONS.

Lemma load_builtin r :
  builtin_registry r -> builtin_registry (load STDLIB_EXTENSION r).2.
Proof.
  intros Hr. unfold load. cbn [abi_version_supported desc_abi_version STDLIB_EXTENSION].
  destruct (negb _); [done|]. unfold bind_st, gets. destruct (reg_extensions r !! _); [done|].
  rewrite check_functions_run. destruct (find _ _); [done|]. rewrite insert_functions_run.
  unfold modify. cbn [snd fst]. intros n f Hf. cbn [reg_functions] in Hf.
  apply add_functions_source in Hf as [Hf|Hf]; [done|by eapply Hr].
Qed.

Lemma install_builtin e r : builtin_registry r -> builtin_registry (install e r).2.
Proof.
  destruct e as [[name abi] kind]. intros Hr. unfold install. destruct (negb _); [done|].
  unfold bind_st, lift, builtin_extension_descriptor. case_bool_decide; [|done].
  destruct (negb _); [done|]. by apply load_builtin.
Qed.

Lemma installed_builtin installed r : builtin_registry r -> builtin_registry (for_each install installed r).2.
Proof.
  revert r. induction installed as [|e es IH]; intros r Hr; [done|]. cbn [for_each].
  pose proof (install_builtin e r Hr) as Hi. unfold bind_st. destruct (install e r) as [[[]|x|] r']; cbn in *; auto.
Qed.

Lemma installed_registry_builtin installed r :
  registry_from_installed_extensions installed = Ok r -> builtin_registry r.
Proof.
  intros Hr. unfold registry_from_installed_extensions in Hr.
  pose proof (installed_builtin installed registry_new) as Hi.
  destruct (for_each install installed registry_new) as [[[]|e|] r']; try done. injection Hr as <-.
  apply Hi. by intros n f Hf.
Qed.

Lemma builtin_call_ok r name args :
  builtin_registry r -> Forall value_typed args -> call_ok (call_scalar name args r).
Proof.
  intros Hb Hty. unfold call_scalar, scalar_function. destruct (reg_functions r !! normalize_name name) as [f|] eqn:Hf; [|done].
  cbn [ok_or bind_outcome]. destruct (accepts (arity f) (len args)) eqn:Ha; [|done]. cbn [negb].
  apply stdlib_eval_ok; [by eapply Hb|done|done].
Qed.

(** A registry is built, or the extension is refused. *)
Definition ok_or_extension {A} (r : DbResult A) : Prop :=
  match r with Ok _ | Err (Extension _) => True | _ => False end.

Lemma load_ok_or_extension d r : ok_or_extension (load d r).1.
Proof.
  unfold load. destruct (negb _); [done|]. unfold bind_st, gets. destruct (reg_extensions r !! _); [done|].
  rewrite check_functions_run. destruct (find _ _); [done|]. by rewrite insert_functions_run.
Qed.

Lemma builtin_ok_or_extension name : ok_or_extension (builtin_extension_descriptor name).
Proof. unfold builtin_extension_descriptor. by case_bool_decide. Qed.

Lemma install_ok_or_extension e r : ok_or_extension (install e r).1.
Proof.
  destruct e as [[name abi] kind]. unfold install. destruct (negb _); [done|].
  unfold bind_st, lift. pose proof (builtin_ok_or_extension name) as Hb. destruct (builtin_extension_descriptor name) as [d|[]|]; try done.
  destruct (negb _); [done|]. apply load_ok_or_extension.
Qed.

Lemma registry_ok_or_extension installed : ok_or_extension (registry_from_installed_extensions installed).
Proof.
  unfold registry_from_installed_extensions. assert (Hi : forall r, ok_or_extension (for_each install installed r).1).
  { induction installed as [|e es IH]; intros r; [done|]. cbn [for_each]. unfold bind_st.
    pose proof (install_ok_or_extension e r) as He. destruct (install e r) as [[[]|[]|] r']; done. }
  specialize (Hi registry_new). by destruct (for_each install installed registry_new) as [[[]|[]|] r'].
Qed.

(** C18. Calls of extension functions are safe.  Whatever the catalog lists as
    installed, a registry that could be built from it answers a call with a
    value of machine type or with a user error: the arity check guards every
    argument access, no call panics, and text stays UTF-8. *)
Theorem scalar_calls_safe installed r name args :
  registry_from_installed_extensions installed = Ok r -> Forall value_typed args ->
  call_ok (call_scalar name args r).
Proof. intros Hr. by apply builtin_call_ok, (installed_registry_builtin installed). Qed.

Lemma scalar_calls_safe_witness :
  exists r, registry_from_installed_extensions [("stdlib", 1, "static")] = Ok r
    /\ call_ok (call_scalar "Length" [Text "abc"] r) /\ call_scalar "Length" [Text "abc"] r = Ok (Integer 3).
Proof.
  assert (Ho : (let? r := registry_from_installed_extensions [("stdlib", 1, "static")] in
                call_scalar "Length" [Text "abc"] r) = Ok (Integer 3)) by (vm_compute; reflexivity).
  destruct (registry_from_installed_extensions [("stdlib", 1, "static")]) as [r|e|] eqn:E;
    [|discriminate Ho|discriminate Ho].
  exists r. split; [reflexivity|]. split; [|exact Ho].
  apply (scalar_calls_safe [("stdlib", 1, "static")] r "Length" [Text "abc"]); [exact E|].
  constructor; [vm_compute; reflexivity|constructor].
Defined.
