(* ===== verification/SqlRow.v ===== *)
(** * SqlRow: the row codec of crate [rdbms_sql]

    A SQL row is the record of a heap table: a magic, a version, the number of
    values and one tagged value after the other. *)

From S2P Require Import Prelude Core Bytes Page.

Definition SQL_ROW_MAGIC : list byte := [x52; x44; x42; x52].
Definition SQL_ROW_VERSION : N := 1.
Definition TAG_NULL : N := 0.
Definition TAG_INTEGER : N := 1.
Definition TAG_TEXT : N := 2.
Definition TAG_DOUBLE : N := 3.

Definition encode_value (v : Value) : db (list byte) unit :=
  match v with
  | Null => push_uint 1 TAG_NULL
  | Integer value =>
      let! _ := push_uint 1 TAG_INTEGER in
      push_uint 8 (i64_to_bits value)
  | Text value =>
      let! _ := push_uint 1 TAG_TEXT in
      let! _ := write_u32_len (string_len value) "SQL text literal length" in
      extend_from_slice (bytes_of_string value)
  | Double bits =>
      let! _ := push_uint 1 TAG_DOUBLE in
      push_uint 8 bits
  end.

Definition encode_row_to (values : list Value) : db (list byte) unit :=
  let! _ := extend_from_slice SQL_ROW_MAGIC in
  let! _ := push_uint 2 SQL_ROW_VERSION in
  let! _ := write_u16_len (len values) "SQL row value count" in
  for_each encode_value values.

Definition encode_row (values : list Value) : DbResult (list byte) :=
  let '(r, bs) := encode_row_to values [] in let? _ := r in Ok bs.

Definition row_texts : cursor_texts :=
  mkCursorTexts "SQL row offset overflow" "SQL row is truncated" "SQL row has trailing bytes".

Definition decode_value : db DecodeCursor Value :=
  let! tag := cursor_u8 row_texts in
  if tag =? TAG_NULL then ret Null
  else if tag =? TAG_INTEGER then
    let! value := cursor_i64 row_texts in ret (Integer value)
  else if tag =? TAG_TEXT then
    let! n := cursor_u32 row_texts in
    let! bs := read_bytes row_texts n in
    let! text := lift (from_utf8 "SQL text value is not valid UTF-8" bs) in
    ret (Text text)
  else if tag =? TAG_DOUBLE then
    let! bits := cursor_u64 row_texts in ret (Double bits)
  else throw (Corruption ("unknown SQL row value tag: " +:+ pretty tag)).

Definition decode_row_fields : db DecodeCursor (list Value) :=
  let! magic := read_bytes row_texts 4 in
  if negb (bool_decide (magic = SQL_ROW_MAGIC)) then throw (Corruption "invalid SQL row magic") else
  let! version := cursor_u16 row_texts in
  if negb (version =? SQL_ROW_VERSION)
  then throw (Corruption ("unsupported SQL row version: " +:+ pretty version)) else
  let! value_count := cursor_u16 row_texts in
  repeat_st (N.to_nat value_count) decode_value.

Definition decode_row (bs : list byte) : DbResult (list Value) :=
  fst ((let! values := decode_row_fields in
        let! _ := finish row_texts in
        ret values) (cursor_new bs)).
