(* ===== verification/SqlRowTheorems.v ===== *)
(** * SqlRowTheorems: SQL rows and their records *)

From S2P Require Import Prelude Core Bytes Page CatalogFacts CatalogStoreFacts Double Extension ExtensionTheorems SqlRow.

(** ** The format *)

Definition value_bytes (v : Value) : list byte :=
  match v with
  | Null => le_encode 1 TAG_NULL
  | Integer value => le_encode 1 TAG_INTEGER ++ le_encode 8 (i64_to_bits value)
  | Text value => le_encode 1 TAG_TEXT ++ le_encode 4 (string_len value) ++ bytes_of_string value
  | Double bits => le_encode 1 TAG_DOUBLE ++ le_encode 8 bits
  end.

Definition row_bytes (values : list Value) : list byte :=
  SQL_ROW_MAGIC ++ le_encode 2 SQL_ROW_VERSION ++ le_encode 2 (len values) ++ (values ≫= value_bytes).

(** The lengths fit their fields. *)
Definition value_fits (v : Value) : Prop :=
  match v with Text s => string_len s <= U32_MAX | _ => True end.
Definition row_fits (values : list Value) : Prop := len values <= U16_MAX /\ Forall value_fits values.

(** ** Encoding *)

Lemma writes_value v : value_fits v -> writes (encode_value v) (value_bytes v).
Proof.
  destruct v; cbn [encode_value value_bytes value_fits]; intros Hf.
  - apply writes_extend.
  - apply writes_bind; [apply writes_extend|]. apply writes_bind; [by apply writes_push_len|apply writes_extend].
  - apply writes_bind; apply writes_extend.
  - apply writes_bind; apply writes_extend.
Qed.

Lemma writes_values vs : Forall value_fits vs -> writes (for_each encode_value vs) (vs ≫= value_bytes).
Proof.
  induction 1 as [|v vs Hv _ IH]; [apply writes_ret|]. cbn [for_each]. rewrite bind_cons.
  apply writes_bind; [by apply writes_value|exact IH].
Qed.

Lemma encode_row_fits vs : row_fits vs -> encode_row vs = Ok (row_bytes vs).
Proof.
  intros [Hl Hf]. assert (Hw : writes (encode_row_to vs) (row_bytes vs)).
  { apply writes_bind; [apply writes_extend|]. apply writes_bind; [apply writes_extend|].
    apply writes_bind; [by apply writes_push_len|by apply writes_values]. }
  unfold encode_row. by rewrite Hw.
Qed.

Lemma only_user_value v : only_user (encode_value v).
Proof. destruct v; cbn [encode_value]; auto 10 with user. Qed.
#[export] Hint Resolve only_user_value : user.

Lemma only_user_row vs : only_user (encode_row_to vs).
Proof. unfold encode_row_to. auto 10 with user. Qed.

(** A value that does not fit stops the encoder. *)
Lemma encode_value_Ok v b b' : encode_value v b = (Ok tt, b') -> value_fits v.
Proof.
  destruct v; cbn [encode_value value_fits]; try done. unfold bind_st at 1.
  cbn [push_uint extend_from_slice modify]. unfold bind_st, write_u32_len, push_len.
  destruct (string_len value <=? U32_MAX) eqn:Hl; [by apply N.leb_le in Hl|done].
Qed.

Lemma encode_values_Ok vs b b' : for_each encode_value vs b = (Ok tt, b') -> Forall value_fits vs.
Proof.
  revert b. induction vs as [|v vs IH]; intros b; [constructor|]. cbn [for_each].
  intros ([] & b1 & Hv & Hs)%bind_st_inv. constructor; [by eapply encode_value_Ok|by eapply IH].
Qed.

Lemma encode_row_Ok vs bs : encode_row vs = Ok bs -> row_fits vs.
Proof.
  unfold encode_row. destruct (encode_row_to vs []) as [[[]|e|] b'] eqn:He; [|done..]. intros _.
  apply bind_st_inv in He as ([] & b1 & _ & He). apply bind_st_inv in He as ([] & b2 & _ & He).
  apply bind_st_inv in He as ([] & b3 & Hc & He). split; [|by eapply encode_values_Ok].
  unfold write_u16_len, push_len in Hc. destruct (len vs <=? U16_MAX) eqn:Hl; [by apply N.leb_le in Hl|done].
Qed.

(** ** Decoding

    [decodes r enc P]: whatever [r] accepts is a value with [P], and what it
    consumed is the encoding of that value. *)

Definition decodes {A} (r : db DecodeCursor A) (enc : A -> list byte) (P : A -> Prop) : Prop :=
  forall pre rest a c', r (mkCursor (pre ++ rest) (len pre)) = (Ok a, c') ->
    P a /\ exists post, rest = enc a ++ post /\ c' = mkCursor (pre ++ enc a ++ post) (len (pre ++ enc a)).

Section Decodes.
Context (texts : cursor_texts).

Lemma decodes_ret {A} (a : A) : decodes (ret a) (fun _ => []) (fun b => b = a).
Proof.
  intros pre rest b c' [= <- <-]. split; [done|]. exists rest. by rewrite app_nil_r.
Qed.

(** The encoding of the whole is that of the first part followed by the rest. *)
Lemma decodes_bind {A B} (r : db DecodeCursor A) (k : A -> db DecodeCursor B) e1 P1 (e2 : A -> B -> list byte) P2 enc P :
  decodes r e1 P1 -> (forall a, P1 a -> decodes (k a) (e2 a) (P2 a)) ->
  (forall a b, P1 a -> P2 a b -> P b /\ enc b = e1 a ++ e2 a b) ->
  decodes (bind_st r k) enc P.
Proof.
  intros H1 H2 He pre rest b c' Hrun. apply bind_st_inv in Hrun as (a & c1 & Hr & Hk).
  destruct (H1 _ _ _ _ Hr) as (Ha & post & -> & ->). rewrite app_assoc in Hk.
  destruct (H2 a Ha _ _ _ _ Hk) as (Hb & post2 & -> & ->). destruct (He a b Ha Hb) as [HP ->].
  split; [done|]. exists post2. by rewrite !app_assoc.
Qed.

Lemma decodes_bytes n : decodes (read_bytes texts n) (fun bs => bs) (fun bs => len bs = n).
Proof.
  intros pre rest bs c'. unfold read_bytes. cbn [cur_bytes cur_offset].
  destruct (checked_add USIZE_MAX (len pre) n) as [stop|] eqn:Ha; [|done].
  apply checked_add_Some in Ha as [-> _].
  destruct (len (pre ++ rest) <? len pre + n) eqn:Hl; [done|]. reflect_bool. rewrite length_app in Hl.
  rewrite slice_checked_ok by (rewrite ?length_app; lia). intros [= <- <-].
  replace (len pre + n - len pre) with n by lia.
  assert (Hs : slice (pre ++ rest) (len pre) n = take (N.to_nat n) rest).
  { unfold slice. rewrite Nat2N.id, drop_app_length. done. }
  rewrite Hs. split; [rewrite length_take; lia|]. exists (drop (N.to_nat n) rest).
  split; [by rewrite take_drop|]. rewrite take_drop. f_equal. rewrite length_app, length_take. lia.
Qed.

Lemma decodes_uint w (wn : nat) :
  w = N.of_nat wn -> decodes (cursor_uint texts w) (le_encode wn) (fun v => v < 256 ^ w).
Proof.
  intros ->. unfold cursor_uint. eapply decodes_bind; [apply decodes_bytes|intros; apply decodes_ret|].
  cbn beta. intros bs v Hl ->. apply (inj N.of_nat) in Hl. split.
  - rewrite <- Hl. apply le_decode_bound.
  - rewrite app_nil_r, <- Hl. apply le_encode_decode.
Qed.
End Decodes.

Lemma decodes_throw {A} e enc (P : A -> Prop) : decodes (throw e) enc P.
Proof. by intros pre rest a c'. Qed.

Lemma decodes_weaken {A} (r : db DecodeCursor A) enc enc' (P P' : A -> Prop) :
  decodes r enc P -> (forall a, P a -> P' a /\ enc a = enc' a) -> decodes r enc' P'.
Proof.
  intros Hr He pre rest a c' Hrun. destruct (Hr _ _ _ _ Hrun) as (Ha & Hp).
  destruct (He a Ha) as [Ha' <-]. done.
Qed.

(** A pure conversion in front. *)
Lemma decodes_lift {A B} (o : DbResult A) (k : A -> db DecodeCursor B) enc P :
  (forall a, o = Ok a -> decodes (k a) enc P) -> decodes (bind_st (lift o) k) enc P.
Proof.
  intros Hk pre rest b c' Hrun. apply bind_st_inv in Hrun as (a & c1 & Ho & Hr). injection Ho as Ho <-.
  by apply (Hk a Ho).
Qed.

Lemma i64_to_of_bits n : n < 18446744073709551616 -> i64_to_bits (i64_of_bits n) = n.
Proof.
  intros Hn. unfold i64_to_bits, i64_of_bits. case_test.
  - rewrite Z.mod_small by lia. lia.
  - rewrite <- (Z.mod_add _ 1) by lia. rewrite Z.mod_small by lia. lia.
Qed.

Lemma decodes_i64 texts :
  decodes (cursor_i64 texts) (fun z => le_encode 8 (i64_to_bits z)) (fun z => (I64_MIN <= z <= I64_MAX)%Z).
Proof.
  unfold cursor_i64. eapply decodes_bind; [by apply (decodes_uint texts 8 8)|intros; apply decodes_ret|].
  cbn beta. intros n z Hn ->. split; [apply i64_of_bits_range; simpl in Hn; lia|].
  rewrite app_nil_r, i64_to_of_bits; [done|simpl in Hn; lia].
Qed.

Definition tag_of (v : Value) : N :=
  match v with Null => TAG_NULL | Integer _ => TAG_INTEGER | Text _ => TAG_TEXT | Double _ => TAG_DOUBLE end.
Definition body_bytes (v : Value) : list byte :=
  match v with
  | Null => []
  | Integer value => le_encode 8 (i64_to_bits value)
  | Text value => le_encode 4 (string_len value) ++ bytes_of_string value
  | Double bits => le_encode 8 bits
  end.

Definition value_ok (v : Value) : Prop := value_typed v /\ value_fits v.

(** The last field of a value. *)
Lemma decodes_value_field {A} (r : db DecodeCursor A) enc P (f : A -> Value) tag :
  decodes r enc P -> (forall a, P a -> tag = tag_of (f a) /\ value_ok (f a) /\ body_bytes (f a) = enc a) ->
  decodes (let! a := r in ret (f a)) body_bytes (fun v => tag = tag_of v /\ value_ok v).
Proof.
  intros Hr Hf. eapply decodes_bind; [exact Hr|intros; apply decodes_ret|]. cbn beta.
  intros a v Ha ->. destruct (Hf a Ha) as (Ht & Hok & Hb). split; [done|]. by rewrite app_nil_r.
Qed.

Lemma decodes_text_body :
  decodes (let! n := cursor_u32 row_texts in
           let! bs := read_bytes row_texts n in
           let! text := lift (from_utf8 "SQL text value is not valid UTF-8" bs) in
           ret (Text text)) body_bytes (fun v => TAG_TEXT = tag_of v /\ value_ok v).
Proof.
  apply decodes_bind with (e1 := le_encode 4) (P1 := fun n => n < 256 ^ 4)
    (e2 := fun _ v => match v with Text s => bytes_of_string s | _ => [] end)
    (P2 := fun n v => exists s, v = Text s /\ string_ok s /\ string_len s = n); [by apply decodes_uint| |].
  - intros n Hn. apply decodes_bind with (e1 := fun bs => bs) (P1 := fun bs => len bs = n)
      (e2 := fun _ _ => []) (P2 := fun bs v => v = Text (string_of_bytes bs) /\ utf8_valid bs = true);
      [apply decodes_bytes| |].
    + intros bs Hl. apply decodes_lift. intros s Hs. apply from_utf8_ok in Hs as [Hv ->].
      eapply decodes_weaken; [apply decodes_ret|]. cbn beta. by intros v ->.
    + intros bs v Hl [-> Hv]. rewrite app_nil_r. split; [|by apply bytes_of_string_of_bytes].
      exists (string_of_bytes bs). unfold string_ok, string_len. by rewrite bytes_of_string_of_bytes.
  - cbn beta. intros n v Hn (s & -> & Hs & <-). split; [|done]. split; [done|]. split; [done|].
    cbn [value_fits]. unfold U32_MAX. simpl in Hn. lia.
Qed.

Lemma decodes_value : decodes decode_value value_bytes value_ok.
Proof.
  unfold decode_value. apply decodes_bind with (e1 := le_encode 1) (P1 := fun tag => tag < 256 ^ 1)
    (e2 := fun _ => body_bytes) (P2 := fun tag v => tag = tag_of v /\ value_ok v); [by apply decodes_uint| |].
  - intros tag _. destruct (tag =? TAG_NULL) eqn:H0; [|destruct (tag =? TAG_INTEGER) eqn:H1;
      [|destruct (tag =? TAG_TEXT) eqn:H2; [|destruct (tag =? TAG_DOUBLE) eqn:H3]]];
      reflect_bool; subst; [..|apply decodes_throw].
    + eapply decodes_weaken; [apply decodes_ret|]. by intros v ->.
    + eapply decodes_value_field; [apply decodes_i64|]. done.
    + apply decodes_text_body.
    + eapply decodes_value_field; [by apply (decodes_uint row_texts 8 8)|]. cbn beta. intros bits Hb.
      split; [done|]. split; [|done]. split; [|done]. cbn. unfold U64_MAX. simpl in Hb. lia.
  - intros tag v _ [-> Hok]. split; [done|]. by destruct v.
Qed.

Lemma decodes_repeat {A} n (r : db DecodeCursor A) enc P :
  decodes r enc P ->
  decodes (repeat_st n r) (fun xs => xs ≫= enc) (fun xs => length xs = n /\ Forall P xs).
Proof.
  intros Hr. induction n as [|n IH]; cbn [repeat_st].
  { eapply decodes_weaken; [apply decodes_ret|]. by intros xs ->. }
  apply decodes_bind with (e1 := enc) (P1 := P) (e2 := fun _ xs => tail xs ≫= enc)
    (P2 := fun x xs => exists ys, xs = x :: ys /\ length ys = n /\ Forall P ys); [done| |].
  - intros x Hx. eapply decodes_bind with (e2 := fun _ _ => []); [exact IH|intros ys Hys; apply decodes_ret|].
    cbn beta. intros ys xs [Hl Hys] ->. rewrite app_nil_r. split; [by exists ys|done].
  - intros x xs Hx (ys & -> & <- & Hys). split; [by split; [|constructor]|done].
Qed.

Lemma decodes_row_fields : decodes decode_row_fields row_bytes (fun vs => len vs <= U16_MAX /\ Forall value_ok vs).
Proof.
  unfold decode_row_fields.
  apply decodes_bind with (e1 := fun bs => bs) (P1 := fun bs => len bs = 4)
    (e2 := fun magic vs => le_encode 2 SQL_ROW_VERSION ++ le_encode 2 (len vs) ++ (vs ≫= value_bytes))
    (P2 := fun magic vs => magic = SQL_ROW_MAGIC /\ len vs <= U16_MAX /\ Forall value_ok vs);
    [apply decodes_bytes| |by intros magic vs _ [-> Hvs]].
  intros magic _. case_bool_decide as Hm; cbn [negb]; [subst magic|apply decodes_throw].
  apply decodes_bind with (e1 := le_encode 2) (P1 := fun version => version < 256 ^ 2)
    (e2 := fun _ vs => le_encode 2 (len vs) ++ (vs ≫= value_bytes))
    (P2 := fun version vs => version = SQL_ROW_VERSION /\ len vs <= U16_MAX /\ Forall value_ok vs);
    [by apply decodes_uint| |by intros version vs _ [-> Hvs]].
  intros version _. destruct (version =? SQL_ROW_VERSION) eqn:Hv; cbn [negb]; [|apply decodes_throw].
  apply N.eqb_eq in Hv.
  apply decodes_bind with (e1 := le_encode 2) (P1 := fun n => n < 256 ^ 2) (e2 := fun _ vs => vs ≫= value_bytes)
    (P2 := fun n vs => len vs = n /\ Forall value_ok vs); [by apply decodes_uint| |].
  - intros n Hn. eapply decodes_weaken; [apply decodes_repeat, decodes_value|]. cbn beta.
    intros vs [Hl Hvs]. split; [split; [lia|done]|done].
  - intros n vs Hn [<- Hvs]. split; [|done]. split; [done|]. split; [|done].
    unfold U16_MAX. simpl in Hn. lia.
Qed.

(** ** Reading back *)

Lemma reads_value v : value_ok v -> reads decode_value (value_bytes v) v.
Proof.
  intros [Ht Hf]. unfold decode_value. destruct v as [|s|z|bits]; cbn [value_bytes value_typed value_fits] in *.
  - rewrite <- (app_nil_r (le_encode 1 TAG_NULL)). eapply reads_bind; [by apply (reads_uint row_texts 1 1)|apply reads_ret].
  - eapply reads_bind; [by apply (reads_uint row_texts 1 1)|]. cbn [N.eqb].
    eapply reads_bind; [apply (reads_uint row_texts 4 4); [done|]; unfold U32_MAX in Hf; simpl; lia|].
    rewrite <- (app_nil_r (bytes_of_string s)). eapply reads_bind; [apply reads_bytes|].
    eapply reads_bind_pure; [apply reads_lift; by apply from_utf8_string|apply reads_ret].
  - eapply reads_bind; [by apply (reads_uint row_texts 1 1)|]. cbn [N.eqb].
    rewrite <- (app_nil_r (le_encode 8 _)).
    destruct (codec_i64 row_texts z Ht) as (bs & Hw & Hr). specialize (Hw []). injection Hw as <-.
    eapply reads_bind; [exact Hr|apply reads_ret].
  - eapply reads_bind; [by apply (reads_uint row_texts 1 1)|]. cbn [N.eqb].
    rewrite <- (app_nil_r (le_encode 8 _)).
    eapply reads_bind; [apply (reads_uint row_texts 8 8); [done|]; unfold U64_MAX in Ht; simpl; lia|apply reads_ret].
Qed.

Lemma reads_values vs : Forall value_ok vs -> reads (repeat_st (length vs) decode_value) (vs ≫= value_bytes) vs.
Proof.
  induction 1 as [|v vs Hv _ IH]; [apply reads_ret|]. cbn [length repeat_st]. rewrite bind_cons.
  eapply reads_bind; [by apply reads_value|]. rewrite <- (app_nil_r (vs ≫= value_bytes)).
  eapply reads_bind; [exact IH|apply reads_ret].
Qed.

Lemma reads_row vs : len vs <= U16_MAX -> Forall value_ok vs -> reads decode_row_fields (row_bytes vs) vs.
Proof.
  intros Hl Hvs. unfold decode_row_fields, row_bytes.
  eapply reads_bind; [apply (reads_bytes row_texts SQL_ROW_MAGIC)|]. rewrite bool_decide_true by done. cbn [negb].
  eapply reads_bind; [by apply (reads_uint row_texts 2 2)|].
  replace (SQL_ROW_VERSION =? SQL_ROW_VERSION) with true by done. cbn [negb].
  eapply reads_bind; [apply (reads_uint row_texts 2 2); [done|]; unfold U16_MAX in Hl; simpl; lia|].
  rewrite Nat2N.id. by apply reads_values.
Qed.

(** ** Refusals

    [rejects m]: whatever [m] refuses, it refuses as corrupt, and it never panics. *)

Definition ok_or_corrupt {A} (r : DbResult A) : Prop :=
  match r with Ok _ => True | Err e => is_corruption e = true | Panic => False end.
Definition rejects {S A} (m : db S A) : Prop := forall s, ok_or_corrupt (m s).1.

Lemma rejects_ret {S A} (a : A) : rejects (S := S) (ret a).
Proof. by intros s. Qed.
Lemma rejects_throw {S A} m : rejects (S := S) (A := A) (throw (Corruption m)).
Proof. by intros s. Qed.
Lemma rejects_lift {S A} (o : DbResult A) : ok_or_corrupt o -> rejects (S := S) (lift o).
Proof. by intros Ho s. Qed.
Lemma rejects_if {S A} (b : bool) (m1 m2 : db S A) : rejects m1 -> rejects m2 -> rejects (if b then m1 else m2).
Proof. by destruct b. Qed.
Lemma rejects_bind {S A B} (m : db S A) (k : A -> db S B) :
  rejects m -> (forall a, rejects (k a)) -> rejects (bind_st m k).
Proof.
  intros Hm Hk s. unfold bind_st. specialize (Hm s).
  destruct (m s) as [[] s']; simpl in *; [apply Hk|done|done].
Qed.
Lemma rejects_read_bytes texts n : rejects (read_bytes texts n).
Proof.
  intros c. unfold read_bytes. destruct (checked_add _ _ _) as [stop|] eqn:Hs; [|done].
  apply checked_add_Some in Hs as [-> _]. case_test; [done|].
  by rewrite slice_checked_ok by lia.
Qed.
Lemma rejects_from_utf8 m bs : ok_or_corrupt (from_utf8 m bs).
Proof. unfold from_utf8. by case_test. Qed.
Lemma rejects_finish texts : rejects (finish texts).
Proof. intros c. unfold finish. simpl. by destruct (is_finished c). Qed.

Create HintDb corrupt.
#[local] Hint Resolve rejects_ret rejects_throw rejects_lift rejects_if rejects_bind rejects_read_bytes
  rejects_from_utf8 rejects_finish : corrupt.

Lemma rejects_uint texts w : rejects (cursor_uint texts w).
Proof. unfold cursor_uint. auto with corrupt. Qed.
#[local] Hint Resolve rejects_uint : corrupt.

Lemma rejects_decode_value : rejects decode_value.
Proof. unfold decode_value, cursor_u8, cursor_i64, cursor_u32, cursor_u64. auto 10 with corrupt. Qed.

Lemma rejects_repeat {S A} n (m : db S A) : rejects m -> rejects (repeat_st n m).
Proof. intros Hm. induction n as [|n IH]; cbn [repeat_st]; auto with corrupt. Qed.
#[local] Hint Resolve rejects_decode_value rejects_repeat : corrupt.

Lemma decode_row_rejects bs : ok_or_corrupt (decode_row bs).
Proof.
  unfold decode_row. apply (rejects_bind decode_row_fields); [|auto with corrupt].
  unfold decode_row_fields, cursor_u16. auto 10 with corrupt.
Qed.

Lemma encode_row_user vs : ok_or_user (encode_row vs).
Proof. unfold encode_row. pose proof (only_user_row vs []) as H. by destruct (encode_row_to vs []) as [[] b]. Qed.

Lemma encode_row_iff bs vs : encode_row vs = Ok bs <-> row_fits vs /\ bs = row_bytes vs.
Proof.
  split; [|intros [Hf ->]; by apply encode_row_fits]. intros He. pose proof (encode_row_Ok _ _ He) as Hf.
  split; [done|]. rewrite encode_row_fits in He by done. by injection He.
Qed.

Lemma decode_row_iff bs vs :
  len bs <= USIZE_MAX -> decode_row bs = Ok vs <-> row_fits vs /\ Forall value_typed vs /\ bs = row_bytes vs.
Proof.
  intros Hl. unfold decode_row. split.
  - intros Hd. destruct (bind_st decode_row_fields _ (cursor_new bs)) as [o c'] eqn:Hrun. cbn [fst] in Hd. subst o.
    apply bind_st_inv in Hrun as (vs' & c1 & Hrun & Hfin).
    destruct (decodes_row_fields [] bs vs' c1 Hrun) as ([Hln Hok] & post & Hbs & ->).
    apply bind_st_inv in Hfin as ([] & c2 & Hfin & Hret). injection Hret as -> _.
    unfold finish, is_finished in Hfin. cbn [cur_offset cur_bytes app] in Hfin.
    destruct (len (row_bytes vs) =? len (row_bytes vs ++ post)) eqn:He; [|done]. reflect_bool.
    rewrite length_app in He. assert (post = []) as -> by (destruct post; [done|simpl in He; lia]).
    rewrite app_nil_r in Hbs. split; [|split; [|done]].
    + split; [done|]. eapply Forall_impl; [exact Hok|]. by intros v [_ ?].
    + eapply Forall_impl; [exact Hok|]. by intros v [? _].
  - intros ([Hln Hf] & Ht & ->). by rewrite (run_codec row_texts _ _ vs (reads_row vs Hln ltac:(by apply Forall_and)) Hl).
Qed.

(** C17. The SQL row codec is exact.  Encoding writes the documented bytes when
    the lengths fit their fields and is a user error otherwise; a record decodes
    to [vs] exactly when it is the encoding of [vs] and [vs] are machine values,
    so rows round-trip in both directions and no two records mean the same row;
    every other record is refused as corrupt, and neither direction panics. *)
Theorem sql_row_codec bs vs :
  len bs <= USIZE_MAX ->
  (encode_row vs = Ok bs <-> row_fits vs /\ bs = row_bytes vs)
  /\ (row_fits vs \/ exists m, encode_row vs = Err (User m))
  /\ (decode_row bs = Ok vs <-> row_fits vs /\ Forall value_typed vs /\ bs = row_bytes vs)
  /\ ((exists vs', decode_row bs = Ok vs') \/ exists m, decode_row bs = Err (Corruption m)).
Proof.
  intros Hl. split; [apply encode_row_iff|]. split; [|split; [by apply decode_row_iff|]].
  - pose proof (encode_row_user vs) as Hu. destruct (encode_row vs) as [b|[]|] eqn:He; try done.
    + left. by eapply encode_row_Ok.
    + right. by eexists.
  - pose proof (decode_row_rejects bs) as Hd. destruct (decode_row bs) as [r|e|]; [left; by eexists| |done].
    right. destruct (is_corruption_inv e Hd) as [m ->]. by exists m.
Qed.

(** Row (42, 'hi', NULL, 1.5). *)
Definition sample_row : list Value := [Integer 42; Text "hi"; Null; Double 4609434218413702656].

Lemma sql_row_codec_witness :
  exists bs, encode_row sample_row = Ok bs /\ decode_row bs = Ok sample_row /\ len bs = 34.
Proof.
  assert (Hf : row_fits sample_row).
  { split; [vm_compute; discriminate|]. repeat constructor. vm_compute. discriminate. }
  destruct (sql_row_codec (row_bytes sample_row) sample_row) as (He & _ & Hd & _); [vm_compute; discriminate|].
  exists (row_bytes sample_row). split; [apply He; split; [exact Hf|reflexivity]|]. split; [|vm_compute; reflexivity].
  apply Hd. split; [exact Hf|]. split; [|reflexivity].
  repeat constructor; vm_compute; try discriminate; reflexivity.
Defined.
