(* ===== verification/Sql.v ===== *)
(** * Sql: statements, lexer and parser of crate [rdbms_sql]

    The lexer works on the characters of the text; a character is the byte group
    of its UTF-8 encoding.  Its outer loop and the list loops of the parser take
    fuel, the number of characters and of tokens; [SqlTheorems] shows that it is
    enough.  The derived [Debug] text of a token, which occurs in one message, is
    a parameter. *)

From S2P Require Import Prelude Core Bytes Page Catalog Double Extension.

(** ** Statements *)

Inductive Projection : Type :=
| All
| Columns (columns : list string).

Record Selection : Type := mkSelection { sel_column : string; sel_value : Value }.

Inductive Statement : Type :=
| CreateTable (name : string) (columns : list ColumnDef)
| Insert (table : string) (values : list Value)
| CreateIndex (name table column : string)
| LoadExtension (name : string)
| SelectFunction (name : string) (args : list Value)
| Select (projection : Projection) (table : string) (selection : option Selection).

(** ** Characters *)

Definition char : Type := list byte.

(** [str::chars] on well-formed UTF-8. *)
Fixpoint chars (bs : list byte) : list char :=
  match bs with
  | [] => []
  | b0 :: r0 =>
      if byte_in 0 127 b0 then [b0] :: chars r0
      else match r0 with
      | [] => [[b0]]
      | b1 :: r1 =>
          if byte_in 192 223 b0 then [b0; b1] :: chars r1
          else match r1 with
          | [] => [[b0; b1]]
          | b2 :: r2 =>
              if byte_in 224 239 b0 then [b0; b1; b2] :: chars r2
              else match r2 with
              | [] => [[b0; b1; b2]]
              | b3 :: r3 => [b0; b1; b2; b3] :: chars r3
              end
          end
      end
  end.

(** The Unicode property [White_Space]. *)
Definition is_whitespace (c : char) : bool :=
  match Byte.to_N <$> c with
  | [b] => (9 <=? b) && (b <=? 13) || (b =? 32)
  | [194; b] => (b =? 133) || (b =? 160)
  | [225; 154; 128] => true
  | [226; 128; b] => (128 <=? b) && (b <=? 138) || (b =? 168) || (b =? 169) || (b =? 175)
  | [226; 129; 159] => true
  | [227; 128; 128] => true
  | _ => false
  end.

Definition ascii_in (lo hi : N) (c : char) : bool :=
  match c with [b] => byte_in lo hi b | _ => false end.
Definition is_ascii_digit : char -> bool := ascii_in 48 57.
Definition is_ascii_alphabetic (c : char) : bool := ascii_in 65 90 c || ascii_in 97 122 c.
Definition is_char (b : byte) (c : char) : bool := bool_decide (c = [b]).

Definition is_identifier_start (c : char) : bool := is_ascii_alphabetic c || is_char x5f c.
Definition is_identifier_continue (c : char) : bool :=
  is_ascii_alphabetic c || is_ascii_digit c || is_char x5f c.

(** [String::push]. *)
Definition push_char (s : string) (c : char) : string := s +:+ string_of_bytes c.

(** ** Tokens and the lexer *)

Inductive Token : Type :=
| Ident (name : string)
| Number (digits : string)
| StringLit (value : string)
| Comma | LParen | RParen | Semicolon | Star | EqSign | Eof.

#[export] Instance Token_eq_dec : EqDecision Token.
Proof. solve_decision. Defined.

(** The lookahead and the characters behind it. *)
Abbreviation lexer := (list char).

Fixpoint skip_whitespace (l : lexer) : lexer :=
  match l with
  | c :: rest => if is_whitespace c then skip_whitespace rest else l
  | [] => []
  end.

(** The loops of [read_identifier] and [read_number]. *)
Fixpoint read_while (p : char -> bool) (acc : string) (l : lexer) : string * lexer :=
  match l with
  | c :: rest => if p c then read_while p (push_char acc c) rest else (acc, l)
  | [] => (acc, [])
  end.

Definition read_identifier (l : lexer) : string * lexer := read_while is_identifier_continue "" l.

Definition is_number_char (c : char) : bool := is_ascii_digit c || is_char x2e c.

Definition read_number (l : lexer) : DbResult (string * lexer) :=
  match l with
  | c :: rest =>
      if is_char x2d c then
        match rest with
        | d :: _ => if is_ascii_digit d then Ok (read_while is_number_char "-" rest)
                    else Err (User "expected digit after '-'")
        | [] => Err (User "expected digit after '-'")
        end
      else Ok (read_while is_number_char "" l)
  | [] => Ok (read_while is_number_char "" l)
  end.

(** The loop of [read_string], behind the opening quote. *)
Fixpoint read_string_loop (value : string) (l : lexer) : DbResult (string * lexer) :=
  match l with
  | [] => Err (User "unterminated string literal")
  | c :: rest =>
      if is_char x27 c then
        match rest with
        | d :: rest' =>
            if is_char x27 d then read_string_loop (push_char value [x27]) rest' else Ok (value, rest)
        | [] => Ok (value, rest)
        end
      else read_string_loop (push_char value c) rest
  end.

Definition single_char_token (c : char) : option Token :=
  if is_char x2c c then Some Comma else
  if is_char x28 c then Some LParen else
  if is_char x29 c then Some RParen else
  if is_char x3b c then Some Semicolon else
  if is_char x2a c then Some Star else
  if is_char x3d c then Some EqSign else None.

(** The [match] of [tokenize]: the next token and the text behind it. *)
Definition next_token (l : lexer) : DbResult (Token * lexer) :=
  match l with
  | [] => Ok (Eof, [])
  | c :: rest =>
      match single_char_token c with
      | Some t => Ok (t, rest)
      | None =>
          if is_char x27 c then
            let? (value, rest') := read_string_loop "" rest in Ok (StringLit value, rest')
          else if is_identifier_start c then
            let '(name, rest') := read_identifier l in Ok (Ident name, rest')
          else if is_ascii_digit c || is_char x2d c then
            let? (digits, rest') := read_number l in Ok (Number digits, rest')
          else Err (User ("unexpected character in SQL: " +:+ string_of_bytes c))
      end
  end.

Fixpoint tokenize_loop (fuel : nat) (l : lexer) (tokens : list Token) : DbResult (list Token) :=
  match fuel with
  | O => Panic
  | Datatypes.S fuel' =>
      let? (token, rest) := next_token (skip_whitespace l) in
      if bool_decide (token = Eof) then Ok (tokens ++ [token])
      else tokenize_loop fuel' rest (tokens ++ [token])
  end.

Definition tokenize (sql : string) : DbResult (list Token) :=
  let l := chars (bytes_of_string sql) in tokenize_loop (Datatypes.S (length l)) l [].

(** ** Literals *)

Definition digits_value (bs : list byte) : N := foldl (fun acc b => acc * 10 + (Byte.to_N b - 48)) 0 bs.
Definition all_digits (bs : list byte) : bool := forallb (byte_in 48 57) bs.

(** A leading sign. *)
Definition split_sign (bs : list byte) : bool * list byte :=
  match bs with
  | x2d :: rest => (true, rest)
  | x2b :: rest => (false, rest)
  | _ => (false, bs)
  end.

(** [str::parse::<i64>]. *)
Definition parse_i64 (s : string) : option Z :=
  let '(negative, digits) := split_sign (bytes_of_string s) in
  if (len digits =? 0) || negb (all_digits digits) then None else
  let value := if negative then Z.opp (Z.of_N (digits_value digits)) else Z.of_N (digits_value digits) in
  if bool_decide (I64_MIN <= value <= I64_MAX)%Z then Some value else None.

Fixpoint split_dot (bs : list byte) : list byte * list byte :=
  match bs with
  | [] => ([], [])
  | x2e :: rest => ([], rest)
  | b :: rest => let '(whole, fraction) := split_dot rest in (b :: whole, fraction)
  end.

(** [str::parse::<f64>] on a text of digits and dots behind an optional sign,
    which is what number tokens are. *)
Definition parse_f64 (s : string) : option N :=
  let '(negative, text) := split_sign (bytes_of_string s) in
  let '(whole, fraction) := split_dot text in
  if (len (whole ++ fraction) =? 0) || negb (all_digits (whole ++ fraction)) then None
  else Some (double_of_decimal negative (digits_value (whole ++ fraction)) (length fraction)).

(** ** The parser *)

Definition eq_ignore_ascii_case (a b : string) : bool :=
  bool_decide (to_ascii_lowercase a = to_ascii_lowercase b).
Definition normalize_identifier (s : string) : string := to_ascii_lowercase s.
Definition normalize_type_name (type_name : string) : DbResult string :=
  let normalized := to_ascii_uppercase type_name in
  if bool_decide (normalized ∈ ["INT"; "INTEGER"; "TEXT"; "DOUBLE"; "REAL"; "FLOAT"]) then Ok normalized
  else Err (User ("unsupported SQL type: " +:+ type_name)).

Record Parser : Type := mkParser { tokens : list Token; offset : N }.

(** [{token:?}]. *)
Class TokenDebug : Type := debug_token : Token -> string.

Definition token_at (i : N) (p : Parser) : DbResult Token :=
  if i <? len (tokens p) then or_panic (tokens p !! N.to_nat i)
  else let? last := sub_panic (len (tokens p)) 1 in or_panic (tokens p !! N.to_nat last).

Definition peek : db Parser Token := fun p => (token_at (offset p) p, p).
(** [self.offset.saturating_add(n)]. *)
Definition peek_n (n : N) : db Parser Token := fun p => (token_at (N.min USIZE_MAX (offset p + n)) p, p).

(** [self.offset += 1]. *)
Definition advance : db Parser unit := fun p =>
  match checked_add USIZE_MAX (offset p) 1 with
  | Some o => (Ok tt, mkParser (tokens p) o)
  | None => (Panic, p)
  end.

Definition consume_token (token : Token) : db Parser bool :=
  let! t := peek in
  if bool_decide (t = token) then let! _ := advance in ret true else ret false.

Definition expect_token (token : Token) (message : string) : db Parser unit :=
  let! consumed := consume_token token in
  if consumed : bool then ret tt else throw (User message).

Definition consume_keyword (keyword : string) : db Parser bool :=
  let! t := peek in
  match t with
  | Ident value =>
      if eq_ignore_ascii_case value keyword then let! _ := advance in ret true else ret false
  | _ => ret false
  end.

Definition expect_keyword (keyword : string) : db Parser unit :=
  let! consumed := consume_keyword keyword in
  if consumed : bool then ret tt else throw (User ("expected keyword " +:+ keyword)).

Definition expect_identifier (description : string) : db Parser string :=
  let! t := peek in
  match t with
  | Ident value => let! _ := advance in ret value
  | _ => throw (User ("expected " +:+ description))
  end.

Definition peek_is_function_call : db Parser bool :=
  let! t := peek in
  let! t1 := peek_n 1 in
  ret (match t, t1 with Ident _, LParen => true | _, _ => false end).

Definition number_value (value : string) : DbResult Value :=
  if existsb (fun b => bool_decide (b = x2e)) (bytes_of_string value) then
    let? bits := ok_or (parse_f64 value) (User ("invalid double literal: " +:+ value)) in Ok (Double bits)
  else
    let? z := ok_or (parse_i64 value) (User ("invalid integer literal: " +:+ value)) in Ok (Integer z).

Definition parse_literal : db Parser Value :=
  let! t := peek in
  match t with
  | Ident value =>
      if eq_ignore_ascii_case value "NULL" then let! _ := advance in ret Null
      else throw (User "expected literal value")
  | StringLit value => let! _ := advance in ret (Text value)
  | Number value => let! _ := advance in lift (number_value value)
  | _ => throw (User "expected literal value")
  end.

(** The list loops: an element, then a comma to go on. *)
Fixpoint comma_list {A : Type} (fuel : nat) (element : db Parser A) (acc : list A) : db Parser (list A) :=
  match fuel with
  | O => lift Panic
  | Datatypes.S fuel' =>
      let! x := element in
      let! more := consume_token Comma in
      if more : bool then comma_list fuel' element (acc ++ [x]) else ret (acc ++ [x])
  end.

Definition parser_fuel : db Parser nat := gets (fun p => Datatypes.S (length (tokens p))).

(** [VALUES] lists and function arguments: possibly empty, up to the parenthesis. *)
Definition parse_literals (message : string) : db Parser (list Value) :=
  let! fuel := parser_fuel in
  let! empty := consume_token RParen in
  if empty : bool then ret [] else
  let! values := comma_list fuel parse_literal [] in
  let! _ := expect_token RParen message in
  ret values.

Definition parse_column : db Parser ColumnDef :=
  let! column_name := expect_identifier "column name" in
  let! type_name := expect_identifier "column type" in
  let! type_name := lift (normalize_type_name type_name) in
  ret (mkColumnDef (normalize_identifier column_name) type_name).

Definition parse_create_table : db Parser Statement :=
  let! fuel := parser_fuel in
  let! name := expect_identifier "table name" in
  let! _ := expect_token LParen "expected '(' after table name" in
  let! columns := comma_list fuel parse_column [] in
  let! _ := expect_token RParen "expected ')' after column list" in
  ret (CreateTable (normalize_identifier name) columns).

Definition parse_create_index : db Parser Statement :=
  let! name := expect_identifier "index name" in
  let! _ := expect_keyword "ON" in
  let! table := expect_identifier "table name" in
  let! _ := expect_token LParen "expected '(' before indexed column" in
  let! column := expect_identifier "indexed column" in
  let! _ := expect_token RParen "expected ')' after indexed column" in
  ret (CreateIndex (normalize_identifier name) (normalize_identifier table) (normalize_identifier column)).

Definition parse_insert : db Parser Statement :=
  let! _ := expect_keyword "INTO" in
  let! table := expect_identifier "table name" in
  let! _ := expect_keyword "VALUES" in
  let! _ := expect_token LParen "expected '(' before VALUES list" in
  let! values := parse_literals "expected ')' after VALUES list" in
  ret (Insert (normalize_identifier table) values).

Definition parse_load_extension : db Parser Statement :=
  let! _ := expect_keyword "EXTENSION" in
  let! name := expect_identifier "extension name" in
  ret (LoadExtension (normalize_identifier name)).

Definition parse_select_function : db Parser Statement :=
  let! name := expect_identifier "function name" in
  let! _ := expect_token LParen "expected '(' after function name" in
  let! args := parse_literals "expected ')' after function arguments" in
  ret (SelectFunction (normalize_identifier name) args).

Definition parse_selected : db Parser string :=
  let! name := expect_identifier "selected column" in ret (normalize_identifier name).

Definition parse_projection : db Parser Projection :=
  let! fuel := parser_fuel in
  let! star := consume_token Star in
  if star : bool then ret All else
  let! columns := comma_list fuel parse_selected [] in
  ret (Columns columns).

Definition parse_where : db Parser (option Selection) :=
  let! found := consume_keyword "WHERE" in
  if found : bool then
    let! column := expect_identifier "predicate column" in
    let! _ := expect_token EqSign "expected '=' in WHERE predicate" in
    let! value := parse_literal in
    ret (Some (mkSelection (normalize_identifier column) value))
  else ret None.

Definition parse_select : db Parser Statement :=
  let! call := peek_is_function_call in
  if call : bool then parse_select_function else
  let! projection := parse_projection in
  let! _ := expect_keyword "FROM" in
  let! table := expect_identifier "table name" in
  let! selection := parse_where in
  ret (Select projection (normalize_identifier table) selection).

Definition parse_statement_tokens : db Parser Statement :=
  let! create := consume_keyword "CREATE" in
  if create : bool then
    let! table := consume_keyword "TABLE" in
    if table : bool then parse_create_table else
    let! index := consume_keyword "INDEX" in
    if index : bool then parse_create_index
    else throw (User "expected TABLE or INDEX after CREATE")
  else
  let! insert := consume_keyword "INSERT" in
  if insert : bool then parse_insert else
  let! load := consume_keyword "LOAD" in
  if load : bool then parse_load_extension else
  let! select := consume_keyword "SELECT" in
  if select : bool then parse_select
  else throw (User "expected CREATE, INSERT, LOAD or SELECT").

(** The [while] loop of [finish]. *)
Fixpoint skip_semicolons (fuel : nat) : db Parser unit :=
  match fuel with
  | O => lift Panic
  | Datatypes.S fuel' =>
      let! consumed := consume_token Semicolon in
      if consumed : bool then skip_semicolons fuel' else ret tt
  end.

Section Statements.
Context `{TokenDebug}.

Definition parser_finish : db Parser unit :=
  let! fuel := parser_fuel in
  let! _ := skip_semicolons fuel in
  let! t := peek in
  if bool_decide (t = Eof) then ret tt
  else throw (User ("unexpected token after SQL statement: " +:+ debug_token t)).

Definition parse_statement (sql : string) : DbResult Statement :=
  let? ts := tokenize sql in
  fst ((let! statement := parse_statement_tokens in
        let! _ := parser_finish in
        ret statement) (mkParser ts 0)).
End Statements.
