(* ===== verification/SqlGrammar.v ===== *)
(** * SqlGrammar: the grammar of the SQL subset, and the parser as its recogniser

    [sentence s w] says that the token list [w] is a form of the statement [s].
    [Parses m R F] says that the parser [m] never panics, fails only with a user
    error, consumes a list of tokens that [R] allows for its result, and
    consumes such a list whenever what follows satisfies [F]. *)

From stdpp Require Import list strings.
From S2P Require Import Prelude Core Bytes Page Catalog Double Extension Sql.

(** ** The grammar *)

Definition keyword (k : string) (t : Token) : Prop :=
  match t with Ident v => eq_ignore_ascii_case v k = true | _ => False end.

Definition literal (v : Value) (w : list Token) : Prop :=
  match w with
  | [Ident n] => v = Null /\ eq_ignore_ascii_case n "NULL" = true
  | [StringLit s] => v = Text s
  | [Number d] => number_value d = Ok v
  | _ => False
  end.

(** An identifier in any case stands for its lower-case form. *)
Definition identifier (n : string) (w : list Token) : Prop :=
  match w with [Ident v] => n = normalize_identifier v | _ => False end.

Definition column_def (c : ColumnDef) (w : list Token) : Prop :=
  match w with
  | [Ident n; Ident t] =>
      col_name c = normalize_identifier n /\ normalize_type_name t = Ok (type_name c)
  | _ => False
  end.

Inductive comma_sep {A} (R : A -> list Token -> Prop) : list A -> list Token -> Prop :=
| comma_one a w : R a w -> comma_sep R [a] w
| comma_more a w l v : R a w -> comma_sep R l v -> comma_sep R (a :: l) (w ++ Comma :: v).

(** A possibly empty list up to the closing parenthesis. *)
Inductive literals : list Value -> list Token -> Prop :=
| literals_none : literals [] [RParen]
| literals_some vs w : comma_sep literal vs w -> literals vs (w ++ [RParen]).

Inductive projection : Projection -> list Token -> Prop :=
| projection_all : projection All [Star]
| projection_columns cs w : comma_sep identifier cs w -> projection (Columns cs) w.

Inductive where_clause : option Selection -> list Token -> Prop :=
| where_none : where_clause None []
| where_some k c v wc wv :
    keyword "WHERE" k -> identifier c wc -> literal v wv ->
    where_clause (Some (mkSelection c v)) (k :: wc ++ EqSign :: wv).

Inductive sentence : Statement -> list Token -> Prop :=
| s_create_table k1 k2 n wn cs wc :
    keyword "CREATE" k1 -> keyword "TABLE" k2 -> identifier n wn -> comma_sep column_def cs wc ->
    sentence (CreateTable n cs) (k1 :: k2 :: wn ++ LParen :: wc ++ [RParen])
| s_create_index k1 k2 k3 n wn t wt c wc :
    keyword "CREATE" k1 -> keyword "INDEX" k2 -> identifier n wn -> keyword "ON" k3 ->
    identifier t wt -> identifier c wc ->
    sentence (CreateIndex n t c) (k1 :: k2 :: wn ++ k3 :: wt ++ LParen :: wc ++ [RParen])
| s_insert k1 k2 k3 t wt vs wv :
    keyword "INSERT" k1 -> keyword "INTO" k2 -> identifier t wt -> keyword "VALUES" k3 ->
    literals vs wv ->
    sentence (Insert t vs) (k1 :: k2 :: wt ++ k3 :: LParen :: wv)
| s_load k1 k2 n wn :
    keyword "LOAD" k1 -> keyword "EXTENSION" k2 -> identifier n wn ->
    sentence (LoadExtension n) (k1 :: k2 :: wn)
| s_call k1 n wn vs wv :
    keyword "SELECT" k1 -> identifier n wn -> literals vs wv ->
    sentence (SelectFunction n vs) (k1 :: wn ++ LParen :: wv)
| s_select k1 k2 p wp t wt s ws :
    keyword "SELECT" k1 -> projection p wp -> keyword "FROM" k2 -> identifier t wt ->
    where_clause s ws ->
    sentence (Select p t s) (k1 :: wp ++ k2 :: wt ++ ws).

(** ** Recognisers *)

(** The parser in the middle of its tokens. *)
Definition at_tokens (pre rest : list Token) : Parser := mkParser (pre ++ rest) (len pre).
Definition ends_eof (rest : list Token) : Prop := last rest = Some Eof.

Section Parses.
Context (n : nat) (Hn : N.of_nat n <= USIZE_MAX).
Implicit Types (pre rest w : list Token).

Record Parses {A} (m : db Parser A) (R : A -> list Token -> Prop)
    (F : A -> list Token -> Prop) : Prop := {
  parses_sound : forall pre rest, length (pre ++ rest) = n -> ends_eof rest ->
    match m (at_tokens pre rest) with
    | (Ok a, p) => exists w rest', rest = w ++ rest' /\ R a w /\ ends_eof rest' /\ p = at_tokens (pre ++ w) rest'
    | (Err e, _) => is_user e = true
    | (Panic, _) => False
    end;
  parses_complete : forall pre a w rest, length (pre ++ w ++ rest) = n -> ends_eof rest -> R a w -> F a rest ->
    m (at_tokens pre (w ++ rest)) = (Ok a, at_tokens (pre ++ w) rest)
}.

Lemma ends_eof_app w rest : ends_eof rest -> ends_eof (w ++ rest).
Proof. unfold ends_eof. rewrite last_app. by intros ->. Qed.

Lemma ends_eof_cons t rest : ends_eof (t :: rest) -> t <> Eof -> ends_eof rest.
Proof. unfold ends_eof. rewrite last_cons. destruct (last rest); [done|]. congruence. Qed.

Lemma parses_ret {A} (a : A) : Parses (ret a) (fun b w => b = a /\ w = []) (fun _ _ => True).
Proof.
  split.
  - intros pre rest _ He. exists [], rest. by rewrite app_nil_r.
  - intros pre b w rest _ _ [-> ->] _. by rewrite app_nil_r.
Qed.

Lemma parses_throw {A} e : is_user e = true -> Parses (A := A) (throw e) (fun _ _ => False) (fun _ _ => True).
Proof. intros He. split; [done|]. intros ? ? ? ? ? ? []. Qed.

Lemma parses_lift {A} (o : DbResult A) :
  match o with Ok _ => True | Err e => is_user e = true | Panic => False end ->
  Parses (lift o) (fun a w => o = Ok a /\ w = []) (fun _ _ => True).
Proof.
  intros Ho. split.
  - intros pre rest _ He. unfold lift. destruct o; [|done|done].
    exists [], rest. by rewrite app_nil_r.
  - intros pre b w rest _ _ [-> ->] _. by rewrite app_nil_r.
Qed.

Lemma parses_conseq {A} (m : db Parser A) R F R' F' :
  Parses m R F -> (forall a w, R a w <-> R' a w) -> (forall a rest, F' a rest -> F a rest) ->
  Parses m R' F'.
Proof.
  intros [Hs Hc] HR HF. split.
  - intros pre rest Hl He. specialize (Hs pre rest Hl He).
    destruct (m _) as [[a|e|] p]; [|done|done].
    destruct Hs as (w & r & ? & ?%HR & ?). eauto.
  - intros pre a w rest Hl He ?%HR ?%HF. eauto.
Qed.

Definition seq_of {A B} (R : A -> list Token -> Prop) (R2 : A -> B -> list Token -> Prop) (b : B) w : Prop :=
  exists a w1 w2, w = w1 ++ w2 /\ R a w1 /\ R2 a b w2.

Lemma parses_bind {A B} (m : db Parser A) R F (k : A -> db Parser B) R2 F2 :
  Parses m R F -> (forall a, Parses (k a) (R2 a) F2) ->
  (forall a b w rest, R2 a b w -> F2 b rest -> ends_eof rest -> F a (w ++ rest)) ->
  Parses (bind_st m k) (seq_of R R2) F2.
Proof.
  intros [Hs Hc] Hk HF. split.
  - intros pre rest Hl He. unfold bind_st. specialize (Hs pre rest Hl He).
    destruct (m (at_tokens pre rest)) as [[a|e|] p]; [|done|done].
    destruct Hs as (w & rest' & -> & HR & He' & ->). rewrite app_assoc in Hl.
    pose proof (parses_sound _ _ _ (Hk a) (pre ++ w) rest' Hl He') as Hs.
    destruct (k a _) as [[b|e|] p]; [|done|done]. destruct Hs as (w2 & r2 & -> & HR2 & He2 & ->).
    exists (w ++ w2), r2. rewrite !app_assoc. split_and!; [done| |done|done]. by exists a, w, w2.
  - intros pre b w rest Hl He (a & w1 & w2 & -> & HR & HR2) HF2.
    pose proof (HF a b w2 rest HR2 HF2 He) as HF1. rewrite <- app_assoc in Hl |- *.
    rewrite (bind_st_run _ _ _ _ _ (Hc pre a w1 (w2 ++ rest) Hl (ends_eof_app _ _ He) HR HF1)).
    rewrite app_assoc in Hl. rewrite (parses_complete _ _ _ (Hk a) (pre ++ w1) b w2 rest Hl He HR2 HF2). by rewrite app_assoc.
Qed.

Lemma seq_intro {A B} (R : A -> list Token -> Prop) (R2 : A -> B -> list Token -> Prop) a b w1 w2 :
  R a w1 -> R2 a b w2 -> seq_of R R2 b (w1 ++ w2).
Proof. intros H1 H2. by exists a, w1, w2. Qed.
Lemma seq_cons {A B} (R : A -> list Token -> Prop) (R2 : A -> B -> list Token -> Prop) a b t w2 :
  R a [t] -> R2 a b w2 -> seq_of R R2 b (t :: w2).
Proof. apply seq_intro with (w1 := [t]). Qed.
Lemma seq_last {A B} (R : A -> list Token -> Prop) (R2 : A -> B -> list Token -> Prop) a b w :
  R a w -> R2 a b [] -> seq_of R R2 b w.
Proof. intros H1 H2. exists a, w, []. by rewrite app_nil_r. Qed.

(** The case of a first parser that does not look ahead. *)
Lemma parses_then {A B} (m : db Parser A) R (k : A -> db Parser B) R2 F2 :
  Parses m R (fun _ _ => True) -> (forall a, Parses (k a) (R2 a) F2) ->
  Parses (bind_st m k) (seq_of R R2) F2.
Proof. intros Hm Hk. by eapply parses_bind. Qed.

Lemma parses_branch {A} (m : db Parser bool) (R : list Token -> Prop) F (k1 k2 : db Parser A) R1 R2 F2 :
  Parses m (fun b w => if b then R w else w = []) (fun b rest => if b then True else F rest) ->
  Parses k1 R1 F2 -> Parses k2 R2 F2 ->
  (forall a w rest, R2 a w -> F2 a rest -> ends_eof rest -> F (w ++ rest)) ->
  Parses (let! b := m in if b then k1 else k2)
    (fun a w => (exists w1 w2, w = w1 ++ w2 /\ R w1 /\ R1 a w2) \/ R2 a w) F2.
Proof.
  intros Hm H1 H2 HF. eapply parses_conseq; [eapply (parses_bind _ _ _ _ (fun b : bool => if b then R1 else R2))|..].
  - exact Hm.
  - by intros [].
  - intros [] a w rest; [done|]. apply HF.
  - intros a w. split.
    + intros (b & w1 & w2 & -> & Hw1 & Hw2). destruct b; [left; eauto|right; by subst w1].
    + intros [(w1 & w2 & -> & Hw1 & Hw2)|Hw]; [by exists true, w1, w2|by exists false, [], w].
  - done.
Qed.

(** The fuel of the loops is one more than the number of tokens. *)
Lemma parses_fuel {A} (k : nat -> db Parser A) R F :
  Parses (k (Datatypes.S n)) R F -> Parses (let! fuel := parser_fuel in k fuel) R F.
Proof.
  intros [Hs Hc]. split.
  - intros pre rest Hl He. unfold bind_st, parser_fuel, gets. cbn [tokens at_tokens]. rewrite Hl. by apply Hs.
  - intros pre a w rest Hl He HR HF. unfold bind_st, parser_fuel, gets. cbn [tokens at_tokens]. rewrite Hl. by apply Hc.
Qed.

(** *** One token *)

Lemma peek_at pre t rest : peek (at_tokens pre (t :: rest)) = (Ok t, at_tokens pre (t :: rest)).
Proof.
  unfold peek, token_at. cbn [offset tokens at_tokens].
  rewrite (proj2 (N.ltb_lt _ _)) by (rewrite length_app; simpl; lia).
  rewrite Nat2N.id, list_lookup_middle by done. done.
Qed.

Lemma advance_at pre t rest :
  length (pre ++ t :: rest) = n ->
  advance (at_tokens pre (t :: rest)) = (Ok tt, at_tokens (pre ++ [t]) rest).
Proof.
  rewrite length_app. intros Hl. unfold advance. cbn [offset tokens at_tokens].
  rewrite checked_add_ok by (simpl in Hl; lia). unfold at_tokens. rewrite <- app_assoc, length_app.
  simpl. do 2 f_equal. lia.
Qed.

(** A required token: [f] gives its value or the error. *)
Lemma parses_required {A} (m : db Parser A) (f : Token -> DbResult A) :
  (forall pre t rest, length (pre ++ t :: rest) = n ->
     match f t with
     | Ok a => t <> Eof /\ m (at_tokens pre (t :: rest)) = (Ok a, at_tokens (pre ++ [t]) rest)
     | Err e => is_user e = true /\ (m (at_tokens pre (t :: rest))).1 = Err e
     | Panic => False
     end) ->
  Parses m (fun a w => exists t, w = [t] /\ f t = Ok a) (fun _ _ => True).
Proof.
  intros Hm. split.
  - intros pre [|t rest] Hl He; [done|]. specialize (Hm pre t rest Hl). destruct (f t) as [a|e|] eqn:Hf; [| |done].
    + destruct Hm as [Ht ->]. exists [t], rest. split_and!; [done|by exists t|by eapply ends_eof_cons|done].
    + destruct Hm as [Hu Hm]. destruct (m _) as [o p]. simpl in Hm. by subst o.
  - intros pre a w rest Hl He (t & -> & Hf) _. specialize (Hm pre t rest Hl). rewrite Hf in Hm. by destruct Hm.
Qed.

(** An optional token. *)
Lemma parses_optional (m : db Parser bool) (P : Token -> bool) :
  P Eof = false ->
  (forall p, m p = (let! t := peek in if P t then let! _ := advance in ret true else ret false) p) ->
  Parses m
    (fun b w => if b then exists t, w = [t] /\ P t = true else w = [])
    (fun b rest => if b then True else forall t, head rest = Some t -> P t = false).
Proof.
  intros HE Hm. split.
  - intros pre [|t rest] Hl He; [done|]. rewrite Hm. erewrite bind_st_run by apply peek_at.
    destruct (P t) eqn:HP.
    + erewrite bind_st_run by by apply advance_at. exists [t], rest.
      split_and!; [done|by exists t| |done]. eapply ends_eof_cons; [done|]. by intros ->; rewrite HP in HE.
    + exists [], (t :: rest). by rewrite app_nil_r.
  - intros pre b w rest Hl He HR HF. rewrite Hm. destruct b.
    + destruct HR as (t & -> & HP). cbn [app]. erewrite bind_st_run by apply peek_at. rewrite HP.
      by erewrite bind_st_run by by apply advance_at.
    + subst w. destruct rest as [|t rest]; [done|]. cbn [app]. erewrite bind_st_run by apply peek_at.
      rewrite (HF t eq_refl), app_nil_r. done.
Qed.

Definition keywordb (k : string) (t : Token) : bool :=
  match t with Ident v => eq_ignore_ascii_case v k | _ => false end.

Lemma keywordb_spec k t : keywordb k t = true <-> keyword k t.
Proof. by destruct t. Qed.

Lemma parses_consume_token t :
  t <> Eof ->
  Parses (consume_token t) (fun b w => if b then w = [t] else w = [])
    (fun b rest => if b then True else head rest <> Some t).
Proof.
  intros Ht. eapply parses_conseq;
    [apply (parses_optional _ (fun t' => bool_decide (t' = t))); [by apply bool_decide_eq_false|done]| |].
  - intros [] w; [|done]. split.
    + intros (t' & -> & ->%bool_decide_eq_true). done.
    + intros ->. exists t. by rewrite bool_decide_eq_true.
  - intros [] rest; [done|]. intros HF t' Ht'. apply bool_decide_eq_false. by intros ->.
Qed.

Lemma consume_keyword_at k pre t rest :
  length (pre ++ t :: rest) = n ->
  consume_keyword k (at_tokens pre (t :: rest))
  = if keywordb k t then (Ok true, at_tokens (pre ++ [t]) rest) else (Ok false, at_tokens pre (t :: rest)).
Proof.
  intros Hl. unfold consume_keyword. erewrite bind_st_run by apply peek_at.
  destruct t; try done. cbn [keywordb]. case_match; [|done]. by erewrite bind_st_run by by apply advance_at.
Qed.

Lemma parses_consume_keyword k :
  Parses (consume_keyword k) (fun b w => if b then exists t, w = [t] /\ keyword k t else w = [])
    (fun b rest => if b then True else forall t, head rest = Some t -> keywordb k t = false).
Proof.
  eapply parses_conseq; [apply (parses_optional _ (keywordb k)); [done|]| |done].
  - intros p. unfold consume_keyword, bind_st. destruct (peek p) as [[[]| |] ?]; done.
  - intros [] w; [|done]. by setoid_rewrite keywordb_spec.
Qed.

Lemma parses_expect_token t message :
  t <> Eof -> Parses (expect_token t message) (fun _ w => w = [t]) (fun _ _ => True).
Proof.
  intros Ht. eapply parses_conseq;
    [apply (parses_required _ (fun t' => if bool_decide (t' = t) then Ok tt else Err (User message)))| |done].
  - intros pre t' rest Hl. unfold expect_token, consume_token, bind_st. rewrite peek_at.
    case_bool_decide as Heq; [|done]. subst t'. split; [done|]. by rewrite advance_at.
  - intros [] w. split.
    + intros (t' & -> & Hf). by case_bool_decide; simplify_eq.
    + intros ->. exists t. by rewrite bool_decide_true.
Qed.

Lemma parses_expect_keyword k :
  Parses (expect_keyword k) (fun _ w => exists t, w = [t] /\ keyword k t) (fun _ _ => True).
Proof.
  eapply parses_conseq;
    [apply (parses_required _ (fun t => if keywordb k t then Ok tt else Err (User ("expected keyword " +:+ k))))| |done].
  - intros pre t rest Hl. unfold expect_keyword, bind_st. rewrite consume_keyword_at by done.
    destruct (keywordb k t) eqn:Hk; [|done]. split; [by intros ->|done].
  - intros [] w. setoid_rewrite <- keywordb_spec. split; intros (t & -> & Hf); exists t; split; try done.
    + by destruct (keywordb k t).
    + by rewrite Hf.
Qed.

Lemma parses_expect_identifier d :
  Parses (expect_identifier d) (fun v w => w = [Ident v]) (fun _ _ => True).
Proof.
  eapply parses_conseq;
    [apply (parses_required _ (fun t => match t with Ident v => Ok v | _ => Err (User ("expected " +:+ d)) end))| |done].
  - intros pre t rest Hl. unfold expect_identifier, bind_st. rewrite peek_at.
    destruct t; try done. split; [done|]. by rewrite advance_at.
  - intros v w. split; [intros (t & -> & Hf); destruct t; by simplify_eq|intros ->; by exists (Ident v)].
Qed.

(** *** Literals and lists *)

Lemma number_value_ok d :
  match number_value d with Ok _ => True | Err e => is_user e = true | Panic => False end.
Proof. unfold number_value. destruct (existsb _ _); [destruct (parse_f64 d)|destruct (parse_i64 d)]; done. Qed.

Lemma parses_literal : Parses parse_literal literal (fun _ _ => True).
Proof.
  eapply parses_conseq; [apply (parses_required _ (fun t => match t with
    | Ident v => if eq_ignore_ascii_case v "NULL" then Ok Null else Err (User "expected literal value")
    | StringLit v => Ok (Text v)
    | Number v => number_value v
    | _ => Err (User "expected literal value") end))| |done].
  - intros pre t rest Hl. unfold parse_literal, bind_st. rewrite peek_at.
    destruct t; try done; [destruct (eq_ignore_ascii_case _ _); [|done]| |]; try rewrite advance_at by done; [done| |done].
    pose proof (number_value_ok digits) as Hv. unfold lift. by destruct (number_value digits).
  - intros v w. split.
    + intros (t & -> & Hf). destruct t; try done; cbn [literal]; [|by simplify_eq].
      destruct (eq_ignore_ascii_case _ _); by simplify_eq.
    + destruct w as [|t [|]]; try done; [|by destruct t]. intros Hv. exists t. split; [done|].
      destruct t; try done; cbn [literal] in Hv; [destruct Hv as [-> ->]|subst]; done.
Qed.

Section Lists.
Context {A : Type} (element : db Parser A) (R : A -> list Token -> Prop).
Context (Helt : Parses element R (fun _ _ => True)) (Hne : forall a w, R a w -> w <> []).

Lemma comma_list_sound fuel acc pre rest :
  length (pre ++ rest) = n -> ends_eof rest -> (length rest < fuel)%nat ->
  match comma_list fuel element acc (at_tokens pre rest) with
  | (Ok l, p) => exists l' w rest', l = acc ++ l' /\ rest = w ++ rest' /\ comma_sep R l' w
                 /\ ends_eof rest' /\ p = at_tokens (pre ++ w) rest'
  | (Err e, _) => is_user e = true
  | (Panic, _) => False
  end.
Proof.
  revert acc pre rest. induction fuel as [|fuel IH]; intros acc pre rest Hl He Hf; [lia|].
  cbn [comma_list]. unfold bind_st at 1. pose proof (parses_sound _ _ _ Helt pre rest Hl He) as Hs.
  destruct (element _) as [[a|e|] p]; [|done|done]. destruct Hs as (w & rest' & -> & HR & He' & ->).
  rewrite app_assoc in Hl. pose proof (Hne a w HR) as Hw. destruct w as [|t w]; [done|]. clear Hw.
  unfold bind_st at 1.
  pose proof (parses_sound _ _ _ (parses_consume_token Comma ltac:(done)) (pre ++ t :: w) rest' Hl He') as Hs.
  destruct (consume_token Comma _) as [[b|e|] p]; [|done|done].
  destruct Hs as (wc & rest2 & -> & Hb & He2 & ->). destruct b; subst wc.
  - rewrite app_assoc in Hl. assert (Hf' : (length rest2 < fuel)%nat) by (rewrite !length_app in Hf; simpl in Hf; lia).
    specialize (IH (acc ++ [a]) _ _ Hl He2 Hf').
    destruct (comma_list fuel _ _ _) as [[l|e|] p]; [|done|done].
    destruct IH as (l' & v & r & -> & -> & Hsep & He3 & ->).
    exists (a :: l'), ((t :: w) ++ Comma :: v), r. rewrite <- !app_assoc. by repeat constructor.
  - exists [a], (t :: w), rest2. rewrite app_nil_r. split_and!; try done. by constructor.
Qed.

Lemma comma_list_complete l w :
  comma_sep R l w -> forall fuel acc pre rest, length (pre ++ w ++ rest) = n -> ends_eof rest -> head rest <> Some Comma ->
  (length w < fuel)%nat ->
  comma_list fuel element acc (at_tokens pre (w ++ rest)) = (Ok (acc ++ l), at_tokens (pre ++ w) rest).
Proof.
  pose proof (parses_consume_token Comma ltac:(done)) as Hcomma.
  induction 1 as [a w HR|a w l v HR Hsep IH]; intros [|fuel] acc pre rest Hl He Hh Hf; try lia; cbn [comma_list].
  - rewrite (bind_st_run _ _ _ _ _ (parses_complete _ _ _ Helt pre a w rest Hl He HR I)).
    rewrite app_assoc in Hl.
    rewrite (bind_st_run _ _ _ _ _ (parses_complete _ _ _ Hcomma (pre ++ w) false [] rest Hl He eq_refl Hh)).
    by rewrite app_nil_r.
  - rewrite <- app_assoc in Hl |- *. cbn [app] in Hl |- *.
    assert (He' : ends_eof (Comma :: v ++ rest)) by (apply (ends_eof_app (Comma :: v)), He).
    rewrite (bind_st_run _ _ _ _ _ (parses_complete _ _ _ Helt pre a w _ Hl He' HR I)).
    rewrite app_assoc in Hl.
    rewrite (bind_st_run _ _ _ _ _ (parses_complete _ _ _ Hcomma (pre ++ w) true [Comma] (v ++ rest) Hl
      (ends_eof_app _ _ He) eq_refl I)).
    rewrite IH; [|by rewrite <- app_assoc|done|done|rewrite length_app in Hf; simpl in Hf; lia].
    by rewrite <- !app_assoc.
Qed.

Lemma parses_comma_list :
  Parses (comma_list (Datatypes.S n) element []) (comma_sep R) (fun _ rest => head rest <> Some Comma).
Proof.
  split.
  - intros pre rest Hl He. assert (Hf : (length rest < Datatypes.S n)%nat) by (rewrite length_app in Hl; lia).
    pose proof (comma_list_sound (Datatypes.S n) [] pre rest Hl He Hf) as Hs.
    destruct (comma_list _ _ _ _) as [[l|e|] p]; [|done|done].
    destruct Hs as (l' & w & r & -> & ?). eauto.
  - intros pre l w rest Hl He HR HF. apply (comma_list_complete l w HR _ []); try done. rewrite !length_app in Hl. lia.
Qed.
End Lists.

(** *** Statements *)

(** What follows a statement: its end, or a semicolon. *)
Definition at_end (rest : list Token) : Prop := head rest = Some Eof \/ head rest = Some Semicolon.

Lemma comma_sep_first {A} (R : A -> list Token -> Prop) l w :
  comma_sep R l w -> exists a v r, w = v ++ r /\ R a v /\ (r = [] \/ head r = Some Comma).
Proof.
  destruct 1 as [a w HR|a w l' v HR _]; [exists a, w, []|exists a, w, (Comma :: v)];
    rewrite ?app_nil_r; eauto.
Qed.

Lemma literal_head v w : literal v w -> exists t, w = [t] /\ t <> RParen /\ t <> Eof.
Proof. destruct w as [|t [|]]; try done; [|by destruct t]. intros Hl. exists t. by destruct t. Qed.

Lemma identifier_inv m w : identifier m w -> exists v, w = [Ident v] /\ m = normalize_identifier v.
Proof. destruct w as [|[] [|]]; try done. intros ->. eauto. Qed.

Lemma parses_literals message : Parses (parse_literals message) literals (fun _ _ => True).
Proof.
  unfold parse_literals. apply parses_fuel.
  eapply parses_conseq; [eapply (parses_branch (consume_token RParen) (fun w => w = [RParen]))|..].
  - by apply parses_consume_token.
  - apply parses_ret.
  - eapply parses_bind; [apply parses_comma_list; [apply parses_literal|]|intros vs; eapply parses_then;
      [by apply parses_expect_token|intros; apply parses_ret]|].
    + by intros ? [].
    + by intros vs vs' w rest (? & ? & ? & -> & -> & _ & _).
  - intros vs w rest (l & w1 & w2 & -> & Hsep & _) _ _.
    apply comma_sep_first in Hsep as (v & w' & r & -> & (t & -> & Ht & _)%literal_head & _). simpl. congruence.
  - intros vs w. split.
    + intros [(w1 & w2 & -> & -> & -> & ->)|(l & w1 & w2 & -> & Hsep & ([] & w3 & w4 & -> & -> & -> & ->))];
        by constructor.
    + destruct 1 as [|vs w Hsep]; [left; by exists [RParen], []|right].
      exists vs, w, [RParen]. split_and!; [done|done|]. by exists tt, [RParen], [].
  - done.
Qed.

Lemma parses_identifier d :
  Parses (let! v := expect_identifier d in ret (normalize_identifier v)) identifier (fun _ _ => True).
Proof.
  eapply parses_conseq; [eapply parses_then; [apply parses_expect_identifier|intros; apply parses_ret]| |done].
  intros m w. split.
  - by intros (v & w1 & w2 & -> & -> & -> & ->).
  - intros (v & -> & ->)%identifier_inv. by exists v, [Ident v], [].
Qed.

Ltac unseq :=
  cbv beta in *; repeat match goal with
  | H : seq_of _ _ _ _ |- _ => destruct H as (? & ? & ? & -> & ? & ?)
  | H : exists _, _ |- _ => destruct H
  | H : _ /\ _ |- _ => destruct H
  | H : unit |- _ => destruct H
  | H : ?w = _ :: _ |- _ => subst w
  | H : ?w = [] |- _ => subst w
  end.

(** The result of a parser for a fixed token is [tt]. *)
Ltac seq_cons := first [eapply (seq_cons _ _ tt) | eapply seq_cons].
Ltac seq_intro := first [eapply (seq_intro _ _ tt) | eapply seq_intro].
Ltac seq_last := first [eapply (seq_last _ _ tt) | eapply seq_last].

Ltac parse_steps :=
  repeat first
    [ apply parses_ret
    | eapply parses_then;
      [ first [ apply parses_expect_identifier | apply parses_expect_keyword
              | apply parses_expect_token; discriminate | apply parses_literal | apply parses_literals ]
      | intros ] ].

Lemma normalize_type_name_ok t :
  match normalize_type_name t with Ok _ => True | Err e => is_user e = true | Panic => False end.
Proof. unfold normalize_type_name. by case_bool_decide. Qed.

Lemma parses_column : Parses parse_column column_def (fun _ _ => True).
Proof.
  eapply parses_conseq; [unfold parse_column; parse_steps;
    eapply parses_then; [apply parses_lift, normalize_type_name_ok|intros; apply parses_ret]| |done].
  intros [cn ct] w. split.
  - intros H. unseq. by simplify_eq/=.
  - destruct w as [|[] [|[] [|]]]; try done. intros [? ?]. simplify_eq/=.
    seq_cons; [done|]. seq_cons; [done|]. eapply (seq_intro _ _ _ _ [] []); done.
Qed.

Lemma parses_create_table :
  Parses parse_create_table
    (fun s w => exists v cs wc, s = CreateTable (normalize_identifier v) cs
       /\ w = Ident v :: LParen :: wc ++ [RParen] /\ comma_sep column_def cs wc)
    (fun _ => at_end).
Proof.
  unfold parse_create_table. apply parses_fuel.
  eapply parses_conseq; [parse_steps; eapply parses_bind;
    [apply parses_comma_list; [apply parses_column|by intros ? []]|intros cs; parse_steps|]| |done].
  - intros cs b w rest H _ _. cbv beta in *. unseq. simpl. congruence.
  - intros s w. split.
    + intros H. unseq. subst. eauto 10.
    + intros (v & cs & wc & -> & -> & Hsep).
      repeat (seq_cons; [done|]). seq_intro; [done|]. by seq_last.
Qed.

Lemma parses_create_index :
  Parses parse_create_index
    (fun s w => exists i k t c, s = CreateIndex (normalize_identifier i) (normalize_identifier t) (normalize_identifier c)
       /\ w = [Ident i; k; Ident t; LParen; Ident c; RParen] /\ keyword "ON" k)
    (fun _ => at_end).
Proof.
  eapply parses_conseq; [unfold parse_create_index; parse_steps| |done].
  intros s w. split.
  - intros H. unseq. subst. eauto 10.
  - intros (i & k & t & c & -> & -> & Hk).
    do 2 (seq_cons; [by eauto|]). repeat (seq_cons; [done|]). done.
Qed.

Lemma parses_insert :
  Parses parse_insert
    (fun s w => exists k1 t k2 vs wv, s = Insert (normalize_identifier t) vs
       /\ w = k1 :: Ident t :: k2 :: LParen :: wv /\ keyword "INTO" k1 /\ keyword "VALUES" k2 /\ literals vs wv)
    (fun _ => at_end).
Proof.
  eapply parses_conseq; [unfold parse_insert; parse_steps| |done].
  intros s w. split.
  - intros H. unseq. subst. rewrite app_nil_r. eauto 12.
  - intros (k1 & t & k2 & vs & wv & -> & -> & Hk1 & Hk2 & Hv).
    do 3 (seq_cons; [by eauto|]). seq_cons; [done|]. by seq_last.
Qed.

Lemma parses_load_extension :
  Parses parse_load_extension
    (fun s w => exists k e, s = LoadExtension (normalize_identifier e) /\ w = [k; Ident e] /\ keyword "EXTENSION" k)
    (fun _ => at_end).
Proof.
  eapply parses_conseq; [unfold parse_load_extension; parse_steps| |done].
  intros s w. split.
  - intros H. unseq. subst. eauto 10.
  - intros (k & e & -> & -> & Hk). do 2 (seq_cons; [by eauto|]). done.
Qed.

Definition call_form (s : Statement) w : Prop :=
  exists f vs wv, s = SelectFunction (normalize_identifier f) vs /\ w = Ident f :: LParen :: wv /\ literals vs wv.

Definition select_form (s : Statement) w : Prop :=
  exists p wp k t c wc, s = Select p (normalize_identifier t) c
    /\ w = wp ++ k :: Ident t :: wc /\ projection p wp /\ keyword "FROM" k /\ where_clause c wc.

Lemma parses_select_function : Parses parse_select_function call_form (fun _ => at_end).
Proof.
  eapply parses_conseq; [unfold parse_select_function; parse_steps| |done].
  intros s w. split.
  - intros H. unseq. subst. rewrite app_nil_r. unfold call_form. eauto 10.
  - intros (f & vs & wv & -> & -> & Hv). do 2 (seq_cons; [by eauto|]). by seq_last.
Qed.

Lemma parses_weaken {A} (m : db Parser A) R (F : A -> list Token -> Prop) :
  Parses m R (fun _ _ => True) -> Parses m R F.
Proof. intros Hm. by eapply parses_conseq. Qed.

Lemma parses_projection : Parses parse_projection projection (fun _ rest => head rest <> Some Comma).
Proof.
  unfold parse_projection. apply parses_fuel.
  eapply parses_conseq; [eapply (parses_branch (consume_token Star) (fun w => w = [Star]) _ _ _ _ _
    (fun _ rest => head rest <> Some Comma))| |].
  - by apply parses_consume_token.
  - apply parses_weaken, parses_ret.
  - eapply parses_bind; [apply (parses_comma_list _ _ (parses_identifier _))|intros cs; apply parses_weaken, parses_ret|].
    + by intros ? [].
    + intros cs b w rest [-> ->] HF _. exact HF.
  - intros p w rest (cs & w1 & w2 & -> & Hsep & -> & ->) _ _.
    apply comma_sep_first in Hsep as (v & w' & r & -> & (i & -> & _)%identifier_inv & _). done.
  - intros p w. split.
    + intros [(w1 & w2 & -> & -> & -> & ->)|(cs & w1 & w2 & -> & Hsep & -> & ->)]; [constructor|].
      rewrite app_nil_r. by constructor.
    + destruct 1 as [|cs w Hsep]; [left; by exists [Star], []|right]. by seq_last.
  - done.
Qed.

Lemma parses_where : Parses parse_where where_clause (fun _ => at_end).
Proof.
  unfold parse_where. eapply parses_conseq; [eapply parses_branch with (F2 := fun _ => at_end)| |done].
  - apply parses_consume_keyword.
  - apply parses_weaken. parse_steps.
  - apply parses_weaken, parses_ret.
  - intros s w rest [-> ->] Hr _ t Ht. simpl in Ht. by destruct Hr; simplify_eq/=.
  - intros s w. split.
    + intros [(w1 & w2 & -> & (k & -> & Hk) & H)|[-> ->]]; [|constructor].
      unseq. subst. rewrite app_nil_r. by apply (where_some k _ _ [Ident _]).
    + destruct 1 as [|k c v wc wv Hk Hc Hv]; [by right|left]. apply identifier_inv in Hc as (i & -> & ->).
      exists [k], (Ident i :: EqSign :: wv). split_and!; [done|by exists k|].
      do 2 (seq_cons; [done|]). by seq_last.
Qed.

(** [f (] after [SELECT] is a function call. *)
Definition is_call (rest : list Token) : bool :=
  match rest with Ident _ :: LParen :: _ => true | _ => false end.

Lemma token_at_next pre t t1 rest :
  length (pre ++ t :: t1 :: rest) = n ->
  peek_n 1 (at_tokens pre (t :: t1 :: rest)) = (Ok t1, at_tokens pre (t :: t1 :: rest)).
Proof.
  rewrite length_app. simpl. intros Hl. unfold peek_n, token_at. cbn [offset tokens at_tokens].
  rewrite N.min_r by lia. rewrite (proj2 (N.ltb_lt _ _)) by (rewrite length_app; simpl; lia).
  replace (N.to_nat (len pre + 1)) with (length (pre ++ [t])) by (rewrite length_app; simpl; lia).
  replace (pre ++ t :: t1 :: rest) with ((pre ++ [t]) ++ t1 :: rest) by by rewrite <- app_assoc.
  by rewrite list_lookup_middle.
Qed.

Lemma token_at_last pre t :
  length (pre ++ [t]) = n -> peek_n 1 (at_tokens pre [t]) = (Ok t, at_tokens pre [t]).
Proof.
  rewrite length_app. simpl. intros Hl. unfold peek_n, token_at. cbn [offset tokens at_tokens].
  rewrite N.min_r by lia. rewrite (proj2 (N.ltb_ge _ _)) by (rewrite length_app; simpl; lia).
  rewrite sub_panic_ok by (rewrite length_app; simpl; lia). cbn [bind_outcome].
  replace (N.to_nat (len (pre ++ [t]) - 1)) with (length pre) by (rewrite length_app; simpl; lia).
  by rewrite list_lookup_middle.
Qed.

Lemma parses_peek_call : Parses peek_is_function_call (fun _ w => w = []) (fun b rest => b = is_call rest).
Proof.
  assert (Hrun : forall pre rest, length (pre ++ rest) = n -> ends_eof rest ->
    peek_is_function_call (at_tokens pre rest) = (Ok (is_call rest), at_tokens pre rest)).
  { intros pre rest Hl He. unfold peek_is_function_call. destruct rest as [|t [|t1 rest]]; [done| |].
    - erewrite bind_st_run by apply peek_at. erewrite bind_st_run by by apply token_at_last.
      unfold ends_eof in He. simpl in He. by simplify_eq.
    - erewrite bind_st_run by apply peek_at. erewrite bind_st_run by by apply token_at_next. done. }
  split.
  - intros pre rest Hl He. rewrite Hrun by done. exists [], rest. by rewrite app_nil_r.
  - intros pre b w rest Hl He -> ->. rewrite app_nil_r. by apply Hrun.
Qed.

Lemma parses_select_rest :
  Parses (let! projection := parse_projection in
          let! _ := expect_keyword "FROM" in
          let! table := expect_identifier "table name" in
          let! selection := parse_where in
          ret (Select projection (normalize_identifier table) selection)) select_form (fun _ => at_end).
Proof.
  eapply parses_conseq; [eapply (parses_bind _ _ _ _ _ (fun _ => at_end));
    [apply parses_projection|intros p; parse_steps|]| |done].
  - eapply parses_bind; [apply parses_where|intros c; apply parses_weaken, parses_ret|].
    intros c s w rest [-> ->] HF _. exact HF.
  - intros p s w rest (? & ? & ? & -> & (k & -> & Hk) & _) _ _. simpl. intros [= ->]. done.
  - intros s w. split.
    + intros H. unseq. subst. rewrite app_nil_r. unfold select_form. simpl. eauto 12.
    + intros (p & wp & k & t & c & wc & -> & -> & Hp & Hk & Hc).
      seq_intro; [done|]. seq_cons; [by eauto|]. seq_cons; [done|]. by seq_last.
Qed.

Lemma parses_select : Parses parse_select (fun s w => call_form s w \/ select_form s w) (fun _ => at_end).
Proof.
  unfold parse_select. eapply parses_conseq; [eapply (parses_bind _ _ _ _ (fun b : bool => if b then call_form else select_form) (fun _ => at_end))| |done].
  - apply parses_peek_call.
  - intros []; [apply parses_select_function|].
    apply parses_select_rest.
  - intros [] s w rest.
    + by intros (f & vs & wv & -> & -> & _).
    + intros (p & wp & k & t & c & wc & -> & -> & Hp & Hk & _) _ _. destruct Hp as [|cs w Hsep]; [done|].
      apply comma_sep_first in Hsep as (v & w' & r & -> & (i & -> & _)%identifier_inv & Hr).
      destruct Hr as [->|Hr]; [by destruct k|]. destruct r as [|t' r]; [done|]. by simplify_eq/=.
  - intros s w. split.
    + intros (b & w1 & w2 & -> & -> & H). destruct b; auto.
    + intros [H|H]; [by exists true, [], w|by exists false, [], w].
Qed.

Lemma keyword_other k k' t :
  keyword k t -> eq_ignore_ascii_case k k' = false -> keywordb k' t = false.
Proof.
  destruct t; try done. cbn [keyword keywordb]. unfold eq_ignore_ascii_case.
  intros ->%bool_decide_eq_true. done.
Qed.

(** The branch of the statement parsers: a keyword picks the form of the rest. *)
Definition led_by (k : string) (R : Statement -> list Token -> Prop) (s : Statement) w : Prop :=
  exists t w', w = t :: w' /\ keyword k t /\ R s w'.

Lemma parses_led k m1 R1 m2 R2 :
  Parses m1 R1 (fun _ => at_end) -> Parses m2 R2 (fun _ => at_end) ->
  (forall s w, R2 s w -> exists k' t w', w = t :: w' /\ keyword k' t /\ eq_ignore_ascii_case k' k = false) ->
  Parses (let! b := consume_keyword k in if b : bool then m1 else m2)
    (fun s w => led_by k R1 s w \/ R2 s w) (fun _ => at_end).
Proof.
  intros H1 H2 Hk. eapply parses_conseq; [eapply parses_branch; [apply parses_consume_keyword|exact H1|exact H2|]| |done].
  - intros s w rest (k' & t & w' & -> & Hk' & Hne)%Hk _ _ t' [= <-]. by eapply keyword_other.
  - intros s w. split.
    + intros [(w1 & w2 & -> & (t & -> & Ht) & HR)|HR]; [left; by exists t, w2|by right].
    + intros [(t & w' & -> & Ht & HR)|HR]; [left; exists [t], w'; split_and!; eauto|by right].
Qed.

Lemma led_first k k' R s w :
  led_by k R s w -> eq_ignore_ascii_case k k' = false ->
  exists k0 t w', w = t :: w' /\ keyword k0 t /\ eq_ignore_ascii_case k0 k' = false.
Proof. intros (t & w' & -> & Ht & _) Hk. by exists k, t, w'. Qed.

Lemma sentence_forms s w :
  sentence s w <->
  led_by "CREATE" (fun s w => led_by "TABLE" (fun s w => exists v cs wc, s = CreateTable (normalize_identifier v) cs
       /\ w = Ident v :: LParen :: wc ++ [RParen] /\ comma_sep column_def cs wc) s w \/
     led_by "INDEX" (fun s w => exists i k t c, s = CreateIndex (normalize_identifier i) (normalize_identifier t) (normalize_identifier c)
       /\ w = [Ident i; k; Ident t; LParen; Ident c; RParen] /\ keyword "ON" k) s w \/ False) s w
  \/ led_by "INSERT" (fun s w => exists k1 t k2 vs wv, s = Insert (normalize_identifier t) vs
       /\ w = k1 :: Ident t :: k2 :: LParen :: wv /\ keyword "INTO" k1 /\ keyword "VALUES" k2 /\ literals vs wv) s w
  \/ led_by "LOAD" (fun s w => exists k e, s = LoadExtension (normalize_identifier e) /\ w = [k; Ident e]
       /\ keyword "EXTENSION" k) s w
  \/ led_by "SELECT" (fun s w => call_form s w \/ select_form s w) s w \/ False.
Proof.
  split.
  - destruct 1; repeat match goal with H : identifier _ _ |- _ => apply identifier_inv in H as (? & -> & ->) end;
      unfold led_by, call_form, select_form; cbn [app].
    + left. do 2 eexists. split_and!; [done|done|]. left. eauto 12.
    + left. do 2 eexists. split_and!; [done|done|]. right; left. eauto 12.
    + right; left. eauto 15.
    + right; right; left. eauto 12.
    + right; right; right; left. eauto 12.
    + right; right; right; left. do 2 eexists. split_and!; [done|done|]. right. do 6 eexists. by split_and!.
  - unfold led_by, call_form, select_form. intros H.
    repeat match goal with
    | H : _ \/ _ |- _ => destruct H | H : exists _, _ |- _ => destruct H | H : _ /\ _ |- _ => destruct H
    end; subst; try done.
    + by apply (s_create_table _ _ _ [Ident _]).
    + by apply (s_create_index _ _ _ _ [Ident _] _ [Ident _] _ [Ident _]).
    + by apply (s_insert _ _ _ _ [Ident _]).
    + by apply (s_load _ _ _ [Ident _]).
    + by apply (s_call _ _ [Ident _]).
    + by apply (s_select _ _ _ _ _ [Ident _]).
Qed.

Lemma parses_statement : Parses parse_statement_tokens sentence (fun _ => at_end).
Proof.
  apply (parses_conseq _ _ (fun _ => at_end) _ _) with (2 := fun s w => iff_sym (sentence_forms s w)); [|done].
  unfold parse_statement_tokens.
  apply parses_led; [apply parses_led; [apply parses_create_table|apply parses_led|]| |].
  - apply parses_create_index.
  - by apply parses_weaken, parses_throw.
  - done.
  - intros s w [H|[]]. by eapply led_first.
  - apply parses_led; [apply parses_insert| |].
    + apply parses_led; [apply parses_load_extension| |].
      * apply parses_led; [apply parses_select|by apply parses_weaken, parses_throw|done].
      * intros s w [H|[]]. by eapply led_first.
    + intros s w [H|[H|[]]]; by eapply led_first.
  - intros s w [H|[H|[H|[]]]]; by eapply led_first.
Qed.

(** *** The end of the text *)

Lemma skip_semicolons_run k fuel pre t rest :
  length (pre ++ replicate k Semicolon ++ t :: rest) = n -> t <> Semicolon -> (k < fuel)%nat ->
  skip_semicolons fuel (at_tokens pre (replicate k Semicolon ++ t :: rest))
  = (Ok tt, at_tokens (pre ++ replicate k Semicolon) (t :: rest)).
Proof.
  revert k pre. induction fuel as [|fuel IH]; intros k pre Hl Ht Hk; [lia|].
  cbn [skip_semicolons]. unfold consume_token. destruct k as [|k]; cbn [replicate app] in Hl |- *.
  - unfold bind_st. rewrite peek_at, bool_decide_false by done. by rewrite app_nil_r.
  - unfold bind_st. rewrite peek_at, bool_decide_true, advance_at by done. unfold ret at 1.
    rewrite IH by (done || lia || by rewrite <- app_assoc). by rewrite <- app_assoc.
Qed.

Lemma semicolons_split rest :
  ends_eof rest -> exists k t rest', rest = replicate k Semicolon ++ t :: rest' /\ t <> Semicolon.
Proof.
  induction rest as [|t rest IH]; [done|]. intros He. destruct (decide (t = Semicolon)) as [->|Ht].
  - destruct IH as (k & t & r & -> & Ht); [by eapply ends_eof_cons|]. by exists (Datatypes.S k), t, r.
  - by exists 0%nat, t, rest.
Qed.

Lemma finish_run `{TokenDebug} k pre t rest :
  length (pre ++ replicate k Semicolon ++ t :: rest) = n -> t <> Semicolon ->
  (parser_finish (at_tokens pre (replicate k Semicolon ++ t :: rest))).1
  = if bool_decide (t = Eof) then Ok tt else Err (User ("unexpected token after SQL statement: " +:+ debug_token t)).
Proof.
  intros Hl Ht. unfold parser_finish, bind_st, parser_fuel, gets.
  rewrite skip_semicolons_run; [|done|done|].
  - rewrite peek_at. by case_bool_decide.
  - cbn [tokens at_tokens]. rewrite !length_app, length_replicate. simpl. lia.
Qed.
End Parses.

(** ** The whole parser on a token list *)

Section Program.
Context `{TokenDebug}.

Definition parse_program : db Parser Statement :=
  let! statement := parse_statement_tokens in
  let! _ := parser_finish in
  ret statement.

Lemma parse_program_sound ts :
  N.of_nat (length ts) <= USIZE_MAX -> ends_eof ts ->
  match (parse_program (mkParser ts 0)).1 with
  | Ok s => exists w k rest, ts = w ++ replicate k Semicolon ++ Eof :: rest /\ sentence s w
  | Err e => is_user e = true
  | Panic => False
  end.
Proof.
  intros Hn He. pose proof (parses_sound _ _ _ _ (parses_statement (length ts) Hn) [] ts eq_refl He) as Hs.
  unfold parse_program, bind_st. change (mkParser ts 0) with (at_tokens [] ts).
  destruct (parse_statement_tokens _) as [[s|e|] p]; [|done|done].
  destruct Hs as (w & r & -> & Hw & Her & ->). destruct (semicolons_split r Her) as (k & t & rest & -> & Ht).
  pose proof (finish_run _ Hn k ([] ++ w) t rest eq_refl Ht) as Hf.
  destruct (parser_finish _) as [o p]. simpl in Hf. subst o.
  case_bool_decide as Heof; [subst t|done]. cbn. by exists w, k, rest.
Qed.

Lemma parse_program_complete w k s :
  N.of_nat (length (w ++ replicate k Semicolon ++ [Eof])) <= USIZE_MAX -> sentence s w ->
  (parse_program (mkParser (w ++ replicate k Semicolon ++ [Eof]) 0)).1 = Ok s.
Proof.
  intros Hn Hs. assert (He : ends_eof (replicate k Semicolon ++ [Eof])) by by apply ends_eof_app.
  assert (Hend : at_end (replicate k Semicolon ++ [Eof])) by (destruct k; [by left|by right]).
  pose proof (parses_complete _ _ _ _ (parses_statement _ Hn) [] s w _ eq_refl He Hs Hend) as Hrun.
  unfold parse_program. change (mkParser ?ts 0) with (at_tokens [] ts). erewrite bind_st_run by exact Hrun.
  pose proof (finish_run _ Hn k ([] ++ w) Eof [] eq_refl ltac:(done)) as Hf. rewrite bool_decide_true in Hf by done.
  unfold bind_st. destruct (parser_finish _) as [o p]. simpl in Hf. by subst o.
Qed.
End Program.
