(* ===== verification/SqlTheorems.v ===== *)
(** * SqlTheorems: lexing and parsing of SQL texts *)

From stdpp Require Import list strings pretty.
From S2P Require Import Prelude Core Bytes Page Catalog Double Extension Sql SqlGrammar.

(** ** The lexer makes progress *)

Lemma chars_length bs : (length (chars bs) <= length bs)%nat.
Proof.
  induction bs as [bs IH] using (induction_ltof1 _ (@length byte)). unfold ltof in IH.
  destruct bs as [|b0 r0]; [done|]. cbn [chars]. case_match.
  { cbn [length]. pose proof (IH r0 ltac:(simpl; lia)). lia. }
  destruct r0 as [|b1 r1]; [done|]. case_match.
  { cbn [length]. pose proof (IH r1 ltac:(simpl; lia)). lia. }
  destruct r1 as [|b2 r2]; [simpl; lia|]. case_match.
  { cbn [length]. pose proof (IH r2 ltac:(simpl; lia)). lia. }
  destruct r2 as [|b3 r3]; [simpl; lia|]. cbn [length]. pose proof (IH r3 ltac:(simpl; lia)). lia.
Qed.

Lemma skip_whitespace_length l : (length (skip_whitespace l) <= length l)%nat.
Proof. induction l as [|c l IH]; [done|]. cbn [skip_whitespace]. case_match; simpl; lia. Qed.

Lemma read_while_length p acc l : (length (read_while p acc l).2 <= length l)%nat.
Proof.
  revert acc. induction l as [|c l IH]; intros acc; [done|]. cbn [read_while].
  destruct (p c); [|done]. pose proof (IH (push_char acc c)). simpl. lia.
Qed.

Lemma read_string_length v l r s :
  read_string_loop v l = Ok (s, r) -> (length r <= length l)%nat.
Proof.
  revert v. induction l as [l IH] using (induction_ltof1 _ (@length char)). unfold ltof in IH.
  intros v. destruct l as [|c l]; [done|]. cbn [read_string_loop]. destruct (is_char x27 c).
  - destruct l as [|d l]; [intros [= _ <-]; simpl; lia|]. destruct (is_char x27 d); [|intros [= _ <-]; simpl; lia].
    intros H%IH; simpl in *; lia.
  - intros H%IH; simpl in *; lia.
Qed.

Lemma read_string_ok v l :
  match read_string_loop v l with Ok _ => True | Err e => is_user e = true | Panic => False end.
Proof.
  revert v. induction l as [l IH] using (induction_ltof1 _ (@length char)). unfold ltof in IH.
  intros v. destruct l as [|c l]; [done|]. cbn [read_string_loop]. destruct (is_char x27 c).
  - destruct l as [|d l]; [done|]. destruct (is_char x27 d); [|done]. apply IH. simpl. lia.
  - apply IH. simpl. lia.
Qed.

Definition lexes (l : lexer) (r : DbResult (Token * lexer)) : Prop :=
  match r with
  | Ok (t, rest) => t = Eof \/ (length rest < length l)%nat
  | Err e => is_user e = true
  | Panic => False
  end.

Lemma digit_is_number c : is_ascii_digit c = true -> is_number_char c = true.
Proof. unfold is_number_char. by intros ->. Qed.

Lemma start_continues c : is_identifier_start c = true -> is_identifier_continue c = true.
Proof.
  unfold is_identifier_start, is_identifier_continue. intros [-> | ->]%orb_true_iff; [done|]. apply orb_true_r.
Qed.

Lemma read_while_progress p acc c l :
  p c = true -> (length (read_while p acc (c :: l)).2 < length (c :: l))%nat.
Proof.
  intros Hp. cbn [read_while]. rewrite Hp. pose proof (read_while_length p (push_char acc c) l). simpl. lia.
Qed.

Lemma single_char_not_eof c t : single_char_token c = Some t -> t <> Eof.
Proof. unfold single_char_token. by repeat (case_match; [by intros [= <-]|]). Qed.

Lemma next_token_lexes l : lexes l (next_token l).
Proof.
  destruct l as [|c l]; [by left|]. cbn [next_token]. destruct (single_char_token c) as [t|] eqn:Ht.
  { apply single_char_not_eof in Ht. right. simpl. lia. }
  destruct (is_char x27 c).
  { pose proof (read_string_ok "" l) as Hok. destruct (read_string_loop "" l) as [[s r]|e|] eqn:Hr; [|exact Hok|exact Hok].
    apply read_string_length in Hr. right. simpl. lia. }
  destruct (is_identifier_start c) eqn:Hs.
  { unfold read_identifier. pose proof (read_while_progress is_identifier_continue "" c l) as Hp.
    destruct (read_while _ _ _) as [s r]. right. by apply Hp, start_continues. }
  destruct (is_ascii_digit c || is_char x2d c) eqn:Hd; [|done]. unfold read_number.
  destruct (is_char x2d c).
  - destruct l as [|d l]; [done|]. destruct (is_ascii_digit d) eqn:Hdd; [|done].
    pose proof (read_while_progress is_number_char "-" d l (digit_is_number _ Hdd)) as Hp.
    destruct (read_while _ _ _) as [s r]. right. simpl in *. lia.
  - rewrite orb_false_r in Hd. pose proof (read_while_progress is_number_char "" c l (digit_is_number _ Hd)) as Hp.
    destruct (read_while _ _ _) as [s r]. right. exact Hp.
Qed.

Lemma tokenize_loop_ok fuel l acc :
  (length l < fuel)%nat ->
  match tokenize_loop fuel l acc with
  | Ok ts => exists ts', ts = acc ++ ts' ++ [Eof] /\ (Eof ∉ ts') /\ (length ts' <= length l)%nat
  | Err e => is_user e = true
  | Panic => False
  end.
Proof.
  revert l acc. induction fuel as [|fuel IH]; intros l acc Hf; [lia|]. cbn [tokenize_loop].
  pose proof (skip_whitespace_length l) as Hw. pose proof (next_token_lexes (skip_whitespace l)) as Hn.
  destruct (next_token _) as [[t rest]|e|]; [|done|done]. cbn [lexes] in Hn. cbn [bind_outcome].
  case_bool_decide as Ht; [|destruct Hn as [?|Hn]; [done|]].
  - subst t. exists []. split_and!; [done|by apply not_elem_of_nil|simpl; lia].
  - specialize (IH rest (acc ++ [t]) ltac:(lia)). destruct (tokenize_loop _ _ _) as [ts|e|]; [|done|done].
    destruct IH as (ts' & -> & Hno & Hl). exists (t :: ts'). rewrite <- app_assoc. split_and!; [done| |simpl; lia].
    apply not_elem_of_cons. split; congruence.
Qed.

Lemma tokenize_ok sql :
  match tokenize sql with
  | Ok ts => exists ts', ts = ts' ++ [Eof] /\ (Eof ∉ ts') /\ N.of_nat (length ts') <= string_len sql
  | Err e => is_user e = true
  | Panic => False
  end.
Proof.
  unfold tokenize. pose proof (tokenize_loop_ok _ (chars (bytes_of_string sql)) [] (Nat.lt_succ_diag_r _)) as H.
  destruct (tokenize_loop _ _ _) as [ts|e|]; [|done|done]. destruct H as (ts' & -> & Hno & Hl).
  exists ts'. split_and!; [done|done|]. pose proof (chars_length (bytes_of_string sql)). unfold string_len. lia.
Qed.

(** ** Texts of at most the address space *)

Section Parsing.
Context `{TokenDebug}.

Lemma parse_statement_program sql ts :
  tokenize sql = Ok ts -> parse_statement sql = (parse_program (mkParser ts 0)).1.
Proof. unfold parse_statement. by intros ->. Qed.

Lemma parse_statement_sound (sql : string) (Hlen : string_len sql < USIZE_MAX) :
  match parse_statement sql with
  | Ok s => exists w k, tokenize sql = Ok (w ++ replicate k Semicolon ++ [Eof]) /\ sentence s w
  | Err e => is_user e = true
  | Panic => False
  end.
Proof.
  pose proof (tokenize_ok sql) as Ht. destruct (tokenize sql) as [ts|e|] eqn:Hts;
    [|unfold parse_statement; by rewrite Hts|done].
  destruct Ht as (ts' & -> & Hno & Hl). rewrite (parse_statement_program _ _ Hts).
  pose proof (parse_program_sound (ts' ++ [Eof])) as Hs.
  rewrite length_app in Hs. specialize (Hs ltac:(simpl; lia) (ends_eof_app ts' [Eof] eq_refl)).
  destruct (parse_program _).1 as [s|e|]; [|done|done].
  destruct Hs as (w & k & rest & Heq & Hw). exists w, k. split; [|done]. f_equal.
  destruct rest as [|t rest _] using rev_ind; [done|]. exfalso. apply Hno.
  rewrite app_comm_cons, !app_assoc in Heq. apply app_inj_tail in Heq as [-> _].
  apply elem_of_app. right. by left.
Qed.

(** C16. Parsing ends with a statement or a user error: no text makes the lexer or the parser
    run out of their bounds, index outside the tokens or fail in another class. *)
Theorem parse_statement_total (sql : string) (Hlen : string_len sql < USIZE_MAX) :
  match parse_statement sql with Ok _ => True | Err e => is_user e = true | Panic => False end.
Proof. pose proof (parse_statement_sound sql Hlen) as Hs. by destruct (parse_statement sql). Qed.

(** C14. The parser accepts exactly the sentences of the grammar, followed by any number of
    semicolons, and returns the statement the grammar assigns. *)
Theorem parse_statement_iff_sentence (sql : string) (s : Statement) (Hlen : string_len sql < USIZE_MAX) :
  parse_statement sql = Ok s <->
  exists w k, tokenize sql = Ok (w ++ replicate k Semicolon ++ [Eof]) /\ sentence s w.
Proof.
  split; [intros Hp; pose proof (parse_statement_sound sql Hlen) as Hs; by rewrite Hp in Hs|].
  intros (w & k & Hts & Hw). rewrite (parse_statement_program _ _ Hts). apply parse_program_complete; [|done].
  pose proof (tokenize_ok sql) as Ht. rewrite Hts in Ht. destruct Ht as (ts' & -> & _ & Hl).
  rewrite length_app. simpl. lia.
Qed.
End Parsing.

(** ** Witnesses *)

Definition sample_debug : TokenDebug := fun t => match t with Ident name => name | _ => "token" end.

Lemma parse_statement_total_witness :
  string_len "SELECT name FROM users WHERE id = 1 2" < USIZE_MAX /\
  match parse_statement (H := sample_debug) "SELECT name FROM users WHERE id = 1 2" with
  | Ok _ => True | Err e => is_user e = true | Panic => False end.
Proof.
  assert (Hl : string_len "SELECT name FROM users WHERE id = 1 2" < USIZE_MAX) by (vm_compute; done).
  split; [exact Hl|]. exact (parse_statement_total (H := sample_debug) _ Hl).
Defined.

(** A statement with other cases of keywords and names, and the tokens the grammar asks for. *)
Lemma parse_statement_iff_sentence_witness :
  let sql := "insert into Users values (1, 'Ada''s', NULL) ; ;" in
  let s := Insert "users" [Integer 1; Text "Ada's"; Null] in
  string_len sql < USIZE_MAX /\
  exists w k, tokenize sql = Ok (w ++ replicate k Semicolon ++ [Eof]) /\ sentence s w.
Proof.
  intros sql s. assert (Hl : string_len sql < USIZE_MAX) by (vm_compute; done). split; [exact Hl|].
  refine (proj1 (parse_statement_iff_sentence (H := sample_debug) sql s Hl) _). vm_compute. reflexivity.
Defined.
