(* ===== verification/SqlRender.v ===== *)
(** * SqlRender: SQL texts of statements, and the round trip through lexer and parser *)

From Stdlib Require Import Floats.SpecFloat.
From stdpp Require Import list strings pretty.
From S2P Require Import Prelude Core Bytes Page Catalog Double DoubleFacts Extension Sql SqlGrammar SqlTheorems.

(** ** Characters of well-formed texts *)

(** One character: alone in its bytes, and ASCII or without ASCII bytes. *)
Definition utf8_char (c : char) : Prop :=
  (forall bs, chars (c ++ bs) = c :: chars bs) /\
  ((exists b, c = [b]) \/ Forall (fun b => 128 <= Byte.to_N b) c) /\ c <> [] /\ utf8_valid c = true.

Lemma byte_in_lower lo hi b : byte_in lo hi b = true -> lo <= Byte.to_N b <= hi.
Proof. unfold byte_in. intros H. reflect_bool. lia. Qed.
Lemma byte_in_false lo hi b : byte_in lo hi b = false -> Byte.to_N b < lo \/ hi < Byte.to_N b.
Proof. unfold byte_in. intros [?|?]%andb_false_iff; reflect_bool; auto. Qed.
Lemma byte_in_intro lo hi b : lo <= Byte.to_N b <= hi -> byte_in lo hi b = true.
Proof. intros [? ?]. unfold byte_in. apply andb_true_iff. split; by apply N.leb_le. Qed.
Lemma byte_in_out lo hi b : Byte.to_N b < lo \/ hi < Byte.to_N b -> byte_in lo hi b = false.
Proof. intros H. destruct (byte_in lo hi b) eqn:E; [|done]. apply byte_in_lower in E. lia. Qed.

Lemma second_of_three_high b0 b1 : second_of_three b0 b1 = true -> 128 <= Byte.to_N b1.
Proof.
  unfold second_of_three, is_continuation. repeat case_match; intros Hb%byte_in_lower; lia.
Qed.
Lemma second_of_four_high b0 b1 : second_of_four b0 b1 = true -> 128 <= Byte.to_N b1.
Proof.
  unfold second_of_four, is_continuation. repeat case_match; intros Hb%byte_in_lower; lia.
Qed.
Lemma continuation_high b : is_continuation b = true -> 128 <= Byte.to_N b.
Proof. intros H%byte_in_lower. lia. Qed.

(** A valid text is a list of characters. *)
Lemma utf8_ind (P : list byte -> Prop) :
  P [] -> (forall c bs, utf8_char c -> utf8_valid bs = true -> P bs -> P (c ++ bs)) ->
  forall bs, utf8_valid bs = true -> P bs.
Proof.
  intros H0 Hc bs. induction bs as [bs IH] using (induction_ltof1 _ (@length byte)). unfold ltof in IH.
  destruct bs as [|b0 r0]; [done|]. cbn [utf8_valid]. destruct (byte_in 0 127 b0) eqn:E0.
  { intros Hv. apply (Hc [b0]); [|done|apply IH; [simpl; lia|done]].
    split_and!; [|left; by exists b0|done|by cbn; rewrite E0]. intros bs. cbn [app chars]. by rewrite E0. }
  apply byte_in_false in E0. destruct r0 as [|b1 r1]; [done|]. destruct (byte_in 194 223 b0) eqn:E2.
  { intros [H1 Hv]%andb_true_iff. apply byte_in_lower in E2. pose proof (continuation_high _ H1) as Hh1.
    apply (Hc [b0; b1]); [|done|apply IH; [simpl; lia|done]]. split_and!; [|right|done|].
    - intros bs. cbn [app chars]. rewrite byte_in_out, byte_in_intro by lia. done.
    - repeat constructor; lia.
    - cbn [utf8_valid]. rewrite byte_in_out, byte_in_intro, H1 by lia. done. }
  apply byte_in_false in E2. destruct r1 as [|b2 r2]; [done|]. destruct (byte_in 224 239 b0) eqn:E3.
  { intros [[H1 H2]%andb_true_iff Hv]%andb_true_iff.
    pose proof (second_of_three_high _ _ H1) as Hh1. pose proof (continuation_high _ H2) as Hh2.
    apply byte_in_lower in E3. apply (Hc [b0; b1; b2]); [|done|apply IH; [simpl; lia|done]].
    split_and!; [|right|done|].
    - intros bs. cbn [app chars]. rewrite !byte_in_out, byte_in_intro by lia. done.
    - repeat constructor; lia.
    - cbn [utf8_valid]. rewrite !byte_in_out, byte_in_intro, H1, H2 by lia. done. }
  apply byte_in_false in E3. destruct r2 as [|b3 r3]; [done|].
  intros [[[[E4 H1]%andb_true_iff H2]%andb_true_iff H3]%andb_true_iff Hv]%andb_true_iff.
  pose proof (second_of_four_high _ _ H1) as Hh1. pose proof (continuation_high _ H2) as Hh2.
  pose proof (continuation_high _ H3) as Hh3. pose proof (byte_in_lower _ _ _ E4) as Hh4.
  apply (Hc [b0; b1; b2; b3]); [|done|apply IH; [simpl; lia|done]]. split_and!; [|right|done|].
  - intros bs. cbn [app chars]. rewrite !byte_in_out by lia. done.
  - repeat constructor; lia.
  - cbn [utf8_valid]. rewrite !byte_in_out, E4, H1, H2, H3 by lia. done.
Qed.

Lemma concat_chars bs : utf8_valid bs = true -> concat (chars bs) = bs.
Proof.
  revert bs. apply (utf8_ind (fun bs => concat (chars bs) = bs)); [done|].
  intros c bs (Hc & _) _ IH. rewrite Hc. simpl. by rewrite IH.
Qed.

Lemma utf8_valid_app a b : utf8_valid a = true -> utf8_valid b = true -> utf8_valid (a ++ b) = true.
Proof.
  intros Ha Hb. induction a as [a IH] using (induction_ltof1 _ (@length byte)). unfold ltof in IH.
  destruct a as [|b0 r0]; [done|]. cbn [utf8_valid app] in *.
  destruct (byte_in 0 127 b0); [apply IH; [simpl; lia|done]|].
  destruct r0 as [|b1 r1]; [done|]. cbn [app].
  destruct (byte_in 194 223 b0).
  { apply andb_true_iff in Ha as [-> Hr]. apply IH; [simpl; lia|done]. }
  destruct r1 as [|b2 r2]; [done|]. cbn [app]. destruct (byte_in 224 239 b0).
  { apply andb_true_iff in Ha as [-> Hr]. apply IH; [simpl; lia|done]. }
  destruct r2 as [|b3 r3]; [done|]. cbn [app].
  apply andb_true_iff in Ha as [-> Hr]. apply IH; [simpl; lia|done].
Qed.

(** ** Texts of tokens *)

(** A quote inside a literal is doubled. *)
Definition escape (bs : list byte) : list byte :=
  bs ≫= fun b => if bool_decide (b = x27) then [x27; x27] else [b].

Definition token_text (t : Token) : list byte :=
  match t with
  | Ident name => bytes_of_string name
  | Number digits => bytes_of_string digits
  | StringLit value => [x27] ++ escape (bytes_of_string value) ++ [x27]
  | Comma => [x2c] | LParen => [x28] | RParen => [x29] | Semicolon => [x3b]
  | Star => [x2a] | EqSign => [x3d] | Eof => []
  end.

Definition identifier_bytes (bs : list byte) : bool :=
  match bs with
  | [] => false
  | b :: rest => is_identifier_start [b] && forallb (fun c => is_identifier_continue [c]) rest
  end.

(** Digits and dots behind an optional minus, the first a digit. *)
Definition number_bytes (bs : list byte) : bool :=
  match bs with
  | b :: rest =>
      if bool_decide (b = x2d) then
        match rest with d :: _ => is_ascii_digit [d] && forallb (fun c => is_number_char [c]) rest | [] => false end
      else is_ascii_digit [b] && forallb (fun c => is_number_char [c]) rest
  | [] => false
  end.

Definition lexable (t : Token) : Prop :=
  match t with
  | Ident name => identifier_bytes (bytes_of_string name) = true
  | Number digits => number_bytes (bytes_of_string digits) = true
  | StringLit value => string_ok value
  | Eof => False
  | _ => True
  end.

Lemma string_of_bytes_app a b : string_of_bytes (a ++ b) = string_of_bytes a +:+ string_of_bytes b.
Proof. induction a as [|x a IH]; [done|]. exact (f_equal (String.String (Ascii.ascii_of_byte x)) IH). Qed.

Lemma string_app_assoc (a b c : string) : (a +:+ b) +:+ c = a +:+ (b +:+ c).
Proof. induction a as [|x a IH]; [done|]. exact (f_equal (String.String x) IH). Qed.

Lemma string_app_empty (a : string) : a +:+ "" = a.
Proof. induction a as [|x a IH]; [done|]. exact (f_equal (String.String x) IH). Qed.

Lemma read_while_run p acc l c rest :
  Forall (fun c => p c = true) l -> p c = false ->
  read_while p acc (l ++ c :: rest) = (acc +:+ string_of_bytes (concat l), c :: rest).
Proof.
  intros Hl Hc. revert acc. induction Hl as [|x l Hx _ IH]; intros acc; cbn [app read_while concat].
  - by rewrite Hc, string_app_empty.
  - rewrite Hx, IH. unfold push_char. by rewrite string_app_assoc, string_of_bytes_app.
Qed.

Lemma concat_singletons (bs : list byte) : concat ((fun b => [b]) <$> bs) = bs.
Proof. induction bs as [|b bs IH]; [done|]. cbn. by rewrite IH. Qed.

Lemma read_string_run l v rest :
  Forall (fun c => c = [x27] \/ is_char x27 c = false) l ->
  match rest with d :: _ => is_char x27 d = false | [] => True end ->
  read_string_loop v ((l ≫= fun c => if bool_decide (c = [x27]) then [[x27]; [x27]] else [c]) ++ [x27] :: rest)
  = Ok (v +:+ string_of_bytes (concat l), rest).
Proof.
  intros Hl Hr. revert v. induction Hl as [|c l Hc _ IH]; intros v.
  - cbn [mbind list_bind app read_string_loop concat]. change (is_char x27 [x27]) with true.
    change (string_of_bytes []) with ""%string. rewrite string_app_empty.
    destruct rest as [|d rest]; [done|]. by rewrite Hr.
  - cbn [mbind list_bind]. case_bool_decide as Hq.
    + subst c. cbn [app read_string_loop concat]. change (is_char x27 [x27]) with true.
      change (list_bind _ _ _ l) with (l ≫= fun c => if bool_decide (c = [x27]) then [[x27]; [x27]] else [c]).
      rewrite IH. unfold push_char. change (x27 :: concat l) with ([x27] ++ concat l).
      by rewrite string_app_assoc, string_of_bytes_app.
    + destruct Hc as [?|Hc]; [done|]. cbn [app read_string_loop concat]. rewrite Hc.
      change (list_bind _ _ _ l) with (l ≫= fun c => if bool_decide (c = [x27]) then [[x27]; [x27]] else [c]).
      rewrite IH. unfold push_char. by rewrite string_app_assoc, string_of_bytes_app.
Qed.

Lemma chars_escape bs r :
  utf8_valid bs = true ->
  chars (escape bs ++ r)
  = (chars bs ≫= fun c => if bool_decide (c = [x27]) then [[x27]; [x27]] else [c]) ++ chars r.
Proof.
  revert bs. apply (utf8_ind (fun bs => chars (escape bs ++ r) = _)); [done|].
  intros c bs (Hc & Hk & _) _ IH. unfold escape in *. rewrite bind_app, <- app_assoc, Hc. cbn [mbind list_bind].
  destruct Hk as [[b ->]|Hhigh].
  - cbn [mbind list_bind]. case_bool_decide as Hb.
    + subst b. rewrite bool_decide_true by done. cbn [app chars]. change (byte_in 0 127 x27) with true.
      cbn iota. by rewrite IH.
    + rewrite bool_decide_false by congruence. rewrite app_nil_r, Hc, IH. done.
  - assert ((c ≫= fun b => if bool_decide (b = x27) then [x27; x27] else [b]) = c) as ->.
    { clear -Hhigh. induction Hhigh as [|b c Hb _ IH]; [done|]. cbn [mbind list_bind].
      rewrite bool_decide_false by (by intros ->). by rewrite IH. }
    rewrite Hc, IH, bool_decide_false; [done|]. intros ->. apply Forall_inv in Hhigh. by apply Hhigh.
Qed.

Lemma chars_quotes bs : utf8_valid bs = true -> Forall (fun c => c = [x27] \/ is_char x27 c = false) (chars bs).
Proof.
  revert bs. apply (utf8_ind (fun bs => Forall _ (chars bs))); [constructor|].
  intros c bs (Hc & _) _ IH. rewrite Hc. constructor; [|done]. unfold is_char. case_bool_decide; auto.
Qed.

Lemma identifier_char_ascii b : is_identifier_continue [b] = true -> byte_in 0 127 b = true.
Proof. destruct b; vm_compute; congruence. Qed.
Lemma number_char_ascii b : is_number_char [b] = true -> byte_in 0 127 b = true.
Proof. destruct b; vm_compute; congruence. Qed.

(** The characters of a class of ASCII bytes. *)
Lemma forallb_chars (p : char -> bool) bs r :
  (forall b, p [b] = true -> byte_in 0 127 b = true) -> forallb (fun b => p [b]) bs = true ->
  chars (bs ++ r) = ((fun b => [b]) <$> bs) ++ chars r /\ Forall (fun c => p c = true) ((fun b => [b]) <$> bs).
Proof.
  intros Hp. induction bs as [|b bs IH]; [done|]. cbn [forallb]. intros [Hb Hr]%andb_true_iff.
  destruct (IH Hr) as [Hc Hf]. cbn [app chars fmap list_fmap]. rewrite (Hp b Hb), Hc. split; [done|]. by constructor.
Qed.

Lemma start_facts b :
  is_identifier_start [b] = true ->
  single_char_token [b] = None /\ is_char x27 [b] = false /\ is_whitespace [b] = false.
Proof. destruct b; vm_compute; done. Qed.
Lemma digit_facts b :
  is_ascii_digit [b] = true ->
  single_char_token [b] = None /\ is_char x27 [b] = false /\ is_whitespace [b] = false
  /\ is_identifier_start [b] = false /\ is_char x2d [b] = false.
Proof. destruct b; vm_compute; done. Qed.

Lemma space_chars r : chars ([x20] ++ r) = [x20] :: chars r.
Proof. done. Qed.

Lemma read_number_run acc bs r :
  forallb (fun c => is_number_char [c]) bs = true ->
  read_while is_number_char acc (chars (bs ++ [x20] ++ r)) = (acc +:+ string_of_bytes bs, [x20] :: chars r).
Proof.
  intros Hl. destruct (forallb_chars _ _ ([x20] ++ r) number_char_ascii Hl) as [-> Hf].
  rewrite space_chars, read_while_run by done. by rewrite concat_singletons.
Qed.

Lemma lex_number digits r :
  number_bytes (bytes_of_string digits) = true ->
  let l := chars (bytes_of_string digits ++ [x20] ++ r) in
  skip_whitespace l = l /\ next_token l = Ok (Number digits, [x20] :: chars r).
Proof.
  cbv zeta. unfold number_bytes. destruct (bytes_of_string digits) as [|b bs] eqn:Hn; [done|].
  assert (Hd : digits = string_of_bytes (b :: bs)) by by rewrite <- Hn, string_of_bytes_of_string.
  case_bool_decide as Hb.
  - subst b. destruct bs as [|d bs]; [done|]. intros [Hdd Hl]%andb_true_iff.
    change (chars ((x2d :: d :: bs) ++ ?x)) with ([x2d] :: chars ((d :: bs) ++ x)).
    pose proof (read_number_run "-" (d :: bs) r Hl) as Hr.
    assert (chars ((d :: bs) ++ [x20] ++ r) = [d] :: chars (bs ++ [x20] ++ r)) as Hc.
    { cbn [app chars]. rewrite (number_char_ascii d) by by apply digit_is_number. done. }
    rewrite Hc in *. split; [done|]. cbn [next_token]. change (single_char_token [x2d]) with (@None Token).
    change (is_char x27 [x2d]) with false. change (is_identifier_start [x2d]) with false.
    change (is_ascii_digit [x2d] || is_char x2d [x2d]) with true. cbn iota. unfold read_number.
    change (is_char x2d [x2d]) with true. cbn iota. rewrite Hdd, Hr. cbn [bind_outcome]. by rewrite Hd.
  - intros [Hdd Hl]%andb_true_iff. assert (Hl' : forallb (fun c => is_number_char [c]) (b :: bs) = true).
    { cbn [forallb]. by rewrite (digit_is_number [b]). }
    pose proof (read_number_run "" (b :: bs) r Hl') as Hr.
    assert (chars ((b :: bs) ++ [x20] ++ r) = [b] :: chars (bs ++ [x20] ++ r)) as Hc.
    { cbn [app chars]. rewrite (number_char_ascii b) by by apply digit_is_number. done. }
    rewrite Hc in *. destruct (digit_facts b Hdd) as (H1 & H2 & H3 & H4 & H5).
    cbn [skip_whitespace next_token]. rewrite H3, H1, H2, H4, Hdd. split; [done|]. cbn [orb].
    unfold read_number. rewrite H5, Hr. cbn [bind_outcome]. by rewrite Hd.
Qed.

(** A token is read back from its text, up to the space behind it. *)
Lemma lex_token t r :
  lexable t ->
  let l := chars (token_text t ++ [x20] ++ r) in
  skip_whitespace l = l /\ next_token l = Ok (t, [x20] :: chars r).
Proof.
  destruct t; cbn [lexable token_text]; try done; intros Hl; cbv zeta.
  - unfold identifier_bytes in Hl. destruct (bytes_of_string name) as [|b bs] eqn:Hn; [done|].
    apply andb_true_iff in Hl as [Hb Hl]. assert (Hbc := start_continues _ Hb).
    assert (Hl' : forallb (fun c => is_identifier_continue [c]) (b :: bs) = true)
      by (cbn [forallb]; by rewrite Hbc).
    destruct (forallb_chars _ _ ([x20] ++ r) identifier_char_ascii Hl') as [-> Hf].
    rewrite space_chars. destruct (start_facts b Hb) as (Hs1 & Hs2 & Hs3).
    cbn [fmap list_fmap app skip_whitespace next_token]. rewrite Hs3, Hs1, Hs2, Hb. split; [done|].
    unfold read_identifier. change ([b] :: ?l ++ ?x) with (([b] :: l) ++ x).
    rewrite (read_while_run is_identifier_continue "" _ [x20]) by done.
    change ([b] :: ((fun b => [b]) <$> bs)) with ((fun b : byte => [b]) <$> (b :: bs)).
    by rewrite concat_singletons, <- Hn, string_of_bytes_of_string.
  - by apply lex_number.
  - rewrite <- !app_assoc. change (chars ([x27] ++ ?x)) with ([x27] :: chars x).
    cbn [skip_whitespace next_token]. change (is_whitespace [x27]) with false.
    change (single_char_token [x27]) with (@None Token). change (is_char x27 [x27]) with true. cbn iota.
    split; [done|]. rewrite chars_escape by done. change (chars ([x27] ++ ?x)) with ([x27] :: chars x).
    rewrite read_string_run by (by apply chars_quotes || done). cbn [bind_outcome].
    change ("" +:+ ?x) with x. by rewrite concat_chars, string_of_bytes_of_string.
Qed.

(** ** Token lists *)

Definition tokens_text (ts : list Token) : list byte := ts ≫= fun t => token_text t ++ [x20].

Lemma tokens_text_cons t ts : tokens_text (t :: ts) = token_text t ++ [x20] ++ tokens_text ts.
Proof. unfold tokens_text. cbn [mbind list_bind]. by rewrite <- app_assoc. Qed.

Lemma tokenize_loop_text ts l acc fuel :
  Forall lexable ts -> skip_whitespace l = skip_whitespace (chars (tokens_text ts)) -> (length l < fuel)%nat ->
  tokenize_loop fuel l acc = Ok (acc ++ ts ++ [Eof]).
Proof.
  intros Hts. revert l acc fuel. induction Hts as [|t ts Ht _ IH]; intros l acc [|fuel] Hl Hf; try lia;
    cbn [tokenize_loop]; rewrite Hl.
  - done.
  - pose proof (skip_whitespace_length l) as Hw. pose proof (next_token_lexes (skip_whitespace l)) as Hp.
    rewrite Hl in Hw, Hp. rewrite tokens_text_cons in *.
    destruct (lex_token t (tokens_text ts) Ht) as [Hskip Hnext]. rewrite Hskip in *. rewrite Hnext in *.
    cbn [bind_outcome]. rewrite bool_decide_false by (by intros ->).
    destruct Hp as [->|Hp]; [done|]. rewrite (IH _ (acc ++ [t])); [by rewrite <- app_assoc|done|lia].
Qed.

Lemma tokenize_text ts : Forall lexable ts -> tokenize (string_of_bytes (tokens_text ts)) = Ok (ts ++ [Eof]).
Proof.
  intros Hts. unfold tokenize. rewrite bytes_of_string_of_bytes. by apply (tokenize_loop_text ts _ []); [|done|lia].
Qed.

(** ** Decimal numbers *)

Lemma digits_value_snoc ds b : digits_value (ds ++ [b]) = digits_value ds * 10 + (Byte.to_N b - 48).
Proof. unfold digits_value. by rewrite foldl_app. Qed.

Lemma pretty_digit x : x < 10 ->
  exists b, Ascii.byte_of_ascii (pretty_N_char x) = b /\ byte_in 48 57 b = true /\ Byte.to_N b - 48 = x.
Proof.
  intros Hx. eexists. split; [done|].
  assert (x = 0 \/ x = 1 \/ x = 2 \/ x = 3 \/ x = 4 \/ x = 5 \/ x = 6 \/ x = 7 \/ x = 8 \/ x = 9) as Hc by lia.
  by destruct_or! Hc; subst x.
Qed.

Lemma pretty_go_digits x s :
  exists ds, bytes_of_string (pretty_N_go x s) = ds ++ bytes_of_string s
    /\ all_digits ds = true /\ digits_value ds = x /\ (0 < x -> ds <> []).
Proof.
  revert s. induction (N.lt_wf_0 x) as [x _ IH]; intros s.
  assert (x = 0 \/ 0 < x) as [->|Hx] by lia; [by exists []|].
  rewrite pretty_N_go_step by done.
  destruct (IH (x / 10)) with (s := String.String (pretty_N_char (x mod 10)) s) as (ds & Hb & Ha & Hv & _);
    [apply N.div_lt; lia|].
  destruct (pretty_digit (x mod 10)) as (b & Hb' & Hd & Hn); [apply N.mod_lt; lia|].
  exists (ds ++ [b]). split_and!.
  - rewrite Hb, <- app_assoc, <- Hb'. done.
  - unfold all_digits in *. rewrite forallb_app, Ha. cbn. by rewrite Hd.
  - rewrite digits_value_snoc, Hv, Hn. pose proof (N.div_mod x 10). lia.
  - by destruct ds.
Qed.

Lemma pretty_N_digits x :
  let ds := bytes_of_string (pretty x) in all_digits ds = true /\ digits_value ds = x /\ ds <> [].
Proof.
  cbv zeta. unfold pretty, pretty_N. case_decide as Hx; [by subst x|].
  destruct (pretty_go_digits x "") as (ds & -> & Ha & Hv & Hne). rewrite app_nil_r.
  split_and!; [done|done|apply Hne; lia].
Qed.

Lemma digits_number_bytes ds :
  all_digits ds = true -> ds <> [] -> number_bytes ds = true /\ number_bytes (x2d :: ds) = true.
Proof.
  destruct ds as [|d ds]; [done|]. unfold all_digits. cbn [forallb]. intros [Hd Hds]%andb_true_iff _.
  assert (Hdd : is_ascii_digit [d] = true) by done.
  assert (Hn : forallb (fun c => is_number_char [c]) ds = true).
  { apply forallb_forall. intros c Hc. rewrite forallb_forall in Hds. apply digit_is_number, (Hds c Hc). }
  unfold number_bytes. change (bool_decide (x2d = x2d)) with true. cbn [forallb].
  rewrite Hdd, (digit_is_number [d]), Hn by done. split; [|done]. case_bool_decide; [by subst d|done].
Qed.

Lemma digits_no_dot ds : all_digits ds = true -> existsb (fun b => bool_decide (b = x2e)) ds = false.
Proof.
  unfold all_digits. induction ds as [|d ds IH]; [done|]. cbn [forallb existsb].
  intros [Hd Hds]%andb_true_iff. rewrite IH by done. case_bool_decide; [by subst d|done].
Qed.

Lemma split_sign_digits ds : all_digits ds = true -> ds <> [] -> split_sign ds = (false, ds).
Proof. destruct ds as [|d ds]; [done|]. unfold all_digits. cbn [forallb]. intros [Hd _]%andb_true_iff _. by destruct d. Qed.

Lemma pretty_Z_bytes z :
  bytes_of_string (pretty z)
  = (if (z <? 0)%Z then [x2d] else []) ++ bytes_of_string (pretty (Z.to_N (Z.abs z))).
Proof. by destruct z. Qed.

Lemma pretty_Z_number z : (I64_MIN <= z <= I64_MAX)%Z ->
  number_bytes (bytes_of_string (pretty z)) = true /\ number_value (pretty z) = Ok (Integer z).
Proof.
  intros Hz. destruct (pretty_N_digits (Z.to_N (Z.abs z))) as (Ha & Hv & Hne).
  destruct (digits_number_bytes _ Ha Hne) as [Hn1 Hn2]. pose proof (digits_no_dot _ Ha) as Hdot.
  pose proof (split_sign_digits _ Ha Hne) as Hs. unfold number_value, parse_i64. rewrite pretty_Z_bytes.
  set (ds := bytes_of_string (pretty (Z.to_N (Z.abs z)))) in *.
  assert (Hl : (len ds =? 0) = false) by (destruct ds; done).
  destruct (z <? 0)%Z eqn:Hneg; cbn [app existsb]; (split; [done|]); rewrite ?(bool_decide_false (x2d = x2e)) by done;
    cbn [orb]; rewrite Hdot; [change (split_sign (x2d :: ds)) with (true, ds)|rewrite Hs];
    cbn beta iota zeta; rewrite Hl, Ha; cbn [orb negb]; rewrite Hv.
  - apply Z.ltb_lt in Hneg. replace (- Z.of_N (Z.to_N (Z.abs z)))%Z with z by lia. by rewrite bool_decide_true.
  - apply Z.ltb_ge in Hneg. replace (Z.of_N (Z.to_N (Z.abs z))) with z by lia. by rewrite bool_decide_true.
Qed.

(** ** Doubles

    A double is written as its exact decimal, all its digits behind the point. *)

Definition decimal_digit (n : N) : byte := Ascii.byte_of_ascii (pretty_N_char n).

(** The last [k] decimal digits of [n]. *)
Fixpoint low_digits (k : nat) (n : N) : list byte :=
  match k with
  | O => []
  | S k' => low_digits k' (n / 10) ++ [decimal_digit (n mod 10)]
  end.

Definition point_text (digits : N) (scale : nat) : list byte :=
  bytes_of_string (pretty (digits / 10 ^ N.of_nat scale)) ++ [x2e] ++ low_digits scale digits.

Definition double_bytes (bits : N) : list byte :=
  let x := exact_decimal (double_of_bits bits) in
  (if SIGN_BIT <=? bits then [x2d] else []) ++ point_text x.1 x.2.

Definition double_text (bits : N) : string := string_of_bytes (double_bytes bits).

Lemma low_digits_facts k n :
  all_digits (low_digits k n) = true /\ length (low_digits k n) = k
  /\ digits_value (bytes_of_string (pretty (n / 10 ^ N.of_nat k)) ++ low_digits k n) = n.
Proof.
  revert n. induction k as [|k IH]; intros n; cbn [low_digits].
  { destruct (pretty_N_digits n) as (_ & Hv & _). split; [done|]. split; [done|].
    by rewrite app_nil_r, N.div_1_r. }
  destruct (IH (n / 10)) as (Ha & Hl & Hv). destruct (pretty_digit (n mod 10)) as (b & Hb & Hd & Hn); [by apply N.mod_lt|].
  unfold decimal_digit. rewrite Hb. split; [|split].
  - unfold all_digits in *. rewrite forallb_app, Ha. cbn. by rewrite Hd.
  - rewrite length_app, Hl. cbn. lia.
  - rewrite app_assoc, digits_value_snoc, Hn. rewrite N.Div0.div_div in Hv.
    replace (10 ^ N.of_nat (S k)) with (10 * 10 ^ N.of_nat k) by (rewrite Nat2N.inj_succ, N.pow_succ_r'; lia).
    rewrite Hv. pose proof (N.div_mod n 10). lia.
Qed.

Lemma split_dot_digits whole fraction : all_digits whole = true -> split_dot (whole ++ [x2e] ++ fraction) = (whole, fraction).
Proof.
  unfold all_digits. induction whole as [|d whole IH]; [done|]. cbn [forallb].
  intros [Hd Hw]%andb_true_iff. change ((d :: whole) ++ ?x) with (d :: (whole ++ x)). cbn [split_dot].
  rewrite IH by done. by destruct d.
Qed.

Lemma split_sign_number negative ds r : all_digits ds = true -> ds <> [] ->
  split_sign ((if negative : bool then [x2d] else []) ++ ds ++ r) = (negative, ds ++ r).
Proof.
  destruct negative; [done|]. destruct ds as [|d ds]; [done|]. unfold all_digits. cbn [forallb].
  intros [Hd _]%andb_true_iff _. by destruct d.
Qed.

Lemma digits_number_chars ds : all_digits ds = true -> forallb (fun c => is_number_char [c]) ds = true.
Proof.
  unfold all_digits. intros Ha. apply forallb_forall. intros c Hc. rewrite forallb_forall in Ha.
  apply digit_is_number, (Ha c Hc).
Qed.

Lemma point_number_bytes negative whole fraction :
  all_digits whole = true -> whole <> [] -> all_digits fraction = true ->
  number_bytes ((if negative : bool then [x2d] else []) ++ whole ++ [x2e] ++ fraction) = true.
Proof.
  intros Hw Hne Hf. destruct whole as [|d whole]; [done|]. pose proof Hw as Hw'. unfold all_digits in Hw'.
  cbn [forallb] in Hw'. apply andb_true_iff in Hw' as [Hd Hw'].
  assert (Hdd : is_ascii_digit [d] = true) by done.
  assert (Hn : forallb (fun c => is_number_char [c]) (whole ++ [x2e] ++ fraction) = true).
  { rewrite !forallb_app, (digits_number_chars whole), (digits_number_chars fraction) by done. done. }
  unfold number_bytes. destruct negative; cbn [app].
  - change (bool_decide (x2d = x2d)) with true. cbn [forallb].
    by rewrite Hdd, (digit_is_number [d]).
  - case_bool_decide as Hx; [by subst d|]. by rewrite Hdd.
Qed.

(** The text of a double is a number token that reads as the double. *)
Lemma double_text_number bits : bits <= U64_MAX -> double_of_bits bits <> S754_nan ->
  number_bytes (bytes_of_string (double_text bits)) = true /\ number_value (double_text bits) = Ok (Double bits).
Proof.
  intros Hb Hn. pose proof (double_of_exact_decimal bits Hb Hn) as Hd. unfold double_text, number_value, parse_f64.
  rewrite !bytes_of_string_of_bytes. unfold double_bytes, point_text.
  destruct (exact_decimal (double_of_bits bits)) as [digits scale]. cbn [fst snd] in *.
  destruct (pretty_N_digits (digits / 10 ^ N.of_nat scale)) as (Hw & _ & Hne).
  destruct (low_digits_facts scale digits) as (Hf & Hl & Hv).
  set (whole := bytes_of_string _) in *. split; [by apply point_number_bytes|].
  rewrite !existsb_app. change (existsb _ [x2e]) with true. rewrite orb_true_r. cbn [orb]. rewrite orb_true_r.
  rewrite split_sign_number, split_dot_digits by done. unfold all_digits in *. rewrite forallb_app, Hw, Hf, Hv, Hl, Hd.
  assert ((len (whole ++ low_digits scale digits) =? 0) = false) as -> by (rewrite length_app; destruct whole; done).
  done.
Qed.

(** ** Statements *)

Definition value_token (v : Value) : Token :=
  match v with
  | Null => Ident "NULL"
  | Text s => StringLit s
  | Integer z => Number (pretty z)
  | Double bits => Number (double_text bits)
  end.

Fixpoint comma_tokens {A} (f : A -> list Token) (l : list A) : list Token :=
  match l with
  | [] => []
  | [a] => f a
  | a :: rest => f a ++ Comma :: comma_tokens f rest
  end.

Definition column_tokens (c : ColumnDef) : list Token := [Ident (col_name c); Ident (type_name c)].
Definition values_tokens (vs : list Value) : list Token :=
  LParen :: comma_tokens (fun v => [value_token v]) vs ++ [RParen].
Definition projection_tokens (p : Projection) : list Token :=
  match p with All => [Star] | Columns cs => comma_tokens (fun c => [Ident c]) cs end.
Definition where_tokens (s : option Selection) : list Token :=
  match s with
  | Some (mkSelection c v) => [Ident "WHERE"; Ident c; EqSign; value_token v]
  | None => []
  end.

Definition statement_tokens (s : Statement) : list Token :=
  match s with
  | CreateTable n cs =>
      Ident "CREATE" :: Ident "TABLE" :: Ident n :: LParen :: comma_tokens column_tokens cs ++ [RParen]
  | Insert t vs => Ident "INSERT" :: Ident "INTO" :: Ident t :: Ident "VALUES" :: values_tokens vs
  | CreateIndex i t c =>
      [Ident "CREATE"; Ident "INDEX"; Ident i; Ident "ON"; Ident t; LParen; Ident c; RParen]
  | LoadExtension e => [Ident "LOAD"; Ident "EXTENSION"; Ident e]
  | SelectFunction f vs => Ident "SELECT" :: Ident f :: values_tokens vs
  | Select p t s => Ident "SELECT" :: projection_tokens p ++ Ident "FROM" :: Ident t :: where_tokens s
  end.

(** The text of a statement: its tokens, each with a space behind it. *)
Definition render (s : Statement) : string := string_of_bytes (tokens_text (statement_tokens s)).

(** What a statement of the parser looks like. *)
Definition name_ok (n : string) : Prop :=
  identifier_bytes (bytes_of_string n) = true /\ normalize_identifier n = n.
Definition value_ok (v : Value) : Prop :=
  match v with
  | Null => True
  | Text s => string_ok s
  | Integer z => (I64_MIN <= z <= I64_MAX)%Z
  | Double bits => bits <= U64_MAX /\ double_of_bits bits <> S754_nan
  end.
Definition column_ok (c : ColumnDef) : Prop :=
  name_ok (col_name c) /\ type_name c ∈ ["INT"; "INTEGER"; "TEXT"; "DOUBLE"; "REAL"; "FLOAT"].

Definition printable (s : Statement) : Prop :=
  match s with
  | CreateTable n cs => name_ok n /\ Forall column_ok cs /\ cs <> []
  | Insert t vs => name_ok t /\ Forall value_ok vs
  | CreateIndex i t c => name_ok i /\ name_ok t /\ name_ok c
  | LoadExtension e => name_ok e
  | SelectFunction f vs => name_ok f /\ Forall value_ok vs
  | Select p t s =>
      match p with All => True | Columns cs => Forall name_ok cs /\ cs <> [] end /\ name_ok t /\
      match s with Some (mkSelection c v) => name_ok c /\ value_ok v | None => True end
  end.

Lemma comma_tokens_sep {A} (R : A -> list Token -> Prop) f l :
  Forall (fun a => R a (f a)) l -> l <> [] -> comma_sep R l (comma_tokens f l).
Proof.
  induction 1 as [|a l Ha Hl IH]; [done|]. intros _. destruct l as [|b l]; [by constructor|].
  constructor; [done|]. by apply IH.
Qed.

Lemma comma_tokens_lexable {A} (f : A -> list Token) l :
  Forall (fun a => Forall lexable (f a)) l -> Forall lexable (comma_tokens f l).
Proof.
  induction 1 as [|a l Ha Hl IH]; [constructor|]. destruct l as [|b l]; [done|].
  cbn [comma_tokens] in *. apply Forall_app. split; [done|]. by constructor.
Qed.

Lemma value_token_ok v : value_ok v -> literal v [value_token v] /\ lexable (value_token v).
Proof.
  destruct v; try done; cbn.
  - by intros [Hn Hv]%pretty_Z_number.
  - intros [Hb Hn]. by destruct (double_text_number bits Hb Hn).
Qed.

Lemma identifier_ok n : name_ok n -> identifier n [Ident n] /\ lexable (Ident n).
Proof. intros [Hi Hn]. cbn. by rewrite Hn. Qed.

Lemma column_tokens_ok c : column_ok c -> column_def c (column_tokens c) /\ Forall lexable (column_tokens c).
Proof.
  destruct c as [n t]. intros [[Hi Hn] Ht]. cbn in *. rewrite Hn.
  rewrite !elem_of_cons, elem_of_nil in Ht. destruct_or! Ht; try done; subst t; repeat constructor; done.
Qed.

Lemma values_tokens_ok vs : Forall value_ok vs ->
  (exists wv, values_tokens vs = LParen :: wv /\ literals vs wv) /\ Forall lexable (values_tokens vs).
Proof.
  intros Hvs. split.
  - eexists. split; [done|]. destruct vs as [|v vs]; [constructor|]. constructor.
    apply (comma_tokens_sep literal (fun v => [value_token v])); [|done].
    eapply Forall_impl; [exact Hvs|]. intros a Ha. by apply value_token_ok.
  - constructor; [done|]. apply Forall_app. split; [|by repeat constructor]. apply comma_tokens_lexable.
    eapply Forall_impl; [exact Hvs|]. intros a Ha. constructor; [|constructor]. by apply value_token_ok.
Qed.

Ltac split_hyps := repeat match goal with H : _ /\ _ |- _ => destruct H end.

Lemma statement_tokens_sentence s : printable s -> sentence s (statement_tokens s).
Proof.
  destruct s as [n cs|t vs|i t c|e|f vs|p t sel]; cbn [printable statement_tokens]; intros Hp; split_hyps.
  - apply (s_create_table _ _ n [Ident n]); [done|done|by apply identifier_ok|].
    apply comma_tokens_sep; [|done]. eapply Forall_impl; [done|]. intros c Hc. by apply column_tokens_ok.
  - destruct (values_tokens_ok vs) as [(wv & -> & Hv) _]; [done|].
    apply (s_insert _ _ _ t [Ident t]); [done|done|by apply identifier_ok|done|done].
  - apply (s_create_index _ _ _ i [Ident i] t [Ident t] c [Ident c]); try done; by apply identifier_ok.
  - apply (s_load _ _ e [Ident e]); [done|done|by apply identifier_ok].
  - destruct (values_tokens_ok vs) as [(wv & -> & Hv) _]; [done|].
    apply (s_call _ f [Ident f]); [done|by apply identifier_ok|done].
  - apply (s_select _ (Ident "FROM") p _ t [Ident t]); [done| |done|by apply identifier_ok|].
    + destruct p as [|cs]; [constructor|]. split_hyps. constructor. apply (comma_tokens_sep identifier); [|done].
      eapply Forall_impl; [done|]. intros c Hc. by apply identifier_ok.
    + destruct sel as [[c v]|]; [|constructor]. split_hyps.
      apply (where_some (Ident "WHERE") c v [Ident c] [value_token v]); [done|by apply identifier_ok|by apply value_token_ok].
Qed.

Lemma statement_tokens_lexable s : printable s -> Forall lexable (statement_tokens s).
Proof.
  destruct s as [n cs|t vs|i t c|e|f vs|p t sel]; cbn [printable statement_tokens]; intros Hp; split_hyps.
  - repeat (constructor; [first [done | by apply identifier_ok]|]). apply Forall_app. split; [|by repeat constructor].
    apply comma_tokens_lexable. eapply Forall_impl; [done|]. intros c Hc. by apply column_tokens_ok.
  - do 4 (constructor; [first [done | by apply identifier_ok]|]). by apply values_tokens_ok.
  - repeat (constructor; [first [done | by apply identifier_ok]|]). constructor.
  - repeat (constructor; [first [done | by apply identifier_ok]|]). constructor.
  - do 2 (constructor; [first [done | by apply identifier_ok]|]). by apply values_tokens_ok.
  - constructor; [done|]. apply Forall_app. split.
    + destruct p as [|cs]; [by repeat constructor|]. split_hyps. apply comma_tokens_lexable.
      eapply Forall_impl; [done|]. intros c Hc. constructor; [|constructor]. by apply identifier_ok.
    + repeat (constructor; [first [done | by apply identifier_ok]|]). destruct sel as [[c v]|]; [|constructor]. split_hyps.
      repeat (constructor; [first [done | by apply identifier_ok | by apply value_token_ok]|]). constructor.
Qed.

Lemma render_parsed `{TokenDebug} (s : Statement) :
  printable s -> string_len (render s) < USIZE_MAX -> parse_statement (render s) = Ok s.
Proof.
  intros Hs Hlen. pose proof (tokenize_text _ (statement_tokens_lexable s Hs)) as Ht.
  pose proof (tokenize_ok (render s)) as Hok. unfold render in *. rewrite Ht in Hok.
  destruct Hok as (ts' & Heq & _ & Hl). apply app_inj_tail in Heq as [<- _].
  rewrite (parse_statement_program _ _ Ht). apply (parse_program_complete _ 0).
  - cbn [replicate app]. rewrite length_app. simpl. lia.
  - by apply statement_tokens_sentence.
Qed.
