(* ===== verification/SqlTyped.v ===== *)
(** * SqlTyped: statements read from a text hold machine values *)

From stdpp Require Import list strings pretty.
From S2P Require Import Prelude Core Bytes Page Catalog CatalogFacts Double DoubleFacts Extension ExtensionTheorems Sql SqlGrammar SqlTheorems SqlRender.

(** ** Statements of machine values *)

Definition statement_typed (s : Statement) : Prop :=
  match s with
  | CreateTable name cols => string_ok name /\ Forall column_typed cols
  | Insert table values => Forall value_typed values
  | CreateIndex name table column => string_ok name
  | LoadExtension name => string_ok name
  | SelectFunction name args => Forall value_typed args
  | Select projection table selection => True
  end.

(** ** Tokens of a text *)

Definition token_typed (t : Token) : Prop :=
  match t with Ident s | StringLit s => string_ok s | _ => True end.

Definition chars_ok (l : lexer) : Prop := Forall (fun c => utf8_valid c = true) l.

Lemma chars_of_text bs : utf8_valid bs = true -> chars_ok (chars bs).
Proof.
  revert bs. apply (utf8_ind (fun bs => chars_ok (chars bs))); [constructor|].
  intros c bs (Hc & _ & _ & Hv) _ IH. rewrite Hc. by constructor.
Qed.

Lemma push_char_ok s c : string_ok s -> utf8_valid c = true -> string_ok (push_char s c).
Proof.
  unfold string_ok, push_char. intros Hs Hc.
  replace (bytes_of_string (s +:+ string_of_bytes c)) with (bytes_of_string s ++ c); [by apply utf8_valid_app|].
  rewrite <- (string_of_bytes_of_string s) at 2. by rewrite <- string_of_bytes_app, bytes_of_string_of_bytes.
Qed.

Lemma skip_whitespace_chars l : chars_ok l -> chars_ok (skip_whitespace l).
Proof. induction 1 as [|c l Hc Hl IH]; cbn [skip_whitespace]; [constructor|]. destruct (is_whitespace c); [done|by constructor]. Qed.

Lemma read_while_typed p l : forall acc, chars_ok l -> string_ok acc ->
  string_ok (read_while p acc l).1 /\ chars_ok (read_while p acc l).2.
Proof.
  induction l as [|c l IH]; intros acc Hl Hacc; cbn [read_while]; [done|].
  destruct (p c); [|done]. apply Forall_cons in Hl as [Hc Hl]. apply IH; [done|by apply push_char_ok].
Qed.

Lemma read_string_typed l : forall v s r, chars_ok l -> string_ok v -> read_string_loop v l = Ok (s, r) -> string_ok s /\ chars_ok r.
Proof.
  induction l as [l IH] using (induction_ltof1 _ (@length char)). unfold ltof in IH. intros v s r Hl Hv.
  destruct l as [|c l]; cbn [read_string_loop]; [done|]. apply Forall_cons in Hl as [Hc Hl].
  destruct (is_char x27 c).
  - destruct l as [|d l]; [by intros [= <- <-]|]. destruct (is_char x27 d); [|by intros [= <- <-]].
    apply Forall_cons in Hl as [Hd Hl]. apply IH; [simpl; lia|done|by apply push_char_ok].
  - apply IH; [simpl; lia|done|by apply push_char_ok].
Qed.

Lemma read_number_typed l s r : chars_ok l -> read_number l = Ok (s, r) -> chars_ok r.
Proof.
  intros Hl. unfold read_number.
  assert (Hw : forall p acc l', chars_ok l' -> string_ok acc -> Ok (E := DbError) (read_while p acc l') = Ok (s, r) -> chars_ok r).
  { intros p acc l' Hl' Hacc [= Heq]. pose proof (proj2 (read_while_typed p l' acc Hl' Hacc)) as H. by rewrite Heq in H. }
  destruct l as [|c l]; [by apply Hw|]. apply Forall_cons in Hl as [Hc Hl].
  destruct (is_char x2d c); [|by apply Hw; [constructor|]].
  destruct l as [|d l]; [done|]. destruct (is_ascii_digit d); [|done]. by apply Hw.
Qed.

Lemma next_token_typed l t r : chars_ok l -> next_token l = Ok (t, r) -> token_typed t /\ chars_ok r.
Proof.
  intros Hl. destruct l as [|c l]; cbn [next_token]; [by intros [= <- <-]|]. pose proof Hl as [Hc Hl']%Forall_cons.
  destruct (single_char_token c) as [t'|] eqn:Ht.
  { intros [= <- <-]. split; [|done]. unfold single_char_token in Ht.
    repeat (destruct (is_char _ c); [by injection Ht as <-|]). done. }
  destruct (is_char x27 c).
  { destruct (read_string_loop "" l) as [[s r']| |] eqn:Hs; cbn [bind_outcome]; [|done|done]. intros [= <- <-].
    by apply (read_string_typed l "" s r'). }
  destruct (is_identifier_start c).
  { pose proof (read_while_typed is_identifier_continue (c :: l) "" Hl eq_refl) as [H1 H2]. unfold read_identifier.
    destruct (read_while _ _ _) as [n r']. by intros [= <- <-]. }
  destruct (_ || _); [|done]. destruct (read_number (c :: l)) as [[d r']| |] eqn:Hn; cbn [bind_outcome]; [|done|done].
  intros [= <- <-]. split; [done|]. by apply (read_number_typed (c :: l) d r').
Qed.

Lemma tokenize_loop_typed fuel : forall l acc ts,
  chars_ok l -> Forall token_typed acc -> tokenize_loop fuel l acc = Ok ts -> Forall token_typed ts.
Proof.
  induction fuel as [|fuel IH]; intros l acc ts Hl Hacc; cbn [tokenize_loop]; [done|].
  destruct (next_token (skip_whitespace l)) as [[t r]| |] eqn:Ht; cbn [bind_outcome]; [|done|done].
  destruct (next_token_typed _ _ _ (skip_whitespace_chars l Hl) Ht) as [Hty Hr].
  assert (Forall token_typed (acc ++ [t])) by (apply Forall_app; split; [done|by constructor]).
  case_bool_decide; [by intros [= <-]|]. by apply IH.
Qed.

Lemma tokenize_typed sql ts : string_ok sql -> tokenize sql = Ok ts -> Forall token_typed ts.
Proof. intros Hs. apply tokenize_loop_typed; [by apply chars_of_text|constructor]. Qed.

(** ** Sentences of such tokens *)

Lemma number_value_typed d v : number_value d = Ok v -> value_typed v.
Proof.
  unfold number_value. destruct (existsb _ _).
  - unfold parse_f64. destruct (split_sign _) as [neg text], (split_dot text) as [w f].
    destruct (_ || _); [done|]. intros [= <-]. apply double_of_decimal_bound.
  - unfold parse_i64. destruct (split_sign _) as [neg text]. destruct (_ || _); [done|].
    case_bool_decide as Hr; [|done]. by intros [= <-].
Qed.

Lemma literal_typed v w : literal v w -> Forall token_typed w -> value_typed v.
Proof.
  destruct w as [|[n|d|s| | | | | | |] [|? ?]]; cbn [literal]; try done.
  - by intros [-> _].
  - intros Hd _. by apply (number_value_typed d).
  - intros -> Hs. by apply Forall_cons in Hs as [Hs _].
Qed.

Lemma identifier_typed n w : identifier n w -> Forall token_typed w -> string_ok n.
Proof.
  intros (v & -> & ->)%identifier_inv [Hv _]%Forall_cons. unfold normalize_identifier. apply map_bytes_ok; [apply keeps_utf8_lower|done].
Qed.

Lemma column_def_typed c w : column_def c w -> Forall token_typed w -> column_typed c.
Proof.
  destruct w as [|[n| | | | | | | | |] [|[t| | | | | | | | |] [|? ?]]]; cbn [column_def]; try done.
  intros [Hn Ht] Hw. apply Forall_cons in Hw as [Hn' Hw]. apply Forall_cons in Hw as [Ht' _]. split.
  - rewrite Hn. apply map_bytes_ok; [apply keeps_utf8_lower|done].
  - unfold normalize_type_name in Ht. case_bool_decide; [|done]. injection Ht as <-.
    apply map_bytes_ok; [apply keeps_utf8_upper|done].
Qed.

Lemma comma_sep_typed {A} (R : A -> list Token -> Prop) (P : A -> Prop) l w :
  (forall a w, R a w -> Forall token_typed w -> P a) -> comma_sep R l w -> Forall token_typed w -> Forall P l.
Proof.
  intros HR Hl. induction Hl as [a w Ha|a w l v Ha _ IH]; intros Hw.
  - constructor; [by apply (HR a w)|constructor].
  - apply Forall_app in Hw as [Hw Hv]. apply Forall_cons in Hv as [_ Hv]. constructor; [by apply (HR a w)|by apply IH].
Qed.

Lemma literals_typed vs w : literals vs w -> Forall token_typed w -> Forall value_typed vs.
Proof.
  intros [|vs' w' Hl] Hw; [constructor|]. apply Forall_app in Hw as [Hw _].
  by apply (comma_sep_typed literal value_typed vs' w' literal_typed).
Qed.

Lemma sentence_typed s w : sentence s w -> Forall token_typed w -> statement_typed s.
Proof.
  intros Hs Hw.
  destruct Hs as [k1 k2 n wn cs wc _ _ Hn Hcs|k1 k2 k3 n wn t wt c wc _ _ Hn _ _ _|k1 k2 k3 t wt vs wv _ _ _ _ Hvs
                 |k1 k2 n wn _ _ Hn|k1 n wn vs wv _ _ Hvs|]; cbn [statement_typed]; [| | | | |done];
    repeat match goal with
    | H : Forall token_typed (_ :: _) |- _ => apply Forall_cons in H as [_ H]
    | H : Forall token_typed (_ ++ _) |- _ => let H' := fresh in apply Forall_app in H as [H' H]
    end.
  - split; [by apply (identifier_typed n wn)|]. by apply (comma_sep_typed column_def column_typed cs wc column_def_typed).
  - by apply (identifier_typed n wn).
  - by apply (literals_typed vs wv).
  - by apply (identifier_typed n wn).
  - by apply (literals_typed vs wv).
Qed.

(** A statement of a text of characters holds machine values. *)
Lemma parse_statement_typed `{TokenDebug} sql s :
  string_len sql < USIZE_MAX -> string_ok sql -> parse_statement sql = Ok s -> statement_typed s.
Proof.
  intros Hlen Hok Hp. pose proof (parse_statement_sound sql Hlen) as Hs. rewrite Hp in Hs. destruct Hs as (w & k & Hts & Hw).
  apply (sentence_typed s w Hw). pose proof (tokenize_typed sql _ Hok Hts) as Hty. by apply Forall_app in Hty as [Hty _].
Qed.
