(* ===== verification/SqlRoundTrip.v ===== *)
(** * SqlRoundTrip: every statement of the language has a text, and reading it gives the statement back *)

From Stdlib Require Import Floats.SpecFloat.
From stdpp Require Import list strings pretty.
From S2P Require Import Prelude Core Bytes Page Catalog CatalogFacts Double DoubleFacts Extension ExtensionTheorems Sql SqlGrammar SqlTheorems SqlRender SqlTyped.

(** ** Identifier tokens *)

Lemma identifier_start_byte c : is_identifier_start c = true -> exists b, c = [b].
Proof. destruct c as [|b [|? ?]]; [done|by exists b|]. unfold is_identifier_start, is_char. cbn. by case_bool_decide. Qed.
Lemma identifier_continue_byte c : is_identifier_continue c = true -> exists b, c = [b].
Proof. destruct c as [|b [|? ?]]; [done|by exists b|]. unfold is_identifier_continue, is_char. cbn. by case_bool_decide. Qed.

Lemma push_char_bytes s c : bytes_of_string (push_char s c) = bytes_of_string s ++ c.
Proof.
  unfold push_char. rewrite <- (string_of_bytes_of_string s) at 1.
  by rewrite <- string_of_bytes_app, bytes_of_string_of_bytes.
Qed.

Lemma read_while_bytes p l : (forall c, p c = true -> exists b, c = [b]) ->
  forall acc, exists ds, bytes_of_string (read_while p acc l).1 = bytes_of_string acc ++ ds
    /\ forallb (fun b => p [b]) ds = true.
Proof.
  intros Hp. induction l as [|c l IH]; intros acc; cbn [read_while]; [exists []; by rewrite app_nil_r|].
  destruct (p c) eqn:Hc; [|exists []; by rewrite app_nil_r]. destruct (Hp c Hc) as [b ->].
  destruct (IH (push_char acc [b])) as (ds & -> & Hds). exists (b :: ds). cbn [forallb]. rewrite Hc, Hds.
  by rewrite push_char_bytes, <- app_assoc.
Qed.

(** Identifiers hold identifier characters and literals hold texts. *)
Definition token_lexed (t : Token) : Prop :=
  match t with
  | Ident n => identifier_bytes (bytes_of_string n) = true
  | StringLit s => string_ok s
  | _ => True
  end.

Lemma next_token_lexed l t r : chars_ok l -> next_token l = Ok (t, r) -> token_lexed t.
Proof.
  intros Hl Hn. pose proof (proj1 (next_token_typed l t r Hl Hn)) as Ht. destruct t as [n|d|s| | | | | | |]; try done.
  clear Ht. destruct l as [|c l]; cbn [next_token] in Hn; [done|].
  destruct (single_char_token c) as [t'|] eqn:Hs.
  { injection Hn as -> _. unfold single_char_token in Hs. by repeat (destruct (is_char _ c); [done|]). }
  destruct (is_char x27 c).
  { by destruct (read_string_loop "" l) as [[s r']| |]. }
  destruct (is_identifier_start c) eqn:Hc.
  - destruct (identifier_start_byte c Hc) as [b ->]. unfold read_identifier in Hn. cbn [read_while] in Hn.
    rewrite (start_continues _ Hc) in Hn.
    destruct (read_while_bytes is_identifier_continue l identifier_continue_byte (push_char "" [b])) as (ds & Hds & Hf).
    destruct (read_while _ _ _) as [n' r']. injection Hn as -> ->. cbn [fst] in Hds. cbn [token_lexed].
    rewrite Hds, push_char_bytes. change (bytes_of_string "" ++ [b]) with [b]. cbn [app identifier_bytes].
    by rewrite Hc, Hf.
  - destruct (_ || _); [|done]. by destruct (read_number (c :: l)) as [[d r']| |].
Qed.

Lemma tokenize_loop_lexed fuel : forall l acc ts,
  chars_ok l -> Forall token_lexed acc -> tokenize_loop fuel l acc = Ok ts -> Forall token_lexed ts.
Proof.
  induction fuel as [|fuel IH]; intros l acc ts Hl Hacc; cbn [tokenize_loop]; [done|].
  destruct (next_token (skip_whitespace l)) as [[t r]| |] eqn:Ht; cbn [bind_outcome]; [|done|done].
  pose proof (skip_whitespace_chars l Hl) as Hl'. destruct (next_token_typed _ _ _ Hl' Ht) as [_ Hr].
  assert (Forall token_lexed (acc ++ [t])).
  { apply Forall_app. split; [done|]. constructor; [exact (next_token_lexed _ t r Hl' Ht)|done]. }
  case_bool_decide; [by intros [= <-]|]. by apply IH.
Qed.

Lemma tokenize_lexed sql ts : string_ok sql -> tokenize sql = Ok ts -> Forall token_lexed ts.
Proof. intros Hs. apply tokenize_loop_lexed; [by apply chars_of_text|constructor]. Qed.

(** ** Sentences of such tokens *)

Lemma lower_identifier b :
  is_identifier_start [ascii_lower b] = is_identifier_start [b]
  /\ is_identifier_continue [ascii_lower b] = is_identifier_continue [b] /\ ascii_lower (ascii_lower b) = ascii_lower b.
Proof. by destruct b. Qed.

Lemma identifier_printable n w : identifier n w -> Forall token_lexed w -> name_ok n.
Proof.
  intros (v & -> & ->)%identifier_inv [Hv _]%Forall_cons. split; [|apply normalize_name_idemp].
  cbn [token_lexed] in Hv. unfold normalize_identifier, to_ascii_lowercase, map_bytes. rewrite bytes_of_string_of_bytes.
  destruct (bytes_of_string v) as [|b bs]; [done|]. cbn [fmap list_fmap identifier_bytes] in *.
  apply andb_true_iff in Hv as [Hb Hbs]. rewrite (proj1 (lower_identifier b)), Hb. cbn [andb].
  rewrite forallb_forall in Hbs. apply forallb_forall. intros x (y & <- & Hy)%in_map_iff.
  rewrite (proj1 (proj2 (lower_identifier y))). by apply Hbs.
Qed.

Lemma literal_printable v w : literal v w -> Forall token_lexed w -> value_ok v.
Proof.
  destruct w as [|[n|d|s| | | | | | |] [|? ?]]; cbn [literal]; try done.
  - by intros [-> _].
  - intros Hd _. pose proof (number_value_typed d v Hd) as Hty. unfold number_value in Hd. destruct (existsb _ _).
    + destruct (parse_f64 d) as [bits|] eqn:Hf; [|done]. injection Hd as <-. split; [exact Hty|].
      unfold parse_f64 in Hf. destruct (split_sign _) as [neg text], (split_dot text) as [whole fraction].
      destruct (_ || _); [done|]. injection Hf as <-. apply double_of_decimal_not_nan.
    + destruct (parse_i64 d); [|done]. by injection Hd as <-.
  - intros -> [Hs _]%Forall_cons. exact Hs.
Qed.

Lemma column_def_printable c w : column_def c w -> Forall token_lexed w -> column_ok c.
Proof.
  destruct w as [|[n| | | | | | | | |] [|[t| | | | | | | | |] [|? ?]]]; cbn [column_def]; try done.
  intros [Hn Ht] [Hn' _]%Forall_cons. split.
  - apply (identifier_printable _ [Ident n]); [done|by constructor].
  - unfold normalize_type_name in Ht. case_bool_decide; [|done]. by injection Ht as <-.
Qed.

Lemma comma_sep_nonempty {A} (R : A -> list Token -> Prop) l w : comma_sep R l w -> l <> [].
Proof. by intros []. Qed.

Lemma comma_sep_printable {A} (R : A -> list Token -> Prop) (P : A -> Prop) l w :
  (forall a w, R a w -> Forall token_lexed w -> P a) -> comma_sep R l w -> Forall token_lexed w -> Forall P l.
Proof.
  intros HR Hl. induction Hl as [a w Ha|a w l v Ha _ IH]; intros Hw.
  - constructor; [by apply (HR a w)|constructor].
  - apply Forall_app in Hw as [Hw Hv]. apply Forall_cons in Hv as [_ Hv]. constructor; [by apply (HR a w)|by apply IH].
Qed.

Lemma literals_printable vs w : literals vs w -> Forall token_lexed w -> Forall value_ok vs.
Proof.
  intros [|vs' w' Hl] Hw; [constructor|]. apply Forall_app in Hw as [Hw _].
  by apply (comma_sep_printable literal value_ok vs' w' literal_printable).
Qed.

Lemma projection_printable p w : projection p w -> Forall token_lexed w ->
  match p with All => True | Columns cs => Forall name_ok cs /\ cs <> [] end.
Proof.
  intros [|cs w' Hl] Hw; [done|]. split; [|by eapply comma_sep_nonempty].
  by apply (comma_sep_printable identifier name_ok cs w' identifier_printable).
Qed.

Lemma where_printable s w : where_clause s w -> Forall token_lexed w ->
  match s with Some (mkSelection c v) => name_ok c /\ value_ok v | None => True end.
Proof.
  intros [|k c v wc wv _ Hc Hv] Hw; [done|]. apply Forall_cons in Hw as [_ Hw].
  apply Forall_app in Hw as [Hwc Hw]. apply Forall_cons in Hw as [_ Hwv].
  split; [by apply (identifier_printable c wc)|by apply (literal_printable v wv)].
Qed.

Lemma sentence_printable s w : sentence s w -> Forall token_lexed w -> printable s.
Proof.
  intros Hs Hw.
  destruct Hs as [k1 k2 n wn cs wc _ _ Hn Hcs|k1 k2 k3 n wn t wt c wc _ _ Hn _ Ht Hc|k1 k2 k3 t wt vs wv _ _ Ht _ Hvs
                 |k1 k2 n wn _ _ Hn|k1 n wn vs wv _ Hn Hvs|k1 k2 p wp t wt sel ws _ Hp _ Ht Hsel]; cbn [printable];
    repeat match goal with
    | H : Forall token_lexed (_ :: _) |- _ => apply Forall_cons in H as [_ H]
    | H : Forall token_lexed (_ ++ _) |- _ => let H' := fresh in apply Forall_app in H as [H' H]
    end; split_and?;
    first [ by eapply identifier_printable | by eapply literals_printable | by eapply comma_sep_nonempty
          | by eapply comma_sep_printable; [apply column_def_printable|..]
          | by eapply projection_printable | by eapply where_printable ].
Qed.

Section RoundTrip.
Context `{TokenDebug}.

Lemma parsed_printable sql s :
  string_len sql < USIZE_MAX -> string_ok sql -> parse_statement sql = Ok s -> printable s.
Proof.
  intros Hlen Hok Hp. pose proof (parse_statement_sound sql Hlen) as Hs. rewrite Hp in Hs.
  destruct Hs as (w & k & Hts & Hw). apply (sentence_printable s w Hw).
  pose proof (tokenize_lexed sql _ Hok Hts) as Hty. by apply Forall_app in Hty as [Hty _].
Qed.

(** C15. Every statement has a text that is parsed back to it: a statement whose
    names are lower-case identifiers, whose column lists are not empty, whose
    types are the six known ones and whose values are machine values, any double
    except a NaN among them, is read back from its rendered text; and these are
    all the statements that the parser gives for any text. *)
Theorem parse_render (s : Statement) :
  string_len (render s) < USIZE_MAX ->
  (printable s -> parse_statement (render s) = Ok s)
  /\ (forall sql, string_ok sql -> string_len sql < USIZE_MAX -> parse_statement sql = Ok s ->
      printable s /\ parse_statement (render s) = Ok s).
Proof.
  intros Hlen. split; [by intros Hs; apply render_parsed|]. intros sql Hok Hl Hp.
  pose proof (parsed_printable sql s Hl Hok Hp) as Hs. split; [exact Hs|by apply render_parsed].
Qed.
End RoundTrip.

Lemma parse_render_witness :
  let s := Insert "t" [Integer I64_MIN; Text "it's"; Double 13832806255468478464; Null] in
  printable s /\ render s = "INSERT INTO t VALUES ( -9223372036854775808 , 'it''s' , -1.5000000000000000000000000000000000000000000000000000 , NULL ) " /\
  parse_statement (H := sample_debug) (render s) = Ok s.
Proof.
  intros s. assert (Hs : printable s).
  { split; [split; reflexivity|]. repeat (constructor; [vm_compute; try (split; [discriminate|]); done|]). constructor. }
  assert (Hl : string_len (render s) < USIZE_MAX) by (vm_compute; reflexivity).
  split; [exact Hs|]. split; [vm_compute; reflexivity|]. apply (parse_render (H := sample_debug) s Hl); exact Hs.
Defined.
