(* ===== verification/SqlExec.v ===== *)
(** * SqlExec: the executor of crate [rdbms_sql]

    Statements run against a [TransactionalStore]: a statement that writes is one
    transaction of its own, a query reads the committed store. *)

From S2P Require Import Prelude Core Bytes Page Vfs Wal Catalog Heap CatalogStore Tx Index TxIndex Double Extension SqlRow Sql.

(** ** Names and columns *)

Definition lookup_relation (table : string) (c : Catalog) : DbResult RelationInfo :=
  ok_or (relation_by_name table c) (User ("unknown relation: " +:+ table)).

Definition resolve_column_index (relation : RelationInfo) (column : string) : DbResult nat :=
  ok_or (fst <$> find_first (fun c => bool_decide (col_name c = column)) (columns relation))
    (User ("unknown column '" +:+ column +:+ "' on relation '" +:+ rel_name relation +:+ "'")).

Definition resolve_projection (relation : RelationInfo) (p : Projection) : DbResult (list nat) :=
  match p with
  | All => Ok (seq 0 (length (columns relation)))
  | Columns cs => traverse (resolve_column_index relation) cs
  end.

(** The index on a column of a table, if there is one. *)
Definition find_index_on_column (table : RelationId) (column : string) (c : Catalog) : option RelationInfo :=
  snd <$> find_first (fun r => match index_storage r with
                               | Some s => bool_decide (column_name s = column)
                               | None => false
                               end) (indexes_on_table table c).

Definition validate_row_width (relation : RelationInfo) (values : list Value) : DbResult unit :=
  if negb (len values =? len (columns relation))
  then Err (Corruption ("SQL row value count " +:+ pretty (len values)
                        +:+ " does not match catalog column count " +:+ pretty (len (columns relation))))
  else Ok tt.

Definition is_integer_type (t : string) : bool := bool_decide (t ∈ ["INT"; "INTEGER"]).
Definition is_text_type (t : string) : bool := bool_decide (t = "TEXT").
Definition is_double_type (t : string) : bool := bool_decide (t ∈ ["DOUBLE"; "REAL"; "FLOAT"]).

Definition ensure_indexable_column (column : ColumnDef) : DbResult unit :=
  if is_integer_type (type_name column) || is_text_type (type_name column) then Ok tt
  else Err (User ("column '" +:+ col_name column +:+ "' of type '" +:+ type_name column
                  +:+ "' is not indexable in Stage 8")).

(** ** Values *)

Definition index_key_from_value (v : Value) : option IndexKey :=
  match v with
  | Null => None
  | Integer z => Some (KInteger z)
  | Text s => Some (KText s)
  | Double _ => None
  end.

Definition type_error (column : ColumnDef) (expected : string) : DbError :=
  User ("column '" +:+ col_name column +:+ "' expects " +:+ expected +:+ ", type is " +:+ type_name column).

Definition coerce_value (column : ColumnDef) (v : Value) : DbResult Value :=
  match v with
  | Null => Ok Null
  | _ =>
      if is_integer_type (type_name column) then
        match v with Integer _ => Ok v | _ => Err (type_error column "integer") end
      else if is_text_type (type_name column) then
        match v with Text _ => Ok v | _ => Err (type_error column "text") end
      else if is_double_type (type_name column) then
        match v with
        | Double _ => Ok v
        | Integer z => Ok (Double (double_of_i64 z))
        | _ => Err (type_error column "double")
        end
      else Err (User ("unsupported SQL column type '" +:+ type_name column +:+ "' on column '"
                      +:+ col_name column +:+ "'"))
  end.

Definition coerce_values (cols : list ColumnDef) (values : list Value) : DbResult (list Value) :=
  if negb (len cols =? len values)
  then Err (User ("INSERT value count " +:+ pretty (len values) +:+ " does not match column count "
                  +:+ pretty (len cols)))
  else traverse (fun '(column, v) => coerce_value column v) (zip cols values).

Definition sql_values_equal (left right : Value) : bool :=
  match left, right with
  | Null, Null => true
  | Integer l, Integer r => (l =? r)%Z
  | Text l, Text r => bool_decide (l = r)
  | Double l, Double r => double_eq l r
  | Double l, Integer r => double_eq l (double_of_i64 r)
  | Integer l, Double r => double_eq (double_of_i64 l) r
  | _, _ => false
  end.

Definition scalar_result_type (declared : string) (v : Value) : string :=
  if bool_decide (declared = "DYNAMIC") then
    match v with Null => "NULL" | Integer _ => "INT" | Text _ => "TEXT" | Double _ => "DOUBLE" end
  else declared.

(** ** Statements that write *)

Section Exec.
Context {F : Type} `{VfsFile F} `{TokenDebug}.

Definition ask_catalog {A : Type} (q : Catalog -> DbResult A) : db (TransactionalStore F) A :=
  fun m => (q (CatalogStore.catalog (store m)), m).

Definition execute_load_extension (name : string) : db (TransactionalStore F) ExecResult :=
  let! d := lift (builtin_extension_descriptor name) in
  let! _ := register_extension_autocommit (desc_name d) (desc_abi_version d) (kind_as_str (desc_kind d)) in
  ret (StatementComplete 0).

(** The body of the loop over the indexes of [execute_insert]. *)
Definition insert_index_of (relation : RelationInfo) (values : list Value) (row_id : RowId)
    (index_relation : RelationInfo) : db (Transaction F) unit :=
  let! s := lift (ok_or (index_storage index_relation)
                    (InternalInvariant "index relation without index storage")) in
  let! column_index := lift (resolve_column_index relation (column_name s)) in
  let! v := lift (or_panic (values !! column_index)) in
  match index_key_from_value v with
  | Some k => insert_index_entry (rel_id index_relation) k row_id
  | None => ret tt
  end.

(** The transaction of [execute_insert], up to its commit. *)
Definition insert_transaction (relation : RelationInfo) (values : list Value) (bs : list byte)
    (index_relations : list RelationInfo) : db (Transaction F) unit :=
  let! row_id := insert_row (rel_id relation) bs in
  for_each (insert_index_of relation values row_id) index_relations.

Definition execute_insert (table : string) (values : list Value) : db (TransactionalStore F) ExecResult :=
  let! relation := ask_catalog (lookup_relation table) in
  let! values := lift (coerce_values (columns relation) values) in
  let! bs := lift (encode_row values) in
  let! index_relations := ask_catalog (fun c => Ok (indexes_on_table (rel_id relation) c)) in
  let! _ := autocommit (insert_transaction relation values bs index_relations) in
  ret (StatementComplete 1).

(** The body of the loop over the rows of [execute_create_index]. *)
Definition index_existing_row (relation : RelationInfo) (column_index : nat) (index_relation_id : RelationId)
    (row : HeapRow) : db (Transaction F) unit :=
  let! values := lift (decode_row (row_bytes row)) in
  let! _ := lift (validate_row_width relation values) in
  let! v := lift (or_panic (values !! column_index)) in
  match index_key_from_value v with
  | Some k => insert_index_entry index_relation_id k (row_id row)
  | None => ret tt
  end.

Definition create_index_transaction (relation : RelationInfo) (name column : string) (column_index : nat)
  : db (Transaction F) unit :=
  let! (index_relation_id, _) := create_index name (rel_id relation) column in
  let! rows := full_scan (rel_id relation) in
  for_each (index_existing_row relation column_index index_relation_id) rows.

Definition execute_create_index (name table column : string) : db (TransactionalStore F) ExecResult :=
  let! relation := ask_catalog (lookup_relation table) in
  let! column_index := lift (resolve_column_index relation column) in
  let! c := lift (or_panic (columns relation !! column_index)) in
  let! _ := lift (ensure_indexable_column c) in
  let! _ := autocommit (create_index_transaction relation name column column_index) in
  ret (StatementComplete 0).

(** ** Queries *)

Definition execute_select_function (name : string) (args : list Value) : db (TransactionalStore F) ExecResult :=
  let! registry := ask_catalog (fun c => registry_from_installed_extensions
    ((fun e => (ext_name e, abi_version e, ext_kind e)) <$> extensions c)) in
  let! v := lift (call_scalar name args registry) in
  let! f := lift (ok_or (scalar_function name registry)
                    (InternalInvariant "function disappeared after call")) in
  ret (Query [mkColumnInfo (fn_name f) (scalar_result_type (return_type f) v)] [[v]]).

(** The loop of [candidate_rows] that reads the rows an index names. *)
Fixpoint read_rows (relation_id : RelationId) (row_ids : list RowId)
  : db (TransactionalStore F) (list HeapRow) :=
  match row_ids with
  | [] => ret []
  | r :: rest =>
      let! row := committed_row relation_id r in
      let! rows := read_rows relation_id rest in
      ret (match row with Some row => row :: rows | None => rows end)
  end.

Definition candidate_rows (relation : RelationInfo) (selection : option Selection)
  : db (TransactionalStore F) (list HeapRow) :=
  match selection with
  | None => committed_scan (rel_id relation)
  | Some s =>
      let! index := ask_catalog (fun c => Ok (find_index_on_column (rel_id relation) (sel_column s) c)) in
      match index, index_key_from_value (sel_value s) with
      | Some index_relation, Some k =>
          let! row_ids := lookup_index (rel_id index_relation) k in
          read_rows (rel_id relation) row_ids
      | _, _ => committed_scan (rel_id relation)
      end
  end.

(** The body of the loop of [execute_select]: the projected row, unless the
    predicate rules the row out. *)
Definition select_row (relation : RelationInfo) (predicate : option (nat * Value)) (projected : list nat)
    (row : HeapRow) : DbResult (option (list Value)) :=
  let? values := decode_row (row_bytes row) in
  let? _ := validate_row_width relation values in
  let? keep := match predicate with
               | Some (i, literal) => let? v := or_panic (values !! i) in Ok (sql_values_equal v literal)
               | None => Ok true
               end in
  if keep : bool then
    let? output := traverse (fun i => or_panic (values !! i)) projected in Ok (Some output)
  else Ok None.

Definition resolve_selection (relation : RelationInfo) (selection : option Selection)
  : DbResult (option (nat * Value)) :=
  match selection with
  | Some s => let? i := resolve_column_index relation (sel_column s) in Ok (Some (i, sel_value s))
  | None => Ok None
  end.

Definition execute_select (projection : Projection) (table : string) (selection : option Selection)
  : db (TransactionalStore F) ExecResult :=
  let! relation := ask_catalog (lookup_relation table) in
  let! projected := lift (resolve_projection relation projection) in
  let! predicate := lift (resolve_selection relation selection) in
  let! candidates := candidate_rows relation selection in
  let! rows := lift (traverse (select_row relation predicate projected) candidates) in
  let! cols := lift (traverse (fun i =>
                 let? c := or_panic (columns relation !! i) in
                 Ok (mkColumnInfo (col_name c) (type_name c))) projected) in
  ret (Query cols (omap id rows)).

(** ** One statement *)

Definition execute_statement (s : Statement) : db (TransactionalStore F) ExecResult :=
  match s with
  | CreateTable name cols =>
      let! _ := create_table_autocommit name cols in ret (StatementComplete 0)
  | Insert table values => execute_insert table values
  | CreateIndex name table column => execute_create_index name table column
  | LoadExtension name => execute_load_extension name
  | SelectFunction name args => execute_select_function name args
  | Select projection table selection => execute_select projection table selection
  end.

Definition execute (sql : string) (params : list Value) : db (TransactionalStore F) ExecResult :=
  match params with
  | _ :: _ => throw (User "SQL parameters are not supported in Stage 9")
  | [] => let! s := lift (parse_statement sql) in execute_statement s
  end.

(** [SqlSession] owns the store its statements run against. *)
Record SqlSession : Type := mkSqlSession { session_store : TransactionalStore F }.

Definition session_new (s : TransactionalStore F) : SqlSession := mkSqlSession s.
Definition session_execute (sql : string) (params : list Value) : db SqlSession ExecResult :=
  zoom session_store (fun s _ => mkSqlSession s) (execute sql params).
Definition into_store (s : SqlSession) : TransactionalStore F := session_store s.
End Exec.
Arguments SqlSession F : clear implicits.
