(* ===== verification/SqlExtensions.v ===== *)
(** * SqlExtensions: which operations touch the installed extensions

    [register_extension] alone changes the extensions of the working catalog. *)

From S2P Require Import Prelude Core Bytes Page Vfs Wal Catalog Heap CatalogStore Tx Index TxIndex Extension Sql SqlExec.

(** The part [p] of the state is the same afterwards, whatever the result. *)
Definition unchanged {S X A} (p : S -> X) (op : db S A) : Prop := forall s, p (op s).2 = p s.

Create HintDb unchanged discriminated.

Section Unchanged.
Context {S X : Type} (p : S -> X).

Lemma unchanged_bind {A B} (m : db S A) (k : A -> db S B) :
  unchanged p m -> (forall a, unchanged p (k a)) -> unchanged p (bind_st m k).
Proof.
  intros Hm Hk s. unfold bind_st. specialize (Hm s). destruct (m s) as [[a|e|] s']; cbn [snd] in *; [|done|done].
  by rewrite (Hk a s').
Qed.
Lemma unchanged_if {A} (b : bool) (m1 m2 : db S A) : unchanged p m1 -> unchanged p m2 -> unchanged p (if b then m1 else m2).
Proof. by destruct b. Qed.
Lemma unchanged_option {A B} (o : option B) (f : B -> db S A) m :
  (forall b, unchanged p (f b)) -> unchanged p m -> unchanged p (match o with Some b => f b | None => m end).
Proof. by destruct o. Qed.
Lemma unchanged_for_each {B} (f : B -> db S unit) xs : (forall x, unchanged p (f x)) -> unchanged p (for_each f xs).
Proof. intros Hf. induction xs as [|x xs IH]; cbn [for_each]; [done|]. by apply unchanged_bind. Qed.
Lemma unchanged_ret {A} (a : A) : unchanged p (ret a).
Proof. done. Qed.
Lemma unchanged_throw {A} e : unchanged p (throw (A := A) e).
Proof. done. Qed.
Lemma unchanged_lift {A} (r : DbResult A) : unchanged p (lift r).
Proof. done. Qed.
Lemma unchanged_gets {A} (f : S -> A) : unchanged p (gets f).
Proof. done. Qed.
Lemma unchanged_zoom {R Y A} (get : S -> R) (put : R -> S -> S) (q : R -> Y) (m : db R A) :
  (forall s r, q r = q (get s) -> p (put r s) = p s) -> unchanged q m -> unchanged p (zoom get put m).
Proof. intros Hp Hm s. unfold zoom. specialize (Hm (get s)). destruct (m (get s)) as [o r]. by apply Hp. Qed.
End Unchanged.

#[export] Hint Resolve unchanged_bind unchanged_if unchanged_option unchanged_for_each unchanged_ret unchanged_throw
  unchanged_lift unchanged_gets : unchanged.

(** ** The catalog *)

Lemma unchanged_page_id : unchanged extensions allocate_page_id.
Proof. intros c. unfold allocate_page_id. by destruct (checked_add _ _ _). Qed.
Lemma unchanged_relation_id : unchanged extensions allocate_relation_id.
Proof. intros c. unfold allocate_relation_id. by destruct (checked_add _ _ _). Qed.
Lemma unchanged_push r : unchanged extensions (push_relation r).
Proof. done. Qed.
Lemma unchanged_replace i r : unchanged extensions (replace_relation i r).
Proof. done. Qed.

#[export] Hint Resolve unchanged_page_id unchanged_relation_id unchanged_push unchanged_replace : unchanged.

Lemma unchanged_create_table name cols : unchanged extensions (create_table_metadata name cols).
Proof. unfold create_table_metadata. auto 15 with unchanged. Qed.
Lemma unchanged_append id page : unchanged extensions (append_heap_page id page).
Proof.
  unfold append_heap_page. apply unchanged_bind; [auto with unchanged|]. intros [[i r]|]; [|auto with unchanged].
  apply unchanged_if; [auto with unchanged|]. destruct (storage r); auto with unchanged.
Qed.
Lemma unchanged_create_index name table column : unchanged extensions (create_index_metadata name table column).
Proof. unfold create_index_metadata. auto 25 with unchanged. Qed.
Lemma unchanged_set_root idx root : unchanged extensions (set_index_root_page idx root).
Proof.
  unfold set_index_root_page. apply unchanged_bind; [auto with unchanged|]. intros [[i r]|]; [|auto with unchanged].
  apply unchanged_if; [auto with unchanged|]. destruct (storage r); auto with unchanged.
Qed.

(** ** Transactions *)

Definition installed {F} (t : Transaction F) : list ExtensionInfo := extensions (working_catalog t).

Section Transactions.
Context {F : Type} `{VfsFile F}.

Lemma unchanged_catalog {A} (op : db Catalog A) : unchanged extensions op -> unchanged installed (on_working_catalog (F := F) op).
Proof. by apply unchanged_zoom. Qed.
Lemma unchanged_store {A} (op : db (CatalogStore F) A) : unchanged installed (on_store op).
Proof. by apply (unchanged_zoom _ _ _ (fun _ => tt)). Qed.
Lemma unchanged_dirty id page : unchanged installed (dirty_insert (F := F) id page).
Proof. done. Qed.
Lemma unchanged_active : unchanged installed (ensure_active (F := F)).
Proof. intros t. unfold ensure_active. by case_bool_decide. Qed.
End Transactions.

#[export] Hint Resolve unchanged_catalog unchanged_store unchanged_dirty unchanged_active
  unchanged_create_table unchanged_append unchanged_create_index unchanged_set_root : unchanged.

Section Operations.
Context {F : Type} `{VfsFile F}.

Lemma unchanged_load id : unchanged installed (tx_load_page (F := F) id).
Proof. unfold tx_load_page. auto with unchanged. Qed.
Lemma unchanged_mark : unchanged installed (mark_catalog_dirty (F := F)).
Proof. unfold mark_catalog_dirty. auto with unchanged. Qed.
Lemma unchanged_heap id : unchanged installed (ensure_heap_relation (F := F) id).
Proof. unfold ensure_heap_relation. auto with unchanged. Qed.
Lemma unchanged_pages id : unchanged installed (heap_pages (F := F) id).
Proof. unfold heap_pages. auto with unchanged. Qed.
Lemma unchanged_load_node id : unchanged installed (load_node (S := Transaction F) id).
Proof. unfold load_node. cbn [bt_load_page tx_index_pages]. auto using unchanged_load with unchanged. Qed.
Lemma unchanged_store_node id n : unchanged installed (store_node (S := Transaction F) id n).
Proof. unfold store_node. cbn [bt_store_page tx_index_pages]. auto with unchanged. Qed.
Lemma unchanged_allocate : unchanged installed (bt_allocate_page (S := Transaction F)).
Proof. cbn [bt_allocate_page tx_index_pages]. auto with unchanged. Qed.
End Operations.

#[export] Hint Resolve unchanged_load unchanged_mark unchanged_heap unchanged_pages unchanged_load_node
  unchanged_store_node unchanged_allocate : unchanged.

Section Statements.
Context {F : Type} `{VfsFile F}.

Lemma unchanged_scan ids : forall rows, unchanged installed (scan_pages (S := Transaction F) ids rows).
Proof. induction ids; intros rows; simpl; auto with unchanged. Qed.
Lemma unchanged_insert ids record : unchanged installed (insert_into_pages (S := Transaction F) ids record).
Proof.
  induction ids as [|id ids IH]; simpl; [auto with unchanged|]. apply unchanged_bind; [auto with unchanged|].
  intros p. destruct (insert_record record p) as [[slot|[]|] q]; auto with unchanged.
Qed.
Lemma unchanged_insert_row id record : unchanged installed (insert_row (F := F) id record).
Proof.
  unfold insert_row, insert_new_page. do 4 (apply unchanged_bind; [auto using unchanged_insert with unchanged|]; intros ?).
  apply unchanged_option; [auto with unchanged|]. apply unchanged_bind; [auto with unchanged|]. intros p.
  destruct (insert_record record _) as [slot page]. auto 10 with unchanged.
Qed.
Lemma unchanged_full_scan id : unchanged installed (full_scan (F := F) id).
Proof. unfold full_scan. auto using unchanged_scan with unchanged. Qed.
Lemma unchanged_in_leaf id next es k r : unchanged installed (insert_in_leaf (S := Transaction F) id next es k r).
Proof.
  unfold insert_in_leaf. apply unchanged_bind; [auto with unchanged|]. intros es'. apply unchanged_if; [auto with unchanged|].
  do 2 (apply unchanged_bind; [auto with unchanged|]; intros ?). destruct a0. auto 10 with unchanged.
Qed.
Lemma unchanged_separator id ks cs i sp : unchanged installed (insert_separator (S := Transaction F) id ks cs i sp).
Proof.
  unfold insert_separator. do 2 (apply unchanged_bind; [auto with unchanged|]; intros ?). apply unchanged_if; [auto with unchanged|].
  apply unchanged_bind; [auto with unchanged|]. intros sep.
  do 2 (apply unchanged_bind; [auto with unchanged|]; intros []). auto 10 with unchanged.
Qed.
Lemma unchanged_recursive fuel : forall id k r, unchanged installed (insert_recursive (S := Transaction F) fuel id k r).
Proof.
  induction fuel as [|fuel IH]; intros id k r; cbn [insert_recursive]; [done|].
  apply unchanged_bind; [auto with unchanged|]. intros [next es|ks cs]; [apply unchanged_in_leaf|].
  do 2 (apply unchanged_bind; [auto with unchanged|]; intros ?).
  apply unchanged_bind; [apply IH|]. intros [sp|]; [apply unchanged_separator|auto with unchanged].
Qed.
Lemma unchanged_index_entry idx k r : unchanged installed (insert_index_entry (F := F) idx k r).
Proof.
  unfold insert_index_entry, Index.insert. do 3 (apply unchanged_bind; [auto with unchanged|]; intros ?).
  apply unchanged_bind; [|intros ?; auto with unchanged].
  apply unchanged_bind; [apply unchanged_recursive|]. intros [sp|]; auto 10 with unchanged.
Qed.
Lemma unchanged_insert_transaction r vs bs xs : unchanged installed (insert_transaction (F := F) r vs bs xs).
Proof.
  unfold insert_transaction, insert_index_of. auto 10 using unchanged_insert_row, unchanged_index_entry with unchanged.
Qed.
Lemma unchanged_create_index_transaction r name col j : unchanged installed (create_index_transaction (F := F) r name col j).
Proof.
  unfold create_index_transaction, create_index, initialize_root, index_existing_row.
  apply unchanged_bind; [apply unchanged_bind; [auto with unchanged|]; intros _;
                         apply unchanged_bind; [auto with unchanged|]; intros []; auto with unchanged|].
  intros []. auto 10 using unchanged_full_scan, unchanged_index_entry with unchanged.
Qed.
Lemma unchanged_create_table_transaction name cols : unchanged installed (Tx.create_table (F := F) name cols).
Proof.
  unfold Tx.create_table. do 2 (apply unchanged_bind; [auto with unchanged|]; intros []). auto with unchanged.
Qed.
End Statements.
