(* ===== verification/SqlDb.v ===== *)
(** * SqlDb: tables of values and complete indexes

    [sql_db c v T X]: every row of a table decodes to values of the types of its
    columns, and every index [idx] is a B+tree on the pages [(X idx).1] whose
    entries [(X idx).2] are those of its column in the rows of its table.  The
    lemmas say how a transaction moves this invariant. *)

From S2P Require Import Prelude Core Bytes Page PageFacts PageOps Vfs VfsFacts PageStore Wal WalFacts WalStream WalTheorems Recovery RecoveryFacts Catalog CatalogFacts CatalogWf CatalogTheorems Heap HeapDb CatalogStore CatalogStoreFacts CatalogStoreTheorems Tx TxFacts TxCommit TxTheorems TxAuto Index IndexFacts IndexTree IndexReads IndexInsert TxIndex TxIndexFacts Double DoubleFacts Extension ExtensionTheorems SqlRow SqlRowTheorems Sql SqlExec.

(** ** Rows of values *)

Definition row_values (row : HeapRow) : list Value :=
  match decode_row (Heap.row_bytes row) with Ok vs => vs | _ => [] end.

Definition value_of_type (t : string) (v : Value) : bool :=
  match v with
  | Null => true
  | Integer _ => is_integer_type t
  | Text _ => is_text_type t
  | Double _ => is_double_type t
  end.
Definition conforms (column : ColumnDef) (v : Value) : Prop :=
  value_of_type (type_name column) v = true /\ value_typed v.

Definition row_ok (cols : list ColumnDef) (row : HeapRow) : Prop :=
  decode_row (Heap.row_bytes row) = Ok (row_values row) /\ Forall2 conforms cols (row_values row).

Definition indexable (column : ColumnDef) : bool :=
  is_integer_type (type_name column) || is_text_type (type_name column).

(** The entry of column [j] for a row: a row without a key has none. *)
Definition entry_of (j : nat) (row : HeapRow) : option IndexEntry :=
  v ← row_values row !! j;
  k ← index_key_from_value v;
  Some (mkIndexEntry k (row_id row)).
Definition entries_of (j : nat) (rows : list HeapRow) : list IndexEntry := omap (entry_of j) rows.

(** ** The invariant *)

Abbreviation rel_desc := (RelationId * string * RelationKind * list ColumnDef * option (RelationId * string))%type.

Definition table_in (sch : list rel_desc) (id : RelationId) (cols : list ColumnDef) : Prop :=
  exists name, (id, name, Table, cols, None) ∈ sch.
Definition index_in (sch : list rel_desc) (idx tab : RelationId) (col : string) : Prop :=
  exists name cols, (idx, name, Index, cols, Some (tab, col)) ∈ sch.

Definition index_map : Type := RelationId -> list PageId * list IndexEntry.
Definition set_index (idx : RelationId) (x : list PageId * list IndexEntry) (X : index_map) : index_map :=
  fun i => if decide (i = idx) then x else X i.

Record index_set (c : Catalog) (v : PageId -> option Page) (X : index_map) : Prop := {
  is_rep : forall idx tab col, index_in (schema c) idx tab col -> index_rep c v idx (X idx).1 (X idx).2;
  is_disjoint : forall idx tab col idx' tab' col' i,
    index_in (schema c) idx tab col -> index_in (schema c) idx' tab' col' -> idx <> idx' ->
    i ∈ (X idx).1 -> i ∉ (X idx').1
}.

Definition tables_ok (sch : list rel_desc) (T : RelationId -> table) : Prop :=
  forall id cols, table_in sch id cols -> Forall (row_ok cols) (table_rows (T id)).

(** The column [col] of an index is column [j] of its table, of a type whose
    values have keys, and the index holds exactly the entries of the rows. *)
Definition entries_ok (sch : list rel_desc) (T : RelationId -> table) (X : index_map) : Prop :=
  forall idx tab col cols, index_in sch idx tab col -> table_in sch tab cols ->
    exists j d, cols !! j = Some d /\ col_name d = col /\ indexable d = true
      /\ (X idx).2 ≡ₚ entries_of j (table_rows (T tab)).

Record sql_db (c : Catalog) (v : PageId -> option Page) (T : RelationId -> table) (X : index_map) : Prop := {
  sd_indexes : index_set c v X;
  sd_tables : tables_ok (schema c) T;
  sd_entries : entries_ok (schema c) T X
}.

(** ** Schema and catalog *)

Section Schema.
Context (c : Catalog) (Hwf : catalog_wf c).

Lemma schema_relation d : d ∈ schema c -> exists r, r ∈ relations c /\ d = rel_schema r.
Proof using. unfold schema. intros (r & -> & Hr)%list_elem_of_fmap. by exists r. Qed.

Lemma table_in_relation id cols :
  table_in (schema c) id cols -> exists r, is_table c id r /\ columns r = cols.
Proof.
  intros [name (r & Hr & [= Hid Hn Hk Hc Hs])%schema_relation]. exists r. split; [|done]. split; [|done].
  apply list_elem_of_lookup in Hr as [i Hi]. unfold relation_by_id.
  rewrite Hid. by rewrite (find_relation_lookup c i r (wf_ids _ Hwf) Hi).
Qed.

Lemma is_table_in id r : is_table c id r -> table_in (schema c) id (columns r).
Proof.
  intros [Hr Hk]. apply relation_by_id_Some in Hr as [Hin Hid]. exists (rel_name r).
  unfold schema. apply list_elem_of_fmap. exists r. split; [|done].
  pose proof (proj1 (Forall_forall _ _) (wf_shape _ Hwf) r Hin) as Hshape. unfold relation_shape in Hshape.
  unfold rel_schema, index_storage. rewrite Hk, Hid in *. by destruct (Catalog.storage r).
Qed.

Lemma index_in_relation idx tab col :
  index_in (schema c) idx tab col ->
  exists r s, relation_by_id idx c = Some r /\ r ∈ relations c /\ rel_kind r = Index
    /\ Catalog.storage r = BPlusTree s /\ table_id s = tab /\ column_name s = col.
Proof.
  intros (name & cols & (r & Hr & [= Hid Hn Hk Hc Hs])%schema_relation).
  pose proof Hr as Hr'. apply list_elem_of_lookup in Hr' as [i Hi]. unfold index_storage in Hs.
  destruct (Catalog.storage r) as [ps|s] eqn:Hst; [done|]. injection Hs as Htab Hcol.
  exists r, s. split_and!; try done. unfold relation_by_id.
  rewrite Hid. by rewrite (find_relation_lookup c i r (wf_ids _ Hwf) Hi).
Qed.

Lemma relation_index_in r s :
  r ∈ relations c -> Catalog.storage r = BPlusTree s -> index_in (schema c) (rel_id r) (table_id s) (column_name s).
Proof.
  intros Hin Hs. pose proof (proj1 (Forall_forall _ _) (wf_shape _ Hwf) r Hin) as Hshape. unfold relation_shape in Hshape.
  exists (rel_name r), (columns r). unfold schema. apply list_elem_of_fmap. exists r. split; [|done].
  unfold rel_schema, index_storage. rewrite Hs in *. by destruct (rel_kind r).
Qed.

(** An index is no table. *)
Lemma index_not_table idx tab col id r :
  index_in (schema c) idx tab col -> is_table c id r -> idx <> id.
Proof.
  intros (x & s & Hx & _ & Hk & _)%index_in_relation [Hr Hk'] ->. rewrite Hx in Hr. injection Hr as ->. by rewrite Hk in Hk'.
Qed.

(** The table of an index is in the catalog, with the column. *)
Lemma index_table idx tab col :
  index_in (schema c) idx tab col ->
  exists r, is_table c tab r /\ col ∈ (col_name <$> columns r).
Proof.
  intros (x & s & Hx & Hin & Hk & Hs & <- & <-)%index_in_relation.
  pose proof (proj1 (Forall_forall _ _) (wf_shape _ Hwf) x Hin) as Hshape. unfold relation_shape in Hshape.
  rewrite Hk, Hs in Hshape. destruct Hshape as (t & Ht & Hid & Hkt & Hcol). exists t. split; [|done]. split; [|done].
  apply list_elem_of_lookup in Ht as [i Hi]. unfold relation_by_id.
  rewrite <- Hid. by rewrite (find_relation_lookup c i t (wf_ids _ Hwf) Hi).
Qed.
End Schema.

(** ** Entries *)

#[export] Instance entries_of_proper j : Proper ((≡ₚ) ==> (≡ₚ)) (entries_of j).
Proof. intros rows rows' H. unfold entries_of. by rewrite H. Qed.

Lemma entries_of_cons j row rows :
  entries_of j (row :: rows) = option_list (entry_of j row) ++ entries_of j rows.
Proof. unfold entries_of. cbn. by destruct (entry_of j row). Qed.

Lemma set_index_same idx x X : set_index idx x X idx = x.
Proof. unfold set_index. by rewrite decide_True. Qed.
Lemma set_index_other idx idx' x X : idx' <> idx -> set_index idx x X idx' = X idx'.
Proof. intros. unfold set_index. by rewrite decide_False. Qed.

Lemma key_of_typed v k : value_typed v -> index_key_from_value v = Some k -> key_typed k.
Proof. destruct v; cbn; intros Ht [= <-]; exact Ht. Qed.

(** The key of an entry is a value of the row. *)
Lemma entry_of_Some j row e :
  entry_of j row = Some e ->
  exists v k, row_values row !! j = Some v /\ index_key_from_value v = Some k /\ e = mkIndexEntry k (row_id row).
Proof.
  unfold entry_of. destruct (row_values row !! j) as [v|] eqn:Hv; [|done]. cbn.
  destruct (index_key_from_value v) as [k|] eqn:Hk; [|done]. intros [= <-]. eauto.
Qed.

Lemma row_ok_typed cols row j v : row_ok cols row -> row_values row !! j = Some v -> value_typed v.
Proof. intros [_ Hr] Hv. destruct (Forall2_lookup_r _ _ _ _ _ Hr Hv) as (d & _ & [_ Ht]). exact Ht. Qed.

(** ** Rows have machine ids *)

Lemma heap_page_slots s id a row :
  heap_page s (id, a) -> row ∈ page_rows id a -> row_typed (row_id row) /\ len (Heap.row_bytes row) <= USIZE_MAX.
Proof.
  intros (p & _ & [_ Hh _ Hcells] & _ & _ & Haddr) Hrow. pose proof (rows_from_ids _ _ _ _ Hrow) as [Hid [_ Hslot]].
  pose proof (hv_dir _ _ Hh) as Hd. pose proof (hv_bounds _ _ Hh) as [H1 H2]. cbn in Hd, H1, H2. split; [split|].
  - rewrite Hid. cbn [fst] in Haddr. unfold addressable in Haddr. lia.
  - unfold U16_MAX. lia.
  - destruct row as [[i slot] bs]. cbn [row_id page_id] in Hid. subst i.
    apply rows_from_lookup in Hrow as [_ Hlive]. apply Hcells in Hlive as (_ & _ & Hend & Hbs). cbn [Heap.row_bytes].
    rewrite <- Hbs. unfold slice. rewrite length_take. unfold PAGE_SIZE, USIZE_MAX, U64_MAX in *. lia.
Qed.

Lemma heap_db_row_typed c v T id r row :
  heap_db c v T -> is_table c id r -> row ∈ table_rows (T id) ->
  row_typed (row_id row) /\ len (Heap.row_bytes row) <= USIZE_MAX.
Proof.
  intros Hdb Hr Hrow. destruct (is_table_rep _ _ _ _ _ Hdb Hr) as (ps & _ & _ & _ & _ & _ & _ & Hpages).
  induction Hpages as [|[i a] t Hp _ IH]; [by apply not_elem_of_nil in Hrow|].
  cbn [table_rows] in Hrow. apply elem_of_app in Hrow as [Hrow|Hrow]; [|by apply IH].
  by apply (heap_page_slots v i a).
Qed.

(** ** The indexes of a transaction *)

Section Steps.
Context {F : Type} `{VfsLaws F}.
Implicit Types (t : Transaction F).

(** Pages of tables change, tables grow by new pages, and new tables and page
    ids appear. *)
Lemma index_set_kept c v c' v' X :
  (forall idx tab col, index_in (schema c') idx tab col ->
     index_in (schema c) idx tab col /\ relation_by_id idx c' = relation_by_id idx c) ->
  next_page_id c <= next_page_id c' ->
  (forall i, 1 <= i < next_page_id c ->
     (forall r, r ∈ relations c -> rel_kind r = Table -> i ∉ rel_heap_pages r) -> v' i = v i) ->
  (forall r i, r ∈ relations c' -> rel_kind r = Table -> i ∈ rel_heap_pages r ->
     (exists r0, r0 ∈ relations c /\ rel_kind r0 = Table /\ i ∈ rel_heap_pages r0) \/ next_page_id c <= i) ->
  index_set c v X -> index_set c' v' X.
Proof.
  intros Hsame Hnext Hview Hpages [Hrep Hdis]. split.
  2: { intros idx tab col idx' tab' col' i [H1 _]%Hsame [H2 _]%Hsame. by apply (Hdis idx tab col idx' tab' col'). }
  intros idx tab col [Hidx Hrel]%Hsame. destruct (Hrep idx tab col Hidx) as [(x & s & h & L & Hx & Hs & Hb & He) Hrange Htab].
  pose proof (proj1 (Forall_forall _ _) Hrange) as Hin. cbn beta in Hin. split.
  - exists x, s, h, L. split_and!; [by rewrite Hrel|done| |done]. apply (btree_ext h v); [|done].
    intros i Hi. apply Hview; [by apply Hin|]. intros r Hr Hk. by apply (Htab r i Hr Hk).
  - apply Forall_forall. intros i Hi. specialize (Hin i Hi). lia.
  - intros r i Hr Hk Hi Hp. destruct (Hpages r i Hr Hk Hp) as [(r0 & Hr0 & Hk0 & Hp0)|Hge].
    + by apply (Htab r0 i Hr0 Hk0 Hi).
    + specialize (Hin i Hi). lia.
Qed.

(** Inserting a row into a table. *)
Lemma index_set_row t t' T T' ks id r X :
  transaction_rep t T T' ks -> is_table (working_catalog t) id r -> only_table id t t' ->
  index_set (working_catalog t) (view t) X -> index_set (working_catalog t') (view t') X.
Proof.
  intros Ht Hr [Hview Hnext Hsch Hoth Hpages]. pose proof (hd_wf _ _ _ (tr_db _ _ _ _ Ht)) as Hwf.
  apply index_set_kept; [|lia| |exact Hpages].
  - rewrite Hsch. intros idx tab col Hidx. split; [done|]. apply Hoth.
    by apply (index_not_table (working_catalog t) Hwf idx tab col id r).
  - intros i Hi Hno. apply Hview; [done|]. intros r' [Hr' Hk']. apply relation_by_id_Some in Hr' as [Hr' _]. by apply Hno.
Qed.

(** One index is new or has changed, the others are as they were. *)
Lemma index_set_update c v c' v' idx P es X :
  index_set c v X -> index_rep c' v' idx P es ->
  (forall i tab col, index_in (schema c') i tab col -> i <> idx ->
     index_in (schema c) i tab col
     /\ index_rep c' v' i (X i).1 (X i).2 /\ forall p, p ∈ (X i).1 -> p ∉ P) ->
  index_set c' v' (set_index idx (P, es) X).
Proof.
  intros [Hrep Hdis] Hnew Hother. split.
  - intros i tab col Hi. destruct (decide (i = idx)) as [->|Hne]; [by rewrite set_index_same|].
    rewrite set_index_other by done. by apply (Hother i tab col).
  - intros i tab1 col1 i' tab2 col2 p Hi Hi' Hne.
    destruct (decide (i = idx)) as [->|Hne1]; destruct (decide (i' = idx)) as [->|Hne2]; [done| | |];
      rewrite ?set_index_same, ?set_index_other by done; cbn [fst].
    + intros Hp Hp'. by apply (proj2 (proj2 (Hother i' tab2 col2 Hi' Hne2)) p Hp').
    + by apply (Hother i tab1 col1).
    + apply (Hdis i tab1 col1 i' tab2 col2); [by apply Hother|by apply Hother|done].
Qed.

(** Inserting an entry into an index. *)
Lemma index_set_entry t t' T T' ks idx tab col P es X :
  index_set (working_catalog t) (view t) X -> index_in (schema (working_catalog t)) idx tab col ->
  schema (working_catalog t') = schema (working_catalog t) ->
  index_changed t t' T T' ks idx (X idx).1 P es ->
  index_set (working_catalog t') (view t') (set_index idx (P, es) X).
Proof.
  intros HX Hidx Hsch [_ Hnew Hoth]. apply (index_set_update (working_catalog t) (view t)); [done|done|].
  rewrite Hsch. intros i tab' col' Hi Hne. split; [done|].
  apply (Hoth i _ _ (is_rep _ _ _ HX i tab' col' Hi) Hne). intros p Hp. by apply (is_disjoint _ _ _ HX i tab' col' idx tab col).
Qed.

(** Creating an index. *)
Lemma index_set_create t t' T T' ks idx name tab col cols root X :
  transaction_rep t T T' ks -> index_set (working_catalog t) (view t) X ->
  schema (working_catalog t') = schema (working_catalog t) ++ [(idx, name, Index, cols, Some (tab, col))] ->
  index_changed t t' T T' ks idx [] [root] [] ->
  index_set (working_catalog t') (view t') (set_index idx ([root], []) X).
Proof.
  intros Ht HX Hsch [_ Hnew Hoth]. apply (index_set_update (working_catalog t) (view t)); [done|done|].
  intros i tab' col' (n & cs & Hi) Hne. rewrite Hsch in Hi.
  apply elem_of_app in Hi as [Hi | [= -> _ _ _ _]%list_elem_of_singleton]; [|done].
  assert (Hi' : index_in (schema (working_catalog t)) i tab' col') by by exists n, cs. split; [done|].
  apply (Hoth i _ _ (is_rep _ _ _ HX i tab' col' Hi') Hne). intros p _. apply not_elem_of_nil.
Qed.

(** Creating a table, whose page is new. *)
Lemma index_set_new_table c v c' v' name cols id p X :
  catalog_wf c -> create_table_metadata name cols c = (Ok (id, p), c') ->
  (forall i, 1 <= i < next_page_id c -> v' i = v i) ->
  index_set c v X -> index_set c' v' X.
Proof.
  intros Hwf Hrun Hview. destruct (create_table_metadata_run c name cols id p c' Hrun) as (_ & -> & -> & Hc').
  assert (Hrel : relations c' = relations c ++ [mkRelationInfo (next_relation_id c) name Table (Heap [next_page_id c]) cols]) by by subst c'.
  assert (Hnext : next_page_id c' = next_page_id c + 1) by by subst c'. clear Hc'.
  apply index_set_kept; [|lia|auto|].
  - intros idx tab col Hidx.
    assert (Hold : index_in (schema c) idx tab col).
    { destruct Hidx as (n & cs & Hin). exists n, cs. unfold schema in *. rewrite Hrel, fmap_app in Hin.
      by apply elem_of_app in Hin as [Hin | Hin%list_elem_of_singleton]. }
    split; [done|]. rewrite (relation_by_id_push c c' _ idx Hwf Hrel eq_refl). cbn [rel_id]. rewrite decide_False; [done|].
    destruct (index_in_relation c Hwf idx tab col Hold) as (r & s & Hr & _). apply relation_by_id_Some in Hr as [Hr <-].
    pose proof (proj1 (Forall_forall _ _) (wf_id_range _ Hwf) r Hr) as Hlt. cbn beta in Hlt. lia.
  - rewrite Hrel. intros r i [Hr | ->%list_elem_of_singleton]%elem_of_app Hk Hi; [left; by exists r|].
    right. apply list_elem_of_singleton in Hi as ->. done.
Qed.

(** ** Entries inserted one by one *)

(** The transaction [t] has the schema [sch] and the indexes [X]. *)
Record sql_tx (t : Transaction F) (T T' : RelationId -> table) (ks : list WalRecordKind)
    (sch : list rel_desc) (X : index_map) : Prop := {
  sx_rep : transaction_rep t T T' ks;
  sx_schema : schema (working_catalog t) = sch;
  sx_set : index_set (working_catalog t) (view t) X
}.

(** [X'] has the entries [es] more in the index [idx]. *)
Definition more_entries (idx : RelationId) (es : list IndexEntry) (X X' : index_map) : Prop :=
  (X' idx).2 ≡ₚ es ++ (X idx).2 /\ forall i, i <> idx -> X' i = X i.

Lemma more_entries_trans idx es es' X X1 X2 :
  more_entries idx es X X1 -> more_entries idx es' X1 X2 -> more_entries idx (es' ++ es) X X2.
Proof.
  intros [H1 Ho1] [H2 Ho2]. split; [by rewrite H2, H1, app_assoc|]. intros i Hi. by rewrite Ho2, Ho1.
Qed.

Definition room (n : N) (t : Transaction F) : Prop := addressable (next_page_id (working_catalog t) + n).
Definition page_ids_taken (n : N) (t t' : Transaction F) : Prop :=
  next_page_id (working_catalog t) <= next_page_id (working_catalog t') <= next_page_id (working_catalog t) + n.

Lemma room_after n m t t' : room (n + m) t -> page_ids_taken n t t' -> room m t'.
Proof. unfold room, page_ids_taken, addressable. lia. Qed.

Lemma room_le n m t : room m t -> n <= m -> room n t.
Proof. unfold room, addressable. lia. Qed.

Lemma page_ids_trans n m t t1 t2 : page_ids_taken n t t1 -> page_ids_taken m t1 t2 -> page_ids_taken (n + m) t t2.
Proof. unfold page_ids_taken. lia. Qed.

(** What adding entries to the index [idx] leaves. *)
Definition entries_added (idx : RelationId) (es : list IndexEntry) (n : N) (t t' : Transaction F)
    (T T' : RelationId -> table) (ks : list WalRecordKind) (sch : list rel_desc) (X : index_map) : Prop :=
  exists X', sql_tx t' T T' ks sch X' /\ more_entries idx es X X' /\ page_ids_taken n t t'.

Lemma insert_entry_run t T T' ks sch X idx tab col k r :
  sql_tx t T T' ks sch X -> index_in sch idx tab col -> entry_typed (mkIndexEntry k r) -> room 64 t ->
  ok_or_user_st (insert_index_entry idx k r t) (fun _ t' =>
    entries_added idx [mkIndexEntry k r] 64 t t' T T' ks sch X).
Proof.
  intros [Ht Hsch HX] Hidx Hty Hroom. rewrite <- Hsch in Hidx.
  eapply ok_mono; [apply (insert_index_entry_room t T T' ks idx _ _ k r Ht (is_rep _ _ _ HX idx tab col Hidx) Hty Hroom)|].
  intros _ t' (P & es & Hc & Hes & Hs & Hn). exists (set_index idx (P, es) X). split_and!.
  - split; [apply Hc|by rewrite Hs|]. by apply (index_set_entry t t' T T' ks idx tab col).
  - split; [by rewrite set_index_same|]. intros i Hi. by apply set_index_other.
  - exact Hn.
Qed.

(** The entry of a row for an indexed column, if the row has one. *)
Lemma insert_key_run t T T' ks sch X idx tab col j row v :
  sql_tx t T T' ks sch X -> index_in sch idx tab col -> row_values row !! j = Some v ->
  value_typed v -> row_typed (row_id row) -> room 64 t ->
  ok_or_user_st (match index_key_from_value v with
                 | Some k => insert_index_entry idx k (row_id row)
                 | None => ret tt
                 end t) (fun _ t' =>
    entries_added idx (option_list (entry_of j row)) 64 t t' T T' ks sch X).
Proof.
  intros Ht Hidx Hv Hty Hrow Hroom. unfold entry_of. rewrite Hv. cbn [mbind option_bind].
  destruct (index_key_from_value v) as [k|] eqn:Hk; cbn [mbind option_bind option_list from_option].
  - apply (insert_entry_run t T T' ks sch X idx tab col k); try done. split; [by apply (key_of_typed v)|done].
  - exists X. split_and!; [done|done|]. unfold page_ids_taken. lia.
Qed.

(** A loop whose turns each add the entry of a row to one index. *)
Lemma insert_rows_run (f : HeapRow -> db (Transaction F) unit) T T' ks sch idx j rows : forall t X,
  (forall t X row, row ∈ rows -> sql_tx t T T' ks sch X -> room 64 t ->
     ok_or_user_st (f row t) (fun _ t' => entries_added idx (option_list (entry_of j row)) 64 t t' T T' ks sch X)) ->
  sql_tx t T T' ks sch X -> room (64 * len rows) t ->
  ok_or_user_st (for_each f rows t) (fun _ t' => exists es,
    es ≡ₚ entries_of j rows /\ entries_added idx es (64 * len rows) t t' T T' ks sch X).
Proof.
  induction rows as [|row rows IH]; intros t X Hf Ht Hroom; cbn [for_each].
  - exists []. split; [done|]. exists X. split_and!; [done|done|]. unfold page_ids_taken. cbn. lia.
  - assert (Hlen : 64 * len (row :: rows) = 64 + 64 * len rows) by (autorewrite with len; lia).
    rewrite Hlen in *. eapply ok_bind; [apply Hf; [by left|done|by apply (room_le _ _ _ Hroom); lia]|].
    intros [] t1 (X1 & Ht1 & HX1 & Hn1).
    eapply ok_mono; [apply (IH t1 X1); [|done|by apply (room_after 64 _ t)]|].
    + intros t2 X2 row' Hin. apply Hf. by right.
    + intros [] t2 (es & Hes & X2 & Ht2 & HX2 & Hn2). exists (es ++ option_list (entry_of j row)). split.
      * by rewrite entries_of_cons, Hes, Permutation_app_comm.
      * exists X2. split_and!; [done|by apply (more_entries_trans _ _ _ _ X1)|by apply (page_ids_trans _ _ _ t1)].
Qed.
End Steps.

(** ** The invariant and the pages *)

Lemma index_set_ext c v v' X : (forall i, v' i = v i) -> index_set c v X -> index_set c v' X.
Proof.
  intros Hv [Hrep Hdis]. split; [|done]. intros idx tab col Hi. by apply (index_rep_ext c v); [|by apply (Hrep idx tab col)].
Qed.

Lemma sql_db_ext c v v' T X : (forall i, v' i = v i) -> sql_db c v T X -> sql_db c v' T X.
Proof. intros Hv [HX HT HE]. split; [by apply (index_set_ext c v)|done|done]. Qed.

(** An idle store whose committed tables and indexes keep the invariant. *)
Record sql_store {F} `{VfsLaws F} (m : TransactionalStore F) (T : RelationId -> table) (ks : list WalRecordKind) : Prop := {
  ss_idle : idle_store m T ks;
  ss_db : exists X, sql_db (catalog (store m)) (view (data m)) T X
}.
