(* ===== verification/SqlWrites.v ===== *)
(** * SqlWrites: what the statements that write do *)

From S2P Require Import Prelude Core Bytes Page PageFacts PageOps Vfs VfsFacts PageStore Wal WalFacts WalStream WalTheorems Recovery RecoveryFacts Catalog CatalogFacts CatalogWf CatalogTheorems Heap HeapDb CatalogStore CatalogStoreFacts CatalogStoreTheorems Tx TxFacts TxCommit TxTheorems TxAuto Index IndexFacts IndexTree IndexReads IndexInsert TxIndex TxIndexFacts Double DoubleFacts Extension ExtensionTheorems SqlRow SqlRowTheorems Sql SqlExec SqlDb.

(** ** Names *)

Lemma find_first_In {A} (p : A -> bool) l x : x ∈ l -> p x = true -> exists i y, find_first p l = Some (i, y).
Proof.
  induction l as [|y l IH]; [by intros ?%not_elem_of_nil|]. intros Hx Hp. cbn. destruct (p y) eqn:Hy; [eauto|].
  apply elem_of_cons in Hx as [-> | Hx]; [by rewrite Hp in Hy|]. destruct (IH Hx Hp) as (i & z & ->). eauto.
Qed.

Lemma resolve_column_Ok r column j :
  resolve_column_index r column = Ok j -> exists d, columns r !! j = Some d /\ col_name d = column.
Proof.
  unfold resolve_column_index. destruct (find_first _ (columns r)) as [[i d]|] eqn:Hf; [|done].
  intros [= <-]. apply find_first_Some in Hf as [Hi Hd%bool_decide_eq_true]. by exists d.
Qed.

Lemma resolve_column_ok_or_user r column : ok_or_user (resolve_column_index r column).
Proof. unfold resolve_column_index. by destruct (find_first _ (columns r)) as [[i d]|]. Qed.

(** With distinct column names a column is found where it is. *)
Lemma resolve_column_at r j d :
  NoDup (col_name <$> columns r) -> columns r !! j = Some d -> resolve_column_index r (col_name d) = Ok j.
Proof.
  intros Hnd Hj. unfold resolve_column_index.
  destruct (find_first_In (fun c => bool_decide (col_name c = col_name d)) (columns r) d) as (i & y & Hf);
    [by apply list_elem_of_lookup_2 in Hj|by apply bool_decide_eq_true|].
  rewrite Hf. apply find_first_Some in Hf as [Hi Hy%bool_decide_eq_true]. cbn. f_equal.
  apply (NoDup_lookup _ i j (col_name d) Hnd); rewrite list_lookup_fmap; [by rewrite Hi; cbn; rewrite Hy|by rewrite Hj].
Qed.

Lemma table_columns_distinct c id r : catalog_wf c -> is_table c id r -> NoDup (col_name <$> columns r).
Proof.
  intros Hwf [Hr Hk]. apply relation_by_id_Some in Hr as [Hin _].
  pose proof (proj1 (Forall_forall _ _) (wf_shape _ Hwf) r Hin) as Hshape. unfold relation_shape in Hshape.
  rewrite Hk in Hshape. by destruct (Catalog.storage r).
Qed.

Lemma relation_by_name_Some name c r : relation_by_name name c = Some r -> r ∈ relations c /\ rel_name r = name.
Proof.
  unfold relation_by_name. destruct (find_first _ _) as [[i x]|] eqn:Hf; [|done]. intros [= <-].
  apply find_first_Some in Hf as [Hi Hn%bool_decide_eq_true]. split; [by apply list_elem_of_lookup_2 in Hi|done].
Qed.

Lemma relation_found c r : catalog_wf c -> r ∈ relations c -> relation_by_id (rel_id r) c = Some r.
Proof.
  intros Hwf [i Hi]%list_elem_of_lookup. unfold relation_by_id. by rewrite (find_relation_lookup c i r (wf_ids _ Hwf) Hi).
Qed.

Lemma lookup_relation_Ok name c r : lookup_relation name c = Ok r -> relation_by_name name c = Some r.
Proof. unfold lookup_relation. destruct (relation_by_name name c); [by intros [= ->]|done]. Qed.

Lemma lookup_relation_ok_or_user name c : ok_or_user (lookup_relation name c).
Proof. unfold lookup_relation. by destruct (relation_by_name name c). Qed.

(** The relation is a table, or an index. *)
Lemma named_relation name c r :
  catalog_wf c -> relation_by_name name c = Some r ->
  is_table c (rel_id r) r \/ (rel_kind r <> Table /\ relation_by_id (rel_id r) c = Some r).
Proof.
  intros Hwf [Hin _]%relation_by_name_Some. pose proof (relation_found c r Hwf Hin) as Hf.
  destruct (decide (rel_kind r = Table)); [by left|by right].
Qed.

Lemma indexes_on_table_spec c id x :
  catalog_wf c -> x ∈ indexes_on_table id c <-> x ∈ relations c /\ exists s, Catalog.storage x = BPlusTree s /\ table_id s = id.
Proof.
  intros Hwf. unfold indexes_on_table. rewrite list_elem_of_filter. unfold index_storage, storage_index. split.
  - intros [Hx Hin]. split; [done|]. destruct (Catalog.storage x) as [ps|s]; reflect_bool; [done|]. by exists s.
  - intros [Hin (s & Hs & Hid)]. split; [|done].
    pose proof (proj1 (Forall_forall _ _) (wf_shape _ Hwf) x Hin) as Hshape. unfold relation_shape in Hshape.
    rewrite Hs in *. apply andb_true_iff. split; [|by apply N.eqb_eq].
    apply bool_decide_eq_true. by destruct (rel_kind x).
Qed.

Lemma indexes_distinct c id : catalog_wf c -> NoDup (rel_id <$> indexes_on_table id c).
Proof.
  intros Hwf. apply NoDup_fmap_2_strong.
  - intros x y Hx Hy. apply indexes_on_table_spec in Hx as [Hx _]; [|done]. apply indexes_on_table_spec in Hy as [Hy _]; [|done].
    by apply (relation_id_inj c).
  - apply NoDup_filter. apply (NoDup_fmap_1 rel_id). apply Hwf.
Qed.

(** ** Values *)

Lemma coerce_value_conforms d v w : value_typed v -> coerce_value d v = Ok w -> conforms d w.
Proof.
  intros Ht. unfold coerce_value, conforms.
  destruct v as [|s|z|b]; [by intros [= <-]|..];
    destruct (is_integer_type (type_name d)) eqn:Hi; try done;
    try (intros [= <-]; by split);
    destruct (is_text_type (type_name d)) eqn:Hx; try done;
    try (intros [= <-]; by split);
    destruct (is_double_type (type_name d)) eqn:Hd; try done; intros [= <-]; (split; [done|]); [|done].
  apply double_of_i64_bound.
Qed.

Lemma coerce_values_conform cols vs ws :
  Forall value_typed vs -> coerce_values cols vs = Ok ws -> Forall2 conforms cols ws.
Proof.
  intros Ht. unfold coerce_values. destruct (negb _) eqn:Hlen; reflect_bool; [done|]. intros Hws%traverse_Forall2.
  revert vs ws Ht Hlen Hws. induction cols as [|d cols IH]; intros [|v vs] ws Ht Hlen Hws; cbn [zip zip_with] in Hws.
  - by apply Forall2_nil_inv_l in Hws as ->.
  - by autorewrite with len in Hlen.
  - by autorewrite with len in Hlen.
  - apply Forall2_cons_inv_l in Hws as (w & ws' & Hw & Hws & ->). inversion Ht; subst. constructor.
    + by apply (coerce_value_conforms d v).
    + apply (IH vs ws'); [done|autorewrite with len in Hlen; lia|done].
Qed.

Lemma coerce_values_ok_or_user cols vs : ok_or_user (coerce_values cols vs).
Proof.
  unfold coerce_values. case_match; [done|]. clear.
  induction (zip cols vs) as [|[d v] l IH]; cbn [traverse]; [done|].
  assert (Hv : ok_or_user (coerce_value d v)).
  { unfold coerce_value, type_error. destruct v; [done|..]; repeat case_match; done. }
  destruct (coerce_value d v) as [w|e|]; [|done|done]. cbn [bind_outcome].
  by destruct (traverse _ l) as [ws|[]|].
Qed.

(** A row that was encoded from conforming values. *)
Lemma encoded_row_ok cols vs bs row :
  encode_row vs = Ok bs -> len bs <= USIZE_MAX -> Forall2 conforms cols vs -> Heap.row_bytes row = bs ->
  row_ok cols row /\ row_values row = vs.
Proof.
  intros Henc Hlen Hvs Hrow.
  assert (Hdec : decode_row (Heap.row_bytes row) = Ok vs).
  { rewrite Hrow. apply decode_row_iff; [done|]. apply encode_row_iff in Henc as [Hfit ->]. split_and!; [done| |done].
    clear -Hvs. induction Hvs as [|d v ds vs [_ Hv] _ IH]; by constructor. }
  assert (Hval : row_values row = vs) by (unfold row_values; by rewrite Hdec).
  split; [|done]. split; by rewrite Hval.
Qed.

(** ** The entries of a new row in every index of its table *)

Section Writes.
Context {F : Type} `{VfsLaws F}.
Implicit Types (t : Transaction F) (m : TransactionalStore F).

(** [x] is an index of the table [r] on its column [j]. *)
Definition indexes_column (sch : list rel_desc) (r x : RelationInfo) (j : nat) : Prop :=
  exists s, Catalog.storage x = BPlusTree s /\ index_in sch (rel_id x) (rel_id r) (column_name s)
    /\ resolve_column_index r (column_name s) = Ok j.

Lemma insert_index_of_run t T T' ks sch X r x j row :
  sql_tx t T T' ks sch X -> indexes_column sch r x j -> row_ok (columns r) row -> row_typed (row_id row) ->
  room 64 t ->
  ok_or_user_st (insert_index_of r (row_values row) (row_id row) x t) (fun _ t' =>
    entries_added (rel_id x) (option_list (entry_of j row)) 64 t t' T T' ks sch X).
Proof.
  intros Ht (s & Hs & Hidx & Hj) Hok Hrow Hroom. unfold insert_index_of.
  apply (ok_lift _ s); [unfold index_storage; by rewrite Hs|]. apply (ok_lift _ j); [exact Hj|].
  destruct (resolve_column_Ok _ _ _ Hj) as (d & Hd & _).
  destruct (Forall2_lookup_l _ _ _ _ _ (proj2 Hok) Hd) as (v & Hv & _ & Hty).
  apply (ok_lift _ v); [by rewrite Hv|].
  by apply (insert_key_run t T T' ks sch X (rel_id x) (rel_id r) (column_name s)).
Qed.

(** What the loop over the indexes [xs] of the table [r] leaves. *)
Definition row_indexed (sch : list rel_desc) (r : RelationInfo) (row : HeapRow) (xs : list RelationInfo)
    (X X' : index_map) : Prop :=
  (forall x j, x ∈ xs -> indexes_column sch r x j ->
     (X' (rel_id x)).2 ≡ₚ option_list (entry_of j row) ++ (X (rel_id x)).2)
  /\ forall i, (i ∉ (rel_id <$> xs)) -> X' i = X i.

Lemma row_indexed_cons sch r row x j xs X X1 X' :
  indexes_column sch r x j -> (rel_id x ∉ (rel_id <$> xs)) ->
  more_entries (rel_id x) (option_list (entry_of j row)) X X1 -> row_indexed sch r row xs X1 X' ->
  row_indexed sch r row (x :: xs) X X'.
Proof.
  intros (s & Hs & _ & Hj) Hnin [Hadd Hoth] [Hrest Hkeep]. split.
  - intros y i Hy Hyi. apply elem_of_cons in Hy as [-> | Hy].
    + rewrite (Hkeep _ Hnin), Hadd. destruct Hyi as (s' & Hs' & _ & Hi). rewrite Hs in Hs'. injection Hs' as <-.
      rewrite Hj in Hi. by injection Hi as <-.
    + rewrite (Hrest y i Hy Hyi), Hoth; [done|]. intros Heq. apply Hnin. rewrite <- Heq. by apply list_elem_of_fmap_2.
  - intros i [Hne Hni]%not_elem_of_cons. by rewrite Hkeep, Hoth.
Qed.

Lemma insert_indexes_run T T' ks sch r row xs : forall t X,
  sql_tx t T T' ks sch X -> Forall (fun x => exists j, indexes_column sch r x j) xs -> NoDup (rel_id <$> xs) ->
  row_ok (columns r) row -> row_typed (row_id row) -> room (64 * len xs) t ->
  ok_or_user_st (for_each (insert_index_of r (row_values row) (row_id row)) xs t) (fun _ t' =>
    exists X', sql_tx t' T T' ks sch X' /\ row_indexed sch r row xs X X').
Proof.
  induction xs as [|x xs IH]; intros t X Ht Hxs Hnd Hok Hrow Hroom; cbn [for_each].
  - exists X. split; [done|]. split; [by intros x j ?%not_elem_of_nil|done].
  - assert (Hlen : 64 * len (x :: xs) = 64 + 64 * len xs) by (autorewrite with len; lia). rewrite Hlen in Hroom.
    apply Forall_cons in Hxs as [[j Hj] Hxs]. apply NoDup_cons in Hnd as [Hnin Hnd].
    eapply ok_bind; [apply (insert_index_of_run t T T' ks sch X r x j row); try done; by apply (room_le _ _ _ Hroom); lia|].
    intros [] t1 (X1 & Ht1 & HX1 & Hn1).
    eapply ok_mono; [apply (IH t1 X1); try done; by apply (room_after 64 _ t)|].
    intros [] t2 (X2 & Ht2 & HX2). exists X2. split; [done|]. by apply (row_indexed_cons sch r row x j xs X X1).
Qed.

(** ** INSERT *)

Lemma indexes_column_all c r :
  catalog_wf c -> is_table c (rel_id r) r ->
  Forall (fun x => exists j, indexes_column (schema c) r x j) (indexes_on_table (rel_id r) c).
Proof.
  intros Hwf Hr. apply Forall_forall. intros x (Hx & s & Hs & Hid)%(indexes_on_table_spec c _ x Hwf).
  pose proof (relation_index_in c Hwf x s Hx Hs) as Hidx.
  destruct (index_table c Hwf _ _ _ Hidx) as (r' & [Hr' _] & (d & Hd & Hin)%list_elem_of_fmap).
  rewrite Hid, (proj1 Hr) in Hr'. injection Hr' as <-. apply list_elem_of_lookup in Hin as [j Hj].
  exists j, s. rewrite <- Hid. split_and!; [done|done|]. rewrite Hd.
  by apply resolve_column_at; [apply (table_columns_distinct c (rel_id r))|].
Qed.

Lemma table_in_columns c r cols : catalog_wf c -> is_table c (rel_id r) r -> table_in (schema c) (rel_id r) cols -> cols = columns r.
Proof. intros Hwf [Hr _] (r' & [Hr' _] & <-)%(table_in_relation c Hwf). rewrite Hr in Hr'. by injection Hr' as ->. Qed.

(** The invariant after a row and its entries. *)
Lemma sql_db_row c v T X c' v' r row tb X' :
  catalog_wf c -> is_table c (rel_id r) r -> sql_db c v T X -> schema c' = schema c -> index_set c' v' X' ->
  row_indexed (schema c) r row (indexes_on_table (rel_id r) c) X X' -> row_ok (columns r) row ->
  table_rows tb ≡ₚ row :: table_rows (T (rel_id r)) -> sql_db c' v' (set_table (rel_id r) tb T) X'.
Proof.
  intros Hwf Hr [_ HT HE] Hsch HX' [Hadd Hkeep] Hok Htb. split; [done|rewrite Hsch..].
  - intros id cols Hid. unfold set_table. case_decide as Heq; [|by apply HT]. subst id.
    pose proof (table_in_columns c r cols Hwf Hr Hid) as ->. rewrite Htb. constructor; [exact Hok|exact (HT _ _ Hid)].
  - intros idx tab col cols Hidx Htab. destruct (HE idx tab col cols Hidx Htab) as (j & d & Hj & Hd & Hty & Hes).
    exists j, d. split_and!; try done.
    destruct (index_in_relation c Hwf idx tab col Hidx) as (x & s & Hx & Hin & _ & Hs & Htid & Hcol).
    apply relation_by_id_Some in Hx as [_ Hid]. subst idx. unfold set_table. case_decide as Heq.
    + rewrite Htb, entries_of_cons, <- Heq, <- Hes. apply Hadd.
      * apply indexes_on_table_spec; [done|]. split; [done|]. exists s. by rewrite Htid.
      * exists s. split_and!; [done|by rewrite Hcol, <- Heq|]. rewrite Hcol, <- Hd.
        rewrite Heq in Htab. rewrite (table_in_columns c r cols Hwf Hr Htab) in Hj.
        by apply resolve_column_at; [apply (table_columns_distinct c (rel_id r))|].
    + rewrite Hkeep; [done|]. intros (y & Hy & Hyin)%list_elem_of_fmap.
      apply indexes_on_table_spec in Hyin as (Hyin & s' & Hs' & Htid'); [|done].
      assert (x = y) as <- by by apply (relation_id_inj c). rewrite Hs in Hs'. injection Hs' as <-. congruence.
Qed.

Lemma tx_insert_row_not_table t T T' ks id r record :
  transaction_rep t T T' ks -> relation_by_id id (working_catalog t) = Some r -> rel_kind r <> Table ->
  insert_row id record t = (Err (not_a_heap_table id), t).
Proof.
  intros Ht Hr Hk. unfold insert_row. erewrite bind_st_run by (by apply ensure_active_run, (tr_state _ _ _ _ Ht)).
  assert (Hrun : Tx.ensure_heap_relation id t = (Err (not_a_heap_table id), t)).
  { unfold Tx.ensure_heap_relation, bind_st, gets, lift. rewrite Hr. cbn [ok_or]. unfold is_heap_table. by rewrite bool_decide_false. }
  by apply bind_st_err.
Qed.

(** What [INSERT] adds to the table [r]. *)
Definition one_more_row (r : RelationInfo) (vs : list Value) (T T' : RelationId -> table) : Prop :=
  exists row tb, T' = set_table (rel_id r) tb T /\ row_ok (columns r) row /\ row_values row = vs
    /\ table_rows tb ≡ₚ row :: table_rows (T (rel_id r))
    /\ forall d, mkHeapRow (row_id row) d ∉ table_rows (T (rel_id r)).

Lemma insert_transaction_run t T T' ks X r vs bs :
  transaction_rep t T T' ks -> sql_db (working_catalog t) (view t) T' X ->
  relation_by_id (rel_id r) (working_catalog t) = Some r -> Forall2 conforms (columns r) vs -> encode_row vs = Ok bs ->
  room (1 + 64 * len (indexes_on_table (rel_id r) (working_catalog t))) t ->
  ok_or_user_st (insert_transaction r vs bs (indexes_on_table (rel_id r) (working_catalog t)) t) (fun _ t' =>
    exists T'' X', transaction_rep t' T T'' ks /\ sql_db (working_catalog t') (view t') T'' X'
      /\ is_table (working_catalog t) (rel_id r) r /\ one_more_row r vs T' T''
      /\ schema (working_catalog t') = schema (working_catalog t)).
Proof.
  intros Ht Hdb Hrel Hvs Henc Hroom. unfold insert_transaction. set (xs := indexes_on_table _ _) in *.
  pose proof (hd_wf _ _ _ (tr_db _ _ _ _ Ht)) as Hwf.
  destruct (decide (rel_kind r = Table)) as [Hk|Hk].
  2: { unfold bind_st. by rewrite (tx_insert_row_not_table t T T' ks _ r bs Ht Hrel Hk). }
  assert (Hr : is_table (working_catalog t) (rel_id r) r) by done.
  assert (Hroom0 : addressable (next_page_id (working_catalog t))) by (unfold room, addressable in *; lia).
  pose proof (tx_insert_row_spec t T T' ks (rel_id r) r bs Ht Hr Hroom0) as Hins.
  unfold bind_st. destruct (insert_row (rel_id r) bs t) as [[rid|[]|] t1]; try done.
  destruct Hins as (tb & Ht1 & Htb & Hfresh & Honly).
  set (row := mkHeapRow rid bs) in *.
  assert (Hrow : row_typed (row_id row) /\ len (Heap.row_bytes row) <= USIZE_MAX).
  { destruct (table_in_relation (working_catalog t1) (hd_wf _ _ _ (tr_db _ _ _ _ Ht1)) (rel_id r) (columns r)) as (r1 & Hr1 & _).
    - rewrite (ot_schema _ _ _ Honly). by apply is_table_in.
    - apply (heap_db_row_typed _ _ _ _ r1 row (tr_db _ _ _ _ Ht1) Hr1). unfold set_table. rewrite decide_True by done.
      rewrite Htb. by left. }
  destruct Hrow as [Hrow Hlen]. destruct (encoded_row_ok (columns r) vs bs row Henc Hlen Hvs eq_refl) as [Hok Hval].
  rewrite <- Hval. eapply ok_mono.
  - apply (insert_indexes_run T (set_table (rel_id r) tb T') ks (schema (working_catalog t)) r row xs t1 X); try done.
    + split; [done|apply Honly|]. by apply (index_set_row t t1 T T' ks (rel_id r) r X Ht Hr Honly), Hdb.
    + by apply indexes_column_all.
    + by apply indexes_distinct.
    + apply (room_after 1 _ t); [done|]. apply Honly.
  - intros [] t2 (X' & [Ht2 Hsch HX'] & Hind). exists (set_table (rel_id r) tb T'), X'. split_and!; try done.
    + by apply (sql_db_row (working_catalog t) (view t) T' X _ _ r row tb X').
    + by exists row, tb.
Qed.

(** ** CREATE INDEX *)

Lemma sql_tx_read t t' T T' ks sch X :
  sql_tx t T T' ks sch X -> same_transaction t t' -> ready t' -> (forall i, view t' i = view t i) ->
  sql_tx t' T T' ks sch X.
Proof.
  intros [Ht Hsch HX] Hsame Hr Hv. pose proof (st_catalog _ _ Hsame) as Hcat. split; [|by rewrite Hcat|].
  - apply (transaction_rep_same t t' T T' T' ks Ht Hsame Hr); rewrite Hcat.
    + apply (heap_db_view _ (view t)); [auto|]. apply Ht.
    + apply (stored_catalog_ext (view t)); [auto|]. apply Ht.
  - rewrite Hcat. by apply (index_set_ext _ (view t)).
Qed.

Lemma tx_full_scan_run t T T' ks sch X id r :
  sql_tx t T T' ks sch X -> is_table (working_catalog t) id r ->
  exists t', full_scan id t = (Ok (table_rows (T' id)), t') /\ sql_tx t' T T' ks sch X
    /\ working_catalog t' = working_catalog t.
Proof.
  intros Ht Hr. pose proof (sx_rep _ _ _ _ _ _ Ht) as Hrep.
  destruct (is_table_rep _ _ _ _ _ (tr_db _ _ _ _ Hrep) Hr) as (ps & _ & Hps & _ & _ & _ & Htab). rewrite <- Hps in Htab.
  unfold full_scan. rewrite (tx_on_table t id r) by (apply (tr_state _ _ _ _ Hrep) || done).
  destruct (scan_pages_spec _ _ [] t (tr_ready _ _ _ _ Hrep) Htab) as (t' & -> & Hready & Hv & Hsame).
  exists t'. split_and!; [done| |apply Hsame]. by apply (sql_tx_read t).
Qed.

Lemma index_existing_row_run t T T' ks sch X r j d idx tab col row :
  sql_tx t T T' ks sch X -> index_in sch idx tab col -> columns r !! j = Some d ->
  row_ok (columns r) row -> row_typed (row_id row) -> room 64 t ->
  ok_or_user_st (index_existing_row r j idx row t) (fun _ t' =>
    entries_added idx (option_list (entry_of j row)) 64 t t' T T' ks sch X).
Proof.
  intros Ht Hidx Hj [Hdec Hvs] Hrow Hroom. unfold index_existing_row. apply (ok_lift _ _ _ _ _ Hdec).
  apply (ok_lift _ tt).
  { unfold validate_row_width. pose proof (Forall2_length _ _ _ Hvs) as Hl. rewrite Hl, N.eqb_refl. done. }
  destruct (Forall2_lookup_l _ _ _ _ _ Hvs Hj) as (v & Hv & _ & Hty).
  apply (ok_lift _ v); [by rewrite Hv|]. by apply (insert_key_run t T T' ks sch X idx tab col).
Qed.

(** The invariant with the new index. *)
Lemma sql_db_index c v T X c' v' r idx name col cols j d es X0 X' :
  catalog_wf c -> is_table c (rel_id r) r -> sql_db c v T X ->
  schema c' = schema c ++ [(idx, name, Index, cols, Some (rel_id r, col))] -> idx = next_relation_id c ->
  columns r !! j = Some d -> col_name d = col -> indexable d = true ->
  more_entries idx es (set_index idx (X0, []) X) X' -> es ≡ₚ entries_of j (table_rows (T (rel_id r))) ->
  index_set c' v' X' -> sql_db c' v' T X'.
Proof.
  intros Hwf Hr [_ HT HE] Hsch Hid Hj Hd Hty [Hnew Hold] Hes HX'.
  assert (Htab : forall id cs, table_in (schema c') id cs -> table_in (schema c) id cs).
  { intros id cs [n Hin]. exists n. rewrite Hsch in Hin. by apply elem_of_app in Hin as [Hin|Hin%list_elem_of_singleton]. }
  split; [done| |].
  - intros id cs Hcs. by apply HT, Htab.
  - intros i tab col' cs Hi Hcs%Htab. destruct Hi as (n & ics & Hi). rewrite Hsch in Hi.
    apply elem_of_app in Hi as [Hi | [= -> _ _ -> ->]%list_elem_of_singleton].
    + assert (Hidx : index_in (schema c) i tab col') by by exists n, ics.
      destruct (HE i tab col' cs Hidx Hcs) as (j' & d' & ? & ? & ? & He). exists j', d'. split_and!; try done.
      destruct (index_in_relation c Hwf _ _ _ Hidx) as (x & s & Hx & _). apply relation_by_id_Some in Hx as [Hx Hxi].
      pose proof (proj1 (Forall_forall _ _) (wf_id_range _ Hwf) x Hx) as Hlt. cbn beta in Hlt.
      assert (i <> idx) by lia. rewrite Hold, set_index_other by done. exact He.
    + exists j, d. rewrite (table_in_columns c r cs Hwf Hr Hcs). split_and!; try done.
      rewrite Hnew, set_index_same. cbn [snd]. by rewrite app_nil_r.
Qed.

Lemma create_index_transaction_run t T T' ks X r name col j d :
  transaction_rep t T T' ks -> sql_db (working_catalog t) (view t) T' X ->
  relation_by_id (rel_id r) (working_catalog t) = Some r -> string_ok name ->
  resolve_column_index r col = Ok j -> columns r !! j = Some d -> indexable d = true ->
  room 1 t -> (is_table (working_catalog t) (rel_id r) r -> room (1 + 64 * len (table_rows (T' (rel_id r)))) t) ->
  ok_or_user_st (create_index_transaction r name col j t) (fun _ t' =>
    exists X', transaction_rep t' T T' ks /\ sql_db (working_catalog t') (view t') T' X'
      /\ is_table (working_catalog t) (rel_id r) r
      /\ schema (working_catalog t') = schema (working_catalog t)
           ++ [(next_relation_id (working_catalog t), name, Index, [mkColumnDef col "INDEX_KEY"], Some (rel_id r, col))]).
Proof.
  intros Ht Hdb Hrel Hname Hj Hd Hty Hroom Hrooms. unfold create_index_transaction.
  pose proof (hd_wf _ _ _ (tr_db _ _ _ _ Ht)) as Hwf. pose proof (relation_by_id_Some _ _ _ Hrel) as [Hin _].
  destruct (proj1 (Forall_forall _ _) (ct_relations _ (wf_typed _ Hwf)) r Hin) as [Hrid _ _ Hcols].
  destruct (resolve_column_Ok _ _ _ Hj) as (d' & Hd' & Hdn). rewrite Hd in Hd'. injection Hd' as <-.
  destruct (proj1 (Forall_forall _ _) Hcols d (list_elem_of_lookup_2 _ _ _ Hd)) as [Hcol _]. rewrite Hdn in Hcol.
  assert (Hroom0 : addressable (next_page_id (working_catalog t))) by (unfold room, addressable in *; lia).
  eapply ok_bind; [by apply (create_index_ok t T T' ks name (rel_id r) col)|].
  intros [idx root] t1 (Hidx & Hc & Hsch & Hnext & Hoth & r0 & Hr0).
  assert (r0 = r) as -> by (destruct Hr0 as [Hr0 _]; rewrite Hrel in Hr0; by injection Hr0).
  pose proof (proj1 (Forall_forall _ _) (wf_id_range _ Hwf) r Hin) as Hlt. cbn beta in Hlt.
  assert (Hr1 : is_table (working_catalog t1) (rel_id r) r).
  { split; [|apply Hr0]. rewrite Hoth by lia. done. }
  assert (Ht1 : sql_tx t1 T T' ks (schema (working_catalog t1)) (set_index idx ([root], []) X)).
  { split; [apply Hc|done|]. by apply (index_set_create t t1 T T' ks idx name (rel_id r) col [mkColumnDef col "INDEX_KEY"] root X Ht (sd_indexes _ _ _ _ Hdb)). }
  assert (Hidx1 : index_in (schema (working_catalog t1)) idx (rel_id r) col).
  { exists name, [mkColumnDef col "INDEX_KEY"]. rewrite Hsch. apply elem_of_app. right. by left. }
  destruct (tx_full_scan_run t1 T T' ks _ _ (rel_id r) r Ht1 Hr1) as (t2 & Hscan & Ht2 & Hcat2).
  apply (ok_run _ _ _ _ _ _ Hscan).
  assert (Hrows : Forall (row_ok (columns r)) (table_rows (T' (rel_id r)))) by by apply (sd_tables _ _ _ _ Hdb), is_table_in.
  rewrite Forall_forall in Hrows. eapply ok_mono.
  - apply (insert_rows_run _ T T' ks (schema (working_catalog t1)) idx j (table_rows (T' (rel_id r))) t2 (set_index idx ([root], []) X)); [|done|].
    + intros t3 X3 row Hrow Ht3 Hroom3. apply (index_existing_row_run t3 T T' ks _ X3 r j d idx (rel_id r) col); try done; [by apply Hrows|].
      by apply (heap_db_row_typed _ _ T' (rel_id r) r row (tr_db _ _ _ _ Ht)).
    + apply (room_after 1 _ t); [by apply Hrooms|]. unfold page_ids_taken. rewrite Hcat2, Hnext. lia.
  - intros [] t3 (es & Hes & X' & [Ht3 Hsch3 HX'] & Hmore & _). exists X'. split_and!; [done| |done|by rewrite Hsch3, Hsch, Hidx].
    eapply (sql_db_index (working_catalog t) (view t) T' X _ _ r idx name col [mkColumnDef col "INDEX_KEY"] j d es [root] X'); try done.
    by rewrite Hsch3, Hsch.
Qed.
End Writes.
