(* ===== verification/SqlReads.v ===== *)
(** * SqlReads: what queries return *)

From S2P Require Import Prelude Core Bytes Page PageFacts PageOps Vfs VfsFacts PageStore Wal WalFacts WalStream WalTheorems Recovery RecoveryFacts Catalog CatalogFacts CatalogWf CatalogTheorems Heap HeapDb CatalogStore CatalogStoreFacts CatalogStoreTheorems Tx TxFacts TxCommit TxTheorems TxAuto Index IndexFacts IndexTree IndexReads IndexInsert TxIndex TxIndexFacts Double DoubleFacts Extension ExtensionTheorems SqlRow SqlRowTheorems Sql SqlExec SqlDb SqlWrites.

(** ** The meaning of a query *)

(** Does the row pass the predicate? *)
Definition selected (predicate : option (nat * Value)) (vs : list Value) : bool :=
  match predicate with
  | Some (i, literal) => match vs !! i with Some v => sql_values_equal v literal | None => false end
  | None => true
  end.

Definition project {A} (js : list nat) (vs : list A) : list A := omap (fun j => vs !! j) js.

(** The projected values of the rows that pass. *)
Definition answer (predicate : option (nat * Value)) (js : list nat) (rows : list HeapRow) : list (list Value) :=
  (fun row => project js (row_values row)) <$> filter (fun row => selected predicate (row_values row) = true) rows.

Definition column_info (d : ColumnDef) : ColumnInfo := mkColumnInfo (col_name d) (type_name d).

#[export] Instance answer_proper predicate js : Proper ((≡ₚ) ==> (≡ₚ)) (answer predicate js).
Proof. intros rows rows' H. unfold answer. by rewrite H. Qed.

(** ** Filtering and projecting *)

Section Rows.
Context (r : RelationInfo).

Lemma traverse_project {A} (xs : list A) js :
  Forall (fun j => (j < length xs)%nat) js -> traverse (fun i => or_panic (E := DbError) (xs !! i)) js = Ok (project js xs).
Proof using.
  induction 1 as [|j js Hj _ IH]; [done|]. cbn [traverse]. destruct (lookup_lt_is_Some_2 _ _ Hj) as [x Hx].
  rewrite Hx. cbn [or_panic bind_outcome]. rewrite IH. cbn [bind_outcome]. f_equal. unfold project. cbn. by rewrite Hx.
Qed.

Lemma select_row_run predicate js row :
  row_ok (columns r) row -> Forall (fun j => (j < length (columns r))%nat) js ->
  (forall i v, predicate = Some (i, v) -> (i < length (columns r))%nat) ->
  select_row r predicate js row
  = Ok (if selected predicate (row_values row) then Some (project js (row_values row)) else None).
Proof using.
  intros [Hdec Hvs] Hjs Hp. pose proof (Forall2_length _ _ _ Hvs) as Hl. unfold select_row. rewrite Hdec. cbn [bind_outcome].
  unfold validate_row_width. rewrite Hl, N.eqb_refl. cbn [negb bind_outcome].
  rewrite traverse_project by by rewrite <- Hl.
  destruct predicate as [[i v]|]; cbn [bind_outcome selected]; [|done].
  specialize (Hp i v eq_refl). rewrite Hl in Hp. destruct (lookup_lt_is_Some_2 _ _ Hp) as [w Hw]. rewrite Hw.
  cbn [or_panic bind_outcome]. by destruct (sql_values_equal w v).
Qed.

Lemma traverse_select predicate js rows :
  Forall (row_ok (columns r)) rows -> Forall (fun j => (j < length (columns r))%nat) js ->
  (forall i v, predicate = Some (i, v) -> (i < length (columns r))%nat) ->
  exists outputs, traverse (select_row r predicate js) rows = Ok outputs /\ omap id outputs = answer predicate js rows.
Proof using.
  intros Hrows Hjs Hp. induction Hrows as [|row rows Hrow _ (outputs & IH & Hout)]; [by exists []|].
  cbn [traverse]. rewrite (select_row_run predicate js row Hrow Hjs Hp), IH. cbn [bind_outcome]. eexists. split; [done|].
  unfold answer. cbn [omap list_omap id]. rewrite filter_cons.
  destruct (selected predicate (row_values row)) eqn:Hsel; cbn [id].
  - rewrite decide_True by done. cbn. by rewrite Hout.
  - rewrite decide_False by done. exact Hout.
Qed.
End Rows.

(** The headers of the result. *)
Lemma traverse_columns (cols : list ColumnDef) js :
  Forall (fun j => (j < length cols)%nat) js ->
  traverse (fun i => let? c := or_panic (E := DbError) (cols !! i) in Ok (mkColumnInfo (col_name c) (type_name c))) js
  = Ok (column_info <$> project js cols).
Proof.
  induction 1 as [|j js Hj _ IH]; [done|]. cbn [traverse]. destruct (lookup_lt_is_Some_2 _ _ Hj) as [d Hd].
  rewrite Hd. cbn [or_panic bind_outcome]. rewrite IH. cbn [bind_outcome]. unfold project. cbn. by rewrite Hd.
Qed.

(** ** Keys and equality

    For a column whose values have keys, the rows that an index gives are the
    rows that the comparison of the scan lets pass. *)

Lemma indexable_not_double d : indexable d = true -> is_double_type (type_name d) = false.
Proof.
  unfold indexable, is_integer_type, is_text_type, is_double_type. intros H%orb_true_iff.
  apply bool_decide_eq_false. rewrite !elem_of_cons, elem_of_nil.
  destruct H as [H%bool_decide_eq_true | H%bool_decide_eq_true].
  - rewrite !elem_of_cons, elem_of_nil in H. destruct H as [-> | [-> | []]]; by intros [?|[?|[?|[]]]].
  - rewrite H. by intros [?|[?|[?|[]]]].
Qed.

Lemma equal_iff_key d v literal k :
  conforms d v -> indexable d = true -> index_key_from_value literal = Some k ->
  sql_values_equal v literal = true <-> index_key_from_value v = Some k.
Proof.
  intros [Hv _] Hd%indexable_not_double Hk.
  destruct v as [|s|z|b]; destruct literal as [|s'|z'|b']; cbn [sql_values_equal index_key_from_value value_of_type] in *; try done; try congruence; injection Hk as <-;
    rewrite ?Z.eqb_eq, ?bool_decide_eq_true; split; congruence.
Qed.

(** The rows with the key [k] in column [j]. *)
Definition rows_with_key (j : nat) (k : IndexKey) (rows : list HeapRow) : list HeapRow :=
  filter (fun row => key <$> entry_of j row = Some k) rows.

Lemma matches_entries_of j k rows : matches k (entries_of j rows) = row_id <$> rows_with_key j k rows.
Proof.
  induction rows as [|row rows IH]; [done|]. unfold rows_with_key. rewrite entries_of_cons, filter_cons.
  destruct (entry_of j row) as [e|] eqn:He; simpl.
  - rewrite matches_cons. apply entry_of_Some in He as (v & k' & _ & _ & ->). cbn [key entry_row].
    destruct (decide (k' = k)) as [->|Hne].
    + rewrite decide_True by done. cbn [fmap list_fmap]. by rewrite IH.
    + rewrite decide_False by congruence. exact IH.
  - exact IH.
Qed.

Lemma key_of_row_iff cols row j d literal k :
  row_ok cols row -> cols !! j = Some d -> indexable d = true -> index_key_from_value literal = Some k ->
  key <$> entry_of j row = Some k <-> selected (Some (j, literal)) (row_values row) = true.
Proof.
  intros [_ Hvs] Hj Hd Hk. destruct (Forall2_lookup_l _ _ _ _ _ Hvs Hj) as (v & Hv & Hc).
  cbn [selected]. rewrite Hv, (equal_iff_key d v literal k Hc Hd Hk). unfold entry_of. rewrite Hv. cbn.
  destruct (index_key_from_value v); cbn; split; congruence.
Qed.

(** Filtering the rows of the index gives what filtering all rows gives. *)
Lemma answer_with_key cols rows j d literal k js :
  Forall (row_ok cols) rows -> cols !! j = Some d -> indexable d = true -> index_key_from_value literal = Some k ->
  answer (Some (j, literal)) js (rows_with_key j k rows) = answer (Some (j, literal)) js rows.
Proof.
  intros Hrows Hj Hd Hk. unfold answer, rows_with_key. f_equal.
  induction Hrows as [|row rows Hrow _ IH]; [done|]. rewrite !filter_cons.
  pose proof (key_of_row_iff cols row j d literal k Hrow Hj Hd Hk) as Hiff.
  destruct (decide (selected (Some (j, literal)) (row_values row) = true)) as [Hs|Hs].
  - rewrite (decide_True _ _ (proj2 Hiff Hs)), filter_cons, (decide_True _ _ Hs). by rewrite IH.
  - rewrite decide_False by tauto. exact IH.
Qed.

(** ** Reading leaves the store as it was *)

Section Reads.
Context {F : Type} `{VfsLaws F}.
Implicit Types (m : TransactionalStore F).

Record same_view m m' : Prop := {
  sv_catalog : catalog (store m') = catalog (store m);
  sv_view : forall i, view (data m') i = view (data m) i;
  sv_wal : wal m' = wal m;
  sv_next : next_tx_id m' = next_tx_id m;
  sv_active : active_writer m' = active_writer m;
  sv_ready : ready (data m) -> ready (data m')
}.

#[export] Instance same_view_preorder : PreOrder same_view.
Proof using.
  split.
  - by split.
  - intros m m1 m2 [Hc1 Hv1 Hw1 Hn1 Ha1 Hr1] [Hc2 Hv2 Hw2 Hn2 Ha2 Hr2].
    split; [congruence|intros i; by rewrite Hv2, Hv1|congruence..|auto].
Qed.

Lemma same_view_manager m m' : same_manager m m' -> ready (data m') -> same_view m m'.
Proof using. intros [Hc] Hr. split; try done. intros i. by apply view_contents. Qed.

Lemma same_view_file m f :
  ready f -> (forall i, view f i = view (data m) i) -> same_view m (with_store (mkCatalogStore f (catalog (store m))) m).
Proof using. by split. Qed.

Lemma sql_store_same_view m m' T ks : sql_store m T ks -> same_view m m' -> sql_store m' T ks.
Proof using.
  intros [[[Hs Hw [Hids Hval Hcov]] Hi Hh Hset] [X HX]] [Hcat Hv Hwal Hn Ha Hr]. unfold data in *.
  destruct (store m') as [f c] eqn:Es. cbn [catalog CatalogStore.page_file] in *. subst c. split; [split|].
  - split; [|by rewrite Hwal|].
    + rewrite Es. apply store_rep_same_view; [done| |done]. apply Hr, Hs.
    + rewrite Hn. split; [done|done|]. unfold data. rewrite Es. intros i p Hp. cbn [CatalogStore.page_file]. rewrite Hv. by apply Hcov.
  - by rewrite Ha.
  - by rewrite Hwal.
  - done.
  - exists X. unfold data. rewrite Es. by apply (sql_db_ext _ (view (CatalogStore.page_file (store m)))).
Qed.

Lemma committed_scan_run m T ks id r :
  sql_store m T ks -> is_table (catalog (store m)) id r ->
  exists m', committed_scan id m = (Ok (table_rows (T id)), m') /\ same_view m m'.
Proof using.
  intros [[[Hs _ _] _ _] _] Hr. unfold committed_scan, zoom, CatalogStore.full_scan.
  rewrite (on_table _ _ _ _ Hr). unfold CatalogStore.on_file, zoom.
  destruct (is_table_rep _ _ _ _ _ (sr_db _ _ Hs) Hr) as (pages & _ & -> & _ & _ & _ & Hrep).
  destruct (scan_pages_spec _ _ [] _ (sr_ready _ _ Hs) Hrep) as (f' & -> & Hf' & Hv & _).
  eexists. split; [done|]. by apply same_view_file.
Qed.

Lemma committed_scan_not_table m id r :
  relation_by_id id (catalog (store m)) = Some r -> rel_kind r <> Table ->
  committed_scan id m = (Err (not_a_heap_table id), m).
Proof using.
  intros Hr Hk. unfold committed_scan, zoom, CatalogStore.full_scan, bind_st, CatalogStore.ask_catalog, CatalogStore.ensure_heap_relation.
  rewrite Hr. cbn [ok_or bind_outcome]. rewrite bool_decide_false by done. cbn [negb]. by destruct m as [[] ].
Qed.

(** Reading the row that a row id of the table names. *)
Lemma committed_row_run m T ks id r row :
  sql_store m T ks -> is_table (catalog (store m)) id r -> row ∈ table_rows (T id) ->
  exists m', committed_row id (row_id row) m = (Ok (Some row), m') /\ same_view m m'.
Proof using.
  intros [[[Hs _ _] _ _] _] Hr Hrow. unfold committed_row, zoom, CatalogStore.read_row. rewrite (on_table _ _ _ _ Hr).
  destruct (is_table_rep _ _ _ _ _ (sr_db _ _ Hs) Hr) as (pages & _ & -> & Hnd & _ & _ & Hids & Hall).
  rewrite <- Hids in *. pose proof (table_rows_id _ _ Hrow) as Hin. rewrite bool_decide_true by done. cbn [negb].
  destruct row as [[i slot] d]. cbn [row_id page_id] in *. apply list_elem_of_fmap in Hin as ([i' a] & -> & Hin). cbn [fst] in *.
  rewrite Forall_forall in Hall. pose proof (Hall _ Hin) as Hp.
  destruct (read_heap_row_spec (page_file (store m)) (mkRowId i' slot) a (sr_ready _ _ Hs) Hp) as (f' & Hrun & Hf' & Hv & _).
  apply (table_rows_lookup _ i' a slot d Hnd Hin) in Hrow.
  unfold CatalogStore.on_file, zoom. rewrite Hrun. unfold a_read. cbn [slot_id]. rewrite Hrow. cbn [bind_outcome].
  eexists. split; [done|]. by apply same_view_file.
Qed.

Lemma read_rows_run T ks id r rows : forall m,
  sql_store m T ks -> is_table (catalog (store m)) id r -> (forall row, row ∈ rows -> row ∈ table_rows (T id)) ->
  exists m', read_rows id (row_id <$> rows) m = (Ok rows, m') /\ same_view m m'.
Proof using.
  induction rows as [|row rows IH]; intros m Hm Hr Hrows; [by exists m|]. cbn [fmap list_fmap read_rows].
  destruct (committed_row_run m T ks id r row Hm Hr) as (m1 & Hrun1 & Hv1); [apply Hrows; by left|].
  rewrite (bind_st_run _ _ _ _ _ Hrun1). cbn beta.
  destruct (IH m1) as (m2 & Hrun2 & Hv2).
  - by apply (sql_store_same_view m).
  - by rewrite (sv_catalog _ _ Hv1).
  - intros row' Hin. apply Hrows. by right.
  - fold (fmap row_id rows). rewrite (bind_st_run _ _ _ _ _ Hrun2). exists m2. split; [done|]. by etrans.
Qed.

(** ** The candidates *)

Lemma find_index_Some tab column c x :
  catalog_wf c -> find_index_on_column tab column c = Some x ->
  x ∈ relations c /\ exists s, Catalog.storage x = BPlusTree s /\ table_id s = tab /\ column_name s = column.
Proof using.
  intros Hwf. unfold find_index_on_column. destruct (find_first _ _) as [[i y]|] eqn:Hf; [|done]. intros [= ->].
  apply find_first_Some in Hf as [Hi Hcol]. apply list_elem_of_lookup_2, indexes_on_table_spec in Hi as [Hx (s & Hs & Hid)]; [|done].
  split; [done|]. exists s. unfold index_storage in Hcol. rewrite Hs in Hcol. cbn in Hcol. by apply bool_decide_eq_true in Hcol.
Qed.

(** An index is on no index. *)
Lemma find_index_not_table column c x :
  catalog_wf c -> x ∈ relations c -> rel_kind x <> Table -> find_index_on_column (rel_id x) column c = None.
Proof using.
  intros Hwf Hx Hk. destruct (find_index_on_column _ _ _) as [y|] eqn:Hf; [|done].
  apply find_index_Some in Hf as (Hy & s & Hs & Hid & _); [|done].
  destruct (index_table c Hwf _ _ _ (relation_index_in c Hwf y s Hy Hs)) as (r & [Hr Hkr] & _).
  rewrite Hid, (relation_found c x Hwf Hx) in Hr. injection Hr as <-. done.
Qed.

Lemma candidate_rows_run m T ks r selection predicate :
  sql_store m T ks -> is_table (catalog (store m)) (rel_id r) r -> resolve_selection r selection = Ok predicate ->
  exists rows m', candidate_rows r selection m = (Ok rows, m') /\ same_view m m'
    /\ Forall (row_ok (columns r)) rows
    /\ forall js, answer predicate js rows ≡ₚ answer predicate js (table_rows (T (rel_id r))).
Proof using.
  intros Hm Hr Hsel. pose proof Hm as [[[Hs _ _] _ _] [X HX]]. pose proof (hd_wf _ _ _ (sr_db _ _ Hs)) as Hwf.
  pose proof (sd_tables _ _ _ _ HX _ _ (is_table_in _ Hwf _ _ Hr)) as Hrows.
  assert (Hscan : exists rows m', committed_scan (rel_id r) m = (Ok rows, m') /\ same_view m m'
    /\ Forall (row_ok (columns r)) rows
    /\ forall js, answer predicate js rows ≡ₚ answer predicate js (table_rows (T (rel_id r)))).
  { destruct (committed_scan_run m T ks _ r Hm Hr) as (m' & Hrun & Hv). by exists (table_rows (T (rel_id r))), m'. }
  unfold candidate_rows. destruct selection as [s|]; [|exact Hscan].
  cbn [resolve_selection] in Hsel. destruct (resolve_column_index r (sel_column s)) as [j| |] eqn:Hj; try done.
  injection Hsel as <-. unfold bind_st at 1, ask_catalog. cbn [fst].
  destruct (find_index_on_column _ _ _) as [x|] eqn:Hx; [|exact Hscan].
  destruct (index_key_from_value (sel_value s)) as [k|] eqn:Hk; [|exact Hscan].
  apply (find_index_Some _ _ _ _ Hwf) in Hx as (Hx & st & Hst & Htab & Hcol).
  pose proof (relation_index_in _ Hwf x st Hx Hst) as Hidx. rewrite Htab, Hcol in Hidx.
  destruct (sd_entries _ _ _ _ HX _ _ _ _ Hidx (is_table_in _ Hwf _ _ Hr)) as (j' & d & Hj' & Hd & Hty & Hes).
  assert (j' = j) as ->.
  { pose proof (resolve_column_at r j' d (table_columns_distinct _ _ _ Hwf Hr) Hj') as Hat. rewrite Hd, Hj in Hat. by injection Hat. }
  destruct (lookup_index_run m (rel_id x) _ _ k (sr_ready _ _ Hs) (is_rep _ _ _ (sd_indexes _ _ _ _ HX) _ _ _ Hidx))
    as (m1 & Hrun1 & Hsame & Hready). pose proof (same_view_manager _ _ Hsame Hready) as Hv1.
  rewrite (bind_st_run _ _ _ _ _ Hrun1).
  pose proof (matches_perm k _ _ Hes) as Hm1. rewrite matches_entries_of in Hm1.
  apply Permutation_map_inv in Hm1 as (rows & Hids & Hperm). change (map row_id rows) with (row_id <$> rows) in Hids. rewrite Hids.
  assert (Hsub : forall row, row ∈ rows -> row ∈ table_rows (T (rel_id r))).
  { intros row Hin. rewrite <- Hperm in Hin. by apply list_elem_of_filter in Hin as [_ Hin]. }
  destruct (read_rows_run T ks (rel_id r) r rows m1) as (m2 & Hrun2 & Hv2).
  - by apply (sql_store_same_view m).
  - by rewrite (sv_catalog _ _ Hv1).
  - exact Hsub.
  - exists rows, m2. split_and!; [done|by etrans| |].
    + apply Forall_forall. intros row Hin. by apply (proj1 (Forall_forall _ _) Hrows), Hsub.
    + intros js. rewrite <- Hperm. by rewrite (answer_with_key (columns r) _ j d).
Qed.

(** ** SELECT *)

(** The names of a query, resolved. *)
Definition resolve_query (projection : Projection) (table : string) (selection : option Selection) (c : Catalog)
  : DbResult (RelationInfo * list nat * option (nat * Value)) :=
  let? r := lookup_relation table c in
  let? js := resolve_projection r projection in
  let? predicate := resolve_selection r selection in
  Ok (r, js, predicate).

Lemma resolve_projection_bound r projection js :
  resolve_projection r projection = Ok js -> Forall (fun j => (j < length (columns r))%nat) js.
Proof using.
  destruct projection as [|cs]; cbn [resolve_projection].
  - intros [= <-]. apply Forall_forall. intros j Hj%elem_of_seq. lia.
  - intros Hall%traverse_Forall2. induction Hall as [|name j names js Hj _ IH]; constructor; [|done].
    apply resolve_column_Ok in Hj as (d & Hd & _). by apply lookup_lt_Some in Hd.
Qed.

Lemma resolve_projection_ok_or_user r projection : ok_or_user (resolve_projection r projection).
Proof using.
  destruct projection as [|cs]; cbn [resolve_projection]; [done|]. induction cs as [|name cs IH]; [done|]. cbn [traverse].
  pose proof (resolve_column_ok_or_user r name) as Hu. destruct (resolve_column_index r name) as [j|[]|]; try done.
  cbn [bind_outcome]. by destruct (traverse _ cs) as [js|[]|].
Qed.

Lemma resolve_selection_bound r selection predicate i v :
  resolve_selection r selection = Ok predicate -> predicate = Some (i, v) -> (i < length (columns r))%nat.
Proof using.
  intros Hs ->. destruct selection as [s|]; cbn [resolve_selection] in Hs; [|done].
  destruct (resolve_column_index r (sel_column s)) as [j| |] eqn:Hj; try done. injection Hs as -> <-.
  apply resolve_column_Ok in Hj as (d & Hd & _). by apply lookup_lt_Some in Hd.
Qed.

Lemma resolve_selection_ok_or_user r selection : ok_or_user (resolve_selection r selection).
Proof using.
  destruct selection as [s|]; cbn [resolve_selection]; [|done]. pose proof (resolve_column_ok_or_user r (sel_column s)) as Hc.
  by destruct (resolve_column_index r (sel_column s)) as [|[]|].
Qed.

Lemma execute_select_run m T ks projection table selection :
  sql_store m T ks ->
  match resolve_query projection table selection (catalog (store m)) with
  | Ok (r, js, predicate) =>
      if is_heap_table r
      then exists rows m', execute_select projection table selection m
             = (Ok (Query (column_info <$> project js (columns r)) rows), m')
           /\ rows ≡ₚ answer predicate js (table_rows (T (rel_id r))) /\ same_view m m'
      else execute_select projection table selection m = (Err (not_a_heap_table (rel_id r)), m)
  | Err e => is_user e = true /\ execute_select projection table selection m = (Err e, m)
  | Panic => False
  end.
Proof using.
  intros Hm. pose proof Hm as [[[Hs _ _] _ _] _]. pose proof (hd_wf _ _ _ (sr_db _ _ Hs)) as Hwf.
  unfold resolve_query, execute_select.
  assert (Hask : ask_catalog (lookup_relation table) m = (lookup_relation table (catalog (store m)), m)) by done.
  destruct (lookup_relation table (catalog (store m))) as [r|e|] eqn:Hr; cbn [bind_outcome].
  2,3: unfold lookup_relation in Hr; destruct (relation_by_name table _); [done|].
  2: { rewrite (bind_st_err _ _ _ _ _ Hask). by injection Hr as <-. }
  2: done.
  apply lookup_relation_Ok in Hr as Hname.
  rewrite (bind_st_run _ _ _ _ _ Hask). clear Hask.
  pose proof (resolve_projection_ok_or_user r projection) as Hu.
  destruct (resolve_projection r projection) as [js|[]|] eqn:Hjs; try done; cbn [bind_outcome].
  rewrite (bind_st_run (lift (Ok js)) _ m js m eq_refl). pose proof (resolve_selection_bound r selection) as Hb.
  pose proof (resolve_selection_ok_or_user r selection) as Hu2.
  destruct (resolve_selection r selection) as [predicate|[]|] eqn:Hsel; try done; cbn [bind_outcome].
  rewrite (bind_st_run (lift (Ok predicate)) _ m predicate m eq_refl).
  unfold is_heap_table. destruct (named_relation table _ r Hwf Hname) as [Htab|[Hk Hid]]; case_bool_decide as Hkind; try (by destruct Htab); try done.
  - destruct (candidate_rows_run m T ks r selection predicate Hm Htab Hsel) as (rows & m' & Hrun & Hv & Hrows & Hans).
    rewrite (bind_st_run _ _ _ _ _ Hrun).
    destruct (traverse_select r predicate js rows Hrows (resolve_projection_bound _ _ _ Hjs)) as (outputs & Htr & Hout).
    { intros i v. by apply Hb. }
    rewrite (bind_st_run _ _ m' outputs m') by by unfold lift; rewrite Htr.
    exists (answer predicate js rows), m'. split; [|split; [apply Hans|done]].
    unfold bind_st, lift. rewrite (traverse_columns (columns r) js) by by apply (resolve_projection_bound _ projection).
    by rewrite Hout.
  - assert (Hcand : candidate_rows r selection m = (Err (not_a_heap_table (rel_id r)), m)).
    { unfold candidate_rows. pose proof (committed_scan_not_table m _ r Hid Hk) as Hscan. destruct selection as [s|]; [|done].
      unfold bind_st at 1, ask_catalog. cbn [fst]. rewrite find_index_not_table; [done|done| |done].
      by apply relation_by_name_Some in Hname as [? _]. }
    by rewrite (bind_st_err _ _ _ _ _ Hcand).
Qed.
End Reads.
