(* ===== verification/SqlStatements.v ===== *)
(** * SqlStatements: the statements against an idle store *)

From S2P Require Import Prelude Core Bytes Page PageFacts PageOps Vfs VfsFacts PageStore Wal WalFacts WalStream WalTheorems Recovery RecoveryFacts Catalog CatalogFacts CatalogWf CatalogTheorems Heap HeapDb CatalogStore CatalogStoreFacts CatalogStoreTheorems Tx TxFacts TxCommit TxTheorems TxAuto Index IndexFacts IndexTree IndexReads IndexInsert TxIndex TxIndexFacts Double DoubleFacts Extension ExtensionTheorems SqlRow SqlRowTheorems Sql SqlGrammar SqlTheorems SqlRender SqlTyped SqlExec SqlExtensions SqlDb SqlWrites SqlReads.

(** ** Transactions of statements touch no committed state *)

Section Isolation.
Context {F : Type} `{VfsLaws F}.

Lemma isolated_for_each {B} (f : B -> db (Transaction F) unit) xs :
  (forall x, isolated (f x)) -> isolated (for_each f xs).
Proof. intros Hf. induction xs as [|x xs IH]; cbn [for_each]; auto with isolated. Qed.

Lemma isolated_key idx k r :
  isolated (match k with Some k => insert_index_entry (F := F) idx k r | None => ret tt end).
Proof. destruct k; auto with isolated. Qed.
End Isolation.

#[export] Hint Resolve isolated_for_each isolated_key : isolated.

Section IsolatedStatements.
Context {F : Type} `{VfsLaws F}.

Lemma isolated_insert_transaction r vs bs xs : isolated (insert_transaction (F := F) r vs bs xs).
Proof.
  unfold insert_transaction, insert_index_of. auto 10 with isolated.
Qed.

Lemma isolated_create_index_transaction r name col j : isolated (create_index_transaction (F := F) r name col j).
Proof.
  unfold create_index_transaction, index_existing_row. apply isolated_bind; [auto with isolated|].
  intros [idx root]. auto 10 with isolated.
Qed.
End IsolatedStatements.

#[export] Hint Resolve isolated_insert_transaction isolated_create_index_transaction : isolated.

(** ** A transaction of its own *)

Section Auto.
Context {F : Type} `{VfsLaws F}.
Implicit Types (m : TransactionalStore F) (t : Transaction F).

(** The errors that say what is wrong with a statement. *)
Definition refusal (e : DbError) : bool := match e with User _ | Extension _ => true | _ => false end.

(** What a statement leaves: on success the tables [T'] that [Q] relates to the
    result, on a refusal the committed state as it was. *)
Definition statement_outcome {A} (r : DbResult A * TransactionalStore F) m (T : RelationId -> table)
    (Q : A -> (RelationId -> table) -> TransactionalStore F -> Prop) : Prop :=
  match r with
  | (Ok a, m') => exists T' ks', sql_store m' T' ks' /\ Q a T' m'
  | (Err e, m') => refusal e = true /\ same_committed m m' /\ exists ks', sql_store m' T ks'
  | (Panic, _) => False
  end.

(** What [op] does when it is the transaction of a statement on [m]: it ends with
    tables and complete indexes that [Q] relates to its result, or is refused. *)
Record transaction_does {A} (op : db (Transaction F) A) m (T : RelationId -> table)
    (Q : A -> (RelationId -> table) -> Catalog -> Prop) : Prop := {
  td_fits : log_fits op m;
  td_isolated : isolated op;
  td_runs : forall t ks' X, transaction_rep t T T ks' -> working_catalog t = catalog (store m) ->
    sql_db (working_catalog t) (view t) T X ->
    ok_or_user_st (op t) (fun a t' => exists T' X', transaction_rep t' T T' ks'
      /\ sql_db (working_catalog t') (view t') T' X' /\ Q a T' (working_catalog t'))
}.

Lemma autocommit_sql {A} (op : db (Transaction F) A) m T ks Q :
  sql_store m T ks -> transaction_does op m T Q ->
  statement_outcome (autocommit op m) m T (fun a T' m' => Q a T' (catalog (store m'))).
Proof.
  intros [Hidle [X HX]] [Hroom Hiso Hop].
  assert (Hrun : forall t ks', transaction_rep t T T ks' -> working_catalog t = catalog (store m) ->
    (forall i, view t i = view (data m) i) ->
    match op t with
    | (Ok a, t') => exists T', transaction_rep t' T T' ks'
        /\ exists X', sql_db (working_catalog t') (view t') T' X' /\ Q a T' (working_catalog t')
    | (Err (User _), _) => True
    | _ => False
    end).
  { intros t ks' Ht Hcat Hv. pose proof (Hop t ks' X Ht Hcat) as Hrun. rewrite Hcat in Hrun.
    specialize (Hrun (sql_db_ext _ _ _ _ _ Hv HX)). unfold ok_or_user_st in Hrun.
    destruct (op t) as [[a|[]|] t']; try done. destruct Hrun as (T' & X' & ? & ? & ?). exists T'. split; [done|]. by exists X'. }
  pose proof (autocommit_spec op m T ks (fun a t' T' =>
    exists X', sql_db (working_catalog t') (view t') T' X' /\ Q a T' (working_catalog t')) Hidle Hroom Hiso) as Hspec.
  unfold statement_outcome. destruct (autocommit op m) as [[a|e|] m'].
  - destruct Hspec as (t' & T' & ks' & Hm' & (X' & HX' & HQ) & Hcat & Hv); [exact Hrun|].
    exists T', ks'. split; [|by rewrite Hcat]. split; [done|]. exists X'. rewrite Hcat. by apply (sql_db_ext _ (view t')).
  - destruct Hspec as (He & [Hcat Hv] & ks' & Hm'); [exact Hrun|].
    split_and!; [by destruct e|done|]. exists ks'. split; [done|]. exists X. rewrite Hcat. by apply (sql_db_ext _ (view (data m))).
  - by apply Hspec.
Qed.

(** ** Composing outcomes *)

Lemma same_committed_refl m : same_committed m m.
Proof. by split. Qed.

Definition ok_or_refused {A} (r : DbResult A) : Prop :=
  match r with Ok _ => True | Err e => refusal e = true | Panic => False end.

Lemma user_refused {A} (r : DbResult A) : ok_or_user r -> ok_or_refused r.
Proof. by destruct r as [|[]|]. Qed.
Lemma extension_refused {A} (r : DbResult A) : ok_or_extension r -> ok_or_refused r.
Proof. by destruct r as [|[]|]. Qed.

Lemma outcome_lift {A B} (r : DbResult A) (k : A -> db (TransactionalStore F) B) m T ks Q :
  sql_store m T ks -> ok_or_refused r -> (forall a, r = Ok a -> statement_outcome (k a m) m T Q) ->
  statement_outcome (bind_st (lift r) k m) m T Q.
Proof.
  intros Hm Hr Hk. unfold bind_st, lift. destruct r as [a|e|]; [by apply Hk| |done].
  split; [done|]. split; [apply same_committed_refl|]. by exists ks.
Qed.

Lemma outcome_ask {A B} (q : Catalog -> DbResult A) (k : A -> db (TransactionalStore F) B) m T ks Q :
  sql_store m T ks -> ok_or_refused (q (catalog (store m))) ->
  (forall a, q (catalog (store m)) = Ok a -> statement_outcome (k a m) m T Q) ->
  statement_outcome (bind_st (ask_catalog q) k m) m T Q.
Proof. apply (outcome_lift (q (catalog (store m))) k m). Qed.

Lemma outcome_then {A B} (op : db (TransactionalStore F) A) (b : B) m T Q R :
  statement_outcome (op m) m T Q -> (forall a T' m', Q a T' m' -> R b T' m') ->
  statement_outcome ((let! _ := op in ret b) m) m T R.
Proof.
  unfold statement_outcome, bind_st, ret. destruct (op m) as [[a|e|] m']; [|done|done].
  intros (T' & ks' & Hm' & HQ) HR. exists T', ks'. split; [done|]. by apply (HR a).
Qed.

Lemma sql_store_wf m T ks : sql_store m T ks -> catalog_wf (catalog (store m)).
Proof. intros [[[Hs _ _] _ _] _]. apply (hd_wf _ _ _ (sr_db _ _ Hs)). Qed.

(** ** The room a statement needs

    [pages_left n]: the next [n] page ids are addressable. *)

Definition pages_left (n : N) m : Prop := addressable (next_page_id (catalog (store m)) + n).

Definition insert_fits (table : string) (values : list Value) m : Prop :=
  forall r vs bs, let xs := indexes_on_table (rel_id r) (catalog (store m)) in
    relation_by_name table (catalog (store m)) = Some r -> coerce_values (columns r) values = Ok vs ->
    encode_row vs = Ok bs -> log_fits (insert_transaction r vs bs xs) m /\ pages_left (1 + 64 * len xs) m.

Definition create_index_fits (name table column : string) m : Prop :=
  forall r j, relation_by_name table (catalog (store m)) = Some r -> resolve_column_index r column = Ok j ->
    log_fits (create_index_transaction r name column j) m /\ pages_left 1 m
    /\ match (committed_scan (rel_id r) m).1 with Ok rows => pages_left (1 + 64 * len rows) m | _ => True end.

(** ** The statements *)

(** The catalog has the same relations and extensions, or one relation more. *)
Definition same_shape (c c' : Catalog) : Prop := schema c' = schema c /\ extensions c' = extensions c.
Definition one_more_relation (d : rel_desc) (c c' : Catalog) : Prop :=
  schema c' = schema c ++ [d] /\ extensions c' = extensions c.

(** What an extension is in the catalog. *)
Definition extension_of (d : ExtensionDescriptor) : ExtensionInfo :=
  mkExtensionInfo (desc_name d) (desc_abi_version d) (kind_as_str (desc_kind d)).

Lemma ok_unchanged {A} (op : db (Transaction F) A) t Q R :
  unchanged installed op -> ok_or_user_st (op t) Q ->
  (forall a t', Q a t' -> extensions (working_catalog t') = extensions (working_catalog t) -> R a t') ->
  ok_or_user_st (op t) R.
Proof.
  intros Hu Hq HR. specialize (Hu t). unfold ok_or_user_st, installed in *. destruct (op t) as [[a|[]|] t']; auto.
Qed.

Lemma encode_row_ok_or_user vs : ok_or_user (encode_row vs).
Proof. unfold encode_row. pose proof (only_user_row vs []) as Hu. by destruct (encode_row_to vs []) as [[|[]|] bs]. Qed.

Lemma insert_does table values m T ks r vs bs :
  sql_store m T ks -> Forall value_typed values -> insert_fits table values m ->
  relation_by_name table (catalog (store m)) = Some r -> coerce_values (columns r) values = Ok vs -> encode_row vs = Ok bs ->
  transaction_does (insert_transaction r vs bs (indexes_on_table (rel_id r) (catalog (store m)))) m T
    (fun _ T' c' => same_shape (catalog (store m)) c' /\ rel_kind r = Table /\ one_more_row r vs T T').
Proof.
  intros Hm Hty Hroom Hr Hvs Hbs. pose proof (sql_store_wf m T ks Hm) as Hwf.
  destruct (Hroom r vs bs Hr Hvs Hbs) as [Hlog Hpages]. split; [done|auto with isolated|].
  intros t ks' X Ht Hcat HX. rewrite <- Hcat. eapply ok_unchanged; [apply unchanged_insert_transaction|..].
  - apply (insert_transaction_run t T T ks' X r vs bs Ht HX).
    + rewrite Hcat. apply relation_found; [done|]. by apply relation_by_name_Some in Hr as [? _].
    + by apply (coerce_values_conform _ values).
    + done.
    + unfold room. rewrite Hcat. exact Hpages.
  - intros [] t' (T'' & X' & Ht' & HX' & Htab & Hone & Hsch) Hext. exists T'', X'. split_and!; try done. apply Htab.
Qed.

Lemma execute_insert_run table values m T ks :
  sql_store m T ks -> Forall value_typed values -> insert_fits table values m ->
  statement_outcome (execute_insert table values m) m T (fun res T' m' =>
    res = StatementComplete 1 /\ same_shape (catalog (store m)) (catalog (store m'))
    /\ exists r vs, relation_by_name table (catalog (store m)) = Some r /\ rel_kind r = Table
         /\ coerce_values (columns r) values = Ok vs /\ one_more_row r vs T T').
Proof.
  intros Hm Hty Hroom. unfold execute_insert.
  apply (outcome_ask _ _ _ _ ks); [done|apply user_refused, lookup_relation_ok_or_user|]. intros r Hr%lookup_relation_Ok.
  apply (outcome_lift _ _ _ _ ks); [done|apply user_refused, coerce_values_ok_or_user|]. intros vs Hvs.
  apply (outcome_lift _ _ _ _ ks); [done|apply user_refused, encode_row_ok_or_user|]. intros bs Hbs.
  apply (outcome_ask _ _ _ _ ks); [done|done|]. intros xs [= <-].
  eapply outcome_then; [eapply (autocommit_sql _ m T ks); [done|by apply (insert_does table values m T ks)]|].
  cbn beta. intros [] T' m' (Hsch & Hk & Hone). split_and!; [done|done|]. by exists r, vs.
Qed.

Definition index_desc (c : Catalog) (name : string) (r : RelationInfo) (column : string) : rel_desc :=
  (next_relation_id c, name, Index, [mkColumnDef column "INDEX_KEY"], Some (rel_id r, column)).

(** A relation that is added has a new name. *)
Lemma schema_name_fresh c c' id name k cs s :
  catalog_wf c' -> schema c' = schema c ++ [(id, name, k, cs, s)] -> relation_by_name name c = None.
Proof.
  intros Hwf Hsch. pose proof (wf_names _ Hwf) as Hn. destruct (relation_by_name name c) as [r|] eqn:Hr; [|done].
  apply relation_by_name_Some in Hr as [Hin Hname].
  assert (Hnames : rel_name <$> relations c' = (rel_name <$> relations c) ++ [name]).
  { apply (f_equal (fmap (fun d : rel_desc => d.1.1.1.2))) in Hsch. unfold schema in Hsch.
    rewrite fmap_app, <- !list_fmap_compose in Hsch. exact Hsch. }
  rewrite Hnames in Hn. apply NoDup_app in Hn as (_ & Hd & _). destruct (Hd name).
  - apply list_elem_of_fmap. by exists r.
  - by apply list_elem_of_singleton.
Qed.

Lemma create_index_does name table column m T ks r j d :
  sql_store m T ks -> string_ok name -> create_index_fits name table column m ->
  relation_by_name table (catalog (store m)) = Some r -> resolve_column_index r column = Ok j ->
  columns r !! j = Some d -> indexable d = true ->
  transaction_does (create_index_transaction r name column j) m T (fun _ T' c' => T' = T /\ rel_kind r = Table
    /\ relation_by_name name (catalog (store m)) = None
    /\ one_more_relation (index_desc (catalog (store m)) name r column) (catalog (store m)) c').
Proof.
  intros Hm Hname Hroom Hr Hj Hd Hty. pose proof (sql_store_wf m T ks Hm) as Hwf.
  destruct (Hroom r j Hr Hj) as (Hlog & Hpages & Hrows). split; [done|auto with isolated|].
  intros t ks' X Ht Hcat HX. rewrite <- Hcat. eapply ok_unchanged; [apply unchanged_create_index_transaction|..].
  - apply (create_index_transaction_run t T T ks' X r name column j d Ht HX); try done.
    + rewrite Hcat. apply relation_found; [done|]. by apply relation_by_name_Some in Hr as [? _].
    + unfold room. rewrite Hcat. exact Hpages.
    + rewrite Hcat. intros Htab. unfold room. rewrite Hcat.
      destruct (committed_scan_run m T ks _ r Hm Htab) as (m1 & Hscan & _). by rewrite Hscan in Hrows.
  - intros [] t' (X' & Ht' & HX' & Htab & Hsch) Hext. exists T, X'. do 2 (split; [done|]). split; [done|].
    split; [apply Htab|]. split; [|by split]. apply (schema_name_fresh _ (working_catalog t') _ _ _ _ _ (hd_wf _ _ _ (tr_db _ _ _ _ Ht')) Hsch).
Qed.

Lemma execute_create_index_run name table column m T ks :
  sql_store m T ks -> string_ok name -> create_index_fits name table column m ->
  statement_outcome (execute_create_index name table column m) m T (fun res T' m' =>
    res = StatementComplete 0 /\ T' = T /\ relation_by_name name (catalog (store m)) = None
    /\ exists r j d, relation_by_name table (catalog (store m)) = Some r /\ rel_kind r = Table
         /\ resolve_column_index r column = Ok j /\ columns r !! j = Some d /\ indexable d = true
         /\ one_more_relation (index_desc (catalog (store m)) name r column) (catalog (store m)) (catalog (store m'))).
Proof.
  intros Hm Hname Hroom. unfold execute_create_index.
  apply (outcome_ask _ _ _ _ ks); [done|apply user_refused, lookup_relation_ok_or_user|]. intros r Hr%lookup_relation_Ok.
  apply (outcome_lift _ _ _ _ ks); [done|apply user_refused, resolve_column_ok_or_user|]. intros j Hj.
  destruct (resolve_column_Ok _ _ _ Hj) as (d & Hd & _).
  apply (outcome_lift _ _ _ _ ks); [done|by rewrite Hd|]. rewrite Hd. intros d' [= <-].
  apply (outcome_lift _ _ _ _ ks); [done|unfold ensure_indexable_column; by destruct (_ || _)|]. intros [] Hind.
  assert (Hty : indexable d = true) by (revert Hind; unfold ensure_indexable_column, indexable; by destruct (_ || _)).
  eapply outcome_then; [eapply (autocommit_sql _ m T ks); [done|by apply (create_index_does name table column m T ks r j d)]|].
  cbn beta. intros [] T' m' (-> & Hk & Hnew & Hsch). split_and!; [done|done|done|]. by exists r, j, d.
Qed.

Lemma create_table_run name cols t T T' ks X :
  transaction_rep t T T' ks -> sql_db (working_catalog t) (view t) T' X -> string_ok name -> Forall column_typed cols ->
  room 0 t ->
  ok_or_user_st (create_table name cols t) (fun id t' => exists tb, let T'' := set_table id tb T' in
    transaction_rep t' T T'' ks /\ sql_db (working_catalog t') (view t') T'' X
    /\ relation_by_name name (working_catalog t) = None
    /\ table_rows tb = [] /\ id = next_relation_id (working_catalog t)
    /\ schema (working_catalog t') = schema (working_catalog t) ++ [(id, name, Table, cols, None)]).
Proof.
  intros Ht [HX HT HE] Hname Hcols Hroom. unfold room in Hroom. rewrite N.add_0_r in Hroom.
  pose proof (hd_wf _ _ _ (tr_db _ _ _ _ Ht)) as Hwf.
  pose proof (tx_create_table_spec t T T' ks name cols Ht Hname Hcols Hroom) as Hspec.
  unfold ok_or_user_st. destruct (create_table name cols t) as [[id|[]|] t']; try done.
  destruct Hspec as (p & Hrun & Ht' & Hv). destruct (create_table_metadata_run _ _ _ _ _ _ Hrun) as (Hnew & Hid & Hp & Hc').
  assert (Hsch : schema (working_catalog t') = schema (working_catalog t) ++ [(id, name, Table, cols, None)]).
  { rewrite Hc'. unfold schema. cbn [relations]. by rewrite fmap_app. }
  assert (Hidx : forall i tab col, index_in (schema (working_catalog t')) i tab col -> index_in (schema (working_catalog t)) i tab col).
  { intros i tab col (n & cs & Hin). exists n, cs. rewrite Hsch in Hin. by apply elem_of_app in Hin as [Hin|Hin%list_elem_of_singleton]. }
  assert (Htab : forall i cs, table_in (schema (working_catalog t')) i cs ->
    i = id \/ (i <> id /\ table_in (schema (working_catalog t)) i cs)).
  { intros i cs [n Hin]. rewrite Hsch in Hin. apply elem_of_app in Hin as [Hin | [= -> _ _]%list_elem_of_singleton]; [|by left].
    right. split; [|by exists n]. apply schema_relation in Hin as (r & Hr & [= -> _ _ _ _]).
    pose proof (proj1 (Forall_forall _ _) (wf_id_range _ Hwf) r Hr) as Hlt. cbn beta in Hlt. lia. }
  exists [(p, a_new p Page.Heap)]. split_and!; try done. split.
  - by apply (index_set_new_table (working_catalog t) (view t) _ _ name cols id p).
  - intros i cs [-> | [Hne Hin]]%Htab; unfold set_table; [by rewrite decide_True by done|].
    rewrite decide_False by done. by apply HT.
  - intros i tab col cs Hi%Hidx Hcs. destruct (index_table _ Hwf _ _ _ Hi) as (r & Hr & _).
    pose proof Hr as [Hr' _]. apply relation_by_id_Some in Hr' as [Hin Hrid].
    pose proof (proj1 (Forall_forall _ _) (wf_id_range _ Hwf) r Hin) as Hlt. cbn beta in Hlt.
    apply Htab in Hcs as [Heq | [Hne Hcs]]; [lia|]. unfold set_table. rewrite decide_False by done. by apply HE.
Qed.

Lemma register_extension_run name abi kind t T T' ks X :
  transaction_rep t T T' ks -> sql_db (working_catalog t) (view t) T' X -> string_ok name -> string_ok kind ->
  abi <= U32_MAX ->
  ok_or_user_st (register_extension name abi kind t) (fun _ t' =>
    transaction_rep t' T T' ks /\ sql_db (working_catalog t') (view t') T' X
    /\ schema (working_catalog t') = schema (working_catalog t)
    /\ extensions (working_catalog t') = add_extension (mkExtensionInfo name abi kind) (extensions (working_catalog t))).
Proof.
  intros Ht [HX HT HE] Hname Hkind Habi.
  pose proof (tx_register_extension_spec t T T' ks name abi kind Ht Hname Hkind Habi) as Hspec.
  unfold ok_or_user_st. destruct (register_extension name abi kind t) as [[b|[]|] t']; try done.
  destruct Hspec as (Ht' & Hrel & Hext & Hnext & Hv).
  assert (Hsch : schema (working_catalog t') = schema (working_catalog t)) by (unfold schema; by rewrite Hrel).
  split_and!; [done| |done|done]. split; [|by rewrite Hsch..]. apply (index_set_kept (working_catalog t) (view t)); [|lia| | |done].
  - rewrite Hsch. intros idx tab col Hi. split; [done|]. unfold relation_by_id, find_relation. by rewrite Hrel.
  - intros i Hi _. apply Hv. lia.
  - rewrite Hrel. intros r i Hr Hk Hi. left. by exists r.
Qed.

(** ** Every statement *)

(** The log and the page ids have room for the statement. *)
Definition statement_fits (s : Statement) m : Prop :=
  match s with
  | CreateTable name cols => log_fits (create_table name cols) m /\ pages_left 0 m
  | Insert table values => insert_fits table values m
  | CreateIndex name table column => create_index_fits name table column m
  | LoadExtension name => forall d, builtin_extension_descriptor name = Ok d ->
      log_fits (register_extension (desc_name d) (desc_abi_version d) (kind_as_str (desc_kind d))) m
  | SelectFunction _ _ | Select _ _ _ => True
  end.

(** The registry of the extensions that a catalog lists. *)
Definition catalog_registry (es : list ExtensionInfo) : DbResult ExtensionRegistry :=
  registry_from_installed_extensions ((fun e => (ext_name e, abi_version e, ext_kind e)) <$> es).

(** What a statement that succeeds means: the result and what becomes of the
    tables [T] and of the catalog [c], which is [c'] afterwards. *)
Definition statement_effect (s : Statement) (c : Catalog) (T : RelationId -> table) (res : ExecResult)
    (T' : RelationId -> table) (c' : Catalog) : Prop :=
  match s with
  | CreateTable name cols =>
      res = StatementComplete 0 /\ relation_by_name name c = None
      /\ one_more_relation (next_relation_id c, name, Table, cols, None) c c'
      /\ exists tb, T' = set_table (next_relation_id c) tb T /\ table_rows tb = []
  | Insert name values =>
      res = StatementComplete 1 /\ same_shape c c'
      /\ exists r vs, relation_by_name name c = Some r /\ rel_kind r = Table
           /\ coerce_values (columns r) values = Ok vs /\ one_more_row r vs T T'
  | CreateIndex name table column =>
      res = StatementComplete 0 /\ T' = T /\ relation_by_name name c = None
      /\ exists r j d, relation_by_name table c = Some r /\ rel_kind r = Table
           /\ resolve_column_index r column = Ok j /\ columns r !! j = Some d /\ indexable d = true
           /\ one_more_relation (index_desc c name r column) c c'
  | LoadExtension name =>
      res = StatementComplete 0 /\ T' = T
      /\ exists d, builtin_extension_descriptor name = Ok d
           /\ schema c' = schema c /\ extensions c' = add_extension (extension_of d) (extensions c)
  | SelectFunction name args =>
      T' = T /\ same_shape c c'
      /\ exists registry v f, catalog_registry (extensions c) = Ok registry /\ call_scalar name args registry = Ok v
           /\ scalar_function name registry = Some f /\ value_typed v
           /\ res = Query [mkColumnInfo (fn_name f) (scalar_result_type (return_type f) v)] [[v]]
  | Select projection name selection =>
      T' = T /\ same_shape c c'
      /\ exists r js predicate rows, resolve_query projection name selection c = Ok (r, js, predicate)
           /\ rel_kind r = Table /\ res = Query (column_info <$> project js (columns r)) rows
           /\ rows ≡ₚ answer predicate js (table_rows (T (rel_id r)))
  end.

Lemma outcome_mono {A} (r : DbResult A * TransactionalStore F) m T (Q R : A -> (RelationId -> table) -> TransactionalStore F -> Prop) :
  statement_outcome r m T Q -> (forall a T' m', Q a T' m' -> R a T' m') -> statement_outcome r m T R.
Proof.
  unfold statement_outcome. destruct r as [[a|e|] m']; [|done|done].
  intros (T' & ks' & Hm' & HQ) HR. exists T', ks'. split; [done|]. by apply HR.
Qed.

Lemma create_table_does name cols m T :
  string_ok name -> Forall column_typed cols -> log_fits (create_table name cols) m -> pages_left 0 m ->
  transaction_does (create_table name cols) m T (fun _ T' c' => relation_by_name name (catalog (store m)) = None
    /\ one_more_relation (next_relation_id (catalog (store m)), name, Table, cols, None) (catalog (store m)) c'
    /\ exists tb, T' = set_table (next_relation_id (catalog (store m))) tb T /\ table_rows tb = []).
Proof.
  intros Hname Hcols Hlog Hpages. split; [done|auto with isolated|].
  intros t ks' X Ht Hcat HX. rewrite <- Hcat. eapply ok_unchanged; [apply unchanged_create_table_transaction|..].
  - apply (create_table_run name cols t T T ks' X Ht HX); try done. unfold room. by rewrite Hcat.
  - intros id t' (tb & Ht' & HX' & Hnew & Htb & -> & Hsch) Hext. eexists _, X. split_and!; try done. by exists tb.
Qed.

Lemma execute_create_table_run name cols m T ks :
  sql_store m T ks -> string_ok name -> Forall column_typed cols -> log_fits (create_table name cols) m ->
  pages_left 0 m ->
  statement_outcome (execute_statement (CreateTable name cols) m) m T (fun res T' m' =>
    statement_effect (CreateTable name cols) (catalog (store m)) T res T' (catalog (store m'))).
Proof.
  intros Hm Hname Hcols Hlog Hpages. cbn [execute_statement].
  eapply outcome_then; [eapply (autocommit_sql _ m T ks); [done|by apply (create_table_does name cols m T)]|].
  intros id T' m' (Hnew & Hsch & Htb). by split_and!.
Qed.

Lemma load_extension_does name m T d :
  builtin_extension_descriptor name = Ok d ->
  log_fits (register_extension (desc_name d) (desc_abi_version d) (kind_as_str (desc_kind d))) m ->
  transaction_does (register_extension (desc_name d) (desc_abi_version d) (kind_as_str (desc_kind d))) m T
    (fun _ T' c' => T' = T /\ schema c' = schema (catalog (store m))
       /\ extensions c' = add_extension (extension_of d) (extensions (catalog (store m)))).
Proof.
  intros Hd Hlog. split; [done|auto with isolated|]. intros t ks' X Ht Hcat HX. clear Hlog.
  assert (d = STDLIB_EXTENSION) as ->.
  { unfold builtin_extension_descriptor in Hd. case_bool_decide; [by injection Hd as <-|done]. }
  eapply ok_mono; [apply (register_extension_run _ _ _ t T T ks' X Ht HX); done|].
  intros b t' (Ht' & HX' & Hsch & Hext). exists T, X. split_and!; try done; [by rewrite Hsch, Hcat|by rewrite Hext, Hcat].
Qed.

Lemma execute_load_extension_run name m T ks :
  sql_store m T ks ->
  (forall d, builtin_extension_descriptor name = Ok d ->
     log_fits (register_extension (desc_name d) (desc_abi_version d) (kind_as_str (desc_kind d))) m) ->
  statement_outcome (execute_load_extension name m) m T (fun res T' m' =>
    statement_effect (LoadExtension name) (catalog (store m)) T res T' (catalog (store m'))).
Proof.
  intros Hm Hlog. unfold execute_load_extension.
  apply (outcome_lift _ _ _ _ ks); [done|apply extension_refused, builtin_ok_or_extension|]. intros d Hd.
  eapply outcome_then; [eapply (autocommit_sql _ m T ks); [done|by apply (load_extension_does name), Hlog]|].
  intros b T' m' (-> & Hsch & Hext). split_and!; [done|done|]. by exists d.
Qed.

Lemma execute_select_function_run name args m T ks :
  sql_store m T ks -> Forall value_typed args ->
  statement_outcome (execute_select_function name args m) m T (fun res T' m' =>
    statement_effect (SelectFunction name args) (catalog (store m)) T res T' (catalog (store m'))).
Proof.
  intros Hm Hargs. unfold execute_select_function.
  apply (outcome_ask _ _ _ _ ks); [done|apply extension_refused, registry_ok_or_extension|]. intros registry Hreg.
  pose proof (builtin_call_ok registry name args (installed_registry_builtin _ _ Hreg) Hargs) as Hcall.
  apply (outcome_lift _ _ _ _ ks); [done|apply user_refused; by destruct (call_scalar name args registry) as [|[]|]|].
  intros v Hv. rewrite Hv in Hcall.
  assert (Hf : exists f, scalar_function name registry = Some f).
  { unfold call_scalar in Hv. destruct (scalar_function name registry) as [f|]; [by exists f|done]. }
  destruct Hf as [f Hf]. apply (outcome_lift _ _ _ _ ks); [done|by rewrite Hf|]. rewrite Hf. intros f' [= <-].
  exists T, ks. split; [done|]. split_and!; [done|done|]. exists registry, v, f. by split_and!.
Qed.

Lemma execute_statement_run s m T ks :
  sql_store m T ks -> statement_typed s -> statement_fits s m ->
  statement_outcome (execute_statement s m) m T (fun res T' m' =>
    statement_effect s (catalog (store m)) T res T' (catalog (store m'))).
Proof.
  intros Hm Hty Hfits. destruct s as [name cols|table values|name table column|name|name args|projection table selection];
    cbn [statement_typed statement_fits] in *.
  - destruct Hty, Hfits. by apply (execute_create_table_run name cols m T ks).
  - by apply (execute_insert_run table values m T ks).
  - by apply (execute_create_index_run name table column m T ks).
  - by apply (execute_load_extension_run name m T ks).
  - by apply (execute_select_function_run name args m T ks).
  - pose proof (execute_select_run m T ks projection table selection Hm) as Hrun. cbn [execute_statement statement_effect].
    destruct (resolve_query projection table selection (catalog (store m))) as [[[r js] predicate]|e|]; [| |done].
    + unfold is_heap_table in Hrun. case_bool_decide as Hk.
      * destruct Hrun as (rows & m' & -> & Hrows & Hv). exists T, ks. split; [by apply (sql_store_same_view m)|].
        rewrite (sv_catalog _ _ Hv). split_and!; try done. by exists r, js, predicate, rows.
      * rewrite Hrun. split; [done|]. split; [apply same_committed_refl|]. by exists ks.
    + destruct Hrun as [He ->]. split; [by destruct e|]. split; [apply same_committed_refl|]. by exists ks.
Qed.
End Auto.
