(* ===== verification/SqlSpec.v ===== *)
(** * SqlSpec: a relational database, as a specification

    [database] is what a client sees of the system: named tables with their rows in
    no particular order, the names of the indexes, the installed extensions.
    [sql_run] says what a statement answers on it and what it makes of it, without
    pages, files, a log, transactions, relation ids or index entries.
    [represents c T D] relates it to a catalog and the tables of the data file. *)

From S2P Require Import Prelude Core Bytes Page PageFacts PageOps Vfs VfsFacts PageStore Wal WalFacts WalStream WalTheorems Recovery RecoveryFacts Catalog CatalogFacts CatalogWf CatalogTheorems Heap HeapDb CatalogStore CatalogStoreFacts CatalogStoreTheorems Tx TxFacts TxCommit TxTheorems TxAuto Index IndexFacts IndexTree IndexReads IndexInsert TxIndex TxIndexFacts Double DoubleFacts Extension ExtensionTheorems SqlRow SqlRowTheorems Sql SqlGrammar SqlTheorems SqlRender SqlTyped SqlExec SqlExtensions SqlDb SqlWrites SqlReads SqlStatements.

(** ** Databases *)

Inductive relation : Type :=
| STable (cols : list ColumnDef) (rows : list (list Value))
| SIndex (table column : string).

Record database : Type := mkDatabase { db_relations : gmap string relation; db_extensions : list ExtensionInfo }.

Definition empty_database : database := mkDatabase ∅ [].
Definition with_relation (name : string) (r : relation) (D : database) : database :=
  mkDatabase (<[name := r]> (db_relations D)) (db_extensions D).

(** ** Statements *)

Definition success {E A} (r : outcome E A) : option A := match r with Ok a => Some a | _ => None end.

Definition named_table (name : string) (D : database) : option (list ColumnDef * list (list Value)) :=
  match db_relations D !! name with Some (STable cols rows) => Some (cols, rows) | _ => None end.

Definition column_named (name : string) (cols : list ColumnDef) : option nat :=
  fst <$> list_find (fun d => col_name d = name) cols.

Definition columns_named (p : Projection) (cols : list ColumnDef) : option (list nat) :=
  match p with All => Some (seq 0 (length cols)) | Columns names => mapM (fun name => column_named name cols) names end.

Definition condition (s : option Selection) (cols : list ColumnDef) : option (option (nat * Value)) :=
  match s with
  | Some s => j ← column_named (sel_column s) cols; Some (Some (j, sel_value s))
  | None => Some None
  end.

(** The projected values of the rows that pass. *)
Definition rows_selected (predicate : option (nat * Value)) (js : list nat) (rows : list (list Value)) : list (list Value) :=
  project js <$> filter (fun vs => selected predicate vs = true) rows.

Definition is_index_on (table column : string) (r : relation) : bool :=
  match r with SIndex t c => bool_decide (t = table) && bool_decide (c = column) | _ => false end.

(** There is an index on the column already. *)
Definition indexed_on (table column : string) (D : database) : bool :=
  bool_decide (map_Exists (fun _ r => is_index_on table column r = true) (db_relations D)).

(** What a statement answers, and the database after it; [None] if it is refused. *)
Definition sql_run (s : Statement) (D : database) : option (ExecResult * database) :=
  match s with
  | CreateTable name cols =>
      match db_relations D !! name with
      | None => Some (StatementComplete 0, with_relation name (STable cols []) D)
      | Some _ => None
      end
  | Insert name values =>
      '(cols, rows) ← named_table name D;
      vs ← success (coerce_values cols values);
      Some (StatementComplete 1, with_relation name (STable cols (vs :: rows)) D)
  | CreateIndex name table column =>
      '(cols, rows) ← named_table table D;
      j ← column_named column cols;
      d ← cols !! j;
      match db_relations D !! name with
      | None =>
          if indexable d && negb (indexed_on table column D)
          then Some (StatementComplete 0, with_relation name (SIndex table column) D) else None
      | Some _ => None
      end
  | LoadExtension name =>
      d ← success (builtin_extension_descriptor name);
      Some (StatementComplete 0, mkDatabase (db_relations D) (add_extension (extension_of d) (db_extensions D)))
  | SelectFunction name args =>
      registry ← success (catalog_registry (db_extensions D));
      v ← success (call_scalar name args registry);
      f ← scalar_function name registry;
      Some (Query [mkColumnInfo (fn_name f) (scalar_result_type (return_type f) v)] [[v]], D)
  | Select projection name selection =>
      '(cols, rows) ← named_table name D;
      js ← columns_named projection cols;
      predicate ← condition selection cols;
      Some (Query (column_info <$> project js cols) (rows_selected predicate js rows), D)
  end.

(** A statement that changes nothing. *)
Definition is_query (s : Statement) : bool := match s with SelectFunction _ _ | Select _ _ _ => true | _ => false end.

(** One statement after the other. *)
Fixpoint sql_history (ss : list Statement) (D : database) : option database :=
  match ss with
  | [] => Some D
  | s :: rest => '(_, D') ← sql_run s D; sql_history rest D'
  end.

(** ** Results up to the order of rows *)

#[export] Instance result_equiv : Equiv ExecResult := fun a b =>
  match a, b with
  | Query infos rows, Query infos' rows' => infos = infos' /\ rows ≡ₚ rows'
  | a, b => a = b
  end.

#[export] Instance result_equivalence : Equivalence (≡@{ExecResult}).
Proof.
  split.
  - intros []; cbn; done.
  - intros [] []; unfold equiv; cbn; try congruence. by intros [-> ->].
  - intros [] [] []; unfold equiv; cbn; try congruence. by intros [-> ->] [-> ->].
Qed.

#[export] Instance relation_equiv : Equiv relation := fun a b =>
  match a, b with
  | STable cols rows, STable cols' rows' => cols = cols' /\ rows ≡ₚ rows'
  | SIndex t c, SIndex t' c' => t = t' /\ c = c'
  | _, _ => False
  end.

#[export] Instance relation_equivalence : Equivalence (≡@{relation}).
Proof.
  split.
  - intros []; by split.
  - intros [] []; unfold equiv; cbn; try done; by intros [-> ->].
  - intros [] [] []; unfold equiv; cbn; try done; by intros [-> ->] [-> ->].
Qed.

#[export] Instance database_equiv : Equiv database := fun D D' =>
  db_relations D ≡ db_relations D' /\ db_extensions D = db_extensions D'.

#[export] Instance database_equivalence : Equivalence (≡@{database}).
Proof.
  split.
  - intros D. by split.
  - intros D D' [H1 H2]. by split.
  - intros D D' D'' [H1 H2] [H3 H4]. split; [by etransitivity|congruence].
Qed.

#[export] Instance rows_selected_proper predicate js : Proper ((≡ₚ) ==> (≡ₚ)) (rows_selected predicate js).
Proof. intros rows rows' Hr. unfold rows_selected. by rewrite Hr. Qed.

#[export] Instance with_relation_proper name : Proper ((≡) ==> (≡) ==> (≡)) (with_relation name).
Proof. intros r r' Hr D D' [HD HE]. split; [|done]. cbn [db_relations with_relation]. by rewrite Hr, HD. Qed.

Lemma named_table_equiv name D D' :
  D ≡ D' ->
  match named_table name D, named_table name D' with
  | Some (cols, rows), Some (cols', rows') => cols = cols' /\ rows ≡ₚ rows'
  | None, None => True
  | _, _ => False
  end.
Proof.
  intros [HD _]. specialize (HD name). unfold named_table.
  destruct HD as [[cols rows|t c] [cols' rows'|t' c'] Hr|]; try done; by destruct Hr.
Qed.

Lemma indexed_on_equiv table column D D' : D ≡ D' -> indexed_on table column D = indexed_on table column D'.
Proof.
  assert (Himp : forall D D', D ≡ D' -> map_Exists (fun _ r => is_index_on table column r = true) (db_relations D) ->
                   map_Exists (fun _ r => is_index_on table column r = true) (db_relations D')).
  { clear D D'. intros D D' [HD _] (i & r & Hi & Hr). specialize (HD i). rewrite Hi in HD.
    destruct (db_relations D' !! i) as [r'|] eqn:Hi'; inversion HD as [x y Hr' |]; subst. exists i, r'. split; [done|].
    destruct r as [|t c], r' as [|t' c']; try done. destruct Hr' as [-> ->]. done. }
  intros HD. unfold indexed_on. apply bool_decide_ext. split; by apply Himp.
Qed.

(** What a statement does depends on the rows up to their order. *)
#[export] Instance sql_run_proper s : Proper ((≡) ==> (≡)) (sql_run s).
Proof.
  intros D D' HD. pose proof HD as [HR HE]. destruct s as [name cols|name values|name table column|name|name args|projection name selection]; cbn [sql_run].
  - specialize (HR name). destruct HR; constructor. split; [done|]. by apply with_relation_proper.
  - pose proof (named_table_equiv name D D' HD) as Ht. destruct (named_table name D) as [[cols rows]|], (named_table name D') as [[cols' rows']|]; try done.
    destruct Ht as [-> Hrows]. cbn. destruct (success _); cbn; constructor. split; [done|]. apply with_relation_proper; [|done].
    split; [done|]. by constructor.
  - pose proof (named_table_equiv table D D' HD) as Ht. destruct (named_table table D) as [[cols rows]|], (named_table table D') as [[cols' rows']|]; try done.
    destruct Ht as [-> _]. cbn. destruct (column_named _ _); cbn; [|done]. destruct (cols' !! _); cbn; [|done].
    specialize (HR name). destruct HR; [done|]. rewrite (indexed_on_equiv table column D D' HD). destruct (_ && _); constructor.
    split; [done|]. by apply with_relation_proper.
  - destruct (success _); cbn; constructor. split; [done|]. split; [done|]. cbn. by rewrite HE.
  - rewrite HE. destruct (success (catalog_registry _)); cbn; [|done]. destruct (success (call_scalar _ _ _)); cbn; [|done].
    destruct (scalar_function _ _); cbn; by constructor.
  - pose proof (named_table_equiv name D D' HD) as Ht. destruct (named_table name D) as [[cols rows]|], (named_table name D') as [[cols' rows']|]; try done.
    destruct Ht as [-> Hrows]. cbn. destruct (columns_named _ _); cbn; [|done]. destruct (condition _ _); cbn; constructor.
    split; [|done]. split; [done|]. by rewrite Hrows.
Qed.
