(* ===== verification/SqlRefine.v ===== *)
(** * SqlRefine: the catalog and the tables of a store as a database

    [represents c T D]: the catalog [c] and the tables [T] are the database [D] of
    the specification.  Whatever effect a statement has on them, [sql_run] has it
    on [D]. *)

From S2P Require Import Prelude Core Bytes Page PageFacts PageOps Vfs VfsFacts PageStore Wal WalFacts WalStream WalTheorems Recovery RecoveryFacts Catalog CatalogFacts CatalogWf CatalogTheorems Heap HeapDb CatalogStore CatalogStoreFacts CatalogStoreTheorems Tx TxFacts TxCommit TxTheorems TxAuto Index IndexFacts IndexTree IndexReads IndexInsert TxIndex TxIndexFacts Double DoubleFacts Extension ExtensionTheorems SqlRow SqlRowTheorems Sql SqlGrammar SqlTheorems SqlRender SqlTyped SqlExec SqlExtensions SqlDb SqlWrites SqlReads SqlStatements SqlSpec.

(** ** Looking up by name, in the schema *)

Definition desc_id (d : rel_desc) : RelationId := d.1.1.1.1.
Definition desc_rel_name (d : rel_desc) : string := d.1.1.1.2.

Definition desc_named (name : string) (sch : list rel_desc) : option rel_desc :=
  snd <$> find_first (fun d => bool_decide (desc_rel_name d = name)) sch.

Lemma desc_named_schema name c : desc_named name (schema c) = rel_schema <$> relation_by_name name c.
Proof.
  unfold desc_named, relation_by_name, schema. induction (relations c) as [|r rs IH]; [done|].
  cbn [fmap list_fmap find_first]. change (desc_rel_name (rel_schema r)) with (rel_name r). case_bool_decide; [done|].
  fold (fmap (M := list) rel_schema). destruct (find_first _ (rel_schema <$> rs)) as [[]|], (find_first _ rs) as [[]|]; cbn in *; congruence.
Qed.

Lemma desc_named_app name sch d :
  desc_named name (sch ++ [d])
  = match desc_named name sch with
    | Some d' => Some d'
    | None => if bool_decide (desc_rel_name d = name) then Some d else None
    end.
Proof.
  unfold desc_named. induction sch as [|d' sch IH]; cbn [app find_first].
  - cbn. by case_bool_decide.
  - destruct (bool_decide (desc_rel_name d' = name)); [done|]. destruct (find_first _ (sch ++ [d])) as [[]|], (find_first _ sch) as [[]|]; cbn in *; exact IH.
Qed.

Lemma desc_named_Some name sch d : desc_named name sch = Some d -> d ∈ sch /\ desc_rel_name d = name.
Proof.
  unfold desc_named. intros ([i d'] & Hf & ->)%fmap_Some. apply find_first_Some in Hf as [Hi Hn%bool_decide_eq_true].
  split; [by apply list_elem_of_lookup_2 in Hi|done].
Qed.

(** ** The representation *)

Definition shown (sch : list rel_desc) (T : RelationId -> table) (d : option rel_desc) (r : option relation) : Prop :=
  match d, r with
  | None, None => True
  | Some (id, _, Table, cols, _), Some (STable cols' rows) => cols = cols' /\ rows ≡ₚ row_values <$> table_rows (T id)
  | Some (_, _, Index, _, Some (tab, column)), Some (SIndex table column') =>
      column = column' /\ exists d, desc_named table sch = Some d /\ desc_id d = tab
  | _, _ => False
  end.

Record represents (c : Catalog) (T : RelationId -> table) (D : database) : Prop := {
  rp_relations : forall name, shown (schema c) T (desc_named name (schema c)) (db_relations D !! name);
  rp_extensions : db_extensions D = extensions c
}.

#[export] Instance represents_proper c T : Proper ((≡) ==> iff) (represents c T).
Proof.
  assert (Himp : forall D D', D ≡ D' -> represents c T D -> represents c T D').
  { intros D D' [HD HE] [Hr He]. split; [|congruence]. intros name. specialize (Hr name). specialize (HD name).
    destruct HD as [x y Hxy|]; [|done]. destruct (desc_named name (schema c)) as [[[[[id n] []] cols] [[tab col]|]]|]; try done;
      destruct x as [cols1 rows1|t1 c1], y as [cols2 rows2|t2 c2]; try done; destruct Hr as [-> Hr], Hxy as [<- Hxy]; (split; [done|]).
    - by rewrite <- Hxy.
    - by rewrite <- Hxy.
    - by subst. }
  intros D D' HD. split; by apply Himp.
Qed.

Lemma represents_empty : represents empty (fun _ => []) empty_database.
Proof. split; [|done]. intros name. cbn. by rewrite lookup_empty. Qed.

Section Represented.
Context (c : Catalog) (Hwf : catalog_wf c) (T : RelationId -> table) (D : database) (HD : represents c T D).

Lemma represented_fresh name : relation_by_name name c = None -> db_relations D !! name = None.
Proof using HD.
  intros Hn. pose proof (rp_relations _ _ _ HD name) as Hs. rewrite desc_named_schema, Hn in Hs. cbn in Hs.
  by destruct (db_relations D !! name).
Qed.

Lemma represented_table name r :
  relation_by_name name c = Some r -> rel_kind r = Table ->
  exists rows, named_table name D = Some (columns r, rows) /\ rows ≡ₚ row_values <$> table_rows (T (rel_id r)).
Proof using HD.
  intros Hn Hk. pose proof (rp_relations _ _ _ HD name) as Hs. rewrite desc_named_schema, Hn in Hs. cbn in Hs. rewrite Hk in Hs.
  unfold named_table. destruct (db_relations D !! name) as [[cols rows|t col]|]; try done. destruct Hs as [<- Hs]. by exists rows.
Qed.

(** The description of another relation has another id. *)
Lemma desc_ids name name' d d' :
  desc_named name (schema c) = Some d -> desc_named name' (schema c) = Some d' -> desc_id d = desc_id d' -> name = name'.
Proof using Hwf.
  rewrite !desc_named_schema. intros (r & Hr & ->)%fmap_Some (r' & Hr' & ->)%fmap_Some Hid.
  apply relation_by_name_Some in Hr as [Hin <-], Hr' as [Hin' <-]. f_equal.
  apply list_elem_of_lookup in Hin as [i Hi], Hin' as [j Hj].
  assert (i = j) as ->.
  { apply (NoDup_lookup _ _ _ (rel_id r) (wf_ids _ Hwf)); rewrite list_lookup_fmap; [by rewrite Hi|by rewrite Hj; cbn; f_equal]. }
  congruence.
Qed.

Lemma desc_range name d : desc_named name (schema c) = Some d -> desc_id d < next_relation_id c.
Proof using Hwf.
  rewrite desc_named_schema. intros (r & Hr & ->)%fmap_Some. apply relation_by_name_Some in Hr as [Hin _].
  exact (proj1 (Forall_forall _ _) (wf_id_range _ Hwf) r Hin).
Qed.

Lemma represented_same c' : same_shape c c' -> represents c' T D.
Proof using HD. intros [Hs He]. split; [by rewrite Hs; apply HD|]. rewrite He. apply HD. Qed.

(** ** What statements change *)

Lemma represents_insert c' name r rows row tb :
  same_shape c c' -> relation_by_name name c = Some r -> rel_kind r = Table ->
  named_table name D = Some (columns r, rows) -> rows ≡ₚ row_values <$> table_rows (T (rel_id r)) ->
  table_rows tb ≡ₚ row :: table_rows (T (rel_id r)) ->
  represents c' (set_table (rel_id r) tb T) (with_relation name (STable (columns r) (row_values row :: rows)) D).
Proof using Hwf HD.
  intros [Hs He] Hn Hk Ht Hrows Htb. split; [|rewrite He; apply HD]. rewrite Hs. intros name'. cbn [db_relations with_relation].
  pose proof (desc_named_schema name c) as Hd. rewrite Hn in Hd. cbn in Hd. destruct (decide (name = name')) as [<-|Hne].
  - rewrite lookup_insert_eq, Hd. unfold rel_schema. rewrite Hk. cbn [shown]. split; [done|].
    unfold set_table. rewrite decide_True by done. by rewrite Htb, Hrows.
  - rewrite lookup_insert_ne by done. pose proof (rp_relations _ _ _ HD name') as Hs'.
    destruct (desc_named name' (schema c)) as [[[[[id n] []] cols] src]|] eqn:Hd'; [|exact Hs'..].
    unfold shown in *. unfold set_table. rewrite decide_False; [done|]. intros ->. apply Hne. by apply (desc_ids name name' _ _ Hd Hd').
Qed.

Lemma shown_app sch T' d o r : shown sch T' o r -> shown (sch ++ [d]) T' o r.
Proof using.
  unfold shown. destruct o as [[[[[id n] []] cols] [[tab col]|]]|]; try done. destruct r as [[|t col']|]; try done.
  intros [Hc (x & Hx & Hid)]. split; [done|]. exists x. by rewrite desc_named_app, Hx.
Qed.

(** One relation more, with a new name and a new id. *)
Lemma represents_new c' name k cols src T' R :
  one_more_relation (next_relation_id c, name, k, cols, src) c c' -> relation_by_name name c = None ->
  (forall id, id < next_relation_id c -> T' id = T id) ->
  shown (schema c') T' (Some (next_relation_id c, name, k, cols, src)) (Some R) ->
  represents c' T' (with_relation name R D).
Proof using Hwf HD.
  intros [Hs He] Hn HT HR. split; [|rewrite He; apply HD]. intros name'. cbn [db_relations with_relation].
  rewrite Hs at 2. rewrite desc_named_app.
  pose proof (desc_named_schema name c) as Hd. rewrite Hn in Hd. cbn in Hd. unfold desc_rel_name. cbn [fst snd]. destruct (decide (name = name')) as [<-|Hne].
  - rewrite lookup_insert_eq, Hd. by rewrite bool_decide_true.
  - rewrite lookup_insert_ne by done. rewrite bool_decide_false by done. pose proof (rp_relations _ _ _ HD name') as Hs'.
    rewrite Hs. destruct (desc_named name' (schema c)) as [[[[[id n] kd] cs] sr]|] eqn:Hd'; [|done]. apply shown_app.
    unfold shown in *. rewrite HT; [done|]. apply (desc_range name' _ Hd').
Qed.
End Represented.

(** ** Resolving names *)

Lemma find_first_list_find {A} (P : A -> Prop) `{!forall x, Decision (P x)} l :
  find_first (fun x => bool_decide (P x)) l = list_find P l.
Proof.
  induction l as [|x l IH]; [done|]. cbn [find_first list_find]. rewrite IH.
  case_bool_decide as HP; [by rewrite decide_True|]. rewrite decide_False by done. by destruct (list_find P l) as [[]|].
Qed.

Lemma resolve_column_named r column j :
  resolve_column_index r column = Ok j <-> column_named column (columns r) = Some j.
Proof.
  unfold resolve_column_index, column_named. rewrite <- find_first_list_find.
  destruct (fst <$> _); cbn [ok_or]; split; by intros [= ->].
Qed.

Lemma resolve_projection_named r p js : resolve_projection r p = Ok js <-> columns_named p (columns r) = Some js.
Proof.
  destruct p as [|names]; cbn [resolve_projection columns_named]; [split; by intros [= <-]|].
  rewrite traverse_Forall2, mapM_Some. split; intros Hall; (eapply Forall2_impl; [exact Hall|]);
    intros name j Hj; by apply resolve_column_named.
Qed.

Lemma resolve_selection_condition r s predicate :
  resolve_selection r s = Ok predicate <-> condition s (columns r) = Some predicate.
Proof.
  destruct s as [s|]; cbn [resolve_selection condition]; [|split; by intros [= <-]]. split.
  - intros (j & Hj%resolve_column_named & [= <-])%bind_outcome_Ok. by rewrite Hj.
  - intros (j & Hj%resolve_column_named & [= <-])%bind_Some. by rewrite Hj.
Qed.

Lemma resolve_query_named projection name selection c r js predicate :
  resolve_query projection name selection c = Ok (r, js, predicate) <->
  relation_by_name name c = Some r /\ columns_named projection (columns r) = Some js
  /\ condition selection (columns r) = Some predicate.
Proof.
  unfold resolve_query, lookup_relation. split.
  2: { intros (-> & Hjs%resolve_projection_named & Hp%resolve_selection_condition). cbn. rewrite Hjs. cbn. by rewrite Hp. }
  fold (lookup_relation name c). intros (r' & Hr%lookup_relation_Ok & Hq)%bind_outcome_Ok.
  apply bind_outcome_Ok in Hq as (js' & Hjs%resolve_projection_named & Hq).
  apply bind_outcome_Ok in Hq as (p' & Hp%resolve_selection_condition & [= -> -> ->]). done.
Qed.

Lemma answer_rows_selected predicate js rows : answer predicate js rows = rows_selected predicate js (row_values <$> rows).
Proof.
  unfold answer, rows_selected. induction rows as [|row rows IH]; [done|]. rewrite fmap_cons, !filter_cons.
  destruct (decide _); [by rewrite !fmap_cons, IH|exact IH].
Qed.

(** ** Every effect is one of the specification *)

Definition desc_source (d : rel_desc) : option (RelationId * string) := d.2.

Lemma index_keys_schema c : omap index_key (relations c) = omap desc_source (schema c).
Proof.
  unfold schema. induction (relations c) as [|r rs IH]; [done|]. cbn [omap list_omap fmap list_fmap].
  assert (index_key r = desc_source (rel_schema r)) as <- by (unfold index_key, desc_source, rel_schema, index_storage; by destruct (Catalog.storage r)).
  fold (omap (M := list) index_key). fold (omap (M := list) desc_source). fold (fmap (M := list) rel_schema). by rewrite IH.
Qed.

Section Effects.
Context (c : Catalog) (Hwf : catalog_wf c) (T : RelationId -> table) (D : database) (HD : represents c T D).

(** A column of a table has one index at most. *)
Lemma represented_not_indexed c' name table column r :
  catalog_wf c' -> one_more_relation (index_desc c name r column) c c' -> relation_by_name table c = Some r ->
  indexed_on table column D = false.
Proof using HD.
  intros Hwf' [Hs _] Hr. unfold indexed_on. apply bool_decide_eq_false. intros (name' & x & Hx & Hon).
  destruct x as [|t col]; [done|]. cbn [is_index_on] in Hon. apply andb_true_iff in Hon as [->%bool_decide_eq_true ->%bool_decide_eq_true].
  pose proof (rp_relations _ _ _ HD name') as Hs'. rewrite Hx in Hs'.
  destruct (desc_named name' (schema c)) as [[[[[id n] []] cols] [[tab col]|]]|] eqn:Hd; try done.
  destruct Hs' as [-> (d & Hd' & <-)]. rewrite desc_named_schema, Hr in Hd'. injection Hd' as <-.
  apply desc_named_Some in Hd as [Hin _]. pose proof (wf_index_keys _ Hwf') as Hnd.
  rewrite index_keys_schema, Hs, omap_app in Hnd. apply NoDup_app in Hnd as (_ & Hnd & _).
  apply (Hnd (rel_id r, column)).
  - apply list_elem_of_omap. by eexists (_, _, _, _, _).
  - by left.
Qed.

Lemma effect_refines s res T' c' :
  catalog_wf c' -> statement_effect s c T res T' c' ->
  exists res' D', sql_run s D = Some (res', D') /\ res ≡ res' /\ represents c' T' D'.
Proof using Hwf HD.
  intros Hwf' He. destruct s as [name cols|name values|name table column|name|name args|projection name selection]; cbn [statement_effect sql_run] in *.
  - destruct He as (-> & Hn & Hs & tb & -> & Htb). rewrite (represented_fresh c T D HD name Hn).
    eexists _, _. split; [done|]. split; [done|]. eapply (represents_new c Hwf T D HD c'); [exact Hs|done| |].
    + intros id Hid. unfold set_table. rewrite decide_False by lia. done.
    + cbn [shown]. split; [done|]. unfold set_table. rewrite decide_True by done. by rewrite Htb.
  - destruct He as (-> & Hs & r & vs & Hn & Hk & Hvs & row & tb & -> & _ & <- & Htb & _).
    destruct (represented_table c T D HD name r Hn Hk) as (rows & Ht & Hrows). rewrite Ht. cbn. rewrite Hvs. cbn.
    eexists _, _. split; [done|]. split; [done|]. by apply (represents_insert c Hwf T D HD c' name).
  - destruct He as (-> & -> & Hn & r & j & d & Hr & Hk & Hj & Hd & Hind & Hs).
    destruct (represented_table c T D HD table r Hr Hk) as (rows & -> & _). cbn. rewrite (proj1 (resolve_column_named _ _ _) Hj). cbn.
    rewrite Hd. cbn. rewrite (represented_fresh c T D HD name Hn), Hind, (represented_not_indexed c' name table column r Hwf' Hs Hr). cbn.
    eexists _, _. split; [done|]. split; [done|]. eapply (represents_new c Hwf T D HD c'); [exact Hs|done|done|].
    cbn [shown]. split; [done|]. exists (rel_schema r). split; [|done]. destruct Hs as [-> _]. by rewrite desc_named_app, desc_named_schema, Hr.
  - destruct He as (-> & -> & d & -> & Hs & Hext). cbn. eexists _, _. split; [done|]. split; [done|].
    split; [by rewrite Hs; apply HD|]. cbn. by rewrite Hext, (rp_extensions _ _ _ HD).
  - destruct He as (-> & Hs & registry & v & f & Hreg & Hcall & Hf & _ & ->). rewrite (rp_extensions _ _ _ HD), Hreg. cbn.
    rewrite Hcall. cbn. rewrite Hf. cbn. eexists _, _. split; [done|]. split; [done|]. by apply (represented_same c).
  - destruct He as (-> & Hs & r & js & predicate & rows & Hq & Hk & -> & Hrows).
    apply resolve_query_named in Hq as (Hr & Hjs & Hp). destruct (represented_table c T D HD name r Hr Hk) as (rows' & -> & Hrows'). cbn.
    rewrite Hjs. cbn. rewrite Hp. cbn. eexists _, _. split; [done|]. split; [|by apply (represented_same c)].
    split; [done|]. by rewrite Hrows, answer_rows_selected, Hrows'.
Qed.

(** A query that the specification answers is answered. *)
Lemma represented_name name cols rows :
  named_table name D = Some (cols, rows) -> exists r, relation_by_name name c = Some r /\ rel_kind r = Table /\ columns r = cols.
Proof using HD.
  unfold named_table. pose proof (rp_relations _ _ _ HD name) as Hs. destruct (db_relations D !! name) as [[cols' rows'|]|]; try done.
  intros [= -> ->]. rewrite desc_named_schema in Hs. destruct (relation_by_name name c) as [r|]; [|done]. exists r. cbn in Hs.
  destruct (rel_kind r); [by destruct Hs| |done]. by destruct (_ <$> _) as [[]|] in Hs.
Qed.
End Effects.

Section Queries.
Context {F : Type} `{VfsLaws F} `{TokenDebug}.

Lemma query_answered (m : TransactionalStore F) T ks D s e m' :
  sql_store m T ks -> represents (catalog (store m)) T D -> is_query s = true -> execute_statement s m = (Err e, m') ->
  sql_run s D = None.
Proof.
  intros Hm HD Hq Hrun. destruct (sql_run s D) as [[res D']|] eqn:Hs; [exfalso|done].
  destruct s as [| | | |name args|projection name selection]; try done; cbn [sql_run execute_statement] in *.
  - rewrite (rp_extensions _ _ _ HD) in Hs. unfold execute_select_function, bind_st, ask_catalog, lift, ret in Hrun.
    fold (catalog_registry (extensions (catalog (store m)))) in Hrun.
    destruct (catalog_registry _) as [registry| |]; try done. cbn in Hs.
    destruct (call_scalar name args registry) as [v| |]; try done. cbn in Hs.
    by destruct (scalar_function name registry).
  - destruct (named_table name D) as [[cols rows]|] eqn:Ht; [|done]. cbn in Hs.
    apply bind_Some in Hs as (js & Hjs & Hs). apply bind_Some in Hs as (predicate & Hp & _).
    destruct (represented_name _ T D HD name cols rows Ht) as (r & Hr & Hk & <-).
    pose proof (execute_select_run m T ks projection name selection Hm) as Hsel.
    rewrite (proj2 (resolve_query_named _ _ _ _ r js predicate)) in Hsel by done.
    unfold is_heap_table in Hsel. rewrite bool_decide_true in Hsel by done.
    destruct Hsel as (rows' & m1 & Hsel & _). by rewrite Hrun in Hsel.
Qed.
End Queries.
