(* ===== verification/SqlRestart.v ===== *)
(** * SqlRestart: opening a database, and opening it again

    What recovery leaves of the two files of an idle store, and what opening makes
    of files that show its pages. *)

From S2P Require Import Prelude Core Bytes Page PageFacts PageOps Vfs VfsFacts PageStore Wal WalFacts WalStream WalTheorems Recovery RecoveryFacts Catalog CatalogFacts CatalogWf CatalogTheorems Heap HeapDb CatalogStore CatalogStoreFacts CatalogStoreTheorems Tx TxFacts TxCommit TxTheorems TxAuto Index IndexFacts IndexTree IndexReads IndexInsert TxIndex TxIndexFacts Double DoubleFacts Extension ExtensionTheorems SqlRow SqlRowTheorems Sql SqlGrammar SqlTheorems SqlRender SqlTyped SqlExec SqlDb SqlWrites SqlReads SqlStatements.

(** ** Opening *)

Section Start.
Context {F : Type} `{VfsLaws F}.

Lemma wal_writer_open (w : F) ks :
  healthy w -> contents w = stream 0 ks -> Forall kind_ok ks ->
  exists wr, wal_writer_new w = Ok wr /\ wal_rep wr ks /\ healthy (wal_file wr).
Proof.
  intros Hw Hc Hks. unfold wal_writer_new. destruct (file_len w) as [r w'] eqn:Hl.
  apply len_law in Hl as (Hc' & _ & Hh & _ & Hr). rewrite (Hr Hw). eexists. split; [done|]. split; [|auto].
  split; [cbn [wal_file]; congruence| |done]. cbn [allocator]. rewrite Hc. apply len_stream.
Qed.

(** Opening two empty files gives a store without tables and with an empty log. *)
Lemma open_empty_store (d w : F) :
  healthy d -> contents d = [] -> healthy w -> contents w = [] ->
  exists m, open_transactional_store d w = Ok m /\ catalog (store m) = empty /\ sql_store m (fun _ => []) [].
Proof.
  intros Hd Hcd Hw Hcw. destruct (open_empty d Hd Hcd) as (d' & Hopen & Hs).
  destruct (wal_writer_open w [] Hw Hcw ltac:(constructor)) as (wr & Hwr & Hrep & Hh).
  unfold open_transactional_store. rewrite Hopen. cbn [fst bind_outcome]. rewrite Hwr. cbn [bind_outcome].
  eexists. split; [done|]. split; [done|]. split; [split; [split; [done|done|]|done|done|constructor]|].
  - split; [right; constructor|constructor|]. by intros id p.
  - exists (fun _ => ([], [])). split; [split|..].
    + intros idx tab col (n & cs & Hin). by apply not_elem_of_nil in Hin.
    + intros idx tab col idx' tab' col' i (n & cs & Hin). by apply not_elem_of_nil in Hin.
    + intros id cs [n Hin]. by apply not_elem_of_nil in Hin.
    + intros idx tab col cs (n & ics & Hin). by apply not_elem_of_nil in Hin.
Qed.
End Start.

(** ** Restarting *)

Lemma end_of_images (images : list (PageId * list byte)) :
  Forall image_valid images -> end_of (image_write <$> images) <= U64_MAX.
Proof.
  induction 1 as [|[id image] images [(Hs & _) Ha] _ IH]; [cbn; unfold U64_MAX; lia|].
  cbn [fmap list_fmap end_of image_write fst snd] in *. unfold page_sized, addressable in *. cbn [bytes] in Hs.
  case_decide; unfold PAGE_SIZE, U64_MAX in *; fold (fmap (M := list) image_write); lia.
Qed.

Section Restart.
Context {F : Type} `{VfsLaws F}.
Implicit Types (m : TransactionalStore F).

(** What recovery leaves of the files of a store. *)
Lemma recover_store_run m T ks d :
  sql_store m T ks -> files_healthy d ->
  contents (data_file d) = contents (data m) -> contents (log_file d) = contents (wal_file (wal m)) ->
  len (contents (data_file d)) <= U64_MAX -> len (contents (log_file d)) <= U64_MAX ->
  exists report d', recover_page_file d = (Ok report, d') /\ files_healthy d'
    /\ contents (log_file d') = contents (wal_file (wal m))
    /\ ready (data_file d') /\ len (contents (data_file d')) <= U64_MAX
    /\ (forall i, view (data_file d') i = view (data m) i).
Proof.
  intros [[[Hs Hw [_ Hval Hcov]] _ _ _] _] Hh Hcd Hcl Hld Hll.
  destruct (recover_page_file d) as [r d'] eqn:Hrun.
  pose proof (recover_spec d r d' Hll Hrun) as (_ & Hlog & Hh' & _ & Hok & Hsucc & _).
  assert (Hparse : parse_wal (contents (log_file d)) = Ok (records_of 0 ks)).
  { rewrite Hcl, (wal_contents _ _ Hw). apply parse_wal_stream; [apply Hw|].
    rewrite <- (len_stream 0 ks), <- (wal_contents _ _ Hw), <- Hcl. exact Hll. }
  destruct (Hsucc Hh _ Hparse Hval) as [report ->]. destruct (Hok report eq_refl) as (rs & Hrs & Hdata & Hpages & _).
  rewrite Hparse in Hrs. injection Hrs as <-. unfold image_writes in Hdata.
  destruct (sr_ready _ _ Hs) as [Hhd Hal]. rewrite Hcd in Hdata.
  destruct (page_store_images (committed_images (records_of 0 ks)) (contents (data m)) Hal Hpages) as [Hal' Hview].
  exists report, d'. split; [done|]. split; [by apply Hh'|]. split; [by rewrite Hlog|]. split; [|split].
  - split; [by apply Hh'|by rewrite Hdata].
  - rewrite Hdata, len_apply_writes. pose proof (end_of_images _ Hval). rewrite Hcd in Hld. lia.
  - intros i. cbn [view file_access_laws]. rewrite Hdata, Hview. destruct (last_image _ i) as [p|] eqn:Hi; [|done].
    symmetry. by apply Hcov.
Qed.

(** The data file [f] holds the catalog [c] and the tables [T], with complete
    indexes. *)
Record database_on (f : F) (c : Catalog) (T : RelationId -> table) : Prop := {
  do_aligned : aligned (contents f);
  do_heap : heap_db c (view f) T;
  do_saved : stored_catalog (view f) c;
  do_sql : exists X, sql_db c (view f) T X
}.

Lemma database_on_view f f' c T :
  aligned (contents f') -> (forall i, view f' i = view f i) -> database_on f c T -> database_on f' c T.
Proof.
  intros Hal Hv [_ Hh Hs [X HX]]. split; [done| | |].
  - apply (heap_db_view _ (view f)); [|done]. intros i _. apply Hv.
  - apply (stored_catalog_ext (view f)); [by rewrite Hv|done].
  - exists X. by apply (sql_db_ext _ (view f)).
Qed.

Lemma sql_store_database m T ks : sql_store m T ks -> database_on (data m) (catalog (store m)) T.
Proof. intros [[[[[_ Hal] Hdb Hsv] _ _] _ _ _] HX]. by split. Qed.

(** It opens, with the log it is opened with. *)
Lemma open_store_run c T (f w : F) kw :
  database_on f c T -> healthy f -> len (contents f) <= U64_MAX ->
  healthy w -> contents w = stream 0 kw -> Forall kind_ok kw ->
  exists m', open_transactional_store f w = Ok m'
    /\ catalog (store m') = c /\ (forall i, view (data m') i = view f i)
    /\ store_rep (store m') T /\ wal_rep (wal m') kw /\ healthy (wal_file (wal m')) /\ active_writer m' = false.
Proof.
  intros [Hal Hdb Hsv _] Hf Hlen Hhw Hcw Hkw.
  destruct (open_stored f c (conj Hf Hal) Hlen (wf_typed _ (hd_wf _ _ _ Hdb)) Hsv) as (f' & Hopen & Hrf & Hcf).
  destruct (wal_writer_open w kw Hhw Hcw Hkw) as (wr & Hwr & Hrep & Hhr).
  assert (Hvf : forall i, view f' i = view f i) by (intros i; by apply view_contents).
  eexists _. unfold open_transactional_store. rewrite Hopen. cbn [fst bind_outcome].
  rewrite Hwr. cbn [bind_outcome]. split; [done|]. do 2 (split; [done|]). split; [|done].
  split; [done| |].
  - apply (heap_db_view _ (view f)); [|done]. intros i _. apply Hvf.
  - apply (stored_catalog_ext (view f)); [apply Hvf|done].
Qed.

(** On an empty log the store is one a session can go on with. *)
Lemma fresh_log_run c T (f w : F) :
  database_on f c T -> healthy f -> len (contents f) <= U64_MAX -> healthy w -> contents w = [] ->
  exists m', open_transactional_store f w = Ok m' /\ catalog (store m') = c
    /\ (forall i, view (data m') i = view f i) /\ sql_store m' T [].
Proof.
  intros Hdb Hf Hlen Hhw Hcw.
  destruct (open_store_run c T f w [] Hdb Hf Hlen Hhw Hcw (Forall_nil_2 _)) as (m' & Ho & Hcat & Hv & Hs & Hw & Hhl & Hi).
  exists m'. do 3 (split; [done|]). split.
  - split; [|done|done|constructor]. split; [done|done|]. split; [right; constructor|constructor|]. by intros id p.
  - destruct (do_sql _ _ _ Hdb) as [X HX]. exists X. rewrite Hcat. by apply (sql_db_ext _ (view f)).
Qed.

(** The same of another file with the same contents. *)
Lemma fresh_contents_run c T (f w : F) (d : DbFiles F) :
  database_on (data_file d) c T -> healthy f -> contents f = contents (data_file d) -> len (contents f) <= U64_MAX ->
  healthy w -> contents w = [] ->
  exists m', open_transactional_store f w = Ok m' /\ catalog (store m') = c
    /\ (forall i, view (data m') i = view f i) /\ sql_store m' T [].
Proof.
  intros Hdb Hf Hc Hlen. apply fresh_log_run; [|done|done]. apply (database_on_view (data_file d)); [|intros i; by apply view_contents|done].
  rewrite Hc. apply Hdb.
Qed.

(** A log that the next session can keep: a scan finds nothing in it but whole
    transactions.  No record is torn, no image lacks the commit marker of its
    transaction, nothing was rolled back. *)
Record keepable (kw : list WalRecordKind) : Prop := {
  kp_kinds : Forall kind_ok kw;
  kp_settled : settled kw;
  kp_images : Forall image_valid (committed_images (records_of 0 kw))
}.

(** Recovery has written its images, so that the store goes on from it. *)
Lemma kept_log_run c T (d : DbFiles F) c0 kw (f w : F) :
  database_on (data_file d) c T -> recovered c0 (stream 0 kw) d -> stream_len kw <= U64_MAX -> keepable kw ->
  healthy f -> contents f = contents (data_file d) -> len (contents f) <= U64_MAX ->
  healthy w -> contents w = stream 0 kw ->
  exists m', open_transactional_store f w = Ok m' /\ catalog (store m') = c
    /\ (forall i, view (data m') i = view f i) /\ sql_store m' T kw.
Proof.
  intros Hdb Hrec Hl [Hk Hset Hval] Hf Hcf Hlen Hhw Hcw. pose proof (parse_wal_stream kw Hk Hl) as Hparse.
  assert (Hdf : database_on f c T).
  { apply (database_on_view (data_file d)); [rewrite Hcf; apply Hdb|intros i; by apply view_contents|done]. }
  destruct (open_store_run c T f w kw Hdf Hf Hlen Hhw Hcw Hk) as (m' & Ho & Hcat & Hv & Hs & Hw & Hhl & Hi).
  apply recovered_contents in Hrec as [_ Hc]; [|by rewrite len_stream|intros rs Hp; rewrite Hparse in Hp; by injection Hp as <-].
  rewrite Hparse in Hc. exists m'. do 3 (split; [done|]). split.
  - split; [|done|done|done]. split; [done|done|]. split; [by right|done|]. intros i p Hp. rewrite Hv.
    rewrite (view_contents _ _ i Hcf). cbn [view file_access_laws]. rewrite Hc, <- apply_writes_again, <- Hc.
    destruct (page_store_images (committed_images (records_of 0 kw)) _ (do_aligned _ _ _ Hdb)) as [_ Hpages].
    { eapply Forall_impl; [exact Hval|]. by intros [] []. }
    unfold image_writes. by rewrite Hpages, Hp.
  - destruct (do_sql _ _ _ Hdf) as [X HX]. exists X. rewrite Hcat. by apply (sql_db_ext _ (view f)).
Qed.

(** The store is one a session can go on with: on the log it wrote, where
    transaction ids are taken again, and on an empty one. *)
Lemma reopened_run m T ks (f w : F) :
  sql_store m T ks -> ready f -> len (contents f) <= U64_MAX ->
  (forall i, view f i = view (data m) i) -> healthy w ->
  contents w = contents (wal_file (wal m)) \/ contents w = [] ->
  exists m' ks', open_transactional_store f w = Ok m' /\ catalog (store m') = catalog (store m)
    /\ (forall i, view (data m') i = view (data m) i) /\ sql_store m' T ks'.
Proof.
  intros Hm Hready Hlen Hv Hhw Hcw. pose proof (id_rep _ _ _ (ss_idle _ _ _ Hm)) as [_ Hwal [_ Hval Hcov]].
  assert (Hkw : exists kw, contents w = stream 0 kw /\ Forall kind_ok kw /\ settled kw
            /\ Forall image_valid (committed_images (records_of 0 kw))
            /\ forall id p, last_image (committed_images (records_of 0 kw)) id = Some p -> view (data m) id = Some p).
  { destruct Hcw as [Hcw|Hcw]; [exists ks|exists []].
    - split; [by rewrite Hcw, (wal_contents _ _ Hwal)|]. split; [apply Hwal|]. split; [apply Hm|done].
    - split; [done|]. split; [constructor|]. split; [constructor|]. split; [constructor|]. by intros id p. }
  destruct Hkw as (kw & Hc & Hok & Hset & Hval' & Hcov').
  assert (Hdb : database_on f (catalog (store m)) T)
    by (apply (database_on_view (data m)); [apply Hready|done|by apply (sql_store_database m T ks)]).
  destruct (open_store_run _ T f w kw Hdb (proj1 Hready) Hlen Hhw Hc Hok) as (m' & Ho & Hcat & Hv' & Hs & Hw & Hhl & Hi).
  assert (Hv2 : forall i, view (data m') i = view (data m) i) by (intros i; by rewrite Hv').
  exists m', kw. do 3 (split; [done|]). split.
  - split; [|done|done|done]. split; [done|done|]. split; [by right|done|]. intros i p Hp. rewrite Hv2. by apply Hcov'.
  - destruct (ss_db _ _ _ Hm) as [X HX]. exists X. rewrite Hcat. by apply (sql_db_ext _ (view (data m))).
Qed.
End Restart.
