(* ===== verification/SqlQuiet.v ===== *)
(** * SqlQuiet: queries on files that may fail

    On any files, working or not, a query leaves what the two files hold, the
    catalog and the log as they were; and it either fails or gives the answer that
    it gives on working files with the same contents. *)

From S2P Require Import Prelude Core Bytes Page PageFacts PageOps Vfs VfsFacts PageStore Wal Catalog Heap CatalogStore Tx TxFacts Index TxIndex Double Extension SqlRow Sql SqlExec SqlSpec.

(** ** What a read leaves *)

(** How a state is looked at: what is [seen] decides the results, what is [kept]
    stays as it is too, and in a state that [works] no read fails. *)
Record observer (S X Y : Type) := mkObserver { seen : S -> X; kept : S -> Y; works : S -> Prop }.
Arguments mkObserver {_ _ _} _ _ _.
Arguments seen {_ _ _} _ _.
Arguments kept {_ _ _} _ _.
Arguments works {_ _ _} _ _.

Record quiet {S X Y A} (o : observer S X Y) (op : db S A) : Prop := {
  q_seen : forall s, seen o (op s).2 = seen o s;
  q_kept : forall s, kept o (op s).2 = kept o s;
  q_works : forall u, works o u -> works o (op u).2;
  q_alike : forall s u, seen o s = seen o u -> works o u ->
    match (op s).1 with Err _ => True | r => (op u).1 = r end
}.

Create HintDb quiet discriminated.

Section Quiet.
Context {S X Y : Type} (o : observer S X Y).

Lemma quiet_bind {A B} (m : db S A) (k : A -> db S B) : quiet o m -> (forall a, quiet o (k a)) -> quiet o (bind_st m k).
Proof.
  intros [Hs Hp Hw Ha] Hk. split.
  - intros s. unfold bind_st. specialize (Hs s). destruct (m s) as [[a|e|] s']; cbn [snd] in *; [|done|done].
    by rewrite (q_seen _ _ (Hk a)).
  - intros s. unfold bind_st. specialize (Hp s). destruct (m s) as [[a|e|] s']; cbn [snd] in *; [|done|done].
    by rewrite (q_kept _ _ (Hk a)).
  - intros u Hu. unfold bind_st. specialize (Hw u Hu). destruct (m u) as [[a|e|] u']; cbn [snd] in *; [|done|done].
    by apply Hk.
  - intros s u Hsu Hu. specialize (Ha s u Hsu Hu). specialize (Hw u Hu). pose proof (Hs s) as Hs1. pose proof (Hs u) as Hs2.
    unfold bind_st. destruct (m s) as [[a|e|] s'], (m u) as [[b|e'|] u']; cbn [fst snd] in *; try done.
    injection Ha as ->. apply Hk; [congruence|done].
Qed.

(** Operations that do not change the state and only look at what is seen. *)
Lemma quiet_asks {A} (q : X -> DbResult A) (op : db S A) : (forall s, op s = (q (seen o s), s)) -> quiet o op.
Proof. intros Hop. split; intros s; rewrite !Hop; [done..|]. intros u ->. rewrite Hop. by destruct (q _). Qed.
Lemma quiet_ret {A} (a : A) : quiet o (ret a).
Proof. by apply (quiet_asks (fun _ => Ok a)). Qed.
Lemma quiet_throw {A} e : quiet o (throw (A := A) e).
Proof. by apply (quiet_asks (fun _ => Err e)). Qed.
Lemma quiet_lift {A} (r : DbResult A) : quiet o (lift r).
Proof. by apply (quiet_asks (fun _ => r)). Qed.

Lemma quiet_zoom {R X' Y' A} (get : S -> R) (put : R -> S -> S) (o' : observer R X' Y') (m : db R A) :
  (forall s r, seen o' r = seen o' (get s) -> seen o (put r s) = seen o s) ->
  (forall s u, seen o s = seen o u -> seen o' (get s) = seen o' (get u)) ->
  (forall s r, kept o (put r s) = kept o s) ->
  (forall s, works o s -> works o' (get s)) -> (forall s r, works o' r -> works o (put r s)) ->
  quiet o' m -> quiet o (zoom get put m).
Proof.
  intros Hsee Hinj Hkept Hget Hput [Hs Hp Hw Ha]. unfold zoom. split; intros s.
  - specialize (Hs (get s)). destruct (m (get s)) as [r t]. by apply Hsee.
  - destruct (m (get s)) as [r t]. apply Hkept.
  - intros Hws%Hget%Hw. destruct (m (get s)) as [r t]. by apply Hput.
  - intros u Hsu Hu%Hget. specialize (Ha (get s) (get u) (Hinj _ _ Hsu) Hu). by destruct (m (get s)), (m (get u)).
Qed.
End Quiet.

#[export] Hint Resolve quiet_bind quiet_ret quiet_throw quiet_lift : quiet.

Section Reading.
Context {F : Type} `{VfsLaws F}.
Implicit Types (m : TransactionalStore F).

(** A page file, a catalog store and a transactional store. *)
Definition working (f : F) : Prop := healthy f /\ len (contents f) <= U64_MAX.
Definition of_file : observer F (list byte) unit := mkObserver contents (fun _ => tt) working.
Definition of_store : observer (CatalogStore F) (list byte * Catalog) unit :=
  mkObserver (fun s => (contents (CatalogStore.page_file s), CatalogStore.catalog s)) (fun _ => tt)
    (fun s => working (CatalogStore.page_file s)).
Definition of_database : observer (TransactionalStore F) (list byte * Catalog) (WalWriter F * TxId) :=
  mkObserver (fun m => seen of_store (store m)) (fun m => (wal m, next_tx_id m)) (fun m => works of_store (store m)).

Lemma quiet_read_page id : quiet of_file (read_page (F := F) id).
Proof.
  split; cbn [seen kept works of_file]; [|done|..].
  - intros f. destruct (read_page id f) as [r f'] eqn:E. by apply read_page_spec in E as (Hc & _).
  - intros f [Hh Hl]. destruct (read_page id f) as [r f'] eqn:E. apply read_page_spec in E as (Hc & _ & Hh' & _).
    cbn [snd]. split; [by apply Hh'|by rewrite Hc].
  - intros f g Hfg [Hh Hl]. destruct (read_page id f) as [r f'] eqn:E. apply read_page_spec in E as (_ & Hp & _ & Hok & _).
    destruct r as [p|e|]; [|done|done]. specialize (Hok p eq_refl). rewrite Hfg in Hok. cbn [fst].
    destruct (read_page id g) as [r g'] eqn:E. apply read_page_spec in E as (_ & _ & _ & _ & Hr). cbn [fst].
    rewrite Hr; [done|done|]. unfold stored_page in Hok. unfold addressable.
    destruct (_ <? _) eqn:Hlt; [done|]. apply N.ltb_ge in Hlt. lia.
Qed.
Lemma quiet_scan ids : forall rows, quiet of_file (scan_pages (S := F) ids rows).
Proof. induction ids as [|id ids IH]; intros rows; simpl; auto using quiet_read_page with quiet. Qed.
Lemma quiet_heap_row r : quiet of_file (read_heap_row (S := F) r).
Proof.
  unfold read_heap_row. apply quiet_bind; [apply quiet_read_page|]. intros page.
  apply quiet_bind; [auto with quiet|]. intros h. destruct (negb _); auto with quiet.
Qed.

Lemma quiet_on_file {A} (op : db F A) : quiet of_file op -> quiet of_store (CatalogStore.on_file op).
Proof.
  apply quiet_zoom; cbn [seen kept works of_file of_store]; [|by intros s u [= ? ?]|done..].
  intros s f Hf. cbn. by rewrite Hf.
Qed.
Lemma quiet_ask {A} (q : Catalog -> DbResult A) : quiet of_store (CatalogStore.ask_catalog (F := F) q).
Proof. by apply (quiet_asks _ (fun x => q x.2)). Qed.
Lemma quiet_full_scan id : quiet of_store (CatalogStore.full_scan (F := F) id).
Proof. unfold CatalogStore.full_scan. auto using quiet_ask, quiet_on_file, quiet_scan with quiet. Qed.
Lemma quiet_read_row id r : quiet of_store (CatalogStore.read_row (F := F) id r).
Proof.
  unfold CatalogStore.read_row. apply quiet_bind; [apply quiet_ask|]. intros _. apply quiet_bind; [apply quiet_ask|].
  intros ids. destruct (negb _); auto using quiet_on_file, quiet_heap_row with quiet.
Qed.
Lemma quiet_load_node id : quiet of_store (load_node (S := CatalogStore F) id).
Proof. unfold load_node. cbn [bt_load_page committed_index_pages]. auto using quiet_on_file, quiet_read_page with quiet. Qed.
Lemma quiet_find_leaf fuel : forall id k, quiet of_store (find_leaf (S := CatalogStore F) fuel id k).
Proof.
  induction fuel as [|fuel IH]; intros id k; cbn [find_leaf]; [auto with quiet|].
  apply quiet_bind; [apply quiet_load_node|]. intros [|ks cs]; auto with quiet.
Qed.
Lemma quiet_lookup_leaves fuel : forall id k rs, quiet of_store (lookup_leaves (S := CatalogStore F) fuel id k rs).
Proof.
  induction fuel as [|fuel IH]; intros id k rs; cbn [lookup_leaves]; [auto with quiet|].
  apply quiet_bind; [apply quiet_load_node|]. intros [next es|]; [|auto with quiet].
  destruct (scan_entries k es rs) as [rs' []]; [auto with quiet|]. destruct next; auto with quiet.
Qed.

Lemma quiet_store {A} (op : db (CatalogStore F) A) : quiet of_store op -> quiet of_database (zoom store with_store op).
Proof. by apply quiet_zoom. Qed.
Lemma quiet_ask_catalog {A} (q : Catalog -> DbResult A) : quiet of_database (ask_catalog (F := F) q).
Proof. by apply (quiet_asks _ (fun x => q x.2)). Qed.
Lemma quiet_lookup_index idx k : quiet of_database (lookup_index (F := F) idx k).
Proof.
  unfold lookup_index, lookup. apply quiet_bind; [by apply (quiet_asks _ (fun x => Ok x.2))|]. intros c.
  apply quiet_bind; [auto with quiet|]. intros root.
  apply quiet_store. apply quiet_bind; [apply quiet_find_leaf|]. intros leaf. apply quiet_lookup_leaves.
Qed.
Lemma quiet_read_rows id rs : quiet of_database (read_rows (F := F) id rs).
Proof.
  induction rs as [|r rs IH]; cbn [read_rows]; [auto with quiet|]. unfold committed_row.
  apply quiet_bind; [apply quiet_store, quiet_read_row|]. auto with quiet.
Qed.
Lemma quiet_candidates r sel : quiet of_database (candidate_rows (F := F) r sel).
Proof.
  assert (Hscan : quiet of_database (committed_scan (F := F) (rel_id r))) by apply quiet_store, quiet_full_scan.
  unfold candidate_rows. destruct sel as [s|]; [|done]. apply quiet_bind; [apply quiet_ask_catalog|]. intros [x|]; [|done].
  destruct (index_key_from_value (sel_value s)); [|done]. apply quiet_bind; [apply quiet_lookup_index|]. apply quiet_read_rows.
Qed.

Lemma quiet_query `{TokenDebug} s : is_query s = true -> quiet of_database (execute_statement (F := F) s).
Proof.
  destruct s; try done; intros _; cbn [execute_statement].
  - unfold execute_select_function. auto 20 using quiet_ask_catalog with quiet.
  - unfold execute_select. auto 20 using quiet_ask_catalog, quiet_candidates with quiet.
Qed.
End Reading.
