(* ===== verification/SqlCrash.v ===== *)
(** * SqlCrash: statements on files that fail

    [store_on g w m] is the store [m] on other open files with the same contents,
    whatever the operating system has in store for them.  A statement on it fails,
    or does what it does on files that work; recovery then shows all of it or
    nothing. *)

From S2P Require Import Prelude Core Bytes Page PageFacts PageOps Vfs VfsFacts PageStore Wal WalFacts WalStream WalTheorems Recovery RecoveryFacts Catalog CatalogFacts CatalogWf CatalogTheorems Heap HeapDb CatalogStore CatalogStoreFacts CatalogStoreTheorems Tx TxFacts TxCommit TxTheorems TxAuto Index IndexFacts IndexTree IndexReads IndexInsert TxIndex TxIndexFacts TxRobust Double DoubleFacts Extension ExtensionTheorems SqlRow SqlRowTheorems Sql SqlGrammar SqlTheorems SqlRender SqlTyped SqlExec SqlDb SqlWrites SqlReads SqlStatements SqlSpec SqlRestart SqlQuiet.

Section Files.
Context {F : Type} `{VfsLaws F}.
Implicit Types (m : TransactionalStore F) (t u : Transaction F).

Definition store_on (g w : F) m : TransactionalStore F :=
  mkTransactionalStore (mkCatalogStore g (catalog (store m))) (mkWalWriter w (allocator (wal m)))
    (next_tx_id m) (active_writer m).

(** ** Beginning *)

Lemma begin_run m :
  active_writer m = false -> next_tx_id m < U64_MAX ->
  begin m = (let '(r, w) := append (BeginTx (next_tx_id m)) (wal m) in
             let m' b := mkTransactionalStore (store m) w (next_tx_id m + 1) b in
             match r with
             | Ok _ => (Ok (mkTransaction (m' true) (next_tx_id m) (catalog (store m)) [] Active), m' true)
             | Err e => (Err e, m' false)
             | Panic => (Panic, m' true)
             end).
Proof.
  intros Hi Hn. unfold begin, bind_st, gets, modify, allocate_tx_id. rewrite Hi, checked_add_ok by lia.
  cbn [wal with_active with_next_tx]. by destruct (append _ _) as [[l|e|] w].
Qed.

Lemma begin_on m T ks g w o m1 :
  idle_store m T ks -> next_tx_id m < U64_MAX -> stream_len (ks ++ [BeginTx (next_tx_id m)]) <= U64_MAX ->
  contents w = contents (wal_file (wal m)) -> begin (store_on g w m) = (o, m1) ->
  match o with
  | Ok tg => exists t w', begin m = (Ok t, manager t) /\ tg = on_files g w' t
      /\ wal_rep (mkWalWriter w' (allocator (wal (manager t)))) (ks ++ [BeginTx (next_tx_id m)])
  | Err _ => data m1 = g /\ torn_log ks [BeginTx (next_tx_id m)] (contents (wal_file (wal m1)))
  | Panic => False
  end.
Proof.
  intros [[Hs Hw Hl] Hi Hh _] Hn Hlen Hcw. set (id := next_tx_id m) in *.
  rewrite stream_len_app in Hlen. cbn [stream_len] in Hlen.
  assert (Hk : kind_ok (BeginTx id)) by (cbn; unfold id; lia). assert (Hlen' : stream_len ks + record_len (BeginTx id) <= U64_MAX) by lia.
  assert (Hw' : wal_rep (mkWalWriter w (allocator (wal m))) ks) by by apply (wal_rep_same (wal m)).
  rewrite (begin_run m Hi Hn), (begin_run (store_on g w m) Hi Hn). unfold store_on. cbn [next_tx_id wal store CatalogStore.catalog]. fold id.
  destruct (append (BeginTx id) (wal m)) as [o1 w1] eqn:E1.
  destruct (append_spec _ ks _ o1 w1 Hw Hk Hlen' E1) as (_ & _ & Hok1 & _ & Ha1 & Hall1). rewrite (Hall1 Hh).
  destruct (append (BeginTx id) (mkWalWriter w (allocator (wal m)))) as [o2 w2] eqn:E2.
  pose proof (append_run _ _ Hk ltac:(rewrite (wal_next _ _ Hw'); exact Hlen')) as Hrun. rewrite E2, (wal_next _ _ Hw') in Hrun.
  destruct (append_spec _ ks _ o2 w2 Hw' Hk Hlen' E2) as (Hp & _ & Hok2 & (n & Hc2) & Ha2 & _).
  destruct o2 as [l|e|]; [| |done]; intros [= <- <-].
  - assert (l = stream_len ks) as -> by (destruct (file_write_all_at _ _ _) as [[] ?]; try done; by injection Hrun).
    exists (mkTransaction (mkTransactionalStore (store m) w1 (id + 1) true) id (catalog (store m)) [] Active), (wal_file w2).
    split; [reflexivity|]. cbn [manager wal with_wal store next_tx_id].
    destruct w2 as [f2 a2]. cbn [allocator wal_file] in *. rewrite Ha1, <- Ha2. split; [|by apply Hok2].
    unfold on_files, with_manager. cbn. by rewrite Ha1, <- Ha2.
  - split; [done|]. exists [], (BeginTx id), [], n. split; [done|]. cbn. by rewrite app_nil_r.
Qed.

(** ** The contents that recovery leaves *)

(** Recovery on a log that commits nothing new leaves the pages of the store. *)
Lemma recover_unchanged m T ks d rs :
  sql_store m T ks -> committed_images rs = committed_images (records_of 0 ks) ->
  contents d = apply_writes (image_writes rs) (contents (data m)) ->
  database_on d (catalog (store m)) T.
Proof.
  intros Hm Hrs Hd. pose proof (id_rep _ _ _ (ss_idle _ _ _ Hm)) as [Hs _ [_ Hval Hcov]].
  pose proof (sr_ready _ _ Hs) as [_ Ha]. unfold image_writes in Hd. rewrite Hrs in Hd.
  destruct (page_store_images (committed_images (records_of 0 ks)) _ Ha) as [Hal Hv].
  { eapply Forall_impl; [exact Hval|]. by intros [] []. }
  apply (database_on_view (data m)); [by rewrite Hd| |by apply (sql_store_database m T ks)].
  intros i. cbn [view file_access_laws]. rewrite Hd, Hv. destruct (last_image _ i) as [p|] eqn:Hp; [|done].
  symmetry. by apply Hcov.
Qed.

(** The process ends in the state [m]: recovery runs on files with the contents of
    its files, again if it is interrupted, until it ends with [d']. *)
Definition recovers_to m (d' : DbFiles F) : Prop := recovered (contents (data m)) (contents (wal_file (wal m))) d'.

Lemma recover_kept m T ks m2 d' :
  sql_store m T ks -> contents (data m2) = contents (data m) -> len (contents (wal_file (wal m2))) <= U64_MAX ->
  (forall rs, parse_wal (contents (wal_file (wal m2))) = Ok rs -> committed_images rs = committed_images (records_of 0 ks)) ->
  recovers_to m2 d' -> database_on (data_file d') (catalog (store m)) T.
Proof.
  intros Hm Hd Hl Hrs Hrec. pose proof (id_rep _ _ _ (ss_idle _ _ _ Hm)) as [Hs _ [_ Hval _]].
  apply recovered_contents in Hrec as [_ Hc]; [|done|intros rs Hp; by rewrite (Hrs rs Hp)]. rewrite Hd in Hc.
  assert (Hsame : contents (data_file d') = contents (data m) -> database_on (data_file d') (catalog (store m)) T).
  { intros He. apply (database_on_view (data m)); [rewrite He; apply (sr_ready _ _ Hs)|intros i; by apply view_contents|].
    by apply (sql_store_database m T ks). }
  destruct (parse_wal (contents (wal_file (wal m2)))) as [rs|e|]; [|by apply Hsame..].
  by apply (recover_unchanged m T ks _ rs Hm (Hrs rs eq_refl)).
Qed.

Lemma torn_begin_images ks id c rs :
  Forall kind_ok ks -> id <= U64_MAX -> stream_len (ks ++ [BeginTx id]) <= U64_MAX ->
  torn_log ks [BeginTx id] c -> parse_wal c = Ok rs -> committed_images rs = committed_images (records_of 0 ks).
Proof.
  intros Hks Hu Hl Ht Hp. destruct (torn_log_parse ks [BeginTx id] c rs Hks ltac:(by constructor) Hl Ht Hp) as (whole & rest & Hsplit & ->).
  destruct whole as [|k whole]; [by rewrite app_nil_r|]. injection Hsplit as <- Hsplit.
  destruct whole; [apply committed_images_begin|done].
Qed.

(** Recovery after a commit that stopped anywhere. *)
Lemma commit_crash_database t T T' X ks g w r m d' :
  transaction_rep t T T' ks -> sql_db (working_catalog t) (view t) T' X ->
  begun_only (tx_id t) ks -> next_tx_id (manager t) <= U64_MAX -> stream_len (ks ++ commit_kinds t) <= U64_MAX ->
  contents g = contents (data (manager t)) -> contents w = contents (wal_file (wal (manager t))) ->
  commit (on_files g w t) = (r, m) -> recovers_to m d' ->
  r <> Panic /\ aligned (contents (data_file d'))
  /\ (database_on (data_file d') (working_catalog t) T'
      \/ (r <> Ok tt /\ forall i, view (data_file d') i = view (data (manager t)) i)).
Proof.
  intros Ht HX Hb Hn Hlen Hg Hw Hc Hrec.
  destruct (commit_recovered t T T' ks g w r m d' Ht Hb Hn Hlen Hg Hw Hc Hrec) as (Hp & Hal & [Hv|Hold]);
    (split; [done|]); (split; [done|]); [left|by right]. split; [done| | |].
  - apply (heap_db_view _ (view t)); [intros i _; apply Hv|apply (tr_db _ _ _ _ Ht)].
  - apply (stored_catalog_ext (view t)); [apply Hv|apply (tr_saved _ _ _ _ Ht)].
  - exists X. by apply (sql_db_ext _ (view t)).
Qed.

(** ** A transaction of its own *)

(** The outcome after recovery: the database that [Q] allows after the result
    [a], or the old one if no result was returned. *)
Definition crash_outcome {A} (r : DbResult A) (f : F) m (T : RelationId -> table)
    (Q : A -> (RelationId -> table) -> Catalog -> Prop) : Prop :=
  r <> Panic
  /\ ((exists a c T', (forall b, r = Ok b -> b = a) /\ Q a T' c /\ database_on f c T')
      \/ ((forall b, r <> Ok b) /\ database_on f (catalog (store m)) T)).

(** What goes before the commit. *)
Lemma begin_transaction m T ks X t w' g :
  sql_store m T ks -> fresh_ids (next_tx_id m) ks -> next_tx_id m < U64_MAX ->
  stream_len (ks ++ [BeginTx (next_tx_id m)]) <= U64_MAX -> len (contents (data m)) <= U64_MAX ->
  sql_db (catalog (store m)) (view (data m)) T X ->
  contents g = contents (data m) -> begin m = (Ok t, manager t) ->
  wal_rep (mkWalWriter w' (allocator (wal (manager t)))) (ks ++ [BeginTx (next_tx_id m)]) ->
  let ks' := ks ++ [BeginTx (next_tx_id m)] in
  transaction_rep t T T ks' /\ working_catalog t = catalog (store m) /\ sql_db (working_catalog t) (view t) T X
  /\ stands_for g t /\ begun_only (tx_id t) ks' /\ next_tx_id (manager t) <= U64_MAX
  /\ contents w' = contents (wal_file (wal (manager t))) /\ data (manager t) = data m.
Proof.
  intros Hm Hfr Hn Hlb Hlen HX Hg Hbt Hw'. pose proof (ss_idle _ _ _ Hm) as Hidle. pose proof (id_rep _ _ _ Hidle) as Hrep.
  destruct (begin_spec m T ks _ _ Hrep Hn (id_idle _ _ _ Hidle) Hlb Hbt) as (_ & Hok & _ & _).
  destruct (Hok t eq_refl) as (_ & Hid & _ & Hnx & Ht).
  destruct (begin_snapshot m T ks t _ Hrep Hn Hlb Hbt) as (Hcat & Hv & _ & Hst & _).
  assert (Hdata : data (manager t) = data m) by (unfold data; by rewrite Hst).
  split; [done|]. split; [done|]. split; [rewrite Hcat; by apply (sql_db_ext _ _ _ _ _ Hv)|].
  split; [split; rewrite Hdata; [done|apply (sr_ready _ _ (mr_store _ _ _ Hrep))|done]|].
  split; [rewrite Hid; by apply begun_only_begin|]. split; [rewrite Hnx; lia|]. split; [|done].
  rewrite (wal_contents _ _ (mr_wal _ _ _ (tr_manager _ _ _ _ Ht))). apply (wal_contents _ _ Hw').
Qed.

Lemma autocommit_crash {A} (op : db (Transaction F) A) m T ks Q g w r m2 d' :
  sql_store m T ks -> fresh_ids (next_tx_id m) ks -> transaction_does op m T Q -> robust op ->
  len (contents (data m)) <= U64_MAX -> contents g = contents (data m) -> contents w = contents (wal_file (wal m)) ->
  autocommit op (store_on g w m) = (r, m2) -> recovers_to m2 d' ->
  crash_outcome r (data_file d') m T Q.
Proof.
  intros Hm Hfr [(Hn & Hlb & Hlc) Hiso Hruns] Hrob Hlen Hg Hw Hrun Hrec.
  pose proof (ss_idle _ _ _ Hm) as Hidle. pose proof (mr_wal _ _ _ (id_rep _ _ _ Hidle)) as Hwal.
  rewrite (wal_next _ _ Hwal) in Hlb, Hlc. rewrite <- stream_len_app in Hlb.
  unfold autocommit in Hrun. destruct (begin (store_on g w m)) as [o m1] eqn:Hb.
  pose proof (begin_on m T ks g w o m1 Hidle Hn Hlb Hw Hb) as Hbegin. destruct o as [tg|e|]; [| |done].
  2: { injection Hrun as <- <-. destruct Hbegin as [Hdm Htorn]. split; [done|]. right. split; [done|].
       apply (recover_kept m T ks m1); [done|by rewrite Hdm| | |done].
       - etransitivity; [exact (len_torn_log _ _ _ Htorn)|exact Hlb].
       - intros rs. apply (torn_begin_images ks (next_tx_id m)); [apply Hwal|lia|done|done]. }
  destruct Hbegin as (t & w' & Hbt & -> & Hw'). destruct (ss_db _ _ _ Hm) as [X HX].
  destruct (begin_transaction m T ks X t w' g Hm Hfr Hn Hlb Hlen HX Hg Hbt Hw') as (Ht & Hcat & HX' & Hstands & Hbeg & Hnx & Hcw & Hdata).
  pose proof (Hrob g w' t Hstands) as Hr. pose proof (Hruns t _ X Ht Hcat HX') as Hrs. unfold ok_or_user_st in Hrs.
  pose proof (Hiso (on_files g w' t)) as (Hsm & Hstate & _). pose proof (Hiso t) as (Hsmt & Hstt & Hidt).
  destruct (op (on_files g w' t)) as [[a|e|] t1]; cbn [snd] in Hsm, Hstate.
  - destruct Hr as (g' & t2 & Hop & -> & [Hcg _ _]). rewrite Hop in Hrs, Hsmt, Hstt, Hidt. cbn [snd] in Hsmt, Hstt, Hidt.
    destruct Hrs as (T' & X' & Ht2 & HX2 & HQ). rewrite Hbt in Hlc. cbn [fst] in Hlc. rewrite Hop, <- stream_len_app in Hlc.
    destruct (commit (on_files g' w' t2)) as [rc mc] eqn:Hc. injection Hrun as <- <-.
    assert (Hlog : stream_len ((ks ++ [BeginTx (next_tx_id m)]) ++ commit_kinds t2) <= U64_MAX) by by rewrite <- app_assoc.
    destruct (commit_crash_database t2 T T' X' _ g' w' rc mc d' Ht2 HX2) as (Hp & Hal & Hcases); try done.
    + by rewrite Hidt.
    + by rewrite (sm_next _ _ Hsmt).
    + by rewrite Hcw, (sm_wal _ _ Hsmt).
    + split; [by destruct rc as [[]| |]|]. destruct Hcases as [Hdb|[Hne Hv]].
      * left. exists a, (working_catalog t2), T'. split; [by destruct rc as [[]|e|]; intros b [= <-]|done].
      * right. split; [by destruct rc as [[]|e|]|].
        apply (database_on_view (data m)); [done| |by apply (sql_store_database m T ks)].
        intros i. by rewrite Hv, (view_contents _ _ i (sm_data _ _ Hsmt)), Hdata.
  - pose proof (wal_contents _ _ Hw') as Hcw'. cbn [wal_file] in Hcw'.
    injection Hrun as <- <-. rewrite drop_active in Hrec by (rewrite Hstate; apply Ht). split; [done|]. right. split; [done|].
    apply (recover_kept m T ks (finish_writer (manager t1))); [done| | | |done].
    + change (data (finish_writer (manager t1))) with (data (manager t1)). rewrite (sm_data _ _ Hsm). exact Hg.
    + change (wal (finish_writer (manager t1))) with (wal (manager t1)). rewrite (sm_wal _ _ Hsm).
      etransitivity; [|exact Hlb]. unfold on_files. cbn [wal manager with_manager wal_file]. by rewrite Hcw', len_stream.
    + change (wal (finish_writer (manager t1))) with (wal (manager t1)). rewrite (sm_wal _ _ Hsm). intros rs Hp.
      unfold on_files in Hp. cbn [wal manager with_manager wal_file] in Hp.
      rewrite Hcw', parse_wal_stream in Hp by (done || apply (wal_kinds _ _ Hw')).
      injection Hp as <-. apply committed_images_begin.
  - by destruct (op t) as [[|[]|] t2]; cbn [fst] in Hr.
Qed.
End Files.

(** ** The transaction of a statement

    What a statement that writes does before it begins, on the catalog alone:
    the operation it will run in a transaction of its own. *)

Section Transactions.
Context {F : Type} `{VfsFile F}.

Definition ignore {A} (op : db (Transaction F) A) : db (Transaction F) unit := let! _ := op in ret tt.

Definition statement_transaction (s : Statement) (c : Catalog) : option (DbResult (db (Transaction F) unit)) :=
  match s with
  | CreateTable name cols => Some (Ok (ignore (create_table name cols)))
  | Insert table values => Some (
      let? r := lookup_relation table c in
      let? vs := coerce_values (columns r) values in
      let? bs := encode_row vs in
      Ok (insert_transaction r vs bs (indexes_on_table (rel_id r) c)))
  | CreateIndex name table column => Some (
      let? r := lookup_relation table c in
      let? j := resolve_column_index r column in
      let? d := or_panic (columns r !! j) in
      let? _ := ensure_indexable_column d in
      Ok (create_index_transaction r name column j))
  | LoadExtension name => Some (
      let? d := builtin_extension_descriptor name in
      Ok (ignore (register_extension (desc_name d) (desc_abi_version d) (kind_as_str (desc_kind d)))))
  | SelectFunction _ _ | Select _ _ _ => None
  end.

Definition rows_affected (s : Statement) : N := match s with Insert _ _ => 1 | _ => 0 end.

Lemma autocommit_ignore {A B} (op : db (Transaction F) A) (b : B) m :
  (let! _ := autocommit (ignore op) in ret b) m = (let! _ := autocommit op in ret b) m.
Proof.
  unfold bind_st, autocommit, ignore, bind_st, ret. destruct (begin m) as [[t|e|] m']; [|done|done].
  destruct (op t) as [[a|e|] t']; [|done|done]. by destruct (commit t') as [[[]|e|] m2].
Qed.

(** A statement that writes is its transaction. *)
Lemma statement_runs `{TokenDebug} s m r :
  statement_transaction s (catalog (store m)) = Some r ->
  execute_statement s m = (let! op := lift r in let! _ := autocommit op in ret (StatementComplete (rows_affected s))) m.
Proof.
  destruct s as [name cols|table values|name table column|name|name args|projection table selection]; intros [= <-];
    cbn [execute_statement rows_affected].
  - unfold bind_st at 2, lift. by rewrite autocommit_ignore.
  - unfold execute_insert, bind_st, lift, ask_catalog.
    destruct (lookup_relation table _) as [r|e|]; cbn [bind_outcome]; try done.
    destruct (coerce_values (columns r) values) as [vs|e|]; cbn [bind_outcome]; try done.
    by destruct (encode_row vs).
  - unfold execute_create_index, bind_st, lift, ask_catalog.
    destruct (lookup_relation table _) as [r|e|]; cbn [bind_outcome]; try done.
    destruct (resolve_column_index r column) as [j|e|]; cbn [bind_outcome]; try done.
    destruct (or_panic (columns r !! j)) as [d|e|]; cbn [bind_outcome]; try done.
    by destruct (ensure_indexable_column d).
  - unfold execute_load_extension, bind_st at 1 3, lift at 1 2.
    destruct (builtin_extension_descriptor name) as [d|e|]; cbn [bind_outcome]; [|done|done].
    by rewrite autocommit_ignore.
Qed.
End Transactions.

Section Statements.
Context {F : Type} `{VfsLaws F}.
Implicit Types (m : TransactionalStore F).

Lemma robust_ignore {A} (op : db (Transaction F) A) : robust op -> robust (ignore op).
Proof. intros Ho. apply robust_bind; auto with robust. Qed.

Lemma robust_insert_transaction r vs bs xs : robust (insert_transaction (F := F) r vs bs xs).
Proof.
  unfold insert_transaction. apply robust_bind; [auto with robust|]. intros row. apply robust_for_each. intros x.
  unfold insert_index_of. do 3 (apply robust_bind; [auto with robust|]; intros ?).
  destruct (index_key_from_value _); auto with robust.
Qed.

Lemma robust_create_index_transaction r name col j : robust (create_index_transaction (F := F) r name col j).
Proof.
  unfold create_index_transaction. apply robust_bind; [auto with robust|]. intros [idx root].
  apply robust_bind; [auto with robust|]. intros rows. apply robust_for_each. intros row.
  unfold index_existing_row. do 3 (apply robust_bind; [auto with robust|]; intros ?).
  destruct (index_key_from_value _); auto with robust.
Qed.

Lemma statement_transaction_robust s c op :
  statement_transaction s c = Some (Ok op) -> robust op.
Proof.
  destruct s; cbn [statement_transaction]; intros Hop%(inj Some) || done.
  - injection Hop as <-. apply robust_ignore, robust_create_table.
  - steps_in Hop. apply robust_insert_transaction.
  - steps_in Hop. apply robust_create_index_transaction.
  - steps_in Hop. apply robust_ignore, robust_register_extension.
Qed.

Lemma ignore_does {A} (op : db (Transaction F) A) m T (Q : (RelationId -> table) -> Catalog -> Prop) :
  transaction_does op m T (fun _ => Q) -> transaction_does (ignore op) m T (fun _ => Q).
Proof.
  intros [(Hn & Hlb & Hlc) Hiso Hruns]. split.
  - split_and!; [done|done|]. destruct (begin m).1 as [t| |]; [|done|done]. unfold ignore, bind_st, ret. by destruct (op t) as [[a| |] t'].
  - apply isolated_bind; auto with isolated.
  - intros t ks' X Ht Hcat HX. specialize (Hruns t ks' X Ht Hcat HX). unfold ignore, ok_or_user_st, bind_st, ret in *.
    by destruct (op t) as [[a|[]|] t'].
Qed.

Lemma does_mono {A} (op : db (Transaction F) A) m T (Q R : A -> (RelationId -> table) -> Catalog -> Prop) :
  (forall a T' c, Q a T' c -> R a T' c) -> transaction_does op m T Q -> transaction_does op m T R.
Proof.
  intros HQR [Hf Hi Hr]. split; [done|done|]. intros t ks' X Ht Hcat HX. eapply ok_mono; [by apply (Hr t ks' X)|].
  intros a t' (T' & X' & ? & ? & ?). exists T', X'. split_and!; auto.
Qed.

Lemma statement_transaction_does s m T ks op :
  sql_store m T ks -> statement_typed s -> statement_fits s m ->
  statement_transaction s (catalog (store m)) = Some (Ok op) ->
  transaction_does op m T (fun _ T' c' =>
    statement_effect s (catalog (store m)) T (StatementComplete (rows_affected s)) T' c').
Proof.
  intros Hm Hty Hfits. destruct s as [name cols|table values|name table column|name|name args|projection table selection];
    cbn [statement_transaction statement_typed statement_fits rows_affected] in *; intros Hop%(inj Some) || done.
  - injection Hop as <-. destruct Hty as [Hname Hcols], Hfits as [Hlog Hpages]. apply ignore_does.
    eapply does_mono; [|by apply (create_table_does name cols m T)]. by intros id T' c' (? & ? & ?).
  - apply bind_outcome_Ok in Hop as (r & Hr%lookup_relation_Ok & Hop). apply bind_outcome_Ok in Hop as (vs & Hvs & Hop).
    apply bind_outcome_Ok in Hop as (bs & Hbs & [= <-]).
    eapply does_mono; [|by apply (insert_does table values m T ks r vs bs)].
    intros [] T' c' (? & ? & ?). split_and!; [done|done|]. by exists r, vs.
  - apply bind_outcome_Ok in Hop as (r & Hr%lookup_relation_Ok & Hop). apply bind_outcome_Ok in Hop as (j & Hj & Hop).
    apply bind_outcome_Ok in Hop as (d & Hd & Hop). apply bind_outcome_Ok in Hop as ([] & Hind & [= <-]).
    assert (Hcol : columns r !! j = Some d) by (destruct (columns r !! j); [by injection Hd as -> |done]).
    assert (Hty' : indexable d = true) by (revert Hind; unfold ensure_indexable_column, indexable; by destruct (_ || _)).
    eapply does_mono; [|by apply (create_index_does name table column m T ks r j d)].
    intros [] T' c' (-> & ? & ? & ?). split_and!; [done|done|done|]. by exists r, j, d.
  - apply bind_outcome_Ok in Hop as (d & Hd & [= <-]). apply ignore_does.
    eapply does_mono; [|by apply (load_extension_does name), Hfits].
    intros b T' c' (-> & ? & ?). split_and!; [done|done|]. by exists d.
Qed.

(** Files whose contents are those of the store. *)
Lemma recover_same m T ks m2 d' :
  sql_store m T ks -> allocator (wal m) <= U64_MAX -> contents (data m2) = contents (data m) ->
  contents (wal_file (wal m2)) = contents (wal_file (wal m)) ->
  recovers_to m2 d' -> database_on (data_file d') (catalog (store m)) T.
Proof.
  intros Hm Hl Hd Hw Hrec. pose proof (mr_wal _ _ _ (id_rep _ _ _ (ss_idle _ _ _ Hm))) as Hwal.
  rewrite (wal_next _ _ Hwal) in Hl. rewrite (wal_contents _ _ Hwal) in Hw.
  apply (recover_kept m T ks m2); [done|done| | |done]; rewrite Hw; [by rewrite len_stream|].
  intros rs. rewrite parse_wal_stream by (done || apply (wal_kinds _ _ Hwal)). by intros [= <-].
Qed.

Lemma query_crash `{TokenDebug} s m T ks g w r m2 d' :
  sql_store m T ks -> allocator (wal m) <= U64_MAX -> statement_typed s -> statement_fits s m -> is_query s = true ->
  len (contents (data m)) <= U64_MAX -> contents g = contents (data m) -> contents w = contents (wal_file (wal m)) ->
  execute_statement s (store_on g w m) = (r, m2) -> recovers_to m2 d' ->
  crash_outcome r (data_file d') m T (statement_effect s (catalog (store m)) T).
Proof.
  intros Hm Hl Hty Hfits Hq Hlen Hg Hw Hrun Hrec. destruct (quiet_query (F := F) s Hq) as [Hseen Hkept _ Halike].
  assert (Hdb : database_on (data_file d') (catalog (store m)) T).
  { specialize (Hseen (store_on g w m)). specialize (Hkept (store_on g w m)). rewrite Hrun in Hseen, Hkept.
    injection Hseen as Hs _. injection Hkept as Hwal _. apply (recover_same m T ks m2); [done|done| | |done].
    - unfold data. by rewrite Hs.
    - by rewrite Hwal. }
  pose proof (execute_statement_run s m T ks Hm Hty Hfits) as Hout. unfold statement_outcome in Hout.
  pose proof (id_rep _ _ _ (ss_idle _ _ _ Hm)) as [[[Hh _] _ _] _ _].
  specialize (Halike (store_on g w m) m). rewrite Hrun in Halike. cbn [seen works of_database of_store store_on store] in Halike.
  assert (Hsame : (contents g, catalog (store m)) = (contents (data m), catalog (store m))) by by rewrite Hg.
  specialize (Halike Hsame (conj Hh Hlen)). destruct r as [res|e|]; cbn [fst] in Halike.
  - destruct (execute_statement s m) as [o m1]. cbn [fst] in Halike. subst o. destruct Hout as (T' & ks' & _ & He).
    split; [done|]. left. exists res, (catalog (store m)), T. split; [by intros b [= <-]|]. split; [|done].
    destruct s; try done; cbn [statement_effect] in *; destruct He as (_ & _ & He); done.
  - split; [done|]. by right.
  - destruct (execute_statement s m) as [o m1]. cbn [fst] in Halike. by subst o.
Qed.

(** Whatever the files do while the statement runs, and wherever it is cut off. *)
Lemma statement_crash `{TokenDebug} s m T ks g w r m2 d' :
  sql_store m T ks -> fresh_ids (next_tx_id m) ks -> allocator (wal m) <= U64_MAX ->
  statement_typed s -> statement_fits s m ->
  len (contents (data m)) <= U64_MAX -> contents g = contents (data m) -> contents w = contents (wal_file (wal m)) ->
  execute_statement s (store_on g w m) = (r, m2) -> recovers_to m2 d' ->
  crash_outcome r (data_file d') m T (statement_effect s (catalog (store m)) T).
Proof.
  intros Hm Hfr Hl Hty Hfits Hlen Hg Hw Hrun Hrec. destruct (is_query s) eqn:Hq; [by apply (query_crash s m T ks g w r m2)|].
  destruct (statement_transaction (F := F) s (catalog (store m))) as [ro|] eqn:Hop; [|by destruct s].
  rewrite (statement_runs s _ ro) in Hrun by exact Hop. pose proof (execute_statement_run s m T ks Hm Hty Hfits) as Hout.
  rewrite (statement_runs s _ ro Hop) in Hout. unfold bind_st, lift in Hrun, Hout. destruct ro as [op|e|]; [| |done].
  - pose proof (statement_transaction_does s m T ks op Hm Hty Hfits Hop) as Hdoes.
    pose proof (statement_transaction_robust s _ op Hop) as Hrob.
    destruct (autocommit op (store_on g w m)) as [o m1] eqn:Ha.
    assert (m1 = m2) as -> by (destruct o; by injection Hrun).
    destruct (autocommit_crash op m T ks _ g w o m2 d' Hm Hfr Hdoes Hrob Hlen Hg Hw Ha Hrec) as [Hp Hcases].
    destruct o as [[]|e|]; [| |done]; injection Hrun as <-; split; try done; destruct Hcases as [(a & c & T' & Ha' & He & Hdb)|[Hne Hdb]].
    + left. eexists _, c, T'. split; [|by split]. by intros b [= <-].
    + by destruct (Hne tt).
    + left. eexists _, c, T'. split; [done|by split].
    + by right.
  - injection Hrun as <- <-. split; [done|]. right. split; [done|]. by apply (recover_same m T ks (store_on g w m)).
Qed.
End Statements.
