(* ===== verification/SqlSessions.v ===== *)
(** * SqlSessions: sessions, restarts and crashes

    The states that sessions reach, the conditions of the room they need as
    functions to evaluate, and a session to evaluate. *)

From S2P Require Import Prelude Core Bytes Page PageFacts PageOps Vfs VfsFacts PageStore Wal WalFacts WalStream WalTheorems Recovery RecoveryFacts Catalog CatalogFacts CatalogWf CatalogTheorems Heap HeapDb CatalogStore CatalogStoreFacts CatalogStoreTheorems Tx TxFacts TxCommit TxTheorems TxAuto Index IndexFacts IndexTree IndexReads IndexInsert TxIndex TxIndexFacts Double DoubleFacts Extension ExtensionTheorems SqlRow SqlRowTheorems Sql SqlGrammar SqlTheorems SqlRender SqlTyped SqlExec SqlDb SqlWrites SqlReads SqlStatements SqlRestart SqlQuiet SqlCrash.

(** ** Sessions *)

Section Sessions.
Context {F : Type} `{VfsLaws F} `{TokenDebug}.

(** The log and the page ids have room for the statement of the text. *)
Definition text_fits (sql : string) (m : TransactionalStore F) : Prop :=
  forall s, parse_statement sql = Ok s -> statement_fits s m.

(** A text of Unicode characters that fits the address space. *)
Definition sql_text (sql : string) : Prop := string_ok sql /\ string_len sql < USIZE_MAX.

(** No transaction of the log has an id that will be given out again. *)
Definition log_is_fresh (m : TransactionalStore F) : Prop :=
  allocator (wal m) <= U64_MAX
  /\ forall rs, parse_wal (contents (wal_file (wal m))) = Ok rs ->
       Forall (fun r => forall t, kind_tx (kind r) = Some t -> t < next_tx_id m) rs.

Lemma log_is_fresh_ids m T ks : sql_store m T ks -> log_is_fresh m -> fresh_ids (next_tx_id m) ks.
Proof.
  intros Hm [Hl Hc]. pose proof (mr_wal _ _ _ (id_rep _ _ _ (ss_idle _ _ _ Hm))) as Hw.
  rewrite (wal_next _ _ Hw) in Hl. specialize (Hc (records_of 0 ks)).
  rewrite (wal_contents _ _ Hw), parse_wal_stream in Hc by (done || apply (wal_kinds _ _ Hw)).
  rewrite <- (records_of_kinds 0 ks). apply Forall_fmap. by apply Hc.
Qed.

(** The process ends while the text is executed, on files that may fail at any
    operation. *)
Lemma execute_crash sql params m T ks g w r m2 d' :
  sql_store m T ks -> log_is_fresh m -> sql_text sql -> text_fits sql m ->
  len (contents (data m)) <= U64_MAX -> contents g = contents (data m) -> contents w = contents (wal_file (wal m)) ->
  execute sql params (store_on g w m) = (r, m2) -> recovers_to m2 d' ->
  crash_outcome r (data_file d') m T (fun res T' c' =>
    params = [] /\ exists s, parse_statement sql = Ok s /\ statement_effect s (catalog (store m)) T res T' c').
Proof.
  intros Hm Hlog [Hok Hlen] Hfits Hld Hg Hw Hrun Hrec. pose proof (log_is_fresh_ids m T ks Hm Hlog) as Hfr. destruct Hlog as [Hl _].
  assert (Hrefused : forall e, r = Err e -> m2 = store_on g w m -> crash_outcome r (data_file d') m T (fun res T' c' =>
    params = [] /\ exists s, parse_statement sql = Ok s /\ statement_effect s (catalog (store m)) T res T' c')).
  { intros e -> ->. split; [done|]. right. split; [done|]. by apply (recover_same m T ks (store_on g w m)). }
  unfold execute in Hrun. destruct params as [|v params]; [|injection Hrun as <- <-; by eapply Hrefused].
  unfold bind_st, lift in Hrun. pose proof (parse_statement_sound sql Hlen) as Hp. destruct (parse_statement sql) as [s|e|] eqn:Hs; [| |done].
  - destruct (statement_crash s m T ks g w r m2 d' Hm Hfr Hl (parse_statement_typed sql s Hlen Hok Hs) (Hfits s Hs) Hld Hg Hw Hrun Hrec)
      as [Hnp Hcases]. split; [done|]. destruct Hcases as [(res & c & T' & Hr & He & Hdb)|Hold]; [left|by right].
    exists res, c, T'. split; [done|]. split; [|done]. split; [done|]. by exists s.
  - injection Hrun as <- <-. by eapply Hrefused.
Qed.

Lemma execute_run sql params m T ks :
  sql_store m T ks -> sql_text sql -> text_fits sql m ->
  statement_outcome (execute sql params m) m T (fun res T' m' =>
    params = [] /\ exists s, parse_statement sql = Ok s
      /\ statement_effect s (catalog (store m)) T res T' (catalog (store m'))).
Proof.
  intros Hm [Hok Hlen] Hfits. unfold execute. destruct params as [|v params].
  2: { split; [done|]. split; [apply same_committed_refl|]. by exists ks. }
  pose proof (parse_statement_sound sql Hlen) as Hp.
  apply (outcome_lift _ _ _ _ ks); [done|destruct (parse_statement sql) as [|[]|]; done|]. intros s Hs.
  eapply outcome_mono; [apply (execute_statement_run s m T ks Hm)|].
  - by apply (parse_statement_typed sql).
  - by apply Hfits.
  - intros res T' m' He. split; [done|]. by exists s.
Qed.

(** What a client sees of an execution: the text and the result, and whether the
    process ended with it. *)
Inductive event : Type :=
| Returned (sql : string) (r : DbResult ExecResult)
| Interrupted (sql : string) (r : DbResult ExecResult).

(** What the next session finds in its log after a crash that left [l]: nothing, or
    [l] itself if it can be kept. *)
Definition next_log (l c : list byte) : Prop :=
  c = [] \/ (c = l /\ exists kw, l = stream 0 kw /\ stream_len kw <= U64_MAX /\ keepable kw).

(** The sessions that start on two empty files and execute one text after the
    other, whatever each of them returns.  The process may end between two texts:
    recovery runs on files with the contents of the store's, and the next session
    opens a data file with the contents of the recovered one, next to the same log
    or an empty one.  It may also end while a text is executed, on files [g] and
    [w] for which the operating system may have anything in store; recovery then
    runs until it ends, and the next session opens the recovered data file next to
    an empty log, or next to the log if it can be kept.

    A crash needs [log_is_fresh].  Ids start again at 1 when a store is opened, so
    that a session on a kept log takes the ids of the log once more; until it is
    through with them, a crash during a commit can leave a part of a transaction
    ([reused_tx_id_replays_uncommitted]). For the same reason a log with a torn
    record or with images that were not committed has to be emptied. *)
Inductive history : list event -> SqlSession F -> Prop :=
| history_new d w m :
    healthy d -> contents d = [] -> healthy w -> contents w = [] ->
    open_transactional_store d w = Ok m -> history [] (session_new m)
| history_execute h s sql params r s' :
    history h s -> sql_text sql -> text_fits sql (session_store s) ->
    session_execute sql params s = (r, s') -> history (h ++ [Returned sql r]) s'
| history_restart h s d report d' f w m :
    history h s -> files_healthy d ->
    contents (data_file d) = contents (data (session_store s)) ->
    contents (log_file d) = contents (wal_file (wal (session_store s))) ->
    len (contents (data_file d)) <= U64_MAX -> len (contents (log_file d)) <= U64_MAX ->
    recover_page_file d = (Ok report, d') ->
    healthy f -> contents f = contents (data_file d') ->
    healthy w -> contents w = contents (log_file d') \/ contents w = [] ->
    open_transactional_store f w = Ok m -> history h (session_new m)
| history_crash h s sql params g w r s' d' f w' m :
    history h s -> sql_text sql -> text_fits sql (session_store s) -> log_is_fresh (session_store s) ->
    len (contents (data (session_store s))) <= U64_MAX ->
    contents g = contents (data (session_store s)) -> contents w = contents (wal_file (wal (session_store s))) ->
    session_execute sql params (mkSqlSession (store_on g w (session_store s))) = (r, s') ->
    recovers_to (session_store s') d' ->
    healthy f -> contents f = contents (data_file d') -> len (contents f) <= U64_MAX ->
    healthy w' -> next_log (contents (wal_file (wal (session_store s')))) (contents w') ->
    open_transactional_store f w' = Ok m -> history (h ++ [Interrupted sql r]) (session_new m).

Definition reaches (s : SqlSession F) : Prop := exists h, history h s.

(** A restart, as one step. *)
Lemma restart_run m T ks d (f w : F) report d' :
  sql_store m T ks -> files_healthy d ->
  contents (data_file d) = contents (data m) -> contents (log_file d) = contents (wal_file (wal m)) ->
  len (contents (data_file d)) <= U64_MAX -> len (contents (log_file d)) <= U64_MAX ->
  recover_page_file d = (Ok report, d') -> healthy f -> contents f = contents (data_file d') ->
  healthy w -> contents w = contents (log_file d') \/ contents w = [] ->
  exists m' ks', open_transactional_store f w = Ok m' /\ catalog (store m') = catalog (store m)
    /\ (forall i, view (data m') i = view (data m) i) /\ sql_store m' T ks'.
Proof.
  intros Hm Hh Hcd Hcl Hld Hll Hrec Hf Hcf Hw Hcw.
  destruct (recover_store_run m T ks d Hm Hh Hcd Hcl Hld Hll) as (report' & d2 & Hrec' & _ & Hlog & [_ Hal] & Hlen & Hv).
  rewrite Hrec in Hrec'. injection Hrec' as <- <-. rewrite Hlog in Hcw.
  apply (reopened_run m T ks f w Hm); [|by rewrite Hcf| |done|done].
  - split; [done|by rewrite Hcf].
  - intros i. transitivity (view (data_file d') i); [by apply view_contents|apply Hv].
Qed.

Lemma session_execute_run sql params s :
  session_execute sql params s
  = (let '(r, m) := execute sql params (session_store s) in (r, mkSqlSession m)).
Proof. done. Qed.

(** ** Steps *)

Lemma execute_step sql params s r s' T ks :
  sql_store (session_store s) T ks -> sql_text sql -> text_fits sql (session_store s) ->
  session_execute sql params s = (r, s') ->
  match r with
  | Ok res => exists st T' ks', parse_statement sql = Ok st /\ sql_store (session_store s') T' ks'
      /\ statement_effect st (catalog (store (session_store s))) T res T' (catalog (store (session_store s')))
  | Err e => refusal e = true /\ same_committed (session_store s) (session_store s') /\ exists ks', sql_store (session_store s') T ks'
  | Panic => False
  end.
Proof.
  intros Hs Htext Hfits Hrun. rewrite session_execute_run in Hrun. pose proof (execute_run sql params _ T ks Hs Htext Hfits) as Hout.
  unfold statement_outcome in Hout. destruct (execute sql params (session_store s)) as [[res|e|] m']; injection Hrun as <- <-; [|done|done].
  destruct Hout as (T' & ks' & Hm' & _ & st & Hst & He). by exists st, T', ks'.
Qed.

Lemma crash_step sql params s g w r s' d' f w' m T ks :
  sql_store (session_store s) T ks -> sql_text sql -> text_fits sql (session_store s) -> log_is_fresh (session_store s) ->
  len (contents (data (session_store s))) <= U64_MAX ->
  contents g = contents (data (session_store s)) -> contents w = contents (wal_file (wal (session_store s))) ->
  session_execute sql params (mkSqlSession (store_on g w (session_store s))) = (r, s') ->
  recovers_to (session_store s') d' ->
  healthy f -> contents f = contents (data_file d') -> len (contents f) <= U64_MAX ->
  healthy w' -> next_log (contents (wal_file (wal (session_store s')))) (contents w') -> open_transactional_store f w' = Ok m ->
  exists T' ks', sql_store m T' ks'
    /\ ((exists st res, parse_statement sql = Ok st /\ (forall b, r = Ok b -> b = res)
          /\ statement_effect st (catalog (store (session_store s))) T res T' (catalog (store m)))
        \/ ((forall b, r <> Ok b) /\ T' = T /\ catalog (store m) = catalog (store (session_store s)))).
Proof.
  intros Hs Htext Hfits Hlog Hld Hg Hw Hrun Hrec Hf Hcf Hlf Hw' Hcw' Hopen.
  rewrite session_execute_run in Hrun. cbn [session_store] in Hrun.
  destruct (execute sql params (store_on g w (session_store s))) as [o m2] eqn:Ho. injection Hrun as <- <-.
  destruct (execute_crash sql params _ T ks g w o m2 d' Hs Hlog Htext Hfits Hld Hg Hw Ho Hrec) as [_ Hcases].
  assert (Hreopen : forall c T', database_on (data_file d') c T' -> catalog (store m) = c /\ exists ks', sql_store m T' ks').
  { intros c T' Hdb. destruct Hcw' as [Hcw'|(Hcw' & kw & Hkw & Hlkw & Hkeep)].
    - apply (fresh_contents_run c T' f w') in Hdb as (m' & Hopen' & Hcat & _ & Hm); try done.
      rewrite Hopen in Hopen'. injection Hopen' as <-. split; [done|by exists []].
    - unfold recovers_to in Hrec. cbn [session_store] in Hkw, Hcw', Hrec. rewrite Hkw in Hrec, Hcw'.
      destruct (kept_log_run c T' d' _ kw f w' Hdb Hrec Hlkw Hkeep) as (m' & Hopen' & Hcat & _ & Hm); try done.
      rewrite Hopen in Hopen'. injection Hopen' as <-. split; [done|by exists kw]. }
  destruct Hcases as [(res & c & T' & Hres & (_ & st & Hst & He) & Hdb)|[Hne Hdb]]; apply Hreopen in Hdb as [Hc [ks' Hm]].
  - exists T', ks'. split; [done|]. left. exists st, res. split_and!; [done|done|by rewrite Hc].
  - exists T, ks'. split; [done|]. by right.
Qed.

Lemma reaches_store s : reaches s -> exists T ks, sql_store (session_store s) T ks.
Proof.
  intros [h Hh].
  induction Hh as [d w m Hd Hcd Hw Hcw Hopen|h s sql params r s' _ (T & ks & Hs) Htext Hfits Hrun
                 |h s d report d' f w m _ (T & ks & Hs) Hh Hcd Hcl Hld Hll Hrec Hf Hcf Hw Hcw Hopen
                 |h s sql params g w r s' d' f w' m _ (T & ks & Hs) Htext Hfits Hlog Hld Hg Hw Hrun Hrec Hf Hcf Hlf Hw' Hcw' Hopen].
  - destruct (open_empty_store d w Hd Hcd Hw Hcw) as (m' & Hopen' & _ & Hm). rewrite Hopen in Hopen'. injection Hopen' as <-.
    by eexists _, _.
  - pose proof (execute_step sql params s r s' T ks Hs Htext Hfits Hrun) as Hstep. destruct r as [res|e|]; [| |done].
    + destruct Hstep as (st & T' & ks' & _ & Hm' & _). by exists T', ks'.
    + destruct Hstep as (_ & _ & ks' & Hm'). by exists T, ks'.
  - destruct (restart_run _ T ks d f w report d' Hs Hh Hcd Hcl Hld Hll Hrec Hf Hcf Hw Hcw) as (m' & ks' & Hopen' & _ & _ & Hm).
    rewrite Hopen in Hopen'. injection Hopen' as <-. by exists T, ks'.
  - destruct (crash_step sql params s g w r s' d' f w' m T ks) as (T' & ks' & Hm & _); try done. by exists T', ks'.
Qed.

Lemma reaches_new d w m :
  healthy d -> contents d = [] -> healthy w -> contents w = [] ->
  open_transactional_store d w = Ok m -> reaches (session_new m).
Proof. intros. exists []. by apply (history_new d w). Qed.

Lemma reaches_restart s d report d' f w m :
  reaches s -> files_healthy d ->
  contents (data_file d) = contents (data (session_store s)) ->
  contents (log_file d) = contents (wal_file (wal (session_store s))) ->
  len (contents (data_file d)) <= U64_MAX -> len (contents (log_file d)) <= U64_MAX ->
  recover_page_file d = (Ok report, d') ->
  healthy f -> contents f = contents (data_file d') ->
  healthy w -> contents w = contents (log_file d') \/ contents w = [] ->
  open_transactional_store f w = Ok m -> reaches (session_new m).
Proof. intros [h Hh] **. exists h. by apply (history_restart h s d report d' f w). Qed.
End Sessions.

(** ** Checking that a statement fits

    The conditions of [statement_fits] can be computed. *)

Section Checks.
Context {F : Type} `{VfsFile F}.
Implicit Types (m : TransactionalStore F).

Definition log_fits_check {A} (op : db (Transaction F) A) m : bool :=
  (next_tx_id m <? U64_MAX)
  && (allocator (wal m) + stream_len [BeginTx (next_tx_id m)] <=? U64_MAX)
  && match (begin m).1 with
     | Ok t => match op t with
               | (Ok _, t') => allocator (wal m) + stream_len (BeginTx (next_tx_id m) :: commit_kinds t') <=? U64_MAX
               | _ => true
               end
     | _ => true
     end.

Definition pages_left_check (n : N) m : bool :=
  (next_page_id (catalog (store m)) + n + 1) * PAGE_SIZE <=? U64_MAX.

Definition insert_fits_check (table : string) (values : list Value) m : bool :=
  match relation_by_name table (catalog (store m)) with
  | Some r =>
      let xs := indexes_on_table (rel_id r) (catalog (store m)) in
      match coerce_values (columns r) values with
      | Ok vs => match encode_row vs with
                 | Ok bs => log_fits_check (insert_transaction r vs bs xs) m && pages_left_check (1 + 64 * len xs) m
                 | _ => true
                 end
      | _ => true
      end
  | None => true
  end.

Definition create_index_fits_check (name table column : string) m : bool :=
  match relation_by_name table (catalog (store m)) with
  | Some r =>
      match resolve_column_index r column with
      | Ok j => log_fits_check (create_index_transaction r name column j) m && pages_left_check 1 m
                && match (committed_scan (rel_id r) m).1 with
                   | Ok rows => pages_left_check (1 + 64 * len rows) m
                   | _ => true
                   end
      | _ => true
      end
  | None => true
  end.

Definition statement_fits_check (s : Statement) m : bool :=
  match s with
  | CreateTable name cols => log_fits_check (create_table name cols) m && pages_left_check 0 m
  | Insert table values => insert_fits_check table values m
  | CreateIndex name table column => create_index_fits_check name table column m
  | LoadExtension name =>
      match builtin_extension_descriptor name with
      | Ok d => log_fits_check (register_extension (desc_name d) (desc_abi_version d) (kind_as_str (desc_kind d))) m
      | _ => true
      end
  | SelectFunction _ _ | Select _ _ _ => true
  end.

Definition text_fits_check `{TokenDebug} (sql : string) m : bool :=
  match parse_statement sql with Ok s => statement_fits_check s m | _ => true end.

Lemma log_fits_checked {A} (op : db (Transaction F) A) m : log_fits_check op m = true -> log_fits op m.
Proof.
  unfold log_fits_check. intros Hc. reflect_bool. split_and!; [done|done|]. destruct (begin m).1 as [t| |]; [|done|done].
  destruct (op t) as [[a| |] t']; [|done|done]. by apply N.leb_le.
Qed.

Lemma pages_left_checked n m : pages_left_check n m = true -> pages_left n m.
Proof. unfold pages_left_check, pages_left, addressable. intros Hc. reflect_bool. lia. Qed.

Lemma statement_fits_checked s m : statement_fits_check s m = true -> statement_fits s m.
Proof.
  destruct s as [name cols|table values|name table column|name|name args|projection table selection];
    cbn [statement_fits_check statement_fits]; [| | | |done|done].
  - intros [H1 H2]%andb_true_iff. split; [by apply log_fits_checked|by apply pages_left_checked].
  - unfold insert_fits_check, insert_fits. intros Hc r vs bs Hr Hvs Hbs. rewrite Hr, Hvs, Hbs in Hc.
    apply andb_true_iff in Hc as [H1 H2]. split; [by apply log_fits_checked|by apply pages_left_checked].
  - unfold create_index_fits_check, create_index_fits. intros Hc r j Hr Hj. rewrite Hr, Hj in Hc.
    apply andb_true_iff in Hc as [[H1 H2]%andb_true_iff H3]. split; [by apply log_fits_checked|]. split; [by apply pages_left_checked|].
    destruct (committed_scan (rel_id r) m).1 as [rows| |]; [by apply pages_left_checked|done|done].
  - intros Hc d Hd. rewrite Hd in Hc. by apply log_fits_checked.
Qed.

Lemma text_fits_checked `{TokenDebug} sql m : text_fits_check sql m = true -> text_fits sql m.
Proof. unfold text_fits_check. intros Hc s Hs. rewrite Hs in Hc. by apply statement_fits_checked. Qed.

Definition log_is_fresh_check `{VfsLaws F} m : bool :=
  (allocator (wal m) <=? U64_MAX)
  && match parse_wal (contents (wal_file (wal m))) with
     | Ok rs => forallb (fun r => match kind_tx (kind r) with Some t => t <? next_tx_id m | None => true end) rs
     | _ => true
     end.

Lemma log_is_fresh_checked `{VfsLaws F} m : log_is_fresh_check m = true -> log_is_fresh m.
Proof.
  unfold log_is_fresh_check. intros [Hl%N.leb_le Hc]%andb_true_iff. split; [done|]. intros rs Hrs. rewrite Hrs in Hc.
  apply Forall_forall. intros r Hr t Ht. rewrite forallb_forall in Hc. apply list_elem_of_In in Hr.
  specialize (Hc r Hr). rewrite Ht in Hc. by apply N.ltb_lt.
Qed.
End Checks.

(** ** A concrete session for the witnesses *)

#[local] Existing Instance sample_debug.

(** The session after a text. *)
Definition after (sql : string) (s : SqlSession SimFile) : SqlSession SimFile := (session_execute sql [] s).2.
Definition new_session : SqlSession SimFile :=
  match open_transactional_store (mkSimFile [] []) (mkSimFile [] []) with
  | Ok m => session_new m
  | _ => session_new users_manager
  end.
Definition one_table : SqlSession SimFile := after "create table users (id int, name text)" new_session.
Definition two_rows : SqlSession SimFile :=
  after "insert into users values (2, 'Bob')" (after "insert into users values (1, 'Ada')" one_table).
Definition indexed : SqlSession SimFile := after "create index users_id on users(id)" two_rows.
Definition three_rows : SqlSession SimFile := after "insert into users values (2, 'Eve')" indexed.

Lemma reaches_after s sql :
  reaches s -> bool_decide (utf8_valid (bytes_of_string sql) = true) = true ->
  (string_len sql <? USIZE_MAX) = true -> text_fits_check sql (session_store s) = true -> reaches (after sql s).
Proof.
  intros [h Hs] Hok%bool_decide_eq_true Hlen%N.ltb_lt Hfits. unfold after.
  destruct (session_execute sql [] s) as [r s'] eqn:Hrun. exists (h ++ [Returned sql r]).
  apply (history_execute h s sql [] r s'); [done|done| |done].
  by apply text_fits_checked.
Qed.

Lemma new_session_reached : reaches new_session.
Proof.
  unfold new_session. destruct (open_transactional_store (mkSimFile [] []) (mkSimFile [] [])) as [m|e|] eqn:Ho;
    [|vm_compute in Ho; discriminate Ho|vm_compute in Ho; discriminate Ho].
  by apply (reaches_new (mkSimFile [] []) (mkSimFile [] [])); [constructor| |constructor| |].
Qed.
Lemma one_table_reached : reaches one_table.
Proof. apply reaches_after; [apply new_session_reached|vm_compute; reflexivity..]. Qed.
Lemma two_rows_reached : reaches two_rows.
Proof. apply reaches_after; [apply reaches_after; [apply one_table_reached|..]|..]; vm_compute; reflexivity. Qed.
Lemma indexed_reached : reaches indexed.
Proof. apply reaches_after; [apply two_rows_reached|..]; vm_compute; reflexivity. Qed.
Lemma three_rows_reached : reaches three_rows.
Proof. apply reaches_after; [apply indexed_reached|..]; vm_compute; reflexivity. Qed.

(** A session whose process ends while an [INSERT] writes its pages: the data file
    takes one page of the commit and a part of the next one. *)
Definition torn_at (n : nat) (sql : string) (s : SqlSession SimFile) : DbResult ExecResult * SqlSession SimFile :=
  let m := session_store s in
  session_execute sql [] (mkSqlSession (store_on
    (mkSimFile (contents (data m)) (replicate n (Transfer 4096) ++ [Transfer 100; Failure])) (wal_file (wal m)) m)).
Definition recovered_session (s : SqlSession SimFile) : SqlSession SimFile :=
  match open_transactional_store
          (mkSimFile (contents (data_file (recover_page_file (reboot_store (session_store s))).2)) []) (mkSimFile [] []) with
  | Ok m => session_new m
  | _ => s
  end.
Definition survived : SqlSession SimFile := recovered_session (torn_at 3 "insert into users values (7, NULL)" indexed).2.

Definition is_ok {E A} (r : outcome E A) : bool := match r with Ok _ => true | _ => false end.

(** The conditions of a crash, as one check. *)
Definition torn_check (n : nat) (sql : string) (s : SqlSession SimFile) : bool :=
  let m := session_store s in
  let d := (recover_page_file (reboot_store (session_store (torn_at n sql s).2))) in
  let c := contents (data_file d.2) in
  bool_decide (utf8_valid (bytes_of_string sql) = true) && (string_len sql <? USIZE_MAX)
  && text_fits_check sql m && log_is_fresh_check m && (len (contents (data m)) <=? U64_MAX)
  && (len c <=? U64_MAX) && is_ok (open_transactional_store (mkSimFile c []) (mkSimFile [] [])).

Lemma reaches_torn s sql n :
  reaches s -> torn_check n sql s = true -> reaches (recovered_session (torn_at n sql s).2).
Proof.
  intros [h Hs] Hc. unfold torn_check in Hc. cbv zeta in Hc.
  apply andb_true_iff in Hc as [Hc Hopen]. apply andb_true_iff in Hc as [Hc Hl%N.leb_le].
  apply andb_true_iff in Hc as [Hc Hld%N.leb_le].
  apply andb_true_iff in Hc as [Hc Hlog]. apply andb_true_iff in Hc as [Hc Hfits].
  apply andb_true_iff in Hc as [Htext%bool_decide_eq_true Hlen%N.ltb_lt]. unfold recovered_session.
  destruct (open_transactional_store _ _) as [m| |] eqn:Ho; [|done|done].
  pose proof (recovered_rebooted (session_store (torn_at n sql s).2)) as Hto.
  destruct (torn_at n sql s) as [r s1] eqn:Hrun. exists (h ++ [Interrupted sql r]).
  eapply (history_crash h s sql [] _ _ r s1 _ _ (mkSimFile [] [])); [done|done| | |done| | |exact Hrun|exact Hto| | | | | |exact Ho].
  - by apply text_fits_checked.
  - by apply log_is_fresh_checked.
  - apply contents_sim.
  - done.
  - constructor.
  - apply contents_sim.
  - by rewrite contents_sim.
  - constructor.
  - by left.
Qed.

Lemma survived_reached : reaches survived.
Proof. unfold survived. apply reaches_torn; [apply indexed_reached|vm_compute; reflexivity]. Qed.
