(* ===== verification/SqlRefinement.v ===== *)
(** * SqlRefinement: sessions refine the relational database

    Every history of sessions, with its restarts and crashes, is one of the
    specification of SqlSpec. *)

From S2P Require Import Prelude Core Bytes Page PageFacts PageOps Vfs VfsFacts PageStore Wal WalFacts WalStream WalTheorems Recovery RecoveryFacts Catalog CatalogFacts CatalogWf CatalogTheorems Heap HeapDb CatalogStore CatalogStoreFacts CatalogStoreTheorems Tx TxFacts TxCommit TxTheorems TxAuto Index IndexFacts IndexTree IndexReads IndexInsert TxIndex TxIndexFacts Double DoubleFacts Extension ExtensionTheorems SqlRow SqlRowTheorems Sql SqlGrammar SqlTheorems SqlRender SqlTyped SqlExec SqlExtensions SqlDb SqlWrites SqlReads SqlStatements SqlSpec SqlRefine SqlRestart SqlQuiet SqlCrash SqlSessions.

(** ** What a client may see of a database

    A text that returns a result was run; one that returns an error was not; one
    that the process did not survive was run or not, and was run if it returned. *)

Inductive spec_history `{TokenDebug} : list event -> database -> Prop :=
| spec_new : spec_history [] empty_database
| spec_run h D sql st res res' D' :
    spec_history h D -> parse_statement sql = Ok st -> sql_run st D = Some (res', D') -> res ≡ res' ->
    spec_history (h ++ [Returned sql (Ok res)]) D'
| spec_refused h D sql e :
    spec_history h D -> refusal e = true -> spec_history (h ++ [Returned sql (Err e)]) D
| spec_survives h D sql r st res' D' :
    spec_history h D -> parse_statement sql = Ok st -> sql_run st D = Some (res', D') ->
    (forall res, r = Ok res -> res ≡ res') -> spec_history (h ++ [Interrupted sql r]) D'
| spec_lost h D sql r :
    spec_history h D -> (forall res, r <> Ok res) -> spec_history (h ++ [Interrupted sql r]) D.

Section Refinement.
Context {F : Type} `{VfsLaws F} `{TokenDebug}.
Implicit Types (m : TransactionalStore F) (s : SqlSession F) (D : database).

(** The store is idle, its tables and indexes agree, and they are [D]. *)
Definition shows m D : Prop := exists T ks, sql_store m T ks /\ represents (catalog (store m)) T D.

Lemma shows_same m m' D T ks ks' :
  sql_store m T ks -> represents (catalog (store m)) T D -> sql_store m' T ks' -> catalog (store m') = catalog (store m) ->
  shows m' D.
Proof. intros Hm HD Hm' Hc. exists T, ks'. by rewrite Hc. Qed.

Lemma shows_effect m m' D T ks T' ks' st res :
  sql_store m T ks -> represents (catalog (store m)) T D -> sql_store m' T' ks' ->
  statement_effect st (catalog (store m)) T res T' (catalog (store m')) ->
  exists res' D', sql_run st D = Some (res', D') /\ res ≡ res' /\ shows m' D'.
Proof.
  intros Hm HD Hm' He.
  destruct (effect_refines _ (sql_store_wf m T ks Hm) T D HD st res T' _ (sql_store_wf m' T' ks' Hm') He) as (res' & D' & Hr & Heq & HD').
  exists res', D'. split_and!; [done|done|]. by exists T', ks'.
Qed.

(** One text. *)
Lemma execute_shows s D sql params r s' :
  shows (session_store s) D -> sql_text sql -> text_fits sql (session_store s) -> session_execute sql params s = (r, s') ->
  match r with
  | Ok res => exists st res' D', parse_statement sql = Ok st /\ sql_run st D = Some (res', D') /\ res ≡ res'
      /\ shows (session_store s') D'
  | Err e => refusal e = true /\ shows (session_store s') D
      /\ forall st, params = [] -> parse_statement sql = Ok st -> is_query st = true -> sql_run st D = None
  | Panic => False
  end.
Proof.
  intros (T & ks & Hm & HD) Htext Hfits Hrun. pose proof (execute_step sql params s r s' T ks Hm Htext Hfits Hrun) as Hstep.
  destruct r as [res|e|]; [| |done].
  - destruct Hstep as (st & T' & ks' & Hst & Hm' & He).
    destruct (shows_effect _ _ D T ks T' ks' st res Hm HD Hm' He) as (res' & D' & ? & ? & ?). by exists st, res', D'.
  - destruct Hstep as (He & [Hc _] & ks' & Hm'). split; [done|]. split; [by apply (shows_same (session_store s) _ D T ks ks')|].
    intros st -> Hst Hq. rewrite session_execute_run in Hrun. unfold execute, bind_st, lift in Hrun. rewrite Hst in Hrun.
    destruct (execute_statement st (session_store s)) as [o m'] eqn:Ho. injection Hrun as -> <-.
    by apply (query_answered (session_store s) T ks D st e m').
Qed.
End Refinement.

#[local] Existing Instance sample_debug.

(** ** Claims *)

(** C1. Sessions refine the relational database.  Take any history of sessions that
    starts on two new files: texts that return a result or an error; the process
    ending between two texts, recovery, and the next session on the same log or an
    emptied one; the process ending in the middle of a text on files that fail,
    recovery until it ends, and the next session on an emptied log, or on the same
    one if it holds whole transactions only.  It is a history of the specification:
    there is a database that the statements that were acknowledged, in their order,
    and some of those the process did not survive, produce on the empty one, each
    with the answer the client got up to the order of rows; the refused ones have
    left no trace.  The store shows that database, and the next text again answers
    as it does, or is refused and leaves it as it is; a query is refused only if the
    database has no answer to it.

    The crashes are those of sessions whose next transaction id is above the ids of
    the log ([log_is_fresh]).  The code does not see to that: ids start again at 1
    when a store is opened, and in a session on a kept log that is not through with
    the ids of the log a crash can leave a part of a transaction
    ([reused_tx_id_replays_uncommitted]). *)
Theorem sessions_refine_database {F : Type} `{VfsLaws F} `{TokenDebug} (h : list event) (s : SqlSession F) :
  history h s ->
  exists D, spec_history h D /\ shows (session_store s) D
    /\ forall sql params, sql_text sql -> text_fits sql (session_store s) ->
       match session_execute sql params s with
       | (Ok res, s') => exists st res' D', parse_statement sql = Ok st /\ sql_run st D = Some (res', D') /\ res ≡ res'
           /\ shows (session_store s') D'
       | (Err e, s') => refusal e = true /\ shows (session_store s') D
           /\ forall st, params = [] -> parse_statement sql = Ok st -> is_query st = true -> sql_run st D = None
       | (Panic, _) => False
       end.
Proof.
  intros Hh. enough (HD : exists D, spec_history h D /\ shows (session_store s) D).
  { destruct HD as (D & Hsp & Hs). exists D. split; [done|]. split; [done|]. intros sql params Htext Hfits.
    destruct (session_execute sql params s) as [r s'] eqn:Hrun. pose proof (execute_shows s D sql params r s' Hs Htext Hfits Hrun). by destruct r. }
  induction Hh as [d w m Hd Hcd Hw Hcw Hopen|h s sql params r s' _ (D & Hsp & Hs) Htext Hfits Hrun
                 |h s d report d' f w m _ (D & Hsp & T & ks & Hs & HD) Hh Hcd Hcl Hld Hll Hrec Hf Hcf Hw Hcw Hopen
                 |h s sql params g w r s' d' f w' m _ (D & Hsp & T & ks & Hs & HD) Htext Hfits Hlog Hld Hg Hw Hrun Hrec Hf Hcf Hlf Hw' Hcw' Hopen].
  - exists empty_database. split; [constructor|]. destruct (open_empty_store d w Hd Hcd Hw Hcw) as (m' & Hopen' & Hc & Hm).
    rewrite Hopen in Hopen'. injection Hopen' as <-. change (session_store (session_new m)) with m.
    eexists _, _. split; [exact Hm|]. rewrite Hc. apply represents_empty.
  - pose proof (execute_shows s D sql params r s' Hs Htext Hfits Hrun) as Hstep. destruct r as [res|e|]; [| |done].
    + destruct Hstep as (st & res' & D' & Hst & Hr & Heq & HD'). exists D'. split; [|done]. by apply (spec_run h D sql st res res').
    + destruct Hstep as (He & HD & _). exists D. split; [by constructor|done].
  - exists D. split; [done|].
    destruct (restart_run _ T ks d f w report d' Hs Hh Hcd Hcl Hld Hll Hrec Hf Hcf Hw Hcw) as (m' & ks' & Hopen' & Hc & _ & Hm).
    rewrite Hopen in Hopen'. injection Hopen' as <-. by apply (shows_same (session_store s) _ D T ks ks').
  - destruct (crash_step sql params s g w r s' d' f w' m T ks) as (T' & ks' & Hm & Hcases); try done.
    destruct Hcases as [(st & res & Hst & Hres & He)|(Hne & -> & Hc)].
    + destruct (shows_effect _ m D T ks T' ks' st res Hs HD Hm He) as (res' & D' & Hr & Heq & HD'). exists D'. split; [|done].
      apply (spec_survives h D sql r st res'); [done|done|done|]. intros b Hb. by rewrite (Hres b Hb).
    + exists D. split; [by constructor|]. by apply (shows_same (session_store s) _ D T ks ks').
Qed.

(** The database after the torn [INSERT] has its row, and a query finds it. *)
Lemma sessions_refine_database_witness :
  exists h D, history h survived /\ spec_history h D /\ shows (session_store survived) D
    /\ exists res D', sql_run (Select (Columns ["id"]) "users" None) D = Some (res, D')
         /\ Query [mkColumnInfo "id" "INT"] [[Integer 1]; [Integer 2]; [Integer 7]] ≡ res.
Proof.
  destruct survived_reached as [h Hh]. destruct (sessions_refine_database h survived Hh) as (D & Hsp & Hs & Hnext).
  exists h, D. split; [exact Hh|]. split; [exact Hsp|]. split; [exact Hs|]. specialize (Hnext "select id from users" []).
  assert (Ho : (session_execute "select id from users" [] survived).1
               = Ok (Query [mkColumnInfo "id" "INT"] [[Integer 1]; [Integer 2]; [Integer 7]])) by (vm_compute; reflexivity).
  assert (Hp : parse_statement "select id from users" = Ok (Select (Columns ["id"]) "users" None)) by (vm_compute; reflexivity).
  destruct (session_execute "select id from users" [] survived) as [o s']. cbn [fst] in Ho. subst o.
  destruct Hnext as (st & res & D' & Hst & Hrun & Hres & _).
  - split; [vm_compute; reflexivity|]. apply N.ltb_lt. vm_compute. reflexivity.
  - apply text_fits_checked. vm_compute. reflexivity.
  - rewrite Hp in Hst. injection Hst as <-. by exists res, D'.
Defined.
