(* ===== verification/SqlExecTheorems.v ===== *)
(** * SqlExecTheorems: what SQL statements and sessions promise *)

From S2P Require Import Prelude Core Bytes Page PageFacts PageOps Vfs VfsFacts PageStore Wal WalFacts WalStream WalTheorems Recovery RecoveryFacts Catalog CatalogFacts CatalogWf CatalogTheorems Heap HeapDb CatalogStore CatalogStoreFacts CatalogStoreTheorems Tx TxFacts TxCommit TxTheorems TxAuto Index IndexFacts IndexTree IndexReads IndexInsert TxIndex TxIndexFacts Double DoubleFacts Extension ExtensionTheorems SqlRow SqlRowTheorems Sql SqlGrammar SqlTheorems SqlRender SqlTyped SqlExec SqlDb SqlWrites SqlReads SqlStatements SqlRestart SqlQuiet SqlCrash SqlSessions.

#[local] Existing Instance sample_debug.

(** ** Claims *)

(** C3. A query returns exactly what it asks for.  On an idle store whose tables
    and indexes agree, the names are resolved first: an unknown table or column,
    or an index named as a table, is a user error that changes nothing.  Otherwise
    the query succeeds with the headers of the projected columns and, up to their
    order, the projection of exactly those rows of the table that pass the
    comparison, whether the rows came from a scan or through an index.  The store
    shows what it showed before. *)
Theorem select_answers_query {F : Type} `{VfsLaws F} (m : TransactionalStore F) T ks projection table selection :
  sql_store m T ks ->
  match resolve_query projection table selection (catalog (store m)) with
  | Ok (r, js, predicate) =>
      if is_heap_table r
      then exists rows m', execute_select projection table selection m
             = (Ok (Query (column_info <$> project js (columns r)) rows), m')
           /\ rows ≡ₚ answer predicate js (table_rows (T (rel_id r)))
           /\ sql_store m' T ks /\ same_committed m m'
      else execute_select projection table selection m = (Err (not_a_heap_table (rel_id r)), m)
  | Err e => is_user e = true /\ execute_select projection table selection m = (Err e, m)
  | Panic => False
  end.
Proof.
  intros Hm. pose proof (execute_select_run m T ks projection table selection Hm) as Hrun.
  destruct (resolve_query projection table selection (catalog (store m))) as [[[r js] predicate]|e|]; [|done|done].
  destruct (is_heap_table r); [|done]. destruct Hrun as (rows & m' & Hrun & Hrows & Hv). exists rows, m'. split_and!; [done|done| |].
  - by apply (sql_store_same_view m).
  - split; apply Hv.
Qed.

(** The query goes through the index on [id]; two rows have the key. *)
Lemma select_answers_query_witness :
  exists T ks rows m', sql_store (session_store three_rows) T ks
    /\ execute_select (Columns ["name"]) "users" (Some (mkSelection "id" (Integer 2))) (session_store three_rows)
       = (Ok (Query [mkColumnInfo "name" "TEXT"] rows), m')
    /\ rows = [[Text "Bob"]; [Text "Eve"]]
    /\ rows ≡ₚ answer (Some (0%nat, Integer 2)) [1%nat] (table_rows (T 1)).
Proof.
  destruct (reaches_store three_rows three_rows_reached) as (T & ks & Hs).
  pose proof (select_answers_query (session_store three_rows) T ks (Columns ["name"]) "users"
                (Some (mkSelection "id" (Integer 2))) Hs) as Hq.
  assert (Hr : resolve_query (Columns ["name"]) "users" (Some (mkSelection "id" (Integer 2)))
                 (catalog (store (session_store three_rows)))
               = Ok (mkRelationInfo 1 "users" Table (Heap [1]) [mkColumnDef "id" "INT"; mkColumnDef "name" "TEXT"],
                     [1%nat], Some (0%nat, Integer 2))) by (vm_compute; reflexivity).
  rewrite Hr in Hq. destruct Hq as (rows & m' & Hrun & Hrows & _).
  assert (Ho : (execute_select (Columns ["name"]) "users" (Some (mkSelection "id" (Integer 2))) (session_store three_rows)).1
               = Ok (Query [mkColumnInfo "name" "TEXT"] [[Text "Bob"]; [Text "Eve"]])) by (vm_compute; reflexivity).
  rewrite Hrun in Ho. cbn [fst] in Ho. injection Ho as Ho.
  exists T, ks, rows, m'. split_and!; [exact Hs|exact Hrun|exact Ho|exact Hrows].
Defined.

(** C4. [INSERT] adds exactly one row.  When it succeeds, the named table has one
    row more, under a new row id, which decodes to the coerced values; the other
    tables have their rows, and every index still holds exactly the entries of
    its table.  Any failure is a user error, and the committed pages, the catalog
    and the agreement of tables and indexes are as before. *)
Theorem insert_adds_one_row {F : Type} `{VfsLaws F} (m : TransactionalStore F) T ks table values :
  sql_store m T ks -> Forall value_typed values -> insert_fits table values m ->
  match execute_insert table values m with
  | (Ok res, m') => res = StatementComplete 1
      /\ exists r vs T' ks', relation_by_name table (catalog (store m)) = Some r
           /\ coerce_values (columns r) values = Ok vs /\ one_more_row r vs T T'
           /\ sql_store m' T' ks' /\ schema (catalog (store m')) = schema (catalog (store m))
  | (Err e, m') => refusal e = true /\ same_committed m m' /\ exists ks', sql_store m' T ks'
  | (Panic, _) => False
  end.
Proof.
  intros Hm Hty Hfits. pose proof (execute_insert_run table values m T ks Hm Hty Hfits) as Hrun. unfold statement_outcome in Hrun.
  destruct (execute_insert table values m) as [[res|e|] m']; [|done|done].
  destruct Hrun as (T' & ks' & Hm' & -> & [Hsch _] & r & vs & Hr & _ & Hvs & Hone). split; [done|]. by exists r, vs, T', ks'.
Qed.

Lemma insert_adds_one_row_witness :
  exists T ks T' ks' m', sql_store (session_store indexed) T ks
    /\ execute_insert "users" [Integer 7; Null] (session_store indexed) = (Ok (StatementComplete 1), m')
    /\ sql_store m' T' ks'
    /\ exists r, one_more_row r [Integer 7; Null] T T'.
Proof.
  destruct (reaches_store indexed indexed_reached) as (T & ks & Hs).
  pose proof (insert_adds_one_row (session_store indexed) T ks "users" [Integer 7; Null] Hs) as Hi.
  assert (Hrun : (execute_insert "users" [Integer 7; Null] (session_store indexed)).1 = Ok (StatementComplete 1))
    by (vm_compute; reflexivity).
  destruct (execute_insert "users" [Integer 7; Null] (session_store indexed)) as [o m']. cbn [fst] in Hrun. subst o.
  destruct Hi as (_ & r & vs & T' & ks' & Hr & Hvs & Hone & Hm' & _).
  - repeat constructor; vm_compute; congruence.
  - apply (statement_fits_checked (Insert "users" [Integer 7; Null])). vm_compute. reflexivity.
  - assert (Hv : match relation_by_name "users" (catalog (store (session_store indexed))) with
                 | Some r => coerce_values (columns r) [Integer 7; Null]
                 | None => Panic
                 end = Ok [Integer 7; Null]) by (vm_compute; reflexivity).
    rewrite Hr, Hvs in Hv. injection Hv as ->. exists T, ks, T', ks', m'. split_and!; [exact Hs|reflexivity|exact Hm'|]. by exists r.
Defined.

(** C7. [CREATE INDEX] builds a complete index.  When it succeeds, the catalog has
    one index relation more, on the named column of the named table, which holds
    exactly the entries of the rows that are already there; tables and the other
    indexes are as before.  Any failure is a user error that leaves the committed
    state as it was. *)
Theorem create_index_is_complete {F : Type} `{VfsLaws F} (m : TransactionalStore F) T ks name table column :
  sql_store m T ks -> string_ok name -> create_index_fits name table column m ->
  match execute_create_index name table column m with
  | (Ok res, m') => res = StatementComplete 0
      /\ exists r j d idx P es ks', relation_by_name table (catalog (store m)) = Some r
           /\ columns r !! j = Some d /\ col_name d = column
           /\ schema (catalog (store m'))
              = schema (catalog (store m)) ++ [(idx, name, Index, [mkColumnDef column "INDEX_KEY"], Some (rel_id r, column))]
           /\ index_rep (catalog (store m')) (view (data m')) idx P es
           /\ es ≡ₚ entries_of j (table_rows (T (rel_id r)))
           /\ sql_store m' T ks'
  | (Err e, m') => refusal e = true /\ same_committed m m' /\ exists ks', sql_store m' T ks'
  | (Panic, _) => False
  end.
Proof.
  intros Hm Hname Hfits. pose proof (execute_create_index_run name table column m T ks Hm Hname Hfits) as Hrun.
  unfold statement_outcome in Hrun. destruct (execute_create_index name table column m) as [[res|e|] m']; [|done|done].
  destruct Hrun as (T' & ks' & Hm' & -> & -> & _ & r & _ & _ & Hr & Hk & _ & _ & _ & Hsch & _). split; [done|].
  pose proof Hm' as [_ [X HX]]. set (idx := next_relation_id (catalog (store m))) in *.
  assert (Hidx : index_in (schema (catalog (store m'))) idx (rel_id r) column).
  { exists name, [mkColumnDef column "INDEX_KEY"]. rewrite Hsch. apply elem_of_app. right. by left. }
  assert (Htab : table_in (schema (catalog (store m'))) (rel_id r) (columns r)).
  { pose proof (sql_store_wf m T ks Hm) as Hwf. destruct (is_table_in _ Hwf (rel_id r) r) as [n Hin].
    - split; [|done]. apply relation_found; [done|]. by apply relation_by_name_Some in Hr as [? _].
    - exists n. rewrite Hsch. apply elem_of_app. by left. }
  destruct (sd_entries _ _ _ _ HX _ _ _ _ Hidx Htab) as (j & d & Hj & Hd & _ & Hes).
  exists r, j, d, idx, (X idx).1, (X idx).2, ks'. split_and!; try done. by apply (is_rep _ _ _ (sd_indexes _ _ _ _ HX) idx (rel_id r) column).
Qed.

Lemma create_index_is_complete_witness :
  exists T ks m' P es, sql_store (session_store two_rows) T ks
    /\ execute_create_index "users_name" "users" "name" (session_store two_rows) = (Ok (StatementComplete 0), m')
    /\ index_rep (catalog (store m')) (view (data m')) 2 P es /\ exists j, es ≡ₚ entries_of j (table_rows (T 1)).
Proof.
  destruct (reaches_store two_rows two_rows_reached) as (T & ks & Hs).
  pose proof (create_index_is_complete (session_store two_rows) T ks "users_name" "users" "name" Hs) as Hi.
  assert (Hrun : (execute_create_index "users_name" "users" "name" (session_store two_rows)).1 = Ok (StatementComplete 0))
    by (vm_compute; reflexivity).
  assert (Hcat : catalog (store (execute_create_index "users_name" "users" "name" (session_store two_rows)).2)
    = mkCatalog 3 3 [mkRelationInfo 1 "users" Table (Heap [1]) [mkColumnDef "id" "INT"; mkColumnDef "name" "TEXT"];
                     mkRelationInfo 2 "users_name" Index (BPlusTree (mkIndexStorage 1 "name" 2)) [mkColumnDef "name" "INDEX_KEY"]] [])
    by (vm_compute; reflexivity).
  destruct (execute_create_index "users_name" "users" "name" (session_store two_rows)) as [o m']. cbn [fst snd] in *. subst o.
  destruct Hi as (_ & r & j & d & idx & P & es & ks' & Hr & _ & _ & Hsch & Hrep & Hes & _).
  - vm_compute. reflexivity.
  - apply (statement_fits_checked (CreateIndex "users_name" "users" "name")). vm_compute. reflexivity.
  - exists T, ks, m', P, es. rewrite Hcat in Hsch.
    assert (Hc : catalog (store (session_store two_rows))
      = mkCatalog 2 2 [mkRelationInfo 1 "users" Table (Heap [1]) [mkColumnDef "id" "INT"; mkColumnDef "name" "TEXT"]] [])
      by (vm_compute; reflexivity).
    rewrite Hc in Hr, Hsch. vm_compute in Hr. injection Hr as <-. vm_compute in Hsch. injection Hsch as <-.
    split_and!; [exact Hs|reflexivity|exact Hrep|]. exists j. exact Hes.
Defined.

(** C6. Sessions keep the database consistent.  Take any state of a history
    ([reaches]): sessions that start on two new files, whatever their texts
    returned, with restarts between two texts, on the same log or an emptied one,
    and with crashes while a text is executed on files that fail, in sessions whose
    next transaction id is above the ids of the log.  After a crash the next session
    has an empty log, or the same one if it holds whole transactions only.  In every
    such state the store is idle, every row of a table holds values of the types of
    its columns, and every index is a B+tree with exactly the entries of its column.
    The next text either succeeds with the effect of the statement it denotes, or is
    refused with a user or extension error and changes nothing that is committed; it
    never panics, and no other class of error occurs. *)
Theorem session_invariant {F : Type} `{VfsLaws F} `{TokenDebug} (s : SqlSession F) :
  reaches s ->
  exists T ks, sql_store (session_store s) T ks
    /\ forall sql params, sql_text sql -> text_fits sql (session_store s) ->
       match session_execute sql params s with
       | (Ok res, s') => params = [] /\ exists st T' ks', parse_statement sql = Ok st
           /\ sql_store (session_store s') T' ks'
           /\ statement_effect st (catalog (store (session_store s))) T res T'
                (catalog (store (session_store s')))
       | (Err e, s') => refusal e = true /\ same_committed (session_store s) (session_store s')
           /\ exists ks', sql_store (session_store s') T ks'
       | (Panic, _) => False
       end.
Proof.
  intros Hs. destruct (reaches_store s Hs) as (T & ks & Hm). exists T, ks. split; [done|].
  intros sql params Htext Hfits. rewrite session_execute_run.
  pose proof (execute_run sql params _ T ks Hm Htext Hfits) as Hout. unfold statement_outcome in Hout.
  destruct (execute sql params (session_store s)) as [[res|e|] m']; [|done|done].
  destruct Hout as (T' & ks' & Hm' & Hp & st & Hst & He). split; [done|]. by exists st, T', ks'.
Qed.

Lemma session_invariant_witness :
  exists T ks, sql_store (session_store survived) T ks
    /\ exists e s', session_execute "insert into users values ('x', 1)" [] survived = (Err (User e), s')
         /\ same_committed (session_store survived) (session_store s').
Proof.
  destruct (session_invariant survived survived_reached) as (T & ks & Hs & Hnext).
  exists T, ks. split; [exact Hs|]. specialize (Hnext "insert into users values ('x', 1)" []).
  assert (Hrun : (session_execute "insert into users values ('x', 1)" [] survived).1
                 = Err (User "column 'id' expects integer, type is INT")
               /\ text_fits_check "insert into users values ('x', 1)" (session_store survived) = true)
    by (vm_compute; split; reflexivity).
  destruct Hrun as [Ho Hfits].
  destruct (session_execute "insert into users values ('x', 1)" [] survived) as [o s']. cbn [fst] in Ho. subst o.
  destruct Hnext as (_ & Hsame & _).
  - split; [vm_compute; reflexivity|]. apply N.ltb_lt. vm_compute. reflexivity.
  - apply (text_fits_checked _ _ Hfits).
  - exists "column 'id' expects integer, type is INT", s'. split; [exact eq_refl|exact Hsame].
Defined.

(** C5. Statements are atomic under crashes.  A text runs on files that may fail at
    any operation, reads included, or cut a write short, and the process ends with
    what it got back; recovery then runs on what the files hold, any number of
    times, until a pass succeeds or reports, on files that work, that the log does
    not scan.  It leaves the database that the statement was to leave, with every
    index in agreement with its table, or, if no result had been returned, the
    database as it was.  A query that returns returns the right rows all the same.
    Nothing panics.

    It holds of sessions whose next transaction id is above the ids of the log
    ([log_is_fresh]): those on a log that was new or emptied when they were opened,
    and those on a kept log once they are through with its ids.  Before that it is
    false of the code ([reused_tx_id_replays_uncommitted]). *)
Theorem session_crash_atomic {F : Type} `{VfsLaws F} `{TokenDebug} (s : SqlSession F) T ks sql params g w r s' d' :
  sql_store (session_store s) T ks -> log_is_fresh (session_store s) ->
  sql_text sql -> text_fits sql (session_store s) -> len (contents (data (session_store s))) <= U64_MAX ->
  contents g = contents (data (session_store s)) -> contents w = contents (wal_file (wal (session_store s))) ->
  session_execute sql params (mkSqlSession (store_on g w (session_store s))) = (r, s') ->
  recovers_to (session_store s') d' ->
  let c := catalog (store (session_store s)) in
  r <> Panic
  /\ ((exists st res c' T', params = [] /\ parse_statement sql = Ok st
          /\ (forall b, r = Ok b -> b = res) /\ statement_effect st c T res T' c' /\ database_on (data_file d') c' T')
      \/ ((forall b, r <> Ok b) /\ database_on (data_file d') c T)).
Proof.
  intros Hm Hlog Htext Hfits Hl Hg Hw Hrun Hrec. rewrite session_execute_run in Hrun. cbn [session_store] in Hrun.
  destruct (execute sql params (store_on g w (session_store s))) as [o m2] eqn:Ho. injection Hrun as <- <-.
  destruct (execute_crash sql params _ T ks g w o m2 d' Hm Hlog Htext Hfits Hl Hg Hw Ho Hrec) as [Hp Hcases]. split; [done|].
  destruct Hcases as [(res & c & T' & Hr & (Hps & st & Hst & He) & Hdb)|Hold]; [left|by right]. by exists st, res, c, T'.
Qed.

Definition torn_insert : DbResult ExecResult * SqlSession SimFile := torn_at 3 "insert into users values (7, NULL)" indexed.
Lemma torn_insert_fails : torn_insert.1 = Err (Io OtherIo).
Proof. vm_compute. reflexivity. Qed.
Lemma indexed_run :
  log_is_fresh_check (session_store indexed) = true
  /\ text_fits_check "insert into users values (7, NULL)" (session_store indexed) = true
  /\ (len (contents (data (session_store indexed))) <=? U64_MAX) = true.
Proof. vm_compute. split; [|split]; reflexivity. Qed.

Lemma session_crash_atomic_witness :
  exists T ks d', sql_store (session_store indexed) T ks /\ torn_insert.1 = Err (Io OtherIo)
    /\ recovers_to (session_store torn_insert.2) d'
    /\ exists c' T', database_on (data_file d') c' T' /\ (T' = T \/ exists st res,
         parse_statement "insert into users values (7, NULL)" = Ok st
         /\ statement_effect st (catalog (store (session_store indexed))) T res T' c').
Proof.
  destruct (reaches_store indexed indexed_reached) as (T & ks & Hs).
  exists T, ks, (recover_page_file (reboot_store (session_store torn_insert.2))).2. split; [exact Hs|].
  destruct indexed_run as (Hfresh & Hfits & Hlen).
  split; [exact torn_insert_fails|]. split; [exact (recovered_rebooted _)|].
  destruct (session_crash_atomic indexed T ks "insert into users values (7, NULL)" []
              (mkSimFile (contents (data (session_store indexed))) (replicate 3 (Transfer 4096) ++ [Transfer 100; Failure]))
              (wal_file (wal (session_store indexed))) torn_insert.1 torn_insert.2
              (recover_page_file (reboot_store (session_store torn_insert.2))).2 Hs)
    as (_ & [(st & res & c' & T' & _ & Hst & _ & He & Hdb)|(_ & Hdb)]).
  - apply (log_is_fresh_checked _ Hfresh).
  - split; [vm_compute; reflexivity|]. apply N.ltb_lt. vm_compute. reflexivity.
  - apply (text_fits_checked _ _ Hfits).
  - apply N.leb_le, Hlen.
  - apply contents_sim.
  - exact eq_refl.
  - unfold torn_insert, torn_at. cbv zeta. apply surjective_pairing.
  - exact (recovered_rebooted _).
  - exists c', T'. split; [exact Hdb|]. right. exists st, res. split; [exact Hst|exact He].
  - exists (catalog (store (session_store indexed))), T. split; [exact Hdb|]. left. reflexivity.
Defined.
