(* ===== verification/Database.v ===== *)
(** * Database: opening a database by path

    The trait [Vfs] of crate [rdbms_vfs], its standard implementation, and the
    functions of four crates that open files by path: [open_page_file],
    [open_catalog_store], [open_transactional_store] and [open_database].

    A file handle of the program writes through to the file system.  Here a handle
    carries the contents of its file, and [vfs_release] hands them back when the
    handle is dropped.  The program never holds two handles of one path, so no
    other handle can tell the difference. *)

From S2P Require Import Prelude Core Bytes Page Vfs VfsFacts Wal Recovery Catalog CatalogStore Tx.

Definition Path : Type := string.

(** ** The trait *)

(** [open_database] of the trait, and the drop of a handle. *)
Class Vfs (V F : Type) : Type := {
  vfs_open_database : Path -> db V F;
  vfs_release : Path -> F -> V -> V
}.

(** What a file system promises: opening shows what the path held, creates the
    path when there is none and touches no other path; it can fail, but not on a
    healthy file system. *)
Class VfsDirLaws (V F : Type) `{Vfs V F} `{VfsLaws F} : Type := {
  file_at : V -> Path -> option (list byte);
  dir_healthy : V -> Prop;
  open_law v p r v' :
    vfs_open_database p v = (r, v') ->
    r <> Panic /\ (dir_healthy v -> dir_healthy v')
    /\ (forall q, q <> p -> file_at v' q = file_at v q)
    /\ default [] (file_at v' p) = default [] (file_at v p)
    /\ (forall f, r = Ok f -> file_at v' p = Some (contents f))
    /\ (dir_healthy v -> exists f, r = Ok f /\ healthy f);
  release_law v p f :
    (dir_healthy v -> dir_healthy (vfs_release p f v))
    /\ (forall q, file_at (vfs_release p f v) q = if decide (q = p) then Some (contents f) else file_at v q)
}.

(** ** The operating system's directory

    [OpenOptions::new().read(true).write(true).create(true).open(path)] and the
    close of the file. *)

Class OsDir (D F : Type) : Type := {
  os_open : Path -> st D ErrorKind F;
  os_close : Path -> F -> D -> D
}.

Class OsDirLaws (D F : Type) `{OsDir D F} `{OsLaws F} : Type := {
  os_file_at : D -> Path -> option (list byte);
  os_dir_healthy : D -> Prop;
  os_open_law d p r d' :
    os_open p d = (r, d') ->
    (os_dir_healthy d -> os_dir_healthy d')
    /\ (forall q, q <> p -> os_file_at d' q = os_file_at d q)
    /\ default [] (os_file_at d' p) = default [] (os_file_at d p)
    /\ match r with
       | Ok f => os_file_at d' p = Some (os_contents f) /\ (os_dir_healthy d -> os_healthy f)
       | Err _ => ~ os_dir_healthy d
       | Panic => False
       end;
  os_close_law d p f :
    (os_dir_healthy d -> os_dir_healthy (os_close p f d))
    /\ (forall q, os_file_at (os_close p f d) q = if decide (q = p) then Some (os_contents f) else os_file_at d q)
}.

Section StdVfs.
Context {D F : Type} `{OsDirLaws D F}.
#[local] Existing Instance StdVfsFile.
#[local] Existing Instance StdVfsLaws.

(** [impl Vfs for StdVfs]: [?] turns the [io::Error] into a [DbError]. *)
#[local] Instance StdVfs : Vfs D F := {
  vfs_open_database p := fun d => let '(r, d') := os_open p d in (from_io_error r, d');
  vfs_release := os_close
}.

#[local] Instance StdVfsDirLaws : VfsDirLaws D F.
Proof.
  refine {| file_at := os_file_at; dir_healthy := os_dir_healthy |}.
  - intros d p r d'. cbn. destruct (os_open p d) as [o d1] eqn:Ho. intros [= <- <-].
    apply os_open_law in Ho as (Hh & Hq & Hp & Ho). split_and!; [by destruct o|done|done|done|..].
    + destruct o as [f|e|]; intros g [= <-]. apply Ho.
    + intros Hd. destruct o as [f|e|]; [|by destruct Ho|done]. exists f. split; [done|]. by apply Ho.
  - apply os_close_law.
Defined.
End StdVfs.

(** ** Opening by path *)

Record DatabasePaths : Type := mkDatabasePaths { data_path : Path; wal_path : Path }.

(** The handle of [rdbms_recovery::open_database]: the page file stays open. *)
Record RecoveredDatabase (F : Type) : Type := mkRecoveredDatabase { rdb_page_file : F; recovery_report : RecoveryReport }.
Arguments mkRecoveredDatabase {F}.
Arguments rdb_page_file {F}.
Arguments recovery_report {F}.

Section Open.
Context {V F : Type} `{Vfs V F} `{VfsFile F}.

Definition open_page_file (path : Path) : db V F := vfs_open_database path.

(** What [CatalogStore::open] gives on the opened file; a file that is not kept
    is dropped. *)
Definition open_catalog_store (path : Path) : db V (CatalogStore F) :=
  let! f := open_page_file path in fun v =>
  match open f with
  | (Ok s, _) => (Ok s, v)
  | (Err e, f') => (Err e, vfs_release path f' v)
  | (Panic, f') => (Panic, vfs_release path f' v)
  end.

(** The drop of a store closes its two files. *)
Definition close_store (paths : DatabasePaths) (m : TransactionalStore F) (v : V) : V :=
  vfs_release (wal_path paths) (wal_file (wal m))
    (vfs_release (data_path paths) (CatalogStore.page_file (store m)) v).

(** [open_transactional_store], with its paths.  Asking the log for its length
    does not change it. *)
Definition open_transactional_store_at (paths : DatabasePaths) : db V (TransactionalStore F) :=
  let! s := open_catalog_store (data_path paths) in fun v =>
  match vfs_open_database (wal_path paths) v with
  | (Ok w, v1) =>
      match wal_writer_new w with
      | Ok wr => (Ok (tx_store_new s wr), v1)
      | Err e => (Err e, vfs_release (data_path paths) (CatalogStore.page_file s) (vfs_release (wal_path paths) w v1))
      | Panic => (Panic, vfs_release (data_path paths) (CatalogStore.page_file s) (vfs_release (wal_path paths) w v1))
      end
  | (Err e, v1) => (Err e, vfs_release (data_path paths) (CatalogStore.page_file s) v1)
  | (Panic, v1) => (Panic, vfs_release (data_path paths) (CatalogStore.page_file s) v1)
  end.

Definition close_files (paths : DatabasePaths) (d : DbFiles F) (v : V) : V :=
  vfs_release (data_path paths) (data_file d) (vfs_release (wal_path paths) (log_file d) v).

(** [rdbms_recovery::open_database]: the log is closed when the pass is over. *)
Definition open_database (paths : DatabasePaths) : db V (RecoveredDatabase F) :=
  let! data := vfs_open_database (data_path paths) in fun v =>
  match vfs_open_database (wal_path paths) v with
  | (Ok w, v1) =>
      match recover_page_file (mkDbFiles data w) with
      | (Ok report, d) => (Ok (mkRecoveredDatabase (data_file d) report), vfs_release (wal_path paths) (log_file d) v1)
      | (Err e, d) => (Err e, close_files paths d v1)
      | (Panic, d) => (Panic, close_files paths d v1)
      end
  | (Err e, v1) => (Err e, vfs_release (data_path paths) data v1)
  | (Panic, v1) => (Panic, vfs_release (data_path paths) data v1)
  end.
End Open.

(** ** A simulated directory

    Files by name, and for every open still to come the outcomes its handle will
    see, or [None] when the open is refused. *)

Record SimDir : Type := mkSimDir { dir_files : gmap Path (list byte); dir_script : list (option (list event)) }.

#[export] Instance SimOsDir : OsDir SimDir SimFile := {
  os_open p d :=
    let c := default [] (dir_files d !! p) in
    match dir_script d with
    | [] => (Ok (mkSimFile c []), mkSimDir (<[p := c]> (dir_files d)) [])
    | Some script :: rest => (Ok (mkSimFile c script), mkSimDir (<[p := c]> (dir_files d)) rest)
    | None :: rest => (Err OtherIo, mkSimDir (dir_files d) rest)
    end;
  os_close p f d := mkSimDir (<[p := sim_contents f]> (dir_files d)) (dir_script d)
}.

#[export] Instance SimDirVfs : Vfs SimDir SimFile := StdVfs.

#[export] Instance SimOsDirLaws : OsDirLaws SimDir SimFile.
Proof.
  refine {| os_file_at d p := dir_files d !! p;
            os_dir_healthy d := Forall (fun o => exists script, o = Some script /\ sim_healthy (mkSimFile [] script)) (dir_script d) |}.
  - intros [files script] p r d'. cbn. set (c := default [] (files !! p)).
    assert (Hkeep : forall q, q <> p -> <[p := c]> files !! q = files !! q) by (intros q Hq; by rewrite lookup_insert_ne).
    destruct script as [|[script|] rest]; intros [= <- <-]; cbn [dir_files dir_script].
    + rewrite lookup_insert. split_and!; [done|done|by destruct (decide (p = p))|by destruct (decide (p = p))|constructor].
    + rewrite lookup_insert. split; [by inversion 1|]. split; [done|]. split; [by destruct (decide (p = p))|].
      split; [by destruct (decide (p = p))|]. intros [(s & [= <-] & Hs) _]%Forall_cons. exact Hs.
    + split; [by inversion 1|]. split; [done|]. split; [done|]. intros [(s & ? & _) _]%Forall_cons. done.
  - intros [files script] p f. split; [done|]. intros q. cbn. destruct (decide (q = p)) as [-> |Hq].
    + rewrite lookup_insert. by destruct (decide (p = p)).
    + by rewrite lookup_insert_ne.
Defined.

#[export] Instance SimDirLaws : VfsDirLaws SimDir SimFile := StdVfsDirLaws.
