(* ===== verification/DatabaseTheorems.v ===== *)
(** * DatabaseTheorems: what opening a database by path promises *)

From S2P Require Import Prelude Core Bytes Page PageFacts PageOps Vfs VfsFacts PageStore Wal WalFacts WalStream WalTheorems Recovery RecoveryFacts Catalog CatalogFacts CatalogWf CatalogTheorems Heap HeapDb CatalogStore CatalogStoreFacts Tx TxFacts TxCommit TxTheorems TxAuto Index TxIndex TxIndexFacts SqlRow Sql SqlTheorems SqlExec SqlDb SqlWrites SqlReads SqlStatements SqlRestart SqlQuiet SqlCrash SqlSessions SqlExecTheorems Database.

Section Opening.
Context {V F : Type} `{VfsDirLaws V F}.
Implicit Types (v : V) (paths : DatabasePaths).

Lemma open_run p v :
  dir_healthy v ->
  exists f v', vfs_open_database p v = (Ok f, v') /\ healthy f /\ dir_healthy v'
    /\ contents f = default [] (file_at v p) /\ file_at v' p = Some (contents f)
    /\ (forall q, q <> p -> file_at v' q = file_at v q).
Proof.
  intros Hv. destruct (vfs_open_database p v) as [r v'] eqn:Hr.
  apply open_law in Hr as (_ & Hh & Hq & Hp & Hok & Hsucc). destruct (Hsucc Hv) as (f & -> & Hf).
  pose proof (Hok f eq_refl) as Hc. exists f, v'. split_and!; auto. by rewrite <- Hp, Hc.
Qed.

(** The files of the two paths are opened one after the other. *)
Lemma open_files_run paths v :
  dir_healthy v -> data_path paths <> wal_path paths ->
  exists data v1 log v2, vfs_open_database (data_path paths) v = (Ok data, v1)
    /\ vfs_open_database (wal_path paths) v1 = (Ok log, v2)
    /\ files_healthy (mkDbFiles data log) /\ dir_healthy v2
    /\ contents data = default [] (file_at v (data_path paths))
    /\ contents log = default [] (file_at v (wal_path paths))
    /\ (forall q, q <> data_path paths -> q <> wal_path paths -> file_at v2 q = file_at v q).
Proof.
  intros Hv Hne. destruct (open_run (data_path paths) v Hv) as (data & v1 & Ho1 & Hd & Hv1 & Hc1 & _ & Hq1).
  destruct (open_run (wal_path paths) v1 Hv1) as (log & v2 & Ho2 & Hl & Hv2 & Hc2 & _ & Hq2).
  exists data, v1, log, v2. split_and!; try done.
  - by rewrite Hc2, Hq1 by congruence.
  - intros q Hd' Hw'. by rewrite Hq2, Hq1.
Qed.

(** A store that opens on two files opens on the paths that hold them. *)
Lemma open_store_at paths v data v1 log v2 m :
  vfs_open_database (data_path paths) v = (Ok data, v1) -> vfs_open_database (wal_path paths) v1 = (Ok log, v2) ->
  open_transactional_store data log = Ok m -> open_transactional_store_at paths v = (Ok m, v2).
Proof.
  intros Ho1 Ho2 Hm. unfold open_transactional_store_at, open_catalog_store, open_page_file, bind_st. rewrite Ho1.
  unfold open_transactional_store in Hm. destruct (open data) as [[s|e|] f']; [|done|done]. cbn [fst bind_outcome] in Hm.
  rewrite Ho2. destruct (wal_writer_new log) as [wr|e|]; [|done|done]. cbn [bind_outcome] in Hm. by injection Hm as <-.
Qed.

Lemma open_database_at paths v data v1 log v2 report d :
  vfs_open_database (data_path paths) v = (Ok data, v1) -> vfs_open_database (wal_path paths) v1 = (Ok log, v2) ->
  recover_page_file (mkDbFiles data log) = (Ok report, d) ->
  open_database paths v
  = (Ok (mkRecoveredDatabase (data_file d) report), vfs_release (wal_path paths) (log_file d) v2).
Proof. intros Ho1 Ho2 Hr. unfold open_database, bind_st. by rewrite Ho1, Ho2, Hr. Qed.

(** Two paths without files give a new, empty database. *)
Lemma new_database_opens `{TokenDebug} paths v :
  dir_healthy v -> data_path paths <> wal_path paths ->
  file_at v (data_path paths) = None -> file_at v (wal_path paths) = None ->
  exists m v', open_transactional_store_at paths v = (Ok m, v') /\ dir_healthy v' /\ reaches (session_new m).
Proof.
  intros Hv Hne Hd Hw.
  destruct (open_files_run paths v Hv Hne) as (data & v1 & log & v2 & Ho1 & Ho2 & [Hhd Hhl] & Hv2 & Hc1 & Hc2 & _).
  rewrite Hd in Hc1. rewrite Hw in Hc2. cbn [default data_file log_file] in *.
  destruct (open_empty_store data log Hhd Hc1 Hhl Hc2) as (m & Hm & _). exists m, v2.
  split; [by apply (open_store_at paths v data v1 log)|]. split; [done|]. by apply (reaches_new data log).
Qed.

Lemma release_other v p f q : q <> p -> file_at (vfs_release p f v) q = file_at v q.
Proof. intros Hq. destruct (release_law v p f) as [_ ->]. by rewrite decide_False. Qed.
Lemma release_same v p f : file_at (vfs_release p f v) p = Some (contents f).
Proof. destruct (release_law v p f) as [_ ->]. by rewrite decide_True. Qed.
Lemma release_healthy v p f : dir_healthy v -> dir_healthy (vfs_release p f v).
Proof. apply release_law. Qed.

(** What the paths of a closed store hold. *)
Lemma close_store_files paths (m : TransactionalStore F) v :
  data_path paths <> wal_path paths ->
  file_at (close_store paths m v) (data_path paths) = Some (contents (data m))
  /\ file_at (close_store paths m v) (wal_path paths) = Some (contents (wal_file (wal m)))
  /\ (forall q, q <> data_path paths -> q <> wal_path paths -> file_at (close_store paths m v) q = file_at v q).
Proof.
  intros Hne. unfold close_store. split_and!.
  - rewrite release_other by done. apply release_same.
  - apply release_same.
  - intros q Hd Hw. by rewrite !release_other.
Qed.
End Opening.

(** C8. A database survives its process.  Drop the store of any reachable session,
    open the two paths for recovery, drop the recovered page file and open the
    data path again, with the log path or with one that has no file: recovery
    succeeds, opening succeeds, the store has the catalog, the pages, the tables
    and the complete indexes of the dropped one, and a session on it is again one
    of the reachable sessions.  No other file of the file system has changed. *)
Theorem database_reopens {V F : Type} `{VfsDirLaws V F} `{TokenDebug} (s : SqlSession F) paths log_path (v : V) :
  let m := session_store s in
  reaches s -> dir_healthy v -> data_path paths <> wal_path paths ->
  log_path = wal_path paths \/ (log_path <> data_path paths /\ log_path <> wal_path paths /\ file_at v log_path = None) ->
  len (contents (data m)) <= U64_MAX -> len (contents (wal_file (wal m))) <= U64_MAX ->
  exists T ks rdb v1 m' v2 ks', sql_store m T ks /\ open_database paths (close_store paths m v) = (Ok rdb, v1)
    /\ open_transactional_store_at (mkDatabasePaths (data_path paths) log_path)
         (vfs_release (data_path paths) (rdb_page_file rdb) v1) = (Ok m', v2)
    /\ catalog (store m') = catalog (store m) /\ (forall i, view (data m') i = view (data m) i)
    /\ sql_store m' T ks' /\ reaches (session_new m')
    /\ (forall q, q <> data_path paths -> q <> wal_path paths -> q <> log_path -> file_at v2 q = file_at v q).
Proof.
  intros m Hs Hv Hne Hp Hld Hll. destruct (reaches_store s Hs) as (T & ks & Hm).
  destruct (close_store_files paths m v Hne) as (Hcd & Hcw & Hco).
  assert (Hv0 : dir_healthy (close_store paths m v)) by (by apply release_healthy, release_healthy).
  destruct (open_files_run paths _ Hv0 Hne) as (data & v1 & log & v2 & Ho1 & Ho2 & Hh & Hv2 & Hc1 & Hc2 & Hq2).
  rewrite Hcd in Hc1. rewrite Hcw in Hc2. cbn [default] in Hc1, Hc2. unfold id in Hc1, Hc2.
  destruct (recover_store_run m T ks (mkDbFiles data log) Hm Hh) as (report & d & Hrec & _);
    [cbn [data_file log_file]; by rewrite ?Hc1, ?Hc2..|].
  set (v3 := vfs_release (data_path paths) (data_file d) (vfs_release (wal_path paths) (log_file d) v2)).
  assert (Hv3 : dir_healthy v3) by (by apply release_healthy, release_healthy).
  set (paths' := mkDatabasePaths (data_path paths) log_path).
  assert (Hne' : data_path paths' <> wal_path paths') by (cbn; destruct Hp as [-> |(? & _)]; congruence).
  destruct (open_files_run paths' v3 Hv3 Hne') as (data' & v4 & log' & v5 & Ho3 & Ho4 & [Hhd Hhl] & Hv5 & Hc3 & Hc4 & Hq5).
  cbn [data_file log_file data_path wal_path paths'] in Hhd, Hhl, Hc3, Hc4, Hq5.
  unfold v3 in Hc3. rewrite release_same in Hc3. cbn [default] in Hc3. unfold id in Hc3.
  assert (Hlog : contents log' = contents (log_file d) \/ contents log' = []).
  { rewrite Hc4. unfold v3. destruct Hp as [-> |(Hp1 & Hp2 & Hnone)]; [left|right].
    - rewrite release_other by congruence. by rewrite release_same.
    - rewrite !release_other by done. rewrite Hq2 by done. rewrite Hco by done. by rewrite Hnone. }
  destruct (restart_run m T ks (mkDbFiles data log) data' log' report d Hm Hh) as (m' & ks' & Hopen & Hcat & Hvm & Hm');
    [cbn [data_file log_file]; by rewrite ?Hc1, ?Hc2..|done|done|done|done|done|].
  exists T, ks, (mkRecoveredDatabase (data_file d) report), (vfs_release (wal_path paths) (log_file d) v2), m', v5, ks'.
  split; [exact Hm|]. split; [by apply (open_database_at paths _ data v1 log v2 report d)|].
  split; [by apply (open_store_at paths' v3 data' v4 log' v5)|]. do 3 (split; [assumption|]). split.
  - by apply (reaches_restart s (mkDbFiles data log) report d data' log' m' Hs Hh); cbn [data_file log_file]; rewrite ?Hc1, ?Hc2.
  - intros q Hd Hw Hl. rewrite Hq5 by done. unfold v3. rewrite !release_other by done. rewrite Hq2 by done. by apply Hco.
Qed.

#[local] Existing Instance sample_debug.

(** The database of a session, in a directory that holds another file. *)
Definition db_paths : DatabasePaths := mkDatabasePaths "test.db" "test.wal".
Definition some_dir : SimDir := mkSimDir {["notes.txt" := [x41]]} [Some [Interrupt]; Some []; Some [Transfer 7]].

Lemma database_reopens_witness :
  exists T ks rdb v1 m' v2 ks', sql_store (session_store three_rows) T ks
    /\ open_database db_paths (close_store db_paths (session_store three_rows) some_dir) = (Ok rdb, v1)
    /\ open_transactional_store_at db_paths (vfs_release (data_path db_paths) (rdb_page_file rdb) v1) = (Ok m', v2)
    /\ sql_store m' T ks' /\ reaches (session_new m') /\ file_at v2 "notes.txt" = Some [x41].
Proof.
  destruct (database_reopens three_rows db_paths (wal_path db_paths) some_dir)
    as (T & ks & rdb & v1 & m' & v2 & ks' & Hs & Hrec & Hopen & _ & _ & Hs' & Hr & Hq).
  - exact three_rows_reached.
  - repeat constructor; eexists; (split; [reflexivity|]); repeat constructor; discriminate.
  - discriminate.
  - left. reflexivity.
  - apply N.leb_le. vm_compute. reflexivity.
  - apply N.leb_le. vm_compute. reflexivity.
  - exists T, ks, rdb, v1, m', v2, ks'. split; [exact Hs|]. split; [exact Hrec|]. split; [exact Hopen|]. split; [exact Hs'|].
    split; [exact Hr|]. rewrite (Hq "notes.txt"); [reflexivity|discriminate|discriminate|discriminate].
Defined.

(** The two files of a store after a restart: recovery, then opening. *)
Definition reopened (m : TransactionalStore SimFile) : DbResult (SqlSession SimFile) :=
  let '(r, d) := recover_page_file (reboot_store m) in
  let? _ := r in
  let? m' := open_transactional_store (data_file d) (log_file d) in
  Ok (session_new m').

(** A second session: two new tables, and a transaction that is rolled back. *)
Definition second_session (s : SqlSession SimFile) : DbResult unit * TransactionalStore SimFile :=
  match begin (session_store (after "create table b (id int)" (after "create table a (id int)" s))) with
  | (Ok t, _) => rollback t
  | (Err e, m) => (Err e, m)
  | (Panic, m) => (Panic, m)
  end.

Definition users_of (s : SqlSession SimFile) : DbResult (list (list Value)) :=
  match fst (session_execute "select * from users" [] s) with
  | Ok (Query _ rows) => Ok rows
  | Ok _ => Ok []
  | Err e => Err e
  | Panic => Panic
  end.

(** A run in which a rollback in a second session loses a row, as
    [rollback_erases_transaction_id] says.  A session creates a table
    (transaction 1) and inserts two rows (transactions 2 and 3).  The store is
    opened again; the new session commits its transactions 1 and 2, which do not
    touch the table, and rolls back an empty transaction 3.  Nothing has failed
    and both rows are there, but the log now has an abort record of id 3: the
    next recovery skips the image of the second insertion and writes the older
    image of the first over the page. *)
Theorem rollback_after_reopening_loses_a_row :
  let first := session_store two_rows in
  let second := let? s := reopened first in Ok (second_session s) in
  users_of two_rows = Ok [[Integer 1; Text "Ada"]; [Integer 2; Text "Bob"]]
  /\ (let? p := second in p.1) = Ok tt
  /\ (let? p := second in users_of (session_new p.2)) = Ok [[Integer 1; Text "Ada"]; [Integer 2; Text "Bob"]]
  /\ (let? p := second in let? s := reopened p.2 in users_of s) = Ok [[Integer 1; Text "Ada"]].
Proof. vm_compute. repeat split. Qed.
