(* ===== verification/EntryPoints.v ===== *)
(** * EntryPoints: crates [rdbms_android] and [rdbms_cli]

    The two crates above the engine export constants, a sum and a message.  The
    banner of the Android crate holds type names of the compiler and is left
    out; the JNI handles are never dereferenced. *)

From S2P Require Import Prelude Core.

Definition I32_MIN : Z := -2147483648.
Definition I32_MAX : Z := 2147483647.

Definition ANDROID_PORT_STAGE : Z := 10.
Definition ANDROID_SMOKE_ABI_VERSION : Z := 1.

Definition android_port_stage : Z := ANDROID_PORT_STAGE.
Definition android_smoke_abi_version : Z := ANDROID_SMOKE_ABI_VERSION.

(** [i32::saturating_add]. *)
Definition saturating_add (l r : Z) : Z := Z.max I32_MIN (Z.min I32_MAX (l + r)).

Definition Java_dev_rdbms_NativeSmoke_stage : Z := android_port_stage.
Definition Java_dev_rdbms_NativeSmoke_abiVersion : Z := android_smoke_abi_version.
Definition Java_dev_rdbms_NativeSmoke_add (l r : Z) : Z := saturating_add l r.

(** What [main] prints. *)
Definition cli_main : string :=
  "RDBMS reboot: storage/page/WAL/catalog milestones come before SQL shell".

(** The sum is a 32-bit integer, exact when it fits and otherwise the bound on
    the side of the overflow. *)
Lemma native_add_saturates l r :
  (I32_MIN <= l <= I32_MAX)%Z -> (I32_MIN <= r <= I32_MAX)%Z ->
  let s := Java_dev_rdbms_NativeSmoke_add l r in
  (I32_MIN <= s <= I32_MAX)%Z /\ ((I32_MIN <= l + r <= I32_MAX)%Z -> s = (l + r)%Z)
  /\ ((I32_MAX < l + r)%Z -> s = I32_MAX) /\ ((l + r < I32_MIN)%Z -> s = I32_MIN).
Proof. unfold Java_dev_rdbms_NativeSmoke_add, saturating_add, I32_MIN, I32_MAX. lia. Qed.
