(* ===== verification/UnitTests.v ===== *)
(** * UnitTests: the unit tests of the storage crates, run on the model

    Each [#[test]] function is a definition that runs the operations of the model
    in the order of the test, in a simulated directory [temp_dir].  [Ok tt]
    is a test that passes; a failed assertion is a panic, and [?] and [expect] end
    a test with the error.  Handles are dropped where the test drops them. *)

From S2P Require Import Prelude Core Bytes Page Vfs VfsFacts Wal Recovery Catalog Heap CatalogStore Tx Index TxIndex Database.

(** ** Writing tests *)

Definition test : Type := DbResult unit.

Definition assert (b : bool) : test := if b then Ok tt else Panic.
Definition assert_eq `{EqDecision A} (left right : A) : test := assert (bool_decide (left = right)).
(** [r.err().ok_or(DbError::InternalInvariant(message))?]. *)
Definition expect_err {A} (r : DbResult A) (message : string) : DbResult DbError :=
  match r with Err e => Ok e | Ok _ => Err (InternalInvariant message) | Panic => Panic end.

(** An operation on a state, and the rest of the test on the new state. *)
Definition on {S S' A B} (op : S -> DbResult A * S') (s : S) (k : A -> S' -> DbResult B) : DbResult B :=
  let '(r, s') := op s in let? a := r in k a s'.
Declare Scope test_scope.
Notation "'run!' x , s ':=' op 'from' t 'in' k" := (on op t (fun x s => k))
  (at level 10, x name, s name, op at level 100, t at level 100, k at level 200, only parsing) : test_scope.
#[local] Open Scope test_scope.

(** A loop that carries a state. *)
Fixpoint each {A S} (f : A -> S -> DbResult S) (xs : list A) (s : S) : DbResult S :=
  match xs with [] => Ok s | x :: rest => let? s' := f x s in each f rest s' end.

(** [String::contains]. *)
Definition string_contains (needle s : string) : bool := bool_decide (is_Some (String.index 0 needle s)).

(** [std::fs::remove_file]. *)
Definition remove_file (p : Path) (v : SimDir) : SimDir := mkSimDir (delete p (dir_files v)) (dir_script v).

(** ** [rdbms_page] *)

Definition insert_and_read_records_by_slot_id : test :=
  let page := page_new 7 Page.Heap in
  run! first, page := insert_record (bytes_of_string "alpha") from page in
  run! second, page := insert_record (bytes_of_string "beta") from page in
  let? r1 := read_record page first in
  let? _ := assert_eq r1 (Some (bytes_of_string "alpha")) in
  let? r2 := read_record page second in
  let? _ := assert_eq r2 (Some (bytes_of_string "beta")) in
  let? n := live_record_count page in
  let? _ := assert_eq n 2 in
  validate page.

Definition delete_hides_record_without_moving_other_slots : test :=
  let page := page_new 8 Page.Heap in
  run! first, page := insert_record (bytes_of_string "alpha") from page in
  run! second, page := insert_record (bytes_of_string "beta") from page in
  run! third, page := insert_record (bytes_of_string "gamma") from page in
  run! deleted, page := delete_record second from page in
  let? _ := assert deleted in
  run! again, page := delete_record second from page in
  let? _ := assert (negb again) in
  let? r1 := read_record page first in
  let? _ := assert_eq r1 (Some (bytes_of_string "alpha")) in
  let? r2 := read_record page second in
  let? _ := assert_eq r2 None in
  let? r3 := read_record page third in
  let? _ := assert_eq r3 (Some (bytes_of_string "gamma")) in
  let? n := live_record_count page in
  let? _ := assert_eq n 2 in
  validate page.

(** [live] is the map from slots to payloads, in the order of the slots. *)
Definition compact_preserves_live_slot_ids_and_payloads : test :=
  let page := page_new 9 Page.Heap in
  let? (live, page) := each (fun index '(live, page) =>
      let payload := replicate (index mod 11 + 1) (byte_of (N.of_nat index)) in
      run! slot, page := insert_record payload from page in
      Ok (live ++ [(slot, payload)], page)) (seq 0 40) ([], page) in
  let? (live, page) := each (fun '(position, (slot, payload)) '(kept, page) =>
      if (position mod 3 =? 0)%nat then
        run! _, page := delete_record slot from page in Ok (kept, page)
      else Ok (kept ++ [(slot, payload)], page)) (zip (seq 0 (length live)) live) ([], page) in
  let? free_before := free_space page in
  run! _, page := compact from page in
  let? free_after := free_space page in
  let? _ := assert (free_before <=? free_after) in
  let? _ := each (fun '(slot, payload) (_ : unit) =>
      let? r := read_record page slot in assert_eq r (Some payload)) live tt in
  validate page.

Definition checksum_detects_corruption : test :=
  let page := page_new 10 Page.Heap in
  run! _, page := insert_record (bytes_of_string "stable bytes") from page in
  let? _ := validate page in
  let? last := or_panic (bytes page !! N.to_nat (PAGE_SIZE - 1)) in
  let corrupt := <[N.to_nat (PAGE_SIZE - 1) := byte_of (N.lxor (Byte.to_N last) 0x55)]> (bytes page) in
  let? e := expect_err (from_bytes corrupt) "corruption must be detected" in
  assert (is_corruption e).

Definition oversized_record_is_rejected : test :=
  let page := page_new 11 Page.Heap in
  let payload := replicate (N.to_nat PAGE_SIZE) x01 in
  let? e := expect_err (insert_record payload page).1 "oversized insert must fail" in
  assert (is_user e).

(** The block that opens the file itself, seeks and writes the bytes: the write
    goes to the offset. *)
Definition overwrite (path : Path) (offset : N) (bs : list byte) (v : SimDir) : DbResult unit * SimDir :=
  match vfs_open_database path v with
  | (Ok file, v) => let '(r, file) := file_write_all_at offset bs (file : SimFile) in (r, vfs_release path file v)
  | (Err e, v) => (Err e, v)
  | (Panic, v) => (Panic, v)
  end.

(** [VecRedo], the receiver that keeps the ids. *)
Record VecRedo : Type := mkVecRedo { vec_redone : list (Lsn * TxId * PageId) }.

#[export] Instance VecRedo_redo : PageImageRedo VecRedo := {
  redo_page_image l tx_id page_id _ := modify (fun r => mkVecRedo (vec_redone r ++ [(l, tx_id, page_id)]))
}.

Definition temp_database_paths (test_name : string) : DatabasePaths :=
  mkDatabasePaths (test_name +:+ ".dbonrs") (test_name +:+ ".wal").

#[export] Instance RecoveryReport_eq_dec : EqDecision RecoveryReport.
Proof. solve_decision. Defined.

(** ** [rdbms_vfs] *)

Section Storage.
Context (temp_dir : SimDir).

Definition std_vfs_writes_reads_and_reopens_page : test :=
  let path := "reopen.dbonrs" in
  run! page_file, v := open_page_file path from temp_dir in
  let page := page_new 0 Page.Heap in
  run! slot_id, page := insert_record (bytes_of_string "record survives reopen") from page in
  run! _, page_file := write_page page from (page_file : SimFile) in
  run! _, page_file := file_sync_data from page_file in
  let v := vfs_release path page_file v in
  run! page_file, v := open_page_file path from v in
  run! page, page_file := read_page 0 from (page_file : SimFile) in
  let? r := read_record page slot_id in
  assert_eq r (Some (bytes_of_string "record survives reopen")).

Definition corrupt_page_is_detected_after_reopen : test :=
  let path := "corrupt.dbonrs" in
  run! page_file, v := open_page_file path from temp_dir in
  let page := page_new 1 Page.Heap in
  run! _, page := insert_record (bytes_of_string "checksum protected payload") from page in
  run! _, page_file := write_page page from (page_file : SimFile) in
  run! _, page_file := file_sync_data from page_file in
  let v := vfs_release path page_file v in
  run! _, v := overwrite path (PAGE_SIZE + 128) [xa5] from v in
  run! page_file, v := open_page_file path from v in
  let? error := expect_err (read_page 1 (page_file : SimFile)).1 "corrupt page was accepted" in
  assert (is_corruption error).

Definition std_vfs_path_and_sync_smoke : test :=
  let path := "dir/rdbms path sync smoke данные.db" in
  run! page_file, v := open_page_file path from temp_dir in
  let page := page_new 0 Page.Heap in
  run! slot_id, page := insert_record (bytes_of_string "path and fsync smoke") from page in
  run! _, page_file := write_page page from (page_file : SimFile) in
  run! _, page_file := file_sync_data from page_file in
  let v := vfs_release path page_file v in
  run! page_file, v := open_page_file path from v in
  run! page, page_file := read_page 0 from (page_file : SimFile) in
  let? r := read_record page slot_id in
  assert_eq r (Some (bytes_of_string "path and fsync smoke")).

Definition std_vfs_windows_path_and_fsync_smoke : test :=
  let path := "dir/nested windows path smoke данные.db" in
  run! page_file, v := open_page_file path from temp_dir in
  let page := page_new 2 Page.Heap in
  run! slot_id, page := insert_record (bytes_of_string "windows sync smoke") from page in
  run! _, page_file := write_page page from (page_file : SimFile) in
  run! _, page_file := file_sync_data from page_file in
  let v := vfs_release path page_file v in
  run! reopened, v := open_page_file path from v in
  run! page, reopened := read_page 2 from (reopened : SimFile) in
  let? r := read_record page slot_id in
  assert_eq r (Some (bytes_of_string "windows sync smoke")).

(** ** [rdbms_wal] *)

Definition wal_record_round_trips_through_binary_envelope : test :=
  let page := page_new 7 Page.Heap in
  run! _, page := insert_record (bytes_of_string "wal image") from page in
  let? k := page_image 11 page in
  let record := mkWalRecord 128 k in
  let? bs := encode_record record in
  let? decoded := decode_record bs in
  assert_eq decoded record.

Definition lsn_allocator_uses_encoded_record_offsets : test :=
  let allocator : N := 0 in
  run! first, allocator := allocate WAL_HEADER_SIZE from allocator in
  run! second, allocator := allocate (WAL_HEADER_SIZE + PAGE_SIZE) from allocator in
  let? _ := assert_eq first 0 in
  let? _ := assert_eq second WAL_HEADER_SIZE in
  assert_eq allocator (WAL_HEADER_SIZE + WAL_HEADER_SIZE + PAGE_SIZE).

Definition writer_appends_and_reader_scans_commit_marker : test :=
  let path := "append_scan.wal" in
  run! file, v := vfs_open_database path from temp_dir in
  let? writer := wal_writer_new (file : SimFile) in
  run! l1, writer := append (BeginTx 1) from writer in
  let? _ := assert_eq l1 0 in
  run! l2, writer := append (CommitTx 1) from writer in
  let? _ := assert_eq l2 WAL_HEADER_SIZE in
  run! _, writer := wal_sync_data from writer in
  let v := vfs_release path (wal_file writer) v in
  run! file, v := vfs_open_database path from v in
  run! records, file := read_all from (file : SimFile) in
  assert_eq records [mkWalRecord 0 (BeginTx 1); mkWalRecord WAL_HEADER_SIZE (CommitTx 1)].

Definition reader_detects_truncated_wal_suffix : test :=
  let path := "truncated.wal" in
  run! file, v := vfs_open_database path from temp_dir in
  let? writer := wal_writer_new (file : SimFile) in
  run! _, writer := append (BeginTx 2) from writer in
  run! _, writer := wal_sync_data from writer in
  let v := vfs_release path (wal_file writer) v in
  run! _, v := overwrite path (len (default [] (dir_files v !! path))) (replicate 8 x00) from v in
  run! file, v := vfs_open_database path from v in
  let? error := expect_err (read_all (file : SimFile)).1 "truncated wal was accepted" in
  assert (match error with Corruption message => string_contains "truncated wal" message | _ => false end).

Definition redo_hook_replays_only_committed_page_images : test :=
  let committed_page := page_new 10 Page.Heap in
  run! _, committed_page := insert_record (bytes_of_string "committed") from committed_page in
  let aborted_page := page_new 11 Page.Heap in
  run! _, aborted_page := insert_record (bytes_of_string "aborted") from aborted_page in
  let? image1 := page_image 1 committed_page in
  let? image2 := page_image 2 aborted_page in
  let records := [mkWalRecord 0 (BeginTx 1); mkWalRecord 40 image1; mkWalRecord 4176 (CommitTx 1);
                  mkWalRecord 4216 (BeginTx 2); mkWalRecord 4256 image2; mkWalRecord 8392 (AbortTx 2)] in
  run! _, sink := redo_committed_page_images records from (mkVecRedo []) in
  let? _ := assert_eq (length (vec_redone sink)) 1%nat in
  let? r := or_panic (vec_redone sink !! 0%nat) in
  assert_eq r (40, 1, 10).

(** ** [rdbms_recovery] *)

Definition open_scans_wal_redoes_committed_and_ignores_uncommitted : test :=
  let paths := temp_database_paths "redo_committed" in
  run! page_file, v := open_page_file (data_path paths) from temp_dir in
  let old_page := page_new 0 Page.Heap in
  run! _, old_page := insert_record (bytes_of_string "old") from old_page in
  run! _, page_file := write_page old_page from (page_file : SimFile) in
  run! _, page_file := file_sync_data from page_file in
  let v := vfs_release (data_path paths) page_file v in
  run! wal_file, v := vfs_open_database (wal_path paths) from v in
  let? writer := wal_writer_new (wal_file : SimFile) in
  let committed_page := page_new 0 Page.Heap in
  run! committed_slot, committed_page := insert_record (bytes_of_string "committed") from committed_page in
  let uncommitted_page := page_new 1 Page.Heap in
  run! _, uncommitted_page := insert_record (bytes_of_string "uncommitted") from uncommitted_page in
  run! _, writer := append (BeginTx 10) from writer in
  let? image := page_image 10 committed_page in
  run! _, writer := append image from writer in
  run! _, writer := append (CommitTx 10) from writer in
  run! _, writer := append (BeginTx 20) from writer in
  let? image := page_image 20 uncommitted_page in
  run! _, writer := append image from writer in
  run! _, writer := wal_sync_data from writer in
  let v := vfs_release (wal_path paths) (Wal.wal_file writer) v in
  run! recovered, v := open_database paths from v in
  let? _ := assert_eq (recovery_report recovered) (mkReport 5 1) in
  run! page, page_file := read_page 0 from (rdb_page_file recovered : SimFile) in
  let? r := read_record page committed_slot in
  assert_eq r (Some (bytes_of_string "committed")).

Definition recovery_is_idempotent_for_committed_page_images : test :=
  let paths := temp_database_paths "idempotent" in
  run! wal_file, v := vfs_open_database (wal_path paths) from temp_dir in
  let? writer := wal_writer_new (wal_file : SimFile) in
  let page := page_new 0 Page.Heap in
  run! committed_slot, page := insert_record (bytes_of_string "stable after repeated recovery") from page in
  run! _, writer := append (BeginTx 30) from writer in
  let? image := page_image 30 page in
  run! _, writer := append image from writer in
  run! _, writer := append (CommitTx 30) from writer in
  run! _, writer := wal_sync_data from writer in
  let v := vfs_release (wal_path paths) (Wal.wal_file writer) v in
  run! recovered, v := open_database paths from v in
  let? _ := assert_eq (redone_page_images (recovery_report recovered)) 1 in
  let v := vfs_release (data_path paths) (rdb_page_file recovered : SimFile) v in
  run! recovered, v := open_database paths from v in
  let? _ := assert_eq (redone_page_images (recovery_report recovered)) 1 in
  run! page, page_file := read_page 0 from (rdb_page_file recovered : SimFile) in
  let? r := read_record page committed_slot in
  assert_eq r (Some (bytes_of_string "stable after repeated recovery")).

Definition recovery_propagates_wal_corruption : test :=
  let paths := temp_database_paths "wal_corruption" in
  run! wal_file, v := vfs_open_database (wal_path paths) from temp_dir in
  run! _, wal_file := file_write_all_at 0 (bytes_of_string "not a wal record") from (wal_file : SimFile) in
  run! _, wal_file := file_sync_data from wal_file in
  let v := vfs_release (wal_path paths) wal_file v in
  let? error := expect_err (open_database paths v).1 "corrupt wal was accepted" in
  assert (is_corruption error).

Definition storage_tests : list test := [
  insert_and_read_records_by_slot_id; delete_hides_record_without_moving_other_slots;
  compact_preserves_live_slot_ids_and_payloads; checksum_detects_corruption; oversized_record_is_rejected;
  std_vfs_writes_reads_and_reopens_page; corrupt_page_is_detected_after_reopen; std_vfs_path_and_sync_smoke;
  std_vfs_windows_path_and_fsync_smoke;
  wal_record_round_trips_through_binary_envelope; lsn_allocator_uses_encoded_record_offsets;
  writer_appends_and_reader_scans_commit_marker; reader_detects_truncated_wal_suffix;
  redo_hook_replays_only_committed_page_images;
  open_scans_wal_redoes_committed_and_ignores_uncommitted; recovery_is_idempotent_for_committed_page_images;
  recovery_propagates_wal_corruption
].
End Storage.
