(* ===== verification/UnitTestsEngine.v ===== *)
(** * UnitTestsEngine: the unit tests of the engine crates, run on the model

    The tests of the crates [rdbms_catalog], [rdbms_index], [rdbms_tx],
    [rdbms_extension], [rdbms_sql] and [rdbms_android], as in UnitTests. *)

From S2P Require Import Prelude Core Bytes Page Vfs VfsFacts Wal Recovery Catalog Heap CatalogStore Tx TxAuto Index TxIndex Double Extension SqlRow Sql SqlGrammar SqlTheorems SqlExec Database EntryPoints UnitTests.

#[local] Open Scope test_scope.
#[local] Existing Instance sample_debug.

(** ** [rdbms_catalog] *)

Definition column (name type_name : string) : ColumnDef := mkColumnDef name type_name.
Definition payload_column : list ColumnDef := [column "payload" "bytes"].

(** Dropping a catalog store closes its page file. *)
Definition close_catalog (path : Path) (store : CatalogStore SimFile) (v : SimDir) : SimDir :=
  vfs_release path (CatalogStore.page_file store) v.

(** The page store of the tests. *)
Record MemoryStore : Type := mkMemoryStore { ms_pages : gmap N Page; ms_next_page_id : N }.

Definition memory_store_new : MemoryStore := mkMemoryStore ∅ 2.

Definition memory_load_page (id : PageId) : db MemoryStore Page := fun s =>
  (ok_or (ms_pages s !! id) (InternalInvariant "missing memory page"), s).
Definition memory_store_page (page : Page) : db MemoryStore unit :=
  let! h := lift (header page) in
  modify (fun s => mkMemoryStore (<[h_page_id h := page]> (ms_pages s)) (ms_next_page_id s)).
Definition memory_allocate_page : db MemoryStore PageId := fun s =>
  (Ok (ms_next_page_id s), mkMemoryStore (ms_pages s) (ms_next_page_id s + 1)).

#[export] Instance memory_pages : BPlusTreePageStore MemoryStore := {
  bt_load_page := memory_load_page;
  bt_store_page := memory_store_page;
  bt_allocate_page := memory_allocate_page
}.

(** Enough for every descent: a tree has fewer pages than the ids given out. *)
Definition memory_fuel (s : MemoryStore) : nat := N.to_nat (ms_next_page_id s).

#[export] Instance ColumnInfo_eq_dec : EqDecision ColumnInfo.
Proof. solve_decision. Defined.
#[export] Instance ExecResult_eq_dec : EqDecision ExecResult.
Proof. solve_decision. Defined.
#[export] Instance Selection_eq_dec : EqDecision Selection.
Proof. solve_decision. Defined.
#[export] Instance Projection_eq_dec : EqDecision Projection.
Proof. solve_decision. Defined.
#[export] Instance Statement_eq_dec : EqDecision Statement.
Proof. solve_decision. Defined.

Section Engine.
Context (temp_dir : SimDir).

Definition bootstraps_catalog_and_reopens_schema : test :=
  let path := "reopen_schema.dbonrs" in
  run! store, v := open_catalog_store path from temp_dir in
  run! relation_id, store := CatalogStore.create_table "users" [column "id" "int"; column "name" "text"] from store in
  run! _, store := CatalogStore.sync_data from store in
  let v := close_catalog path store v in
  run! store, v := open_catalog_store path from v in
  let? relation := ok_or (relation_by_name "users" (CatalogStore.catalog (store : CatalogStore SimFile)))
                     (InternalInvariant "users relation was not reopened") in
  let? _ := assert_eq (rel_id relation) relation_id in
  let? _ := assert_eq (rel_kind relation) Table in
  let? _ := assert_eq (rel_heap_pages relation) [1] in
  let? c0 := or_panic (columns relation !! 0%nat) in
  let? _ := assert_eq c0 (column "id" "int") in
  let? c1 := or_panic (columns relation !! 1%nat) in
  assert_eq c1 (column "name" "text").

Definition inserts_row_bytes_and_full_scans_heap_table : test :=
  let path := "heap_scan.dbonrs" in
  run! store, v := open_catalog_store path from temp_dir in
  run! relation_id, store := CatalogStore.create_table "events" payload_column from (store : CatalogStore SimFile) in
  run! first, store := CatalogStore.insert_row relation_id (bytes_of_string "first row") from store in
  run! second, store := CatalogStore.insert_row relation_id (bytes_of_string "second row") from store in
  run! rows, store := CatalogStore.full_scan relation_id from store in
  let? _ := assert_eq (length rows) 2%nat in
  let? r0 := or_panic (rows !! 0%nat) in
  let? _ := assert_eq (row_id r0) first in
  let? _ := assert_eq (row_bytes r0) (bytes_of_string "first row") in
  let? r1 := or_panic (rows !! 1%nat) in
  let? _ := assert_eq (row_id r1) second in
  assert_eq (row_bytes r1) (bytes_of_string "second row").

Definition heap_insert_allocates_additional_pages : test :=
  let path := "heap_extend.dbonrs" in
  run! store, v := open_catalog_store path from temp_dir in
  run! relation_id, store := CatalogStore.create_table "large_rows" payload_column from (store : CatalogStore SimFile) in
  let payload := replicate 900 x7b in
  let? store := each (fun (_ : nat) store =>
      run! _, store := CatalogStore.insert_row relation_id payload from store in Ok store) (seq 0 8) store in
  run! rows, store := CatalogStore.full_scan relation_id from store in
  let? relation := ok_or (relation_by_id relation_id (CatalogStore.catalog store))
                     (InternalInvariant "relation disappeared") in
  let? _ := assert_eq (length rows) 8%nat in
  assert (1 <? len (rel_heap_pages relation)).

Definition creates_index_metadata : test :=
  let path := "index_metadata.dbonrs" in
  run! store, v := open_catalog_store path from temp_dir in
  run! table_id, store := CatalogStore.create_table "users" [column "id" "INT"] from (store : CatalogStore SimFile) in
  run! created, store := CatalogStore.on_catalog (create_index_metadata "users_id_idx" table_id "id") from store in
  let '(index_id, root) := created in
  let? _ := assert (0 <? root) in
  let? index := ok_or (relation_by_id index_id (CatalogStore.catalog store))
                  (InternalInvariant "index metadata disappeared") in
  let? storage := ok_or (index_storage index) (InternalInvariant "missing index storage") in
  let? _ := assert_eq (Catalog.table_id storage) table_id in
  let? _ := assert_eq (column_name storage) "id" in
  assert_eq (root_page_id storage) root.

Definition persists_extension_metadata : test :=
  let path := "extension_metadata.dbonrs" in
  run! store, v := open_catalog_store path from temp_dir in
  run! fresh, store := CatalogStore.on_catalog (register_extension_metadata "stdlib" 1 "static") from (store : CatalogStore SimFile) in
  let? _ := assert fresh in
  run! _, store := save_catalog from store in
  run! _, store := CatalogStore.sync_data from store in
  let v := close_catalog path store v in
  run! store, v := open_catalog_store path from v in
  let? extension := ok_or (extension_by_name "stdlib" (CatalogStore.catalog (store : CatalogStore SimFile)))
                      (InternalInvariant "extension metadata was not reopened") in
  let? _ := assert_eq (abi_version extension) 1 in
  assert_eq (ext_kind extension) "static".

Definition rejects_duplicate_relation_names : test :=
  let path := "duplicate_relation.dbonrs" in
  run! store, v := open_catalog_store path from temp_dir in
  run! _, store := CatalogStore.create_table "items" payload_column from (store : CatalogStore SimFile) in
  let? error := expect_err (CatalogStore.create_table "items" payload_column store).1 "duplicate relation was accepted" in
  assert (is_user error).

(** ** [rdbms_index] *)

Definition inserts_splits_and_finds_integer_keys : test :=
  let root := 1 in
  run! _, store := initialize_root root from memory_store_new in
  let? (root, store) := each (fun value '(root, store) =>
      run! root, store := Index.insert (memory_fuel store) root (KInteger (Z.of_nat (value mod 6)))
                            (mkRowId (100 + N.of_nat value) (N.of_nat value)) from store in
      Ok (root, store)) (seq 0 24) (root, store) in
  run! matches, store := lookup (memory_fuel store) root (KInteger 3) from store in
  let? _ := assert_eq (length matches) 4%nat in
  assert (forallb (fun r => slot_id r mod 6 =? 3) matches).

Definition supports_text_keys : test :=
  let root := 1 in
  run! _, store := initialize_root root from memory_store_new in
  let names := ["ada"; "linus"; "ada"; "grace"; "ada"] in
  let? (root, store) := each (fun '(index, name) '(root, store) =>
      run! root, store := Index.insert (memory_fuel store) root (KText name) (mkRowId 10 (N.of_nat index)) from store in
      Ok (root, store)) (zip (seq 0 (length names)) names) (root, store) in
  run! matches, store := lookup (memory_fuel store) root (KText "ada") from store in
  assert_eq (length matches) 3%nat.

(** ** [rdbms_tx] *)

Definition autocommit_create_insert_and_full_scan : test :=
  let paths := temp_database_paths "autocommit_scan" in
  run! store, v := open_transactional_store_at paths from temp_dir in
  run! relation_id, store := create_table_autocommit "events" payload_column from (store : TransactionalStore SimFile) in
  run! row, store := insert_row_autocommit relation_id (bytes_of_string "first event") from store in
  run! rows, store := committed_scan relation_id from store in
  let? _ := assert_eq (length rows) 1%nat in
  let? r0 := or_panic (rows !! 0%nat) in
  let? _ := assert_eq (row_id r0) row in
  assert_eq (row_bytes r0) (bytes_of_string "first event").

Definition autocommit_registers_extension_metadata : test :=
  let paths := temp_database_paths "register_extension" in
  run! store, v := open_transactional_store_at paths from temp_dir in
  run! first, store := register_extension_autocommit "stdlib" 1 "static" from (store : TransactionalStore SimFile) in
  let? _ := assert first in
  run! second, store := register_extension_autocommit "stdlib" 1 "static" from store in
  let? _ := assert (negb second) in
  let? extension := ok_or (extension_by_name "stdlib" (CatalogStore.catalog (Tx.store store)))
                      (InternalInvariant "extension metadata missing") in
  let? _ := assert_eq (abi_version extension) 1 in
  assert_eq (ext_kind extension) "static".

Definition rollback_drops_uncommitted_insert : test :=
  let paths := temp_database_paths "rollback_insert" in
  run! store, v := open_transactional_store_at paths from temp_dir in
  run! relation_id, store := create_table_autocommit "items" payload_column from (store : TransactionalStore SimFile) in
  run! transaction, store := begin from store in
  run! _, transaction := Tx.insert_row relation_id (bytes_of_string "uncommitted") from transaction in
  run! rows, transaction := Tx.full_scan relation_id from transaction in
  let? _ := assert_eq (length rows) 1%nat in
  run! _, store := rollback from transaction in
  run! rows, store := committed_scan relation_id from store in
  assert_eq (length rows) 0%nat.

Definition rollback_drops_uncommitted_table_create : test :=
  let paths := temp_database_paths "rollback_create" in
  run! store, v := open_transactional_store_at paths from temp_dir in
  run! transaction, store := begin from (store : TransactionalStore SimFile) in
  run! relation_id, transaction := Tx.create_table "scratch" payload_column from transaction in
  let? _ := assert (bool_decide (is_Some (relation_by_id relation_id (working_catalog transaction)))) in
  run! _, store := rollback from transaction in
  assert (bool_decide (relation_by_name "scratch" (CatalogStore.catalog (Tx.store store)) = None)).

Definition committed_pages_can_be_recovered_from_wal : test :=
  let paths := temp_database_paths "recovery_from_wal" in
  run! store, v := open_transactional_store_at paths from temp_dir in
  run! transaction, store := begin from (store : TransactionalStore SimFile) in
  run! relation_id, transaction := Tx.create_table "audit" payload_column from transaction in
  run! _, transaction := Tx.insert_row relation_id (bytes_of_string "committed through wal") from transaction in
  run! _, store := commit from transaction in
  let v := remove_file (data_path paths) (close_store paths store v) in
  run! recovered, v := open_database paths from v in
  run! store, page_file := open from (rdb_page_file recovered : SimFile) in
  run! rows, store := CatalogStore.full_scan relation_id from store in
  let? _ := assert_eq (length rows) 1%nat in
  let? r0 := or_panic (rows !! 0%nat) in
  assert_eq (row_bytes r0) (bytes_of_string "committed through wal").

(** ** [rdbms_extension] *)

Definition loads_stdlib_and_calls_scalar_functions : test :=
  run! descriptor, registry := load_static "stdlib" from registry_new in
  let? _ := assert_eq (desc_abi_version descriptor) RDBMS_EXT_ABI_VERSION in
  let? _ := assert (is_loaded "STDLIB" registry) in
  let? v := call_scalar "upper" [Text "ada"] registry in
  let? _ := assert_eq v (Text "ADA") in
  let? v := call_scalar "length" [Text "abc"] registry in
  assert_eq v (Integer 3).

Definition rejects_unknown_function : test :=
  let? error := expect_err (call_scalar "missing" [] registry_new) "missing function was accepted" in
  assert (is_user error).

(** ** [rdbms_sql] *)

Definition parses_create_insert_and_select : test :=
  let? create := parse_statement "CREATE TABLE users (id INT, name TEXT);" in
  let? _ := assert_eq create (CreateTable "users" [column "id" "INT"; column "name" "TEXT"]) in
  let? insert := parse_statement "insert into users values (1, 'Ada');" in
  let? _ := assert_eq insert (Insert "users" [Integer 1; Text "Ada"]) in
  let? select := parse_statement "select name from users where id = 1" in
  let? _ := assert_eq select (Select (Columns ["name"]) "users" (Some (mkSelection "id" (Integer 1)))) in
  let? create_index := parse_statement "CREATE INDEX users_id_idx ON users(id)" in
  let? _ := assert_eq create_index (CreateIndex "users_id_idx" "users" "id") in
  let? load := parse_statement "LOAD EXTENSION stdlib" in
  let? _ := assert_eq load (LoadExtension "stdlib") in
  let? function := parse_statement "SELECT upper('ada')" in
  assert_eq function (SelectFunction "upper" [Text "ada"]).

(** [Value::Double(1.5)] and [Value::Double(7.0)], as bits. *)
Definition encodes_and_decodes_sql_rows : test :=
  let values := [Integer 42; Text "hello"; Null; Double 0x3FF8000000000000] in
  let? bs := encode_row values in
  let? decoded := decode_row bs in
  assert_eq decoded values.

Definition executes_create_insert_select_and_where : test :=
  let paths := temp_database_paths "select_where" in
  run! store, v := open_transactional_store_at paths from temp_dir in
  run! _, store := execute "CREATE TABLE users (id INT, name TEXT, score DOUBLE)" [] from (store : TransactionalStore SimFile) in
  run! _, store := execute "INSERT INTO users VALUES (1, 'Ada', 9.5)" [] from store in
  run! _, store := execute "INSERT INTO users VALUES (2, 'Linus', 7)" [] from store in
  run! _, store := execute "CREATE INDEX users_id_idx ON users(id)" [] from store in
  run! _, store := execute "INSERT INTO users VALUES (3, 'Grace', 8.25)" [] from store in
  run! result, store := execute "SELECT name, score FROM users WHERE id = 2" [] from store in
  let? _ := assert_eq result (Query [mkColumnInfo "name" "TEXT"; mkColumnInfo "score" "DOUBLE"]
                                    [[Text "Linus"; Double 0x401C000000000000]]) in
  run! result, store := execute "SELECT name FROM users WHERE id = 3" [] from store in
  assert_eq result (Query [mkColumnInfo "name" "TEXT"] [[Text "Grace"]]).

Definition executes_static_extension_scalar_function : test :=
  let paths := temp_database_paths "extension_scalar" in
  run! store, v := open_transactional_store_at paths from temp_dir in
  run! _, store := execute "LOAD EXTENSION stdlib" [] from (store : TransactionalStore SimFile) in
  run! result, store := execute "SELECT upper('ada')" [] from store in
  assert_eq result (Query [mkColumnInfo "upper" "TEXT"] [[Text "ADA"]]).

Definition rejects_insert_with_wrong_value_count : test :=
  let paths := temp_database_paths "wrong_count" in
  run! store, v := open_transactional_store_at paths from temp_dir in
  run! _, store := execute "CREATE TABLE users (id INT, name TEXT)" [] from (store : TransactionalStore SimFile) in
  let? error := expect_err (execute "INSERT INTO users VALUES (1)" [] store).1 "expected INSERT error" in
  assert (is_user error).

(** ** [rdbms_android]

    Without the last assertion, which is about the banner. *)

Definition rust_smoke_reports_stage_and_abi : test :=
  let? _ := assert_eq android_port_stage 10%Z in
  assert_eq android_smoke_abi_version 1%Z.

Definition jni_symbols_are_callable_as_host_smoke : test :=
  let? _ := assert_eq Java_dev_rdbms_NativeSmoke_stage 10%Z in
  let? _ := assert_eq Java_dev_rdbms_NativeSmoke_abiVersion 1%Z in
  assert_eq (Java_dev_rdbms_NativeSmoke_add 20 22) 42%Z.

Definition engine_tests : list test := [
  bootstraps_catalog_and_reopens_schema; inserts_row_bytes_and_full_scans_heap_table;
  heap_insert_allocates_additional_pages; creates_index_metadata; persists_extension_metadata;
  rejects_duplicate_relation_names;
  inserts_splits_and_finds_integer_keys; supports_text_keys;
  autocommit_create_insert_and_full_scan; autocommit_registers_extension_metadata; rollback_drops_uncommitted_insert;
  rollback_drops_uncommitted_table_create; committed_pages_can_be_recovered_from_wal;
  loads_stdlib_and_calls_scalar_functions; rejects_unknown_function;
  parses_create_insert_and_select; encodes_and_decodes_sql_rows; executes_create_insert_select_and_where;
  executes_static_extension_scalar_function; rejects_insert_with_wrong_value_count;
  rust_smoke_reports_stage_and_abi; jni_symbols_are_callable_as_host_smoke
].
End Engine.

(** ** All of them *)

Definition unit_tests (temp_dir : SimDir) : list test := storage_tests temp_dir ++ engine_tests temp_dir.

(** An empty directory, and one whose files are interrupted and transfer a part
    of what is asked for only. *)
Definition quiet_dir : SimDir := mkSimDir ∅ [].
Definition busy_dir : SimDir := mkSimDir ∅ (replicate 8 (Some
  [Interrupt; Transfer 1000; Interrupt; Interrupt; Transfer 1; Transfer 4095; Transfer 33; Interrupt; Transfer 4096; Transfer 7])).

(** The unit tests pass.  Each of the 39 tests of the crates, run on the model,
    ends without an error and without a failed assertion: in an empty directory, and
    in one whose files are interrupted and make partial transfers. *)
Theorem unit_tests_pass :
  Forall (fun t => t = Ok tt) (unit_tests quiet_dir) /\ Forall (fun t => t = Ok tt) (unit_tests busy_dir)
  /\ length (unit_tests quiet_dir) = 39%nat.
Proof. split; [vm_compute; repeat constructor|]. split; [vm_compute; repeat constructor|reflexivity]. Qed.
