(* ===== verification/Legacy.v ===== *)
(** * Legacy: the archived prototype under [docs/legacy]

    The prototype holds a database in memory and dispatches a query on its first
    word.  [create_db_file], which writes the database as JSON through [serde],
    is left out, and nothing calls it. *)

From Stdlib Require Import Ascii.
From S2P Require Import Prelude Core.

Inductive DataType : Type := DText | DInteger | DDouble.

(** Doubles are bit patterns. *)
Inductive LegacyValue : Type :=
| LText (s : string)
| LInteger (z : Z)
| LDouble (bits : N).

Record LegacyColumn : Type := mkLegacyColumn { lcol_name : string; lcol_type : DataType }.
Record LegacyRow : Type := mkLegacyRow { lrow_values : list LegacyValue }.
Record LegacyTable : Type := mkLegacyTable {
  ltab_name : string;
  ltab_columns : list LegacyColumn;
  ltab_rows : list LegacyRow
}.
Record Database : Type := mkDatabase { tables : list LegacyTable }.

Inductive SqlResult : Type :=
| RDb (db : Database)
| RRows (rows : list LegacyRow)
| RColumns (cols : list LegacyColumn)
| RTable (t : LegacyTable)
| RError (message : string).

Inductive QueryType : Type := SELECT | SHOW | CREATE | USE | DROP | DELETE | INSERT | ERROR.

Definition database_new : Database := mkDatabase [].
Definition table_new (name : string) (fields : list LegacyColumn) : LegacyTable := mkLegacyTable name fields [].
Definition new_table (name : string) (fields : list LegacyColumn) (db : Database) : Database :=
  mkDatabase (tables db ++ [table_new name fields]).

(** ** The standard library's [starts_with] and [split_terminator] on a space *)

Fixpoint starts_with (p s : string) : bool :=
  match p, s with
  | EmptyString, _ => true
  | String a p', String b s' => bool_decide (a = b) && starts_with p' s'
  | String _ _, EmptyString => false
  end.

(** The pieces between the spaces, the first one apart. *)
Fixpoint split_space (s : string) : string * list string :=
  match s with
  | EmptyString => (EmptyString, [])
  | String c s' =>
      let '(piece, rest) := split_space s' in
      if bool_decide (c = " "%char) then (EmptyString, piece :: rest) else (String c piece, rest)
  end.

(** An empty last piece is dropped. *)
Definition split_terminator (s : string) : list string :=
  let '(piece, rest) := split_space s in
  if bool_decide (last (piece :: rest) = Some EmptyString)
  then take (length rest) (piece :: rest) else piece :: rest.

(** ** Dispatching a query *)

Definition get_query_type (query : string) : QueryType :=
  if starts_with "SELECT" query then SELECT
  else if starts_with "SHOW" query then SHOW
  else if starts_with "USE" query then USE
  else if starts_with "DROP" query then DROP
  else if starts_with "DELETE" query then DELETE
  else if starts_with "INSERT" query then INSERT
  else ERROR.

Definition create_database (name : string) : SqlResult := RDb database_new.

Definition create_table (name : string) (current_db : Database) : SqlResult :=
  RDb (new_table name [] current_db).

Definition create_distribute (arg name : string) (db : option Database) : SqlResult :=
  if bool_decide (arg = "DBRAM") then create_database name
  else if bool_decide (arg = "TABLE") then
    match db with
    | Some d =>
        let check := false in
        if check then create_table name d else RError "создание таблицы вне выбранной БД"
    | None => RError "создание таблицы без БД"
    end
  else if bool_decide (arg = "DB") then
    if true then create_database name else RError "Не удалось создать БД"
  else RError "некорректный аргумент запроса".

(** [todo!()] panics. *)
Definition sql_distribute (query : string) : st Database string SqlResult :=
  match get_query_type query with
  | CREATE =>
      match split_terminator query with
      | [_; what] => ret (create_distribute what "defDBname" None)
      | [_; what; name] => ret (create_distribute what name None)
      | _ => ret (RError "Некорректный CREATE запрос")
      end
  | DELETE =>
      if negb (length (split_terminator query) =? 2)%nat
      then ret (RError "Некорректный DELETE запрос") else lift Panic
  | DROP | INSERT | SELECT | SHOW | USE => lift Panic
  | ERROR => ret (RError "Ошибка распознования запроса")
  end.

Definition sql_execute (query : string) : st Database string unit :=
  let! _ := sql_distribute query in ret tt.

(** ** What the dispatch does *)

Example split_terminator_space : split_terminator "CREATE DB x " = ["CREATE"; "DB"; "x"].
Proof. reflexivity. Qed.
Example split_terminator_empty : split_terminator "" = [].
Proof. reflexivity. Qed.

(** No query is taken for a [CREATE], so the branch of [sql_distribute] that
    creates databases is never taken. *)
Lemma create_is_never_recognised query : get_query_type query <> CREATE.
Proof. unfold get_query_type. by repeat case_match. Qed.

(** [sql_execute] never changes the database: a query is either reported as
    executed or panics in an operation that is not written yet. *)
Lemma sql_execute_run query db :
  sql_execute query db
  = (match get_query_type query with
     | ERROR => Ok tt
     | DELETE => if (length (split_terminator query) =? 2)%nat then Panic else Ok tt
     | _ => Panic
     end, db).
Proof.
  pose proof (create_is_never_recognised query) as Hc. unfold sql_execute, sql_distribute, bind_st.
  destruct (get_query_type query); try done. by destruct (length _ =? 2)%nat.
Qed.
